(* ===== verification/_CoqProject ===== *)
-Q . S2P
Prelude.v
Sha256.v
Packet.v
Hdlc.v
Kiss.v
Aes.v
Crypto.v
Ifac.v
HashList.v
HeaderRewrite.v
Float64.v
Common.v
RelayTables.v
PathTable.v
Identity.v
Known.v
AnnounceWire.v
Rate.v
Relay.v
AnnounceHandler.v
Channel.v
Buffer.v
Resource.v
ResourceRx.v
SplitResource.v
Link.v
LinkSession.v
LinkLife.v
LinkEngine.v
LinkStack.v
