(* ===== verification/Prelude.v ===== *)
(** * Reticulum-Go: verification library (root file)

    A shallow embedding of the protocol core of Reticulum-Go, a Go
    implementation of the Reticulum network stack.

    ** The program

    Interfaces deliver byte streams that a framing layer ([pkg/backbone],
    [pkg/interfaces]) cuts into frames; an interface access code ([pkg/ifac]) may
    mask them.  A frame is a packet ([pkg/packet]).  The transport
    ([pkg/transport]) drops duplicates, learns paths from announces
    ([pkg/announce], [pkg/identity]), limits their rate ([pkg/rate]), and relays
    packets, link requests, link data and proofs.  Two end points agree on a link
    ([pkg/link]); on top of it a channel ([pkg/channel]) is reliable and ordered,
    and a buffer ([pkg/buffer]) is a byte stream.  A link also carries requests
    with their responses, and resources ([pkg/resource]): larger contents, cut
    into parts that the receiver asks for, and into segments when they exceed
    one mebibyte.

    ** Files

    - [Prelude]: bytes, Go slices and their panics ([outcome], [go_slice],
      [go_index]), the receiver monad [goM], shared lemmas and tactics.
    - [Sha256], [Aes]: the two primitives, executable.
    - [Packet]: [packet.go], [decode.go].
    - [Hdlc]: [backbone/hdlc.go], [interfaces/hdlc_decoder.go].  [Kiss]:
      [interfaces/kiss_decoder.go], [interfaces/rnode_kiss.go].
    - [Crypto]: PKCS#7, CBC, tokens, HMAC, HKDF of [pkg/cryptography]; Ed25519 as
      a class with its laws.  [Ifac]: [ifac.go].
    - [HashList]: [transport/packet_hashlist.go].
    - [HeaderRewrite]: the header rewrites of [transport/relay.go] and
      [transport/lr_mtu.go].
    - [Float64]: Go's [float64] on the standard library's executable IEEE-754.
      [Common]: interfaces, clock and map order as the class [Runtime].
    - [RelayTables]: the link-relay and reverse tables of [relay.go] and
      [reverse.go].  [Relay]: the relaying handlers.
    - [PathTable]: the path table of [transport.go] and the [path_*.go] files.
    - [Identity], [Known]: keys, encryption, ratchets, known destinations
      ([pkg/identity]); X25519 as a class with its laws.
    - [AnnounceWire]: [announce.go].  [Rate]: [rate.go].  [AnnounceHandler]: the
      announce path of [transport.go], [announce_table.go], [announce_mode.go].
    - [Channel]: [channel.go].  [Buffer]: [buffer.go].
    - [Resource]: [pkg/resource], the sender's view of a resource and its
      advertisement.  [ResourceRx]: the receiving assembly of
      [link/incoming_resource.go] and the choice of parts of
      [link/link_resource.go].  [SplitResource]: [link/split_resource.go] and
      [common/membudget.go].
    - [Link]: the handshake, the cipher, the status machine and the dispatch of
      [pkg/link]; [LinkSession]: what the handshake achieves; [LinkLife]: what
      holds along every history of a link.
    - [LinkEngine]: requests and resource transfers of a link
      ([request_receipt.go], [link_resource.go], [incoming_resource.go]), over the
      class [Carrier] of what they use of a link, with its laws [CarrierLaws].
      [LinkStack]: the link of [Link] as that carrier, and the dispatch of packets
      to both.

    ** How Go is modelled

    Integers are [Z]; where a width matters (bytes, [uint16] sequence numbers,
    [uint32] emission times, [float64]) the wrap-around or rounding is written
    out.  A slice expression or index out of range is the outcome [Panic], next to
    [Ok] and [Err].  A method runs in [goM]: it returns the receiver next to the
    outcome, so that what a failing method already wrote is kept.  A method that
    holds its lock is one atomic step; the clock readings, random draws and the
    order in which [range] visits a map are arguments.  What a method sends or
    calls is recorded in the state.  A goroutine that a handler starts is a task
    in the state, and its steps are operations that a history may interleave with
    all others; files are a map from paths to contents whose operations may fail.

    Code outside the repository is a parameter with named laws: Ed25519
    ([SchemeLaws]), X25519 ([CurveLaws]), bzip2 ([Bzip2Laws],
    [Bzip2StreamLaws]), the map order ([RuntimeLaws]), msgpack ([MsgpackLaws],
    [CodecLaws], and the codec of a float).  Each law is documented
    behaviour, and the witnesses instantiate the parameters with concrete
    functions that satisfy them.

    ** Theorems

    - Wire formats: packing and unpacking are inverse and total ([Packet]),
      framing survives any splitting of the stream ([Hdlc], [Kiss]), masking
      round-trips ([Ifac]), tokens open only what was sealed ([Crypto]).
    - Relaying: a relayed packet is the same message, goes where the tables say,
      a reverse proof is used once ([HeaderRewrite], [Relay]); the hash list
      refines a pair of sets and filters duplicates ([HashList]).
    - Announces: what is accepted is authentic, what is accepted is learned, and
      rebroadcast follows the interface modes ([AnnounceWire], [AnnounceHandler]);
      paths are replaced and evicted as specified ([PathTable]); known keys are
      pinned ([Known]); held announces leave in order ([Rate]).
    - Channels deliver in order whatever the network does, within their window;
      buffers reproduce the stream ([Channel], [Buffer]).
    - Links: both ends of a completed handshake hold the same session and what one
      sends the other delivers ([LinkSession]); only authenticated packets
      activate a link or are delivered, session keys stand behind every status
      that uses them, and a closed link stays closed, and silent but for the sends
      that do not look at its status ([LinkLife]).
    - Resources: a prepared resource is its parts, its segments and its
      advertisement ([Resource]); a transfer over a network that loses, repeats,
      delays and reorders assembles the sender's bytes and can always be completed,
      provided its map hashes differ ([ResourceRx]); segments are put together once and in order, in memory as in
      files, within the limits ([SplitResource]).
    - Requests: as long as the link can be closed, no history makes an operation
      panic, repeats a callback, loses one that is still set or exceeds the limits,
      and closing concludes every request and what is being sent; a resource is
      handed over as it was given to the sender ([LinkEngine]); a request over an
      established link is answered ([LinkStack]).
    - Theorems about error behaviour describe what the code really does where
      that differs from what its comments say.

    ** Bounds and fuel

    Loops are structural recursion on lists, or recursion on fuel that is shown
    to be enough: [Channel.drainRX] needs one unit per stored envelope
    ([drain_terminates]), the probe loop of the hash list one per slot,
    [Buffer.writeAll] one per remaining byte, and a resource transfer two rounds of
    request and answer per part ([resource_transfer_completes]).

    ** Not modelled

    Sockets, serial and radio drivers, files other than those of split resources,
    resources read from an open file, goroutine scheduling inside a handler,
    logging, and statistics other than those of announces; local destinations and their request handlers (their
    answers are arguments), link proofs in transit, packet receipts, discovery,
    the protection engine (its verdicts are arguments), the configuration file,
    the applications (page server, git, remote shell) and the command line tools.
    The manifest lists every component with what is missing. *)

From Stdlib Require Export ZArith Lia.
From Stdlib Require Export Strings.Byte.
From stdpp Require Export base list list_numbers gmap strings countable.

#[global] Open Scope Z_scope.

(** ** Bytes *)

(** Go's [byte] is the 256-element type [byte]; [b2z] and [z2b] are the
    conversions [int(b)] and [byte(z)], the second one truncating. *)
Definition b2z (b : byte) : Z := Z.of_N (Byte.to_N b).

Definition z2b (z : Z) : byte :=
  match Byte.of_N (Z.to_N (z `mod` 256)) with Some b => b | None => x00 end.

Abbreviation bytes := (list byte).

#[global] Instance byte_eq_dec : EqDecision byte := Byte.byte_eq_dec.

Lemma b2z_range b : 0 <= b2z b < 256.
Proof. unfold b2z. pose proof (Byte.to_N_bounded b). lia. Qed.

Lemma b2z_z2b z : b2z (z2b z) = z `mod` 256.
Proof.
  unfold z2b, b2z. pose proof (Z.mod_pos_bound z 256 ltac:(lia)).
  destruct (Byte.of_N _) as [b|] eqn:E.
  - apply Byte.to_of_N in E. rewrite E, Z2N.id by lia. done.
  - apply Byte.of_N_None_iff in E. lia.
Qed.

Lemma b2z_inj a b : b2z a = b2z b → a = b.
Proof.
  unfold b2z. intros E%N2Z.inj.
  pose proof (Byte.of_to_N a) as Ha. rewrite E, Byte.of_to_N in Ha. congruence.
Qed.

#[global] Instance b2z_Inj : Inj (=) (=) b2z := b2z_inj.

Lemma z2b_b2z b : z2b (b2z b) = b.
Proof.
  apply b2z_inj. rewrite b2z_z2b. apply Z.mod_small, b2z_range.
Qed.

Lemma b2z_z2b_small z : 0 <= z < 256 → b2z (z2b z) = z.
Proof. intros. rewrite b2z_z2b. by apply Z.mod_small. Qed.

Lemma z2b_mod z : z2b (z `mod` 256) = z2b z.
Proof. apply b2z_inj. rewrite !b2z_z2b. by rewrite Z.mod_mod. Qed.

#[global] Instance byte_countable : Countable byte.
Proof. apply (inj_countable' b2z z2b), z2b_b2z. Defined.

#[global] Instance byte_inhabited : Inhabited byte := populate x00.

(** Go's bitwise operators on [byte]. *)
Definition band (a b : byte) : byte := z2b (Z.land (b2z a) (b2z b)).
Definition bor (a b : byte) : byte := z2b (Z.lor (b2z a) (b2z b)).
Definition bxor (a b : byte) : byte := z2b (Z.lxor (b2z a) (b2z b)).
Definition bshl (a : byte) (n : Z) : byte := z2b (Z.shiftl (b2z a) n).
Definition bshr (a : byte) (n : Z) : byte := z2b (Z.shiftr (b2z a) n).
Definition badd (a b : byte) : byte := z2b (b2z a + b2z b).

Declare Scope go_scope.
Delimit Scope go_scope with go.
#[global] Arguments byte_eq_dec : simpl never.
#[global] Arguments Byte.byte_eq_dec : simpl never.
#[global] Arguments b2z : simpl never.
#[global] Arguments z2b : simpl never.
#[global] Arguments band : simpl never.
#[global] Arguments bor : simpl never.
#[global] Arguments bxor : simpl never.
#[global] Arguments bshl : simpl never.
#[global] Arguments bshr : simpl never.
#[global] Arguments badd : simpl never.

Infix "&&&" := band (at level 40, left associativity) : go_scope.
Infix "|||" := bor (at level 50, left associativity) : go_scope.
Infix "^^^" := bxor (at level 50, left associativity) : go_scope.
Infix "<<<" := bshl (at level 40, left associativity) : go_scope.
Infix ">>>" := bshr (at level 40, left associativity) : go_scope.

(** A decidable statement about one byte holds when it holds for the 256
    values: [byte_cases] enumerates them. *)
Definition all_bytes : bytes := z2b <$> seqZ 0 256.

Lemma elem_of_all_bytes b : b ∈ all_bytes.
Proof.
  apply list_elem_of_fmap. exists (b2z b). split; [by rewrite z2b_b2z|].
  apply elem_of_seqZ. pose proof (b2z_range b). lia.
Qed.

Lemma byte_forallb (f : byte → bool) :
  forallb f all_bytes = true → ∀ b, f b = true.
Proof.
  intros H b. rewrite forallb_forall in H. apply H.
  apply list_elem_of_In, elem_of_all_bytes.
Qed.

Lemma byte_forall (P : byte → Prop) (dec : ∀ b, Decision (P b)) :
  forallb (λ b, bool_decide (P b)) all_bytes = true → ∀ b, P b.
Proof.
  intros H b. pose proof (byte_forallb _ H b) as E.
  by apply bool_decide_eq_true in E.
Qed.

Ltac byte_cases b :=
  revert b; refine (byte_forall _ _ _); vm_compute; reflexivity.

(** ** Bit operations *)

Lemma testbit_b2z_high b i : 8 <= i → Z.testbit (b2z b) i = false.
Proof.
  intros. pose proof (b2z_range b) as Hb.
  destruct (decide (b2z b = 0)) as [->|]; [apply Z.testbit_0_l|].
  apply Z.bits_above_log2; [lia|]. apply Z.lt_le_trans with 8; [|done].
  apply Z.log2_lt_pow2; [lia|]. change (2 ^ 8) with 256. lia.
Qed.

Lemma lt_pow2_of_bits z n :
  0 <= n → 0 <= z → (∀ i, n <= i → Z.testbit z i = false) → z < 2 ^ n.
Proof.
  intros Hn Hz Hi. destruct (decide (z = 0)) as [->|]; [by apply Z.pow_pos_nonneg|].
  apply Z.log2_lt_pow2; [lia|].
  destruct (Z.lt_ge_cases (Z.log2 z) n) as [|Hge]; [done|].
  specialize (Hi _ Hge). rewrite Z.bit_log2 in Hi by lia. done.
Qed.

Lemma byte_fits z : 0 <= z → (∀ i, 8 <= i → Z.testbit z i = false) → z < 256.
Proof. intros. change 256 with (2 ^ 8). by apply lt_pow2_of_bits. Qed.

Lemma b2z_band a b : b2z (band a b) = Z.land (b2z a) (b2z b).
Proof.
  unfold band. pose proof (b2z_range a). pose proof (b2z_range b).
  assert (0 <= Z.land (b2z a) (b2z b)) by (apply Z.land_nonneg; lia).
  apply b2z_z2b_small. split; [done|]. apply byte_fits; [done|].
  intros i Hi. by rewrite Z.land_spec, testbit_b2z_high.
Qed.

Lemma b2z_bor a b : b2z (bor a b) = Z.lor (b2z a) (b2z b).
Proof.
  unfold bor. pose proof (b2z_range a). pose proof (b2z_range b).
  assert (0 <= Z.lor (b2z a) (b2z b)) by (apply Z.lor_nonneg; lia).
  apply b2z_z2b_small. split; [done|]. apply byte_fits; [done|].
  intros i Hi. by rewrite Z.lor_spec, !testbit_b2z_high.
Qed.

Lemma b2z_bxor a b : b2z (bxor a b) = Z.lxor (b2z a) (b2z b).
Proof.
  unfold bxor. pose proof (b2z_range a). pose proof (b2z_range b).
  assert (0 <= Z.lxor (b2z a) (b2z b)) by (apply Z.lxor_nonneg; lia).
  apply b2z_z2b_small. split; [done|]. apply byte_fits; [done|].
  intros i Hi. by rewrite Z.lxor_spec, !testbit_b2z_high.
Qed.

Lemma bxor_comm a b : bxor a b = bxor b a.
Proof. apply b2z_inj. by rewrite !b2z_bxor, Z.lxor_comm. Qed.

Lemma bxor_assoc a b c : bxor (bxor a b) c = bxor a (bxor b c).
Proof. apply b2z_inj. by rewrite !b2z_bxor, Z.lxor_assoc. Qed.

Lemma bxor_nilpotent a : bxor a a = x00.
Proof. apply b2z_inj. by rewrite b2z_bxor, Z.lxor_nilpotent. Qed.

Lemma bxor_0_r a : bxor a x00 = a.
Proof. apply b2z_inj. rewrite b2z_bxor. change (b2z x00) with 0. apply Z.lxor_0_r. Qed.

Lemma bxor_0_l a : bxor x00 a = a.
Proof. by rewrite bxor_comm, bxor_0_r. Qed.

Lemma bxor_cancel a m : bxor (bxor a m) m = a.
Proof. by rewrite bxor_assoc, bxor_nilpotent, bxor_0_r. Qed.

Lemma bxor_eq_0 a b : bxor a b = x00 ↔ a = b.
Proof.
  split; [|intros ->; apply bxor_nilpotent].
  intros H. rewrite <-(bxor_cancel a b), H. apply bxor_0_l.
Qed.

Lemma bor_eq_0 a b : bor a b = x00 ↔ a = x00 ∧ b = x00.
Proof.
  split; [|intros [-> ->]; done].
  intros H%(f_equal b2z). rewrite b2z_bor in H. change (b2z x00) with 0 in H.
  apply Z.lor_eq_0_iff in H as [? ?]. split; by apply b2z_inj.
Qed.

Create Rewrite HintDb bytes.
#[global] Hint Rewrite b2z_band b2z_bor b2z_bxor b2z_z2b z2b_b2z bxor_cancel
  bxor_nilpotent bxor_0_l bxor_0_r : bytes.

(** ** Results of Go calls

    A Go function that returns [(T, error)] and can index out of range ends in
    one of three ways: a value, an error value, or a run-time panic. *)
Inductive outcome (E A : Type) : Type :=
  | Ok (a : A)
  | Err (e : E)
  | Panic.
Arguments Ok {E A} a.
Arguments Err {E A} e.
Arguments Panic {E A}.

#[global] Instance outcome_ret E : MRet (outcome E) := λ A a, Ok a.
#[global] Instance outcome_bind E : MBind (outcome E) := λ A B f m,
  match m with Ok a => f a | Err e => Err e | Panic => Panic end.
#[global] Instance outcome_fmap E : FMap (outcome E) := λ A B f m,
  match m with Ok a => Ok (f a) | Err e => Err e | Panic => Panic end.

#[global] Instance outcome_eq_dec `{EqDecision E, EqDecision A} :
  EqDecision (outcome E A).
Proof. solve_decision. Defined.

Definition no_panic {E A} (r : outcome E A) : bool :=
  match r with Panic => false | _ => true end.

Definition is_ok {E A} (r : outcome E A) : bool :=
  match r with Ok _ => true | _ => false end.

Lemma outcome_bind_Ok {E A B} (m : outcome E A) (f : A → outcome E B) b :
  (m ≫= f) = Ok b ↔ ∃ a, m = Ok a ∧ f a = Ok b.
Proof. destruct m; simpl; naive_solver. Qed.

Lemma outcome_bind_no_panic {E A B} (m : outcome E A) (f : A → outcome E B) :
  no_panic m = true → (∀ a, m = Ok a → no_panic (f a) = true) →
  no_panic (m ≫= f) = true.
Proof. destruct m; simpl; naive_solver. Qed.

(** Guards: [check c e] is [if !c { return e }]. *)
Definition check {E} (c : bool) (e : E) : outcome E () := if c then Ok () else Err e.

Lemma check_Ok {E} c (e : E) u : check c e = Ok u ↔ c = true.
Proof. destruct c, u; simpl; naive_solver. Qed.

(** ** Lengths, indexing and slicing *)

(** Go's [len], an [int]. *)
Definition len {A} (l : list A) : Z := Z.of_nat (length l).

(** [l[lo:hi]] for bounds already known to be in range. *)
Definition slice {A} (lo hi : Z) (l : list A) : list A :=
  take (Z.to_nat (hi - lo)) (drop (Z.to_nat lo) l).

Definition slice_in_range {A} (lo hi : Z) (l : list A) : bool :=
  (0 <=? lo) && (lo <=? hi) && (hi <=? len l).

(** [l[lo:hi]] and [l[i]] with their run-time checks. *)
Definition go_slice {E A} (lo hi : Z) (l : list A) : outcome E (list A) :=
  if slice_in_range lo hi l then Ok (slice lo hi l) else Panic.

Definition go_index {E A} (i : Z) (l : list A) : outcome E A :=
  if i <? 0 then Panic
  else match l !! Z.to_nat i with Some a => Ok a | None => Panic end.

(** [copy(dst[lo:], src)] into a destination known to be long enough. *)
Definition overwrite {A} (lo : Z) (src dst : list A) : list A :=
  take (Z.to_nat lo) dst ++ take (length dst - Z.to_nat lo) src
    ++ drop (Z.to_nat lo + length src) dst.

Lemma Forall_weaken {A} (P Q : A → Prop) (l : list A) :
  Forall P l → (∀ x, P x → Q x) → Forall Q l.
Proof. intros HP HPQ. induction HP; constructor; auto. Qed.

Lemma filter_id {A} (P : A → Prop) (dec : ∀ x, Decision (P x)) (l : list A) :
  Forall P l → filter P l = l.
Proof. induction 1 as [|x l Hx _ IH]; [done|]. by rewrite filter_cons_True, IH. Qed.

Lemma length_filter_split {A} (f : A → bool) (l : list A) :
  (length (filter (λ x, f x = true) l) + length (filter (λ x, f x = false) l) = length l)%nat.
Proof.
  induction l as [|x l IH]; [done|]. rewrite !filter_cons. cbn [length].
  destruct (f x); [rewrite decide_True, decide_False by done|rewrite decide_False, decide_True by done];
    cbn [length]; lia.
Qed.

Section slices.
Context {A : Type}.
Implicit Types l k : list A.

Lemma len_nonneg l : 0 <= len l.
Proof. unfold len. lia. Qed.

Lemma len_nil : len (@nil A) = 0.
Proof. done. Qed.

Lemma len_cons a l : len (a :: l) = 1 + len l.
Proof. unfold len. simpl. lia. Qed.

Lemma len_app l k : len (l ++ k) = len l + len k.
Proof. unfold len. rewrite length_app. lia. Qed.

Lemma len_0_nil l : len l = 0 → l = [].
Proof. destruct l; [done|]. rewrite len_cons. pose proof (len_nonneg l). lia. Qed.

Lemma len_take n l : len (take n l) = Z.min (Z.of_nat n) (len l).
Proof. unfold len. rewrite length_take. lia. Qed.

Lemma len_drop n l : len (drop n l) = Z.max 0 (len l - Z.of_nat n).
Proof. unfold len. rewrite length_drop. lia. Qed.

Lemma len_replicate n (a : A) : len (replicate n a) = Z.of_nat n.
Proof. unfold len. by rewrite length_replicate. Qed.

Lemma len_rev l : len (rev l) = len l.
Proof. unfold len. by rewrite length_rev. Qed.

Lemma len_slice lo hi l :
  0 <= lo <= hi → hi <= len l → len (slice lo hi l) = hi - lo.
Proof. intros. unfold slice. rewrite len_take, len_drop. lia. Qed.

Lemma len_overwrite lo l k : 0 <= lo <= len k → len (overwrite lo l k) = len k.
Proof.
  intros. unfold overwrite. rewrite !len_app, !len_take, len_drop.
  unfold len in *. lia.
Qed.

Lemma slice_in_range_spec lo hi l :
  slice_in_range lo hi l = true ↔ 0 <= lo <= hi ∧ hi <= len l.
Proof. unfold slice_in_range. rewrite !andb_true_iff, !Z.leb_le. lia. Qed.

Lemma go_slice_Ok {E} lo hi l :
  0 <= lo <= hi → hi <= len l → go_slice (E:=E) lo hi l = Ok (slice lo hi l).
Proof.
  intros. unfold go_slice. by rewrite (proj2 (slice_in_range_spec lo hi l)).
Qed.

Lemma go_slice_Ok_inv {E} lo hi l k :
  go_slice (E:=E) lo hi l = Ok k → k = slice lo hi l ∧ 0 <= lo <= hi ∧ hi <= len l.
Proof.
  unfold go_slice. destruct (slice_in_range _ _ _) eqn:H; [|done].
  apply slice_in_range_spec in H. naive_solver.
Qed.

Lemma go_slice_no_panic {E} lo hi l :
  0 <= lo <= hi → hi <= len l → no_panic (go_slice (E:=E) lo hi l) = true.
Proof. intros. by rewrite go_slice_Ok. Qed.

Lemma go_index_Ok {E} i l :
  0 <= i < len l → ∃ a, go_index (E:=E) i l = Ok a ∧ l !! Z.to_nat i = Some a.
Proof.
  intros. unfold go_index. rewrite (proj2 (Z.ltb_ge i 0)) by lia.
  destruct (lookup_lt_is_Some_2 l (Z.to_nat i)) as [a Ha]; [unfold len in *; lia|].
  exists a. by rewrite Ha.
Qed.

Lemma go_index_Some {E} i l a :
  0 <= i → l !! Z.to_nat i = Some a → go_index (E:=E) i l = Ok a.
Proof.
  intros ? Ha. unfold go_index. by rewrite (proj2 (Z.ltb_ge i 0)), Ha by lia.
Qed.

Lemma slice_0 hi l : slice 0 hi l = take (Z.to_nat hi) l.
Proof. unfold slice. by rewrite Z.sub_0_r. Qed.

Lemma slice_full l : slice 0 (len l) l = l.
Proof. rewrite slice_0. unfold len. rewrite Nat2Z.id. by apply take_ge. Qed.

Lemma slice_to_end lo l :
  0 <= lo <= len l → slice lo (len l) l = drop (Z.to_nat lo) l.
Proof.
  intros. unfold slice. apply take_ge. rewrite length_drop. unfold len in *. lia.
Qed.

(** The part of a concatenation between the two known prefix lengths. *)
Lemma slice_app_mid l k r lo hi :
  lo = len l → hi = len l + len k → slice lo hi (l ++ k ++ r) = k.
Proof.
  intros -> ->. unfold slice, len.
  rewrite Nat2Z.id, drop_app_length, Z.add_simpl_l, Nat2Z.id.
  apply take_app_length.
Qed.

Lemma slice_app_tail l k lo hi :
  lo = len l → hi = len l + len k → slice lo hi (l ++ k) = k.
Proof. intros ? ?. rewrite <- (app_nil_r k) at 1. by apply slice_app_mid. Qed.

Lemma drop_app_mid l k n : n = length l → drop n (l ++ k) = k.
Proof. intros ->. apply drop_app_length. Qed.

Lemma take_app_mid l k n : n = length l → take n (l ++ k) = l.
Proof. intros ->. apply take_app_length. Qed.

Lemma lookup_app_mid l a k n : n = length l → (l ++ a :: k) !! n = Some a.
Proof. intros ->. apply list_lookup_middle; done. Qed.
End slices.

Create Rewrite HintDb len.
#[global] Hint Rewrite @len_nil @len_cons @len_app @len_take @len_drop
  @len_replicate @len_rev : len.

Ltac len_simpl := autorewrite with len in *.
Ltac len_lia := autorewrite with len in *; unfold len in *; simpl in *; lia.

(** ** Fixed-width unsigned integers *)

Definition u16 (z : Z) : Z := z `mod` 65536.
Definition u32 (z : Z) : Z := z `mod` 4294967296.

(** ** Big- and little-endian byte strings (package [encoding/binary]) *)

Definition be_decode (l : bytes) : Z := foldl (λ acc b, acc * 256 + b2z b) 0 l.

Fixpoint be_encode (n : nat) (z : Z) : bytes :=
  match n with
  | O => []
  | S m => be_encode m (z `div` 256) ++ [z2b z]
  end.

Definition le_decode (l : bytes) : Z := be_decode (rev l).
Definition le_encode (n : nat) (z : Z) : bytes := rev (be_encode n z).

Lemma be_encode_length n z : length (be_encode n z) = n.
Proof. revert z. induction n; intros; simpl; [done|]. rewrite length_app, IHn. simpl. lia. Qed.

Lemma len_be_encode n z : len (be_encode n z) = Z.of_nat n.
Proof. unfold len. by rewrite be_encode_length. Qed.

Lemma be_decode_snoc l b : be_decode (l ++ [b]) = be_decode l * 256 + b2z b.
Proof. unfold be_decode. by rewrite foldl_app. Qed.

Lemma be_decode_encode n z : be_decode (be_encode n z) = z `mod` 256 ^ Z.of_nat n.
Proof.
  revert z. induction n as [|n IH]; intros z.
  - simpl. by rewrite Z.mod_1_r.
  - simpl be_encode. rewrite be_decode_snoc, IH, b2z_z2b.
    rewrite Nat2Z.inj_succ, Z.pow_succ_r by lia.
    rewrite Z.rem_mul_r by lia. lia.
Qed.

Lemma be_decode_range l : 0 <= be_decode l < 256 ^ len l.
Proof.
  induction l as [|b l IH] using rev_ind; [done|].
  rewrite be_decode_snoc, len_app. change (len [b]) with 1.
  pose proof (b2z_range b). pose proof (len_nonneg l).
  rewrite Z.pow_add_r by lia. lia.
Qed.

Lemma be_encode_decode l : be_encode (length l) (be_decode l) = l.
Proof.
  induction l as [|b l IH] using rev_ind; [done|].
  rewrite length_app, Nat.add_comm. simpl. rewrite be_decode_snoc.
  pose proof (b2z_range b). f_equal.
  - rewrite Z.div_add_l, Z.div_small, Z.add_0_r by lia. done.
  - f_equal. apply b2z_inj. rewrite b2z_z2b, Z.add_comm, Z.mod_add, Z.mod_small by lia. done.
Qed.

Lemma be_decode_encode_small n z :
  0 <= z < 256 ^ Z.of_nat n → be_decode (be_encode n z) = z.
Proof. intros. rewrite be_decode_encode. by apply Z.mod_small. Qed.

Lemma le_encode_length n z : length (le_encode n z) = n.
Proof. unfold le_encode. by rewrite length_rev, be_encode_length. Qed.

Lemma le_decode_encode n z : le_decode (le_encode n z) = z `mod` 256 ^ Z.of_nat n.
Proof. unfold le_decode, le_encode. by rewrite rev_involutive, be_decode_encode. Qed.

(** [binary.BigEndian.Uint16] and [PutUint16]. *)
Definition be_u16 (l : bytes) : Z := be_decode (take 2 l).
Definition put_be_u16 (z : Z) : bytes := be_encode 2 (u16 z).

Lemma be_u16_put z r : 0 <= z < 65536 → be_u16 (put_be_u16 z ++ r) = z.
Proof.
  intros. unfold be_u16, put_be_u16, u16.
  rewrite take_app_length' by (by rewrite be_encode_length).
  rewrite Z.mod_small by lia. by rewrite be_decode_encode_small.
Qed.

(** ** Methods with a receiver

    A method that updates its receiver and may fail keeps the updates made
    before the failing statement: [goM S E A] returns the receiver next to the
    outcome. *)
Definition goM (S E A : Type) : Type := S → S * outcome E A.

#[global] Instance goM_ret S E : MRet (goM S E) := λ A a s, (s, Ok a).
#[global] Instance goM_bind S E : MBind (goM S E) := λ A B f m s,
  match m s with
  | (s', Ok a) => f a s'
  | (s', Err e) => (s', Err e)
  | (s', Panic) => (s', Panic)
  end.

Section goM.
Context {S E : Type}.

Definition mget : goM S E S := λ s, (s, Ok s).
Definition modify (f : S → S) : goM S E () := λ s, (f s, Ok ()).
Definition fail {A} (e : E) : goM S E A := λ s, (s, Err e).
Definition lift {A} (r : outcome E A) : goM S E A := λ s, (s, r).
Definition guard_go (c : bool) (e : E) : goM S E () := λ s, (s, check c e).
End goM.

(** The laws that run a method symbolically: [autorewrite with goM]. *)
Section goM_laws.
Context {S E A B : Type}.
Implicit Types (s : S) (e : E).

Lemma run_ret (a : A) (k : A → goM S E B) s : (mret a ≫= k) s = k a s.
Proof. reflexivity. Qed.
Lemma run_get (k : S → goM S E B) s : (mget ≫= k) s = k s s.
Proof. reflexivity. Qed.
Lemma run_modify f (k : () → goM S E B) s : (modify f ≫= k) s = k () (f s).
Proof. reflexivity. Qed.
Lemma run_fail e (k : A → goM S E B) s : (fail e ≫= k) s = (s, Err e).
Proof. reflexivity. Qed.
Lemma run_lift_Ok (a : A) (k : A → goM S E B) s : (lift (Ok a) ≫= k) s = k a s.
Proof. reflexivity. Qed.
Lemma run_lift_Err e (k : A → goM S E B) s : (lift (Err e) ≫= k) s = (s, Err e).
Proof. reflexivity. Qed.
Lemma run_guard_true e (k : () → goM S E B) s : (guard_go true e ≫= k) s = k () s.
Proof. reflexivity. Qed.
Lemma run_guard_false e (k : () → goM S E B) s : (guard_go false e ≫= k) s = (s, Err e).
Proof. reflexivity. Qed.
Lemma run_modify_end f s : modify (E:=E) f s = (f s, Ok ()).
Proof. reflexivity. Qed.
Lemma run_bind_ok (m : goM S E A) (k : A → goM S E B) s s' a :
  m s = (s', Ok a) → (m ≫= k) s = k a s'.
Proof. intros H. unfold mbind, goM_bind. by rewrite H. Qed.
Lemma run_bind_assoc {C} (m : goM S E A) (k : A → goM S E B) (l : B → goM S E C) s :
  ((m ≫= k) ≫= l) s = (m ≫= λ a, k a ≫= l) s.
Proof. unfold mbind, goM_bind. by destruct (m s) as [s' [a|e|]]. Qed.
End goM_laws.

Create Rewrite HintDb goM.
#[global] Hint Rewrite @run_ret @run_get @run_modify @run_fail @run_lift_Ok @run_lift_Err
  @run_guard_true @run_guard_false @run_modify_end @run_bind_assoc : goM.

(** *** Invariants of methods

    [safe I m]: from a receiver in [I] the method does not panic and leaves the
    receiver in [I], whatever its outcome. *)
Definition safe {S E A} (I : S → Prop) (m : goM S E A) : Prop := ∀ s, I s → I (m s).1 ∧ (m s).2 ≠ Panic.

Section safe.
Context {S E : Type} (I : S → Prop).

Lemma safe_ret {A} (a : A) : safe (E:=E) I (mret a).
Proof. done. Qed.
Lemma safe_fail {A} e : safe (E:=E) (A:=A) I (fail e).
Proof. done. Qed.
Lemma safe_guard c (e : E) : safe I (guard_go c e).
Proof. intros s Hs. unfold guard_go, check. by destruct c. Qed.
Lemma safe_lift {A} (r : outcome E A) : r ≠ Panic → safe I (lift r).
Proof. done. Qed.
Lemma safe_modify f : (∀ s, I s → I (f s)) → safe (E:=E) I (modify f).
Proof. intros Hf s Hs. split; [by apply Hf|done]. Qed.
Lemma safe_get : safe (E:=E) I mget.
Proof. done. Qed.
Lemma safe_bind {A B} (m : goM S E A) (k : A → goM S E B) :
  safe I m → (∀ a, safe I (k a)) → safe I (m ≫= k).
Proof.
  intros Hm Hk s Hs. unfold mbind, goM_bind. destruct (Hm s Hs) as [H1 H2].
  destruct (m s) as [s' [a|e|]]; cbn in *; [by apply Hk|done|done].
Qed.

(** The continuation may rely on the receiver it read. *)
Lemma safe_read {A} (k : S → goM S E A) :
  (∀ s, I s → I (k s s).1 ∧ (k s s).2 ≠ Panic) → safe I (mget ≫= k).
Proof. intros Hk s Hs. by apply Hk. Qed.
End safe.

Create HintDb safe.
#[global] Hint Resolve safe_ret safe_fail safe_guard safe_get : safe.

(** Follow the structure of a method; the goals left are its primitive updates. *)
Ltac safe_step :=
  first [ solve [auto with safe]
        | lazymatch goal with
          | |- safe _ (_ ≫= _) => apply safe_bind; [|intros ?]
          | |- safe _ (match ?x with _ => _ end) => destruct x eqn:?
          | |- safe _ (let _ := _ in _) => cbv zeta
          end ].
Ltac safe_auto := repeat safe_step.

(** [keeps I m]: the method leaves the receiver in [I] whatever its outcome,
    a panic included. *)
Definition keeps {S E A} (I : S → Prop) (m : goM S E A) : Prop := ∀ s, I s → I (m s).1.

Section keeps.
Context {S E : Type} (I : S → Prop).

Lemma keeps_ret {A} (a : A) : keeps (E:=E) I (mret a).
Proof. by intros s Hs. Qed.
Lemma keeps_fail {A} e : keeps (E:=E) (A:=A) I (fail e).
Proof. by intros s Hs. Qed.
Lemma keeps_guard c (e : E) : keeps I (guard_go c e).
Proof. by intros s Hs. Qed.
Lemma keeps_lift {A} (r : outcome E A) : keeps I (lift r).
Proof. by intros s Hs. Qed.
Lemma keeps_modify f : (∀ s, I s → I (f s)) → keeps (E:=E) I (modify f).
Proof. intros Hf s Hs. by apply Hf. Qed.
Lemma keeps_get : keeps (E:=E) I mget.
Proof. by intros s Hs. Qed.
Lemma keeps_bind {A B} (m : goM S E A) (k : A → goM S E B) :
  keeps I m → (∀ a, keeps I (k a)) → keeps I (m ≫= k).
Proof.
  intros Hm Hk s Hs. unfold mbind, goM_bind. pose proof (Hm s Hs) as H1.
  destruct (m s) as [s' [a|e|]]; cbn in *; [by apply Hk|done|done].
Qed.
Lemma keeps_get_bind {A} (k : S → goM S E A) : (∀ s, I s → keeps I (k s)) → keeps I (mget ≫= k).
Proof. intros Hk s Hs. by apply (Hk s). Qed.
End keeps.

Create HintDb keeps.
#[global] Hint Resolve keeps_ret keeps_fail keeps_guard keeps_lift keeps_get : keeps.

Ltac keeps_step :=
  first [ solve [auto with keeps]
        | lazymatch goal with
          | |- keeps _ (_ ≫= _) => apply keeps_bind; [|intros ?]
          | |- keeps _ (match ?x with _ => _ end) => destruct x eqn:?
          | |- keeps _ (let _ := _ in _) => cbv zeta
          | |- keeps _ (modify _) => apply keeps_modify; intros ? ?
          end ].
Ltac keeps_auto := repeat keeps_step.
(** The same, with what holds of the receiver each time it is read. *)
Ltac keeps_reading :=
  repeat first [ lazymatch goal with |- keeps _ (mget ≫= _) => apply keeps_get_bind; intros ? ? end | keeps_step ].

(** [wp m Q s]: the outcome of [m] from [s] and the receiver it leaves satisfy
    [Q].  The rules follow one path of the method. *)
Definition wp {S E A} (m : goM S E A) (Q : outcome E A → S → Prop) (s : S) : Prop := Q (m s).2 (m s).1.

(** The panic and the error of a step end the method. *)
Definition ends {S E A B} (Q : outcome E B → S → Prop) (k : A → S → Prop) (r : outcome E A) (s : S) : Prop :=
  match r with Ok a => k a s | Err e => Q (Err e) s | Panic => Q Panic s end.

Section wp.
Context {S E A B : Type}.
Implicit Types (s : S) (e : E).

Lemma wp_intro (m : goM S E A) Q s s' r : wp m Q s → m s = (s', r) → Q r s'.
Proof. unfold wp. intros HQ E'. by rewrite E' in HQ. Qed.
Lemma wp_mono (m : goM S E A) (Q Q' : outcome E A → S → Prop) s :
  wp m Q s → (∀ r s', Q r s' → Q' r s') → wp m Q' s.
Proof. unfold wp. auto. Qed.
Lemma wp_and (m : goM S E A) (Q Q' : outcome E A → S → Prop) s :
  wp m Q s → wp m Q' s → wp m (λ r s', Q r s' ∧ Q' r s') s.
Proof. unfold wp. auto. Qed.
Lemma wp_keeps (m : goM S E A) (I : S → Prop) (Q : outcome E A → S → Prop) s :
  keeps I m → I s → (∀ r s', I s' → Q r s') → wp m Q s.
Proof. unfold wp. auto. Qed.
Lemma wp_bind (m : goM S E A) (k : A → goM S E B) Q s :
  wp m (ends Q (λ a, wp (k a) Q)) s → wp (m ≫= k) Q s.
Proof. unfold wp, ends, mbind, goM_bind. by destruct (m s) as [s' [a|e|]]. Qed.
Lemma wp_assoc {C} (m : goM S E A) (k : A → goM S E B) (h : B → goM S E C) Q s :
  wp (m ≫= λ a, k a ≫= h) Q s → wp ((m ≫= k) ≫= h) Q s.
Proof. unfold wp. by rewrite run_bind_assoc. Qed.
Lemma wp_guard c e (k : () → goM S E B) (Q : outcome E B → S → Prop) s :
  (c = true → wp (k ()) Q s) → (c = false → Q (Err e) s) → wp (guard_go c e ≫= k) Q s.
Proof. intros H1 H2. destruct c; [by apply H1|by apply H2]. Qed.
Lemma wp_lift (o : outcome E A) (k : A → goM S E B) (Q : outcome E B → S → Prop) s :
  (∀ a, o = Ok a → wp (k a) Q s) → (∀ e, o = Err e → Q (Err e) s) → (o = Panic → Q Panic s) →
  wp (lift o ≫= k) Q s.
Proof. intros H1 H2 H3. destruct o; [by apply H1|by apply H2|by apply H3]. Qed.
Lemma wp_get (k : S → goM S E B) Q s : wp (k s) Q s → wp (mget ≫= k) Q s.
Proof. done. Qed.
Lemma wp_modify f (k : () → goM S E B) Q s : wp (k ()) Q (f s) → wp (modify f ≫= k) Q s.
Proof. done. Qed.
Lemma wp_ret (a : A) (k : A → goM S E B) Q s : wp (k a) Q s → wp (mret a ≫= k) Q s.
Proof. done. Qed.
Lemma wp_fail e (k : A → goM S E B) (Q : outcome E B → S → Prop) s : Q (Err e) s → wp (fail e ≫= k) Q s.
Proof. done. Qed.
Lemma wp_ret_end (a : A) (Q : outcome E A → S → Prop) s : Q (Ok a) s → wp (mret a) Q s.
Proof. done. Qed.
Lemma wp_modify_end f (Q : outcome E () → S → Prop) s : Q (Ok ()) (f s) → wp (modify f) Q s.
Proof. done. Qed.
Lemma wp_fail_end e (Q : outcome E A → S → Prop) s : Q (Err e) s → wp (fail e) Q s.
Proof. done. Qed.
Lemma wp_lift_end o (Q : outcome E A → S → Prop) s : Q o s → wp (lift o) Q s.
Proof. done. Qed.
End wp.

Ltac wp_step :=
  lazymatch goal with
  | |- wp ((_ ≫= _) ≫= _) _ _ => apply wp_assoc
  | |- wp (mget ≫= _) _ _ => apply wp_get
  | |- wp (modify _ ≫= _) _ _ => apply wp_modify
  | |- wp (mret _ ≫= _) _ _ => apply wp_ret
  | |- wp (fail _ ≫= _) _ _ => apply wp_fail
  | |- wp (guard_go _ _ ≫= _) _ _ => apply wp_guard; intros ?
  | |- wp (lift _ ≫= _) _ _ => apply wp_lift; [intros ? ?|intros ? ?|intros ?]
  | |- wp ((match ?x with _ => _ end) ≫= _) _ _ => destruct x eqn:?
  | |- wp (match ?x with _ => _ end) _ _ => destruct x eqn:?
  | |- wp (let _ := _ in _) _ _ => cbv zeta
  | |- wp (mret _) _ _ => apply wp_ret_end
  | |- wp (modify _) _ _ => apply wp_modify_end
  | |- wp (fail _) _ _ => apply wp_fail_end
  | |- wp (lift _) _ _ => apply wp_lift_end
  end.

(** ** Go slices with capacity

    [cells] is the backing array from the start of the slice to its capacity,
    [used] the length.  Only the packet's wire buffer needs this view: it is
    resliced and reused between packets. *)
Record buf := Buf { cells : bytes; used : nat }.

Definition content (b : buf) : bytes := take (used b) (cells b).
Definition cap (b : buf) : Z := len (cells b).
Definition buf_wf (b : buf) : Prop := (used b <= length (cells b))%nat.

(** A slice whose capacity is its length, as a literal or a conversion gives. *)
Definition buf_of (l : bytes) : buf := Buf l (length l).

(** [append(s[:0], l...)] within the capacity, and [make] + [append] for a
    fresh buffer of capacity [c]. *)
Definition buf_refill (b : buf) (l : bytes) : buf :=
  Buf (l ++ drop (length l) (cells b)) (length l).
Definition buf_fresh (c : Z) (l : bytes) : buf :=
  Buf (l ++ replicate (Z.to_nat c - length l) x00) (length l).

Lemma content_buf_of l : content (buf_of l) = l.
Proof. unfold content. simpl. by apply take_ge. Qed.

Lemma content_refill b l : content (buf_refill b l) = l.
Proof. unfold content, buf_refill. simpl. apply take_app_length. Qed.

Lemma content_fresh c l : content (buf_fresh c l) = l.
Proof. unfold content, buf_fresh. simpl. apply take_app_length. Qed.

Lemma cap_refill b l : len l <= cap b → cap (buf_refill b l) = cap b.
Proof. unfold cap, buf_refill. simpl. intros. len_lia. Qed.

(** ** Deleting the keys of a list from a map *)

Section foldl_delete.
Context {K V : Type} `{Countable K}.

Lemma foldl_delete_lookup {A} (l : list (K * A)) (m0 : gmap K V) k :
  foldl (λ m kw, delete kw.1 m) m0 l !! k = if decide (k ∈ l.*1) then None else m0 !! k.
Proof.
  revert m0. induction l as [|[k0 a] l IH]; intros m0; cbn [foldl fst].
  { by rewrite decide_False by (cbn; apply not_elem_of_nil). }
  rewrite IH, fmap_cons. cbn [fst]. destruct (decide (k ∈ l.*1)).
  - by rewrite decide_True by set_solver.
  - destruct (decide (k = k0)) as [->|Hne].
    + by rewrite lookup_delete_eq, decide_True by set_solver.
    + by rewrite lookup_delete_ne, decide_False by set_solver.
Qed.

Lemma foldl_delete_size {A} (l : list (K * A)) (m : gmap K V) :
  NoDup l.*1 → (∀ k, k ∈ l.*1 → is_Some (m !! k)) →
  Z.of_nat (size (foldl (λ m kw, delete kw.1 m) m l)) = Z.of_nat (size m) - len l.
Proof.
  intros Hnd Hin.
  assert (Hdom : dom (foldl (λ m kw, delete kw.1 m) m l) = dom m ∖ list_to_set l.*1).
  { apply set_eq. intros k. rewrite elem_of_difference, elem_of_list_to_set, !elem_of_dom, foldl_delete_lookup.
    case_decide; [|tauto]. split; [by intros []|tauto]. }
  assert (Hsub : (list_to_set l.*1 : gset K) ⊆ dom m).
  { intros k. rewrite elem_of_list_to_set, elem_of_dom. apply Hin. }
  pose proof (subseteq_size _ _ Hsub) as Hle.
  rewrite <- size_dom, Hdom, size_difference, size_dom, size_list_to_set, length_fmap by done.
  rewrite size_list_to_set, size_dom, length_fmap in Hle by done.
  unfold len. lia.
Qed.
End foldl_delete.

(** ** Room in a capped map *)

(** A key can be stored without exceeding a positive cap. *)
Definition has_room {K V : Type} `{Countable K} (k : K) (m : gmap K V) (cap : Z) : Prop :=
  cap <= 0 ∨ Z.of_nat (size m) < cap ∨ is_Some (m !! k) ∧ Z.of_nat (size m) <= cap.

Section has_room.
Context {K V : Type} `{Countable K}.
Implicit Types (m : gmap K V) (k : K).

Lemma has_room_insert k x m c : has_room k m c → c <= 0 ∨ Z.of_nat (size (<[k := x]> m)) <= c.
Proof.
  intros [Hc|[Hlt|[Hin Hle]]]; [by left|right..]; rewrite map_size_insert.
  - destruct (m !! k); cbn; lia.
  - by destruct Hin as [y ->].
Qed.

Lemma has_room_delete k m c : has_room k m c → has_room k (delete k m) c.
Proof.
  unfold has_room. rewrite map_size_delete. intros [Hc|[Hlt|[[x Hx] Hle]]]; [by left|right; left..].
  - destruct (m !! k); cbn; lia.
  - rewrite Hx. cbn. assert (size m ≠ 0%nat) by (intros Hz%map_size_empty_inv; by rewrite Hz, lookup_empty in Hx). lia.
Qed.
End has_room.
