(* ===== verification/Sha256.v ===== *)
(** * SHA-256 and HMAC-SHA256

    The Go program hashes with the standard library ([crypto/sha256],
    [crypto/hmac]); both are written out here (FIPS 180-4, RFC 2104) so that
    every digest of the development is computed, not assumed. *)

From S2P Require Import Prelude.

Module Sha256.

Definition rotr (n x : Z) : Z :=
  Z.lor (Z.shiftr x n) (u32 (Z.shiftl x (32 - n))).

Definition Ch (x y z : Z) : Z := Z.lxor (Z.land x y) (Z.land (Z.lnot x) z).
Definition Maj (x y z : Z) : Z :=
  Z.lxor (Z.lxor (Z.land x y) (Z.land x z)) (Z.land y z).
Definition Sigma0 (x : Z) : Z := Z.lxor (Z.lxor (rotr 2 x) (rotr 13 x)) (rotr 22 x).
Definition Sigma1 (x : Z) : Z := Z.lxor (Z.lxor (rotr 6 x) (rotr 11 x)) (rotr 25 x).
Definition sigma0 (x : Z) : Z := Z.lxor (Z.lxor (rotr 7 x) (rotr 18 x)) (Z.shiftr x 3).
Definition sigma1 (x : Z) : Z := Z.lxor (Z.lxor (rotr 17 x) (rotr 19 x)) (Z.shiftr x 10).

(** The round constants are defined as FIPS 180-4 does: the first 32 bits of
    the fractional parts of the cube roots of the first 64 primes. *)
Definition prime (n : Z) : bool :=
  forallb (λ d, negb (n `mod` d =? 0)) (seqZ 2 (n - 2)).

Definition primes : list Z := List.filter prime (seqZ 2 310).

(** Integer cube root, one bit at a time from bit [n - 1]. *)
Fixpoint cbrt_bits (n : nat) (x acc : Z) : Z :=
  match n with
  | O => acc
  | S n => let c := acc + 2 ^ Z.of_nat n in
      cbrt_bits n x (if c * c * c <=? x then c else acc)
  end.

Definition K : list Z := Eval vm_compute in
  (λ p, cbrt_bits 36 (p * 2 ^ 96) 0 `mod` 2 ^ 32) <$> primes.

Record state := State { sa : Z; sb : Z; sc : Z; sd : Z; se : Z; sf : Z; sg : Z; sh : Z }.

(** The initial state comes from the square roots of the first eight primes. *)
Definition IV : state := Eval vm_compute in
  let h i := Z.sqrt (nth i primes 0 * 2 ^ 64) `mod` 2 ^ 32 in
  State (h 0%nat) (h 1%nat) (h 2%nat) (h 3%nat) (h 4%nat) (h 5%nat) (h 6%nat) (h 7%nat).

(** Message schedule, newest word first. *)
Definition extend (w : list Z) : list Z :=
  let at_ i := nth i w 0 in
  u32 (sigma1 (at_ 1%nat) + at_ 6%nat + sigma0 (at_ 14%nat) + at_ 15%nat) :: w.

Fixpoint words (l : bytes) : list Z :=
  match l with
  | a :: b :: c :: d :: l => be_decode [a; b; c; d] :: words l
  | _ => []
  end.

Definition schedule (block : bytes) : list Z :=
  rev (Nat.iter 48 extend (rev (words block))).

Definition round (s : state) (kw : Z * Z) : state :=
  let t1 := sh s + Sigma1 (se s) + Ch (se s) (sf s) (sg s) + fst kw + snd kw in
  let t2 := Sigma0 (sa s) + Maj (sa s) (sb s) (sc s) in
  State (u32 (t1 + t2)) (sa s) (sb s) (sc s) (u32 (sd s + t1)) (se s) (sf s) (sg s).

Definition compress (h : state) (block : bytes) : state :=
  let s := foldl round h (zip K (schedule block)) in
  State (u32 (sa h + sa s)) (u32 (sb h + sb s)) (u32 (sc h + sc s)) (u32 (sd h + sd s))
        (u32 (se h + se s)) (u32 (sf h + sf s)) (u32 (sg h + sg s)) (u32 (sh h + sh s)).

Definition padding (n : Z) : bytes :=
  x80 :: replicate (Z.to_nat ((55 - n) `mod` 64)) x00 ++ be_encode 8 (8 * n).

Fixpoint blocks (fuel : nat) (h : state) (l : bytes) : state :=
  match fuel with
  | O => h
  | S fuel => blocks fuel (compress h (take 64 l)) (drop 64 l)
  end.

Definition digest (s : state) : bytes :=
  be_encode 4 (sa s) ++ be_encode 4 (sb s) ++ be_encode 4 (sc s) ++ be_encode 4 (sd s) ++
  be_encode 4 (se s) ++ be_encode 4 (sf s) ++ be_encode 4 (sg s) ++ be_encode 4 (sh s).

(** [sha256.Sum256]. *)
Definition Sum256 (m : bytes) : bytes :=
  let p := m ++ padding (len m) in
  digest (blocks (length p / 64) IV p).

Lemma Sum256_length m : length (Sum256 m) = 32%nat.
Proof. unfold Sum256, digest. by rewrite !length_app, !be_encode_length. Qed.

Lemma len_Sum256 m : len (Sum256 m) = 32.
Proof. unfold len. by rewrite Sum256_length. Qed.

(** FIPS 180-4 vectors, and the two-block one. *)
Example Sum256_empty : be_decode (Sum256 []) =
  0xe3b0c44298fc1c149afbf4c8996fb92427ae41e4649b934ca495991b7852b855.
Proof. vm_compute. reflexivity. Qed.

Example Sum256_abc : be_decode (Sum256 [x61; x62; x63]) =
  0xba7816bf8f01cfea414140de5dae2223b00361a396177a9cb410ff61f20015ad.
Proof. vm_compute. reflexivity. Qed.

Example Sum256_two_blocks : be_decode (Sum256 (replicate 64 x61)) =
  0xffe054fe7ae0cb6dc65c3af9b61d5209f439851db43d0ba5997337df154668eb.
Proof. vm_compute. reflexivity. Qed.

End Sha256.

Module Hmac.

Definition block_size : Z := 64.

Definition block_key (key : bytes) : bytes :=
  let k := if block_size <? len key then Sha256.Sum256 key else key in
  k ++ replicate (64 - length k) x00.

(** [hmac.New(sha256.New, key)], [Write(message)], [Sum(nil)]. *)
Definition mac (key message : bytes) : bytes :=
  let k := block_key key in
  Sha256.Sum256 (((λ b, bxor b x5c) <$> k) ++
    Sha256.Sum256 (((λ b, bxor b x36) <$> k) ++ message)).

Lemma mac_length key m : length (mac key m) = 32%nat.
Proof. apply Sha256.Sum256_length. Qed.

Lemma len_mac key m : len (mac key m) = 32.
Proof. apply Sha256.len_Sum256. Qed.

(** RFC 4231, test case 2: key "Jefe". *)
Example mac_rfc4231_2 :
  be_decode (mac [x4a; x65; x66; x65]
    [x77;x68;x61;x74;x20;x64;x6f;x20;x79;x61;x20;x77;x61;x6e;x74;x20;x66;x6f;x72;x20;
     x6e;x6f;x74;x68;x69;x6e;x67;x3f]) =
  0x5bdcc146bf60754e6a042426089575c75a003f089d2739839dec58b964ec3843.
Proof. vm_compute. reflexivity. Qed.

End Hmac.

(** The proofs that follow use the hash through its length only. *)
#[global] Opaque Sha256.Sum256 Hmac.mac.
