(* ===== verification/Packet.v ===== *)
(** * Package [packet]: the Reticulum wire format

    The packet record, [Pack] and [Unpack] with their errors, the packet hash
    and the link id, the in-place buffer path ([PrepareHT1Buffer],
    [CommitPacked]) and the frame summary of [decode.go]. *)

From stdpp Require Import pretty.
From S2P Require Import Prelude.
From S2P Require Import Sha256.

Module Packet.
Local Open Scope go_scope.

(** ** Constants ([constants.go]) *)

Definition TruncatedHashLength : Z := 16.
Definition MinPacketSize : Z := 3.
Definition PathfinderM : Z := 128.
Definition LinkRequestECPubSize : Z := 64.
Definition MTU : Z := 500.
Definition MaxInboundPacketSize : Z := 262144.
Definition HeaderType1Overhead : Z := 2 + TruncatedHashLength + 1.

Definition HeaderMaskHeaderType : byte := x40.
Definition HeaderMaskContextFlag : byte := x20.
Definition HeaderMaskTransportType : byte := x10.
Definition HeaderMaskDestinationType : byte := x0c.
Definition HeaderMaskPacketType : byte := x03.
Definition HashableFlagsMask : byte := x0f.

Definition PropagationBroadcast : byte := x00.
Definition PropagationTransport : byte := x01.
Definition DestinationSingle : byte := x00.
Definition DestinationGroup : byte := x01.
Definition DestinationPlain : byte := x02.
Definition DestinationLink : byte := x03.

Definition PacketTypeData : byte := x00.
Definition PacketTypeAnnounce : byte := x01.
Definition PacketTypeLinkReq : byte := x02.
Definition PacketTypeProof : byte := x03.

Definition HeaderType1 : byte := x00.
Definition HeaderType2 : byte := x01.
Definition FlagSet : byte := x01.

Definition ContextNone : byte := x00.
Definition ContextResource : byte := x01.
Definition ContextResourceAdv : byte := x02.
Definition ContextResourceReq : byte := x03.
Definition ContextResourceHMU : byte := x04.
Definition ContextResourcePRF : byte := x05.
Definition ContextResourceICL : byte := x06.
Definition ContextResourceRCL : byte := x07.
Definition ContextCacheReq : byte := x08.
Definition ContextRequest : byte := x09.
Definition ContextResponse : byte := x0a.
Definition ContextPathResponse : byte := x0b.
Definition ContextCommand : byte := x0c.
Definition ContextCmdStatus : byte := x0d.
Definition ContextChannel : byte := x0e.
Definition ContextKeepalive : byte := xfa.
Definition ContextLinkIdentify : byte := xfb.
Definition ContextLinkClose : byte := xfc.
Definition ContextLinkProof : byte := xfd.
Definition ContextLRRTT : byte := xfe.
Definition ContextLRProof : byte := xff.

(** ** The packet *)

(** The fields [Pack], [Unpack] and the hash read or write.  [TransportID] is
    [None] for Go's [nil]; [Raw] keeps its capacity, which [Pack] and
    [PrepareHT1Buffer] inspect. *)
Record packet := Packet {
  HeaderType : byte;
  PacketType : byte;
  TransportType : byte;
  Context : byte;
  ContextFlag : byte;
  Hops : byte;
  DestinationType : byte;
  DestinationHash : bytes;
  TransportID : option bytes;
  Data : bytes;
  Raw : buf;
  Packed : bool;
  Sent : bool;
  CreateReceipt : bool;
  FromPacked : bool;
  PacketHash : bytes;
  hashValid : bool;
  Addresses : bytes
}.

Inductive packet_error :=
  | DestinationHashLength (n : Z)
  | TransportIDRequired
  | TransportIDLength (n : Z)
  | ExceedsMTU
  | NotHeaderType1
  | TooShort
  | TooLarge
  | InvalidHopCount (hops : byte)
  | TooShortHeaderType2
  | TooShortHeaderType1
  | PackFailed (e : packet_error).

(** Field updates. *)
Definition set_Raw (b : buf) (p : packet) : packet :=
  Packet (HeaderType p) (PacketType p) (TransportType p) (Context p) (ContextFlag p)
    (Hops p) (DestinationType p) (DestinationHash p) (TransportID p) (Data p) b
    (Packed p) (Sent p) (CreateReceipt p) (FromPacked p) (PacketHash p) (hashValid p)
    (Addresses p).
Definition set_Hops (h : byte) (p : packet) : packet :=
  Packet (HeaderType p) (PacketType p) (TransportType p) (Context p) (ContextFlag p)
    h (DestinationType p) (DestinationHash p) (TransportID p) (Data p) (Raw p)
    (Packed p) (Sent p) (CreateReceipt p) (FromPacked p) (PacketHash p) (hashValid p)
    (Addresses p).
Definition set_flag_fields (ht cf tt dt pt : byte) (p : packet) : packet :=
  Packet ht pt tt (Context p) cf
    (Hops p) dt (DestinationHash p) (TransportID p) (Data p) (Raw p)
    (Packed p) (Sent p) (CreateReceipt p) (FromPacked p) (PacketHash p) (hashValid p)
    (Addresses p).
Definition set_body (tid : option bytes) (dh : bytes) (ctx : byte) (data : bytes)
    (p : packet) : packet :=
  Packet (HeaderType p) (PacketType p) (TransportType p) ctx (ContextFlag p)
    (Hops p) (DestinationType p) dh tid data (Raw p)
    (Packed p) (Sent p) (CreateReceipt p) (FromPacked p) (PacketHash p) (hashValid p)
    (Addresses p).
Definition set_Packed (b : bool) (p : packet) : packet :=
  Packet (HeaderType p) (PacketType p) (TransportType p) (Context p) (ContextFlag p)
    (Hops p) (DestinationType p) (DestinationHash p) (TransportID p) (Data p) (Raw p)
    b (Sent p) (CreateReceipt p) (FromPacked p) (PacketHash p) (hashValid p)
    (Addresses p).
Definition set_hash (h : bytes) (valid : bool) (p : packet) : packet :=
  Packet (HeaderType p) (PacketType p) (TransportType p) (Context p) (ContextFlag p)
    (Hops p) (DestinationType p) (DestinationHash p) (TransportID p) (Data p) (Raw p)
    (Packed p) (Sent p) (CreateReceipt p) (FromPacked p) h valid (Addresses p).
Definition set_Addresses (a : bytes) (p : packet) : packet :=
  Packet (HeaderType p) (PacketType p) (TransportType p) (Context p) (ContextFlag p)
    (Hops p) (DestinationType p) (DestinationHash p) (TransportID p) (Data p) (Raw p)
    (Packed p) (Sent p) (CreateReceipt p) (FromPacked p) (PacketHash p) (hashValid p) a.

Definition NewPacket (destType : byte) (data : bytes) (packetType context transportType
    headerType : byte) (transportID : option bytes) (createReceipt : bool)
    (contextFlag : byte) : packet :=
  Packet headerType packetType transportType context contextFlag x00 destType []
    transportID data (Buf [] 0) false false createReceipt false [] false [].

(** [&Packet{Raw: raw}]. *)
Definition packet_of_raw (raw : bytes) : packet :=
  Packet x00 x00 x00 x00 x00 x00 x00 [] None [] (buf_of raw) false false false false [] false [].

Ltac packet_simpl :=
  cbn [HeaderType PacketType TransportType Context ContextFlag Hops DestinationType
       DestinationHash TransportID Data Raw Packed Sent CreateReceipt FromPacked
       PacketHash hashValid Addresses set_Raw set_Hops set_flag_fields set_body
       set_Packed set_hash set_Addresses packet_of_raw].

Definition raw (p : packet) : bytes := content (Raw p).

(** ** The packet hash *)

(** The bytes that enter the hash: low nibble of the flags, then everything
    after the hop count (HT1) or after the transport id (HT2). *)
Definition hashableInto (p : packet) : outcome packet_error bytes :=
  b0 ← go_index 0 (raw p);
  let b := [b0 &&& HashableFlagsMask] in
  if decide (HeaderType p = HeaderType2) then
    let start := TruncatedHashLength + 2 in
    Ok (if start <? len (raw p) then b ++ drop (Z.to_nat start) (raw p) else b)
  else
    Ok (if 2 <? len (raw p) then b ++ drop 2 (raw p) else b).

Definition hashablePreimageLen (p : packet) : Z :=
  if decide (HeaderType p = HeaderType2) then
    let start := TruncatedHashLength + 2 in
    if start <? len (raw p) then 1 + (len (raw p) - start) else 1
  else if 2 <? len (raw p) then 1 + (len (raw p) - 2) else 1.

Definition invalidateHash (p : packet) : packet := set_hash (PacketHash p) false p.

(** The [MTU]-sized scratch array and the heap one of the two branches hold
    the same preimage. *)
Definition updateHash : goM packet packet_error () :=
  p ← mget;
  hb ← lift (hashableInto p);
  modify (set_hash (Sha256.Sum256 hb) true).

Definition GetHash : goM packet packet_error bytes :=
  p ← mget;
  (if hashValid p then mret () else updateHash) ;;
  p ← mget;
  mret (PacketHash p).

Definition TruncatedHash : goM packet packet_error bytes :=
  h ← GetHash;
  mret (if TruncatedHashLength <=? len h then take (Z.to_nat TruncatedHashLength) h else h).

(** [identity.TruncatedHash]: SHA-256 cut to 128 bits. *)
Definition identity_TruncatedHash (data : bytes) : bytes :=
  take 16 (Sha256.Sum256 data).

Definition LinkIDFromLinkRequest (p : packet) : outcome packet_error bytes :=
  if len (raw p) =? 0 then Ok []
  else
    hashable ← hashableInto p;
    let hashable :=
      if LinkRequestECPubSize <? len (Data p) then
        let diff := len (Data p) - LinkRequestECPubSize in
        if diff <=? len hashable then take (Z.to_nat (len hashable - diff)) hashable
        else hashable
      else hashable in
    Ok (identity_TruncatedHash hashable).

(** ** Packing *)

Definition nextRawWireCap (need : Z) : Z :=
  if MTU <? need then need
  else
    let align := 64 in
    let rounded := (need + align - 1) `div` align * align in
    if MTU <? rounded then MTU else rounded.

Definition headerFlags (p : packet) : byte :=
  let flags := x00 in
  let flags := flags ||| ((HeaderType p <<< 6) &&& HeaderMaskHeaderType) in
  let flags := flags ||| ((ContextFlag p <<< 5) &&& HeaderMaskContextFlag) in
  let flags := flags ||| ((TransportType p <<< 4) &&& HeaderMaskTransportType) in
  let flags := flags ||| ((DestinationType p <<< 2) &&& HeaderMaskDestinationType) in
  flags ||| (PacketType p &&& HeaderMaskPacketType).

Definition Pack : goM packet packet_error () :=
  p ← mget;
  if Packed p then mret ()
  else
    let n := len (DestinationHash p) in
    guard_go ((n =? 0) || (n =? TruncatedHashLength)) (DestinationHashLength n) ;;
    (if decide (HeaderType p = HeaderType2) then
       match TransportID p with
       | None => fail TransportIDRequired
       | Some tid => guard_go (len tid =? TruncatedHashLength) (TransportIDLength (len tid))
       end
     else mret ()) ;;
    let flags := headerFlags p in
    let transportID := default [] (TransportID p) in
    let need := 2 + len (DestinationHash p) + 1 + len (Data p) in
    let need := if decide (HeaderType p = HeaderType2) then need + len transportID else need in
    let wire := [flags; Hops p]
      ++ (if decide (HeaderType p = HeaderType2) then transportID else [])
      ++ DestinationHash p ++ [Context p] ++ Data p in
    modify (set_Raw
      (if need <=? cap (Raw p) then buf_refill (Raw p) wire
       else buf_fresh (if 0 <? cap (Raw p) then nextRawWireCap need else need) wire)) ;;
    p ← mget;
    guard_go (len (raw p) <=? MTU) ExceedsMTU ;;
    modify (set_Packed true) ;;
    modify invalidateHash ;;
    updateHash.

(** ** The in-place path *)

(** Writes the header into [Raw] and returns the payload region [Data] for the
    caller to fill.  A [payloadLen] below zero slices or indexes out of range. *)
Definition PrepareHT1Buffer (destHash : bytes) (payloadLen : Z) : goM packet packet_error bytes :=
  p ← mget;
  guard_go (len destHash =? TruncatedHashLength) (DestinationHashLength (len destHash)) ;;
  guard_go (bool_decide (HeaderType p = HeaderType1)) NotHeaderType1 ;;
  let need := HeaderType1Overhead + payloadLen in
  guard_go (need <=? MTU) ExceedsMTU ;;
  if need <? HeaderType1Overhead then lift Panic
  else
    let b :=
      if cap (Raw p) <? need
      then Buf (replicate (Z.to_nat (nextRawWireCap need)) x00) (Z.to_nat need)
      else Buf (cells (Raw p)) (Z.to_nat need) in
    let header := [headerFlags p; Hops p] ++ destHash ++ [Context p] in
    let b := Buf (header ++ drop (Z.to_nat HeaderType1Overhead) (cells b)) (used b) in
    let data := drop (Z.to_nat HeaderType1Overhead) (content b) in
    modify (λ p, invalidateHash (set_Packed false
                   (set_body (TransportID p) destHash (Context p) data (set_Raw b p)))) ;;
    mret data.

(** What the caller does with the returned region: the writes go through to
    [Raw]. *)
Definition fill_payload (payload : bytes) (p : packet) : packet :=
  set_body (TransportID p) (DestinationHash p) (Context p) payload
    (set_Raw (Buf (take (Z.to_nat HeaderType1Overhead) (cells (Raw p)) ++ payload
                   ++ drop (Z.to_nat HeaderType1Overhead + length payload) (cells (Raw p)))
                  (used (Raw p))) p).

Definition CommitPacked : goM packet packet_error () :=
  p ← mget;
  guard_go (len (raw p) <=? MTU) ExceedsMTU ;;
  modify (set_Packed true) ;;
  modify invalidateHash ;;
  updateHash.

(** ** Unpacking *)

Definition Unpack : goM packet packet_error () :=
  p ← mget;
  let r := raw p in
  guard_go (MinPacketSize <=? len r) TooShort ;;
  guard_go (len r <=? MaxInboundPacketSize) TooLarge ;;
  flags ← lift (go_index 0 r);
  hops ← lift (go_index 1 r);
  modify (set_Hops hops) ;;
  guard_go (b2z hops <? PathfinderM) (InvalidHopCount hops) ;;
  let headerType := (flags &&& HeaderMaskHeaderType) >>> 6 in
  modify (set_flag_fields headerType
    ((flags &&& HeaderMaskContextFlag) >>> 5)
    ((flags &&& HeaderMaskTransportType) >>> 4)
    ((flags &&& HeaderMaskDestinationType) >>> 2)
    (flags &&& HeaderMaskPacketType)) ;;
  let dstLen := TruncatedHashLength in
  (if decide (headerType = HeaderType2) then
     guard_go (2 * dstLen + MinPacketSize <=? len r) TooShortHeaderType2 ;;
     tid ← lift (go_slice 2 (dstLen + 2) r);
     dh ← lift (go_slice (dstLen + 2) (2 * dstLen + 2) r);
     ctx ← lift (go_index (2 * dstLen + 2) r);
     data ← lift (go_slice (2 * dstLen + 3) (len r) r);
     modify (set_body (Some tid) dh ctx data)
   else
     guard_go (dstLen + MinPacketSize <=? len r) TooShortHeaderType1 ;;
     dh ← lift (go_slice 2 (dstLen + 2) r);
     ctx ← lift (go_index (dstLen + 2) r);
     data ← lift (go_slice (dstLen + 3) (len r) r);
     modify (set_body None dh ctx data)) ;;
  modify (set_Packed false) ;;
  modify invalidateHash ;;
  updateHash.

Definition Serialize : goM packet packet_error bytes :=
  p ← mget;
  (if Packed p then mret ()
   else λ p, match Pack p with
             | (p', Err e) => (p', Err (PackFailed e))
             | r => r
             end) ;;
  modify (λ p, set_Addresses (DestinationHash p) p) ;;
  p ← mget;
  mret (raw p).

(** ** Frame summaries ([decode.go]) *)

Definition hex_digit (z : Z) : string :=
  match z with
  | 0 => "0" | 1 => "1" | 2 => "2" | 3 => "3" | 4 => "4" | 5 => "5" | 6 => "6" | 7 => "7"
  | 8 => "8" | 9 => "9" | 10 => "a" | 11 => "b" | 12 => "c" | 13 => "d" | 14 => "e" | _ => "f"
  end%string.

(** [%02x] of a byte, and [hex.EncodeToString]. *)
Definition hex2 (b : byte) : string :=
  (hex_digit (b2z b `div` 16) +:+ hex_digit (b2z b `mod` 16))%string.
Definition hexEncode (l : bytes) : string :=
  foldr (λ b s, (hex2 b +:+ s)%string) ""%string l.

Fixpoint error_string (e : packet_error) : string :=
  match e with
  | DestinationHashLength n => "destination hash must be 16 bytes, got " +:+ pretty n
  | TransportIDRequired => "transport ID required for header type 2"
  | TransportIDLength n => "transport ID must be 16 bytes, got " +:+ pretty n
  | ExceedsMTU => "packet size exceeds MTU"
  | NotHeaderType1 => "PrepareHT1Buffer requires header type 1"
  | TooShort => "packet too short"
  | TooLarge => "packet exceeds maximum inbound size"
  | InvalidHopCount h => "invalid hop count " +:+ pretty (b2z h)
  | TooShortHeaderType2 => "packet too short for header type 2"
  | TooShortHeaderType1 => "packet too short for header type 1"
  | PackFailed e => "failed to pack packet: " +:+ error_string e
  end%string.

Definition PacketTypeName (t : byte) : string :=
  if decide (t = PacketTypeData) then "DATA"
  else if decide (t = PacketTypeAnnounce) then "ANNOUNCE"
  else if decide (t = PacketTypeLinkReq) then "LINKREQUEST"
  else if decide (t = PacketTypeProof) then "PROOF"
  else ("UNKNOWN_" +:+ hex2 t)%string.

Definition DestinationTypeName (t : byte) : string :=
  if decide (t = DestinationSingle) then "SINGLE"
  else if decide (t = DestinationGroup) then "GROUP"
  else if decide (t = DestinationPlain) then "PLAIN"
  else if decide (t = DestinationLink) then "LINK"
  else ("UNKNOWN_" +:+ hex2 t)%string.

Definition ContextName (c : byte) : string :=
  if decide (c = ContextNone) then "NONE"
  else if decide (c = ContextResource) then "RESOURCE"
  else if decide (c = ContextResourceAdv) then "RESOURCE_ADV"
  else if decide (c = ContextResourceReq) then "RESOURCE_REQ"
  else if decide (c = ContextResourceHMU) then "RESOURCE_HMU"
  else if decide (c = ContextResourcePRF) then "RESOURCE_PRF"
  else if decide (c = ContextResourceICL) then "RESOURCE_ICL"
  else if decide (c = ContextResourceRCL) then "RESOURCE_RCL"
  else if decide (c = ContextCacheReq) then "CACHE_REQUEST"
  else if decide (c = ContextRequest) then "REQUEST"
  else if decide (c = ContextResponse) then "RESPONSE"
  else if decide (c = ContextPathResponse) then "PATH_RESPONSE"
  else if decide (c = ContextCommand) then "COMMAND"
  else if decide (c = ContextCmdStatus) then "COMMAND_STATUS"
  else if decide (c = ContextChannel) then "CHANNEL"
  else if decide (c = ContextKeepalive) then "KEEPALIVE"
  else if decide (c = ContextLinkIdentify) then "LINKIDENTIFY"
  else if decide (c = ContextLinkClose) then "LINKCLOSE"
  else if decide (c = ContextLinkProof) then "LINKPROOF"
  else if decide (c = ContextLRRTT) then "LRRTT"
  else if decide (c = ContextLRProof) then "LRPROOF"
  else ("CTX_" +:+ hex2 c)%string.

Record Frame := mkFrame {
  fOK : bool;
  fError : string;
  fRawHex : string;
  fRawLen : Z;
  fFlags : byte;
  fHops : byte;
  fHeaderType : byte;
  fContextFlag : bool;
  fTransportType : byte;
  fDestinationType : byte;
  fPacketType : byte;
  fPacketTypeName : string;
  fDestTypeName : string;
  fContext : byte;
  fContextName : string;
  fDestinationHash : string;
  fTransportID : string;
  fDataLen : Z;
  fDataHexPrefix : string
}.

(** The three results: too short to index, an [Unpack] error (flags and hops
    are still reported), and the decoded fields.  [Panic] is the run-time
    failure of an index, which [DecodeFrame] never reaches. *)
Definition DecodeFrame (r : bytes) : outcome packet_error Frame :=
  let rawHex := if 0 <? len r then hexEncode r else ""%string in
  if len r <? MinPacketSize then
    Ok (mkFrame false "packet too short" rawHex (len r) x00 x00 x00 false x00 x00 x00
          "" "" x00 "" "" "" 0 "")
  else
    match Unpack (packet_of_raw r) with
    | (_, Panic) => Panic
    | (_, Err e) =>
        flags ← go_index 0 r;
        hops ← (if 1 <? len r then go_index 1 r else Ok x00);
        Ok (mkFrame false (error_string e) rawHex (len r) flags hops x00 false x00 x00 x00
              "" "" x00 "" "" "" 0 "")
    | (p, Ok _) =>
        flags ← go_index 0 r;
        let tid := default [] (TransportID p) in
        Ok (mkFrame true "" rawHex (len r) flags (Hops p) (HeaderType p)
              (bool_decide (ContextFlag p = FlagSet)) (TransportType p) (DestinationType p)
              (PacketType p) (PacketTypeName (PacketType p))
              (DestinationTypeName (DestinationType p)) (Context p) (ContextName (Context p))
              (if 0 <? len (DestinationHash p) then hexEncode (DestinationHash p) else "")
              (if 0 <? len tid then hexEncode tid else "")
              (len (Data p))
              (if 0 <? len (Data p)
               then hexEncode (take (Z.to_nat (Z.min (len (Data p)) 32)) (Data p)) else ""))
    end.

(** ** The wire image *)

(** The bytes [Pack] lays out, and the fields they carry. *)
Definition wire (p : packet) : bytes :=
  [headerFlags p; Hops p]
  ++ (if decide (HeaderType p = HeaderType2) then default [] (TransportID p) else [])
  ++ DestinationHash p ++ [Context p] ++ Data p.

(** The transport id is on the wire only in header type 2. *)
Definition wireTransportID (p : packet) : option bytes :=
  if decide (HeaderType p = HeaderType2) then TransportID p else None.

Definition flag_fields (p : packet) : byte * byte * byte * byte * byte :=
  (HeaderType p, ContextFlag p, TransportType p, DestinationType p, PacketType p).
Definition body_fields (p : packet) : byte * option bytes * bytes * byte * bytes :=
  (Hops p, wireTransportID p, DestinationHash p, Context p, Data p).

(** Field values the header can carry. *)
Definition flags_in_range (p : packet) : bool :=
  (b2z (HeaderType p) <? 2) && (b2z (ContextFlag p) <? 2) && (b2z (TransportType p) <? 2)
  && (b2z (DestinationType p) <? 4) && (b2z (PacketType p) <? 4).

(** What [Pack] checks of an unpacked packet. *)
Definition packable (p : packet) : bool :=
  ((len (DestinationHash p) =? 0) || (len (DestinationHash p) =? TruncatedHashLength))
  && (if decide (HeaderType p = HeaderType2) then
        match TransportID p with Some t => len t =? TruncatedHashLength | None => false end
      else true)
  && (len (wire p) <=? MTU).

(** What every sender in the code base produces: header fields in range, a full
    destination hash, an acceptable hop count. *)
Definition packet_ok (p : packet) : bool :=
  packable p && flags_in_range p && (len (DestinationHash p) =? TruncatedHashLength)
  && (b2z (Hops p) <? PathfinderM).

Definition preimage (ht : byte) (r : bytes) : bytes :=
  match r with
  | [] => []
  | b :: _ => (b &&& HashableFlagsMask) ::
      drop (Z.to_nat (if decide (ht = HeaderType2) then TruncatedHashLength + 2 else 2)) r
  end.

(** ** Header flags *)

Lemma byte_lt_2 b : (b2z b <? 2) = true → b = x00 ∨ b = x01.
Proof. byte_cases b. Qed.

Lemma byte_lt_4 b : (b2z b <? 4) = true → b = x00 ∨ b = x01 ∨ b = x02 ∨ b = x03.
Proof. byte_cases b. Qed.

(** Reading the flags back gives the fields, for fields in range. *)
Lemma headerFlags_decode p :
  flags_in_range p = true →
  ((headerFlags p &&& HeaderMaskHeaderType) >>> 6,
   (headerFlags p &&& HeaderMaskContextFlag) >>> 5,
   (headerFlags p &&& HeaderMaskTransportType) >>> 4,
   (headerFlags p &&& HeaderMaskDestinationType) >>> 2,
   headerFlags p &&& HeaderMaskPacketType) = flag_fields p.
Proof.
  unfold flags_in_range, flag_fields, headerFlags. rewrite !andb_true_iff.
  intros [[[[H1 H2] H3] H4] H5].
  apply byte_lt_2 in H1, H2, H3. apply byte_lt_4 in H4, H5.
  destruct H1 as [-> | ->], H2 as [-> | ->], H3 as [-> | ->],
    H4 as [-> | [-> | [-> | ->]]], H5 as [-> | [-> | [-> | ->]]]; reflexivity.
Qed.

(** Re-encoding decoded flags keeps all but the unused top bit. *)
Lemma headerFlags_encode p f :
  flag_fields p = ((f &&& HeaderMaskHeaderType) >>> 6, (f &&& HeaderMaskContextFlag) >>> 5,
    (f &&& HeaderMaskTransportType) >>> 4, (f &&& HeaderMaskDestinationType) >>> 2,
    f &&& HeaderMaskPacketType) →
  headerFlags p = f &&& x7f.
Proof.
  unfold flag_fields, headerFlags. intros [= -> -> -> -> ->]. byte_cases f.
Qed.

Lemma header_type_decoded f :
  (f &&& HeaderMaskHeaderType) >>> 6 = HeaderType1
  ∨ (f &&& HeaderMaskHeaderType) >>> 6 = HeaderType2.
Proof. byte_cases f. Qed.

Lemma hashable_flags_7f f : (f &&& x7f) &&& HashableFlagsMask = f &&& HashableFlagsMask.
Proof. byte_cases f. Qed.

(** ** The hash *)

Lemma hashableInto_preimage p :
  raw p ≠ [] → hashableInto p = Ok (preimage (HeaderType p) (raw p)).
Proof.
  unfold hashableInto, preimage. destruct (raw p) as [|b r] eqn:Hr; [done|intros _].
  change (go_index 0 (b :: r)) with (Ok (E:=packet_error) b).
  unfold mbind, outcome_bind.
  destruct (decide _); case_match eqn:Hl; try done; f_equal; simpl app; f_equal;
    rewrite drop_ge; try done; apply Z.ltb_ge in Hl; unfold len, TruncatedHashLength in *; lia.
Qed.

Lemma updateHash_run p :
  raw p ≠ [] →
  updateHash p = (set_hash (Sha256.Sum256 (preimage (HeaderType p) (raw p))) true p, Ok ()).
Proof.
  intros H. unfold updateHash. autorewrite with goM.
  rewrite (hashableInto_preimage p H). by autorewrite with goM.
Qed.

(** ** Packing *)

Lemma wire_nonempty p : wire p ≠ [].
Proof. done. Qed.

(** The packet after a successful [Pack]. *)
Definition packed (b : buf) (p : packet) : packet :=
  set_hash (Sha256.Sum256 (preimage (HeaderType p) (wire p))) true (set_Packed true (set_Raw b p)).

Lemma Pack_run p :
  Packed p = false → packable p = true →
  ∃ b, content b = wire p ∧ Pack p = (packed b p, Ok ()).
Proof.
  intros Hp Hok. unfold packable in Hok. rewrite !andb_true_iff in Hok.
  destruct Hok as [[Hd Ht] Hl].
  unfold Pack. autorewrite with goM. rewrite Hp, Hd. autorewrite with goM.
  set (b := if _ <=? cap (Raw p) then _ else _).
  assert (Hc : content b = wire p).
  { subst b. unfold wire. destruct (_ <=? cap (Raw p)); [apply content_refill|apply content_fresh]. }
  exists b. split; [done|].
  assert (Hend : ∀ (m : goM packet packet_error ()), m p = (p, Ok ()) →
    (m ;; modify (set_Raw b) ;; p ← mget; guard_go (len (raw p) <=? MTU) ExceedsMTU ;;
     modify (set_Packed true) ;; modify invalidateHash ;; updateHash) p = (packed b p, Ok ())).
  { intros m Hm. erewrite run_bind_ok by exact Hm. autorewrite with goM.
    unfold raw at 1. simpl Raw. rewrite Hc, Hl. autorewrite with goM.
    rewrite updateHash_run; unfold raw; simpl Raw; rewrite Hc; [done|apply wire_nonempty]. }
  apply Hend. destruct (decide _); [|done].
  destruct (TransportID p); [|done]. by rewrite Ht.
Qed.

(** A packet that cannot be packed is an error. *)
Lemma Pack_no_panic p : (Pack p).2 ≠ Panic.
Proof.
  destruct (Packed p) eqn:Hp; [unfold Pack; autorewrite with goM; by rewrite Hp|].
  destruct (packable p) eqn:Hok; [destruct (Pack_run p Hp Hok) as (b & _ & ->); done|].
  unfold packable in Hok. unfold Pack. autorewrite with goM. rewrite Hp.
  destruct ((len (DestinationHash p) =? 0) || (len (DestinationHash p) =? TruncatedHashLength));
    autorewrite with goM; [|done].
  cbn [andb] in Hok. set (b := if _ <=? cap (Raw p) then _ else _).
  assert (Hc : content b = wire p).
  { subst b. unfold wire. destruct (_ <=? cap (Raw p)); [apply content_refill|apply content_fresh]. }
  assert (Hend : (len (wire p) <=? MTU) = false →
    ((modify (set_Raw b) ;; p ← mget; guard_go (len (raw p) <=? MTU) ExceedsMTU ;;
     modify (set_Packed true) ;; modify invalidateHash ;; updateHash : goM packet packet_error ()) p).2 ≠ Panic).
  { intros Hl. autorewrite with goM. unfold raw at 1. simpl Raw. rewrite Hc, Hl. by autorewrite with goM. }
  destruct (decide _).
  - destruct (TransportID p) as [tid|]; autorewrite with goM; [|done].
    destruct (len tid =? TruncatedHashLength); autorewrite with goM; [by apply Hend|done].
  - autorewrite with goM. by apply Hend.
Qed.

(** ** Unpacking *)

Definition headerTypeOf (f : byte) : byte := (f &&& HeaderMaskHeaderType) >>> 6.

(** The wire image split at the field boundaries; [tid] is empty in header
    type 1. *)
Definition frame (f h : byte) (tid dh : bytes) (ctx : byte) (data : bytes) : bytes :=
  [f; h] ++ tid ++ dh ++ [ctx] ++ data.

Definition frame_ok (f h : byte) (tid dh : bytes) : bool :=
  (len dh =? TruncatedHashLength) && (b2z h <? PathfinderM)
  && (len tid =? if decide (headerTypeOf f = HeaderType2) then TruncatedHashLength else 0).

(** Exactly the inputs [Unpack] accepts. *)
Definition unpackable (r : bytes) : bool :=
  match r with
  | f :: h :: _ =>
      (b2z h <? PathfinderM) && (len r <=? MaxInboundPacketSize)
      && ((if decide (headerTypeOf f = HeaderType2) then 2 * TruncatedHashLength
           else TruncatedHashLength) + MinPacketSize <=? len r)
  | _ => false
  end.

Lemma unpackable_frame r :
  unpackable r = true ↔
  ∃ f h tid dh ctx data, r = frame f h tid dh ctx data ∧ frame_ok f h tid dh = true
    ∧ len r <= MaxInboundPacketSize.
Proof.
  split.
  - destruct r as [|f [|h r]]; [done..|]. unfold unpackable, frame_ok.
    rewrite !andb_true_iff, Z.leb_le, Z.leb_le. intros [[Hh Hm] Hl].
    set (n := Z.to_nat (if decide (headerTypeOf f = HeaderType2)
                        then TruncatedHashLength else 0)).
    assert (Hn : Z.of_nat n + 17 <= len r).
    { subst n. rewrite !len_cons in Hl. unfold MinPacketSize, TruncatedHashLength in *.
      destruct (decide _); lia. }
    destruct (drop (n + 16) r) as [|ctx data] eqn:Hd.
    { apply (f_equal len) in Hd. rewrite len_drop in Hd. change (len []) with 0 in Hd. lia. }
    exists f, h, (take n r), (take 16 (drop n r)), ctx, data.
    rewrite Hh, !andb_true_iff, !Z.eqb_eq, !len_take, len_drop.
    unfold frame, TruncatedHashLength in *. split_and!; [|lia|done| |done].
    + change ([ctx] ++ data) with (ctx :: data). rewrite <- Hd, <- drop_drop, !take_drop. done.
    + subst n. destruct (decide _); lia.
  - intros (f & h & tid & dh & ctx & data & -> & Hok & Hm).
    unfold frame_ok in Hok. rewrite !andb_true_iff, !Z.eqb_eq in Hok.
    destruct Hok as [[Hd Hh] Ht]. unfold unpackable, frame. cbn [app].
    rewrite Hh. unfold frame in *. len_simpl. rewrite (proj2 (Z.leb_le _ _)) by lia.
    apply Z.leb_le. unfold MinPacketSize, TruncatedHashLength in *.
    pose proof (len_nonneg data). destruct (decide _); lia.
Qed.

(** The packet after a successful [Unpack]. *)
Definition unpacked (f h : byte) (tid dh : bytes) (ctx : byte) (data : bytes) (p : packet)
    : packet :=
  let ht := headerTypeOf f in
  set_hash (Sha256.Sum256 (preimage ht (raw p))) true
    (set_Packed false
      (set_body (if decide (ht = HeaderType2) then Some tid else None) dh ctx data
        (set_flag_fields ht ((f &&& HeaderMaskContextFlag) >>> 5)
          ((f &&& HeaderMaskTransportType) >>> 4) ((f &&& HeaderMaskDestinationType) >>> 2)
          (f &&& HeaderMaskPacketType) (set_Hops h p)))).

(** Slicing a frame at its field boundaries. *)
Lemma frame_slices f h tid dh ctx data :
  let r := frame f h tid dh ctx data in
  len dh = 16 →
  len r = len tid + 19 + len data
  ∧ slice 2 (len tid + 2) r = tid
  ∧ slice (len tid + 2) (len tid + 18) r = dh
  ∧ r !! Z.to_nat (len tid + 18) = Some ctx
  ∧ slice (len tid + 19) (len r) r = data.
Proof.
  intros r Hd. assert (Hlen : len r = len tid + 19 + len data).
  { subst r. unfold frame. len_simpl. lia. }
  pose proof (len_nonneg tid). pose proof (len_nonneg data).
  split_and!; [done|..].
  - subst r. unfold frame. apply slice_app_mid; [done|]. len_simpl. lia.
  - subst r. unfold frame. rewrite (app_assoc [f; h]).
    apply slice_app_mid; len_simpl; lia.
  - subst r. unfold frame. rewrite !app_assoc, <- (app_assoc _ [ctx] data).
    apply lookup_app_mid. rewrite !length_app. unfold len in *. simpl. lia.
  - rewrite slice_to_end by lia. subst r. unfold frame. rewrite !app_assoc.
    apply drop_app_mid. rewrite !length_app. unfold len in *. simpl. lia.
Qed.

Lemma Unpack_run p f h tid dh ctx data :
  raw p = frame f h tid dh ctx data → frame_ok f h tid dh = true →
  len (raw p) <= MaxInboundPacketSize →
  Unpack p = (unpacked f h tid dh ctx data p, Ok ()).
Proof.
  intros Hr Hok Hm. unfold frame_ok in Hok. rewrite !andb_true_iff, !Z.eqb_eq in Hok.
  destruct Hok as [[Hd Hh] Ht].
  destruct (frame_slices f h tid dh ctx data Hd) as (Hlen & S1 & S2 & S3 & S4).
  rewrite <- Hr in *. pose proof (len_nonneg data). pose proof (len_nonneg tid).
  unfold Unpack. autorewrite with goM.
  rewrite (proj2 (Z.leb_le MinPacketSize _)) by (unfold MinPacketSize; lia).
  rewrite (proj2 (Z.leb_le _ MaxInboundPacketSize)) by lia. autorewrite with goM.
  replace (go_index 0 (raw p)) with (Ok (E:=packet_error) f) by (rewrite Hr; done).
  replace (go_index 1 (raw p)) with (Ok (E:=packet_error) h) by (rewrite Hr; done).
  autorewrite with goM. rewrite Hh. autorewrite with goM. fold (headerTypeOf f).
  unfold TruncatedHashLength, MinPacketSize in *.
  change (2 * 16) with 32. change (16 + 3) with 19. change (16 + 2) with 18.
  change (32 + 3) with 35. change (32 + 2) with 34.
  assert (Hne : content (Raw p) ≠ []) by (unfold raw in Hr; by rewrite Hr).
  destruct (decide (headerTypeOf f = HeaderType2)) as [E|E]; autorewrite with goM.
  - rewrite Ht in *. change (16 + 2) with 18 in *. change (16 + 18) with 34 in *.
    change (16 + 19) with 35 in *.
    rewrite (proj2 (Z.leb_le _ _)) by lia. autorewrite with goM.
    rewrite !go_slice_Ok, (go_index_Some _ _ ctx) by (done || lia). autorewrite with goM.
    rewrite updateHash_run by done. unfold unpacked. by rewrite decide_True, S1, S2, S4 by done.
  - rewrite Ht in *. change (0 + 2) with 2 in *. change (0 + 18) with 18 in *.
    change (0 + 19) with 19 in *.
    rewrite (proj2 (Z.leb_le _ _)) by lia. autorewrite with goM.
    rewrite !go_slice_Ok, (go_index_Some _ _ ctx) by (done || lia). autorewrite with goM.
    rewrite updateHash_run by done. unfold unpacked. by rewrite decide_False, S2, S4 by done.
Qed.

(** The error [Unpack] returns on a given input: the first bound violated, in
    the order of its checks. *)
Definition unpack_error (r : bytes) : option packet_error :=
  if negb (MinPacketSize <=? len r) then Some TooShort
  else if negb (len r <=? MaxInboundPacketSize) then Some TooLarge
  else match r with
       | f :: h :: _ =>
           if negb (b2z h <? PathfinderM) then Some (InvalidHopCount h)
           else if decide (headerTypeOf f = HeaderType2) then
             if negb (2 * TruncatedHashLength + MinPacketSize <=? len r)
             then Some TooShortHeaderType2 else None
           else if negb (TruncatedHashLength + MinPacketSize <=? len r)
           then Some TooShortHeaderType1 else None
       | _ => Some TooShort
       end.

Lemma unpack_error_None r : unpack_error r = None ↔ unpackable r = true.
Proof.
  unfold unpack_error, unpackable.
  destruct r as [|f [|h r]]; [done..|]. set (l := len (f :: h :: r)).
  destruct (MinPacketSize <=? l) eqn:Hmin.
  - clear Hmin. destruct (l <=? MaxInboundPacketSize), (b2z h <? PathfinderM), (decide _);
      cbn [negb andb]; try done; by destruct (_ <=? l).
  - apply Z.leb_gt in Hmin. unfold MinPacketSize, TruncatedHashLength in *.
    destruct (decide _); rewrite (proj2 (Z.leb_gt _ l)) by lia; by rewrite andb_false_r.
Qed.

Lemma Unpack_rejects p e :
  unpack_error (raw p) = Some e → ∃ p', Unpack p = (p', Err e).
Proof.
  intros He. unfold Unpack, unpack_error in *. autorewrite with goM.
  destruct (MinPacketSize <=? len (raw p)) eqn:Hmin; autorewrite with goM;
    [|simplify_eq/=; eauto].
  destruct (len (raw p) <=? MaxInboundPacketSize) eqn:Hmax; autorewrite with goM;
    [|simplify_eq/=; eauto].
  cbn [negb] in He. destruct (raw p) as [|f [|h r]] eqn:Hr; [done..|]. rewrite <- Hr in *.
  replace (go_index 0 (raw p)) with (Ok (E:=packet_error) f) by (rewrite Hr; done).
  replace (go_index 1 (raw p)) with (Ok (E:=packet_error) h) by (rewrite Hr; done).
  autorewrite with goM. fold (headerTypeOf f).
  destruct (b2z h <? PathfinderM); autorewrite with goM; [|simplify_eq/=; eauto].
  cbn [negb] in He. clear Hmin. destruct (decide _); autorewrite with goM;
    destruct (_ <=? len (raw p)); cbn [negb] in He; try done;
    autorewrite with goM; simplify_eq/=; eauto.
Qed.

Lemma packet_ok_frame p :
  packet_ok p = true →
  wire p = frame (headerFlags p) (Hops p) (default [] (wireTransportID p))
             (DestinationHash p) (Context p) (Data p)
  ∧ frame_ok (headerFlags p) (Hops p) (default [] (wireTransportID p)) (DestinationHash p) = true
  ∧ len (wire p) <= MTU
  ∧ (HeaderType p = HeaderType2 → ∃ t, TransportID p = Some t).
Proof.
  unfold packet_ok, packable, frame_ok, wire, frame, wireTransportID.
  rewrite !andb_true_iff, Z.leb_le. intros [[[[[_ Ht] Hm] Hf] Hd] Hh].
  apply headerFlags_decode in Hf. unfold flag_fields in Hf. injection Hf as Hf _ _ _ _.
  unfold headerTypeOf. rewrite Hf.
  destruct (decide (HeaderType p = HeaderType2)) as [E|E].
  - destruct (TransportID p); [|done]. simpl in *. split_and!; eauto.
  - split_and!; done.
Qed.

(** C29.  Pack/unpack round trip: a sender's packet (header fields within their
    bit widths, 16-byte destination hash, a transport id when header type 2,
    at most [MTU] bytes on the wire) packs without error, and any receiver
    holding these bytes unpacks the same fields and the same packet hash.  The
    transport id survives in header type 2 only. *)
Theorem pack_unpack_roundtrip p q :
  Packed p = false → packet_ok p = true → raw q = wire p →
  ∃ p' q', Pack p = (p', Ok ()) ∧ raw p' = wire p ∧ Unpack q = (q', Ok ())
    ∧ flag_fields q' = flag_fields p ∧ body_fields q' = body_fields p
    ∧ PacketHash q' = PacketHash p'.
Proof.
  intros Hp Hok Hq. destruct (packet_ok_frame p Hok) as (Hw & Hf & Hm & Ht).
  pose proof Hok as Hfl. unfold packet_ok in Hfl. rewrite !andb_true_iff in Hfl.
  destruct Hfl as [[[Hpk Hfl] _] _]. apply headerFlags_decode in Hfl as Hd.
  destruct (Pack_run p Hp Hpk) as (b & Hb & HP). rewrite HP.
  eexists _, _. split_and!; [reflexivity|exact Hb|..].
  { apply (Unpack_run q _ _ _ _ _ _ (eq_trans Hq Hw) Hf). rewrite Hq. unfold MTU, MaxInboundPacketSize in *. lia. }
  all: unfold flag_fields in Hd |- *; injection Hd as H1 H2 H3 H4 H5.
  all: fold (headerTypeOf (headerFlags p)) in H1.
  - unfold unpacked. packet_simpl. by rewrite H1, H2, H3, H4, H5.
  - unfold body_fields, unpacked, wireTransportID in *. packet_simpl. rewrite H1.
    destruct (decide _) as [E|E]; [|done]. by destruct (Ht E) as [t ->].
  - unfold unpacked, packed. packet_simpl. by rewrite H1, Hq.
Qed.

(** Re-serialising a received packet: every frame of at most [MTU] bytes
    that [Unpack] accepts packs back to the same bytes, except that the unused
    top flag bit is cleared, and to the same packet hash. *)
Theorem unpack_pack_roundtrip p p' :
  Unpack p = (p', Ok ()) → len (raw p) <= MTU →
  ∃ p'', Pack p' = (p'', Ok ()) ∧ PacketHash p'' = PacketHash p'
    ∧ raw p'' = match raw p with f :: r => (f &&& x7f) :: r | [] => [] end.
Proof.
  intros HU Hm.
  destruct (unpack_error (raw p)) as [e|] eqn:Hu;
    [destruct (Unpack_rejects p e Hu) as (? & He); by rewrite He in HU|].
  apply unpack_error_None, unpackable_frame in Hu as (f & h & tid & dh & ctx & data & Hr & Hok & Hmax).
  rewrite (Unpack_run _ _ _ _ _ _ _ Hr Hok Hmax) in HU. injection HU as <-.
  set (q := unpacked f h tid dh ctx data p).
  assert (Hhf : headerFlags q = f &&& x7f) by (apply headerFlags_encode; done).
  unfold frame_ok in Hok. rewrite !andb_true_iff, !Z.eqb_eq in Hok.
  destruct Hok as [[Hd Hh] Ht].
  assert (Hwire : wire q = (f &&& x7f) :: tail (raw p)).
  { rewrite Hr. unfold wire, frame. rewrite Hhf. subst q. unfold unpacked. packet_simpl.
    destruct (decide _); [done|]. apply len_0_nil in Ht. by subst tid. }
  destruct (Pack_run q) as (b & Hb & HP); [done| |].
  { unfold packable. rewrite Hwire. subst q. unfold unpacked. packet_simpl.
    rewrite Hd, orb_true_r, andb_true_l. rewrite Hr in *. unfold frame in *.
    destruct (decide _); [rewrite Ht, Z.eqb_refl, andb_true_l|];
      apply Z.leb_le; cbn [tail app]; len_simpl; lia. }
  exists (packed b q). rewrite HP. split_and!; [done| |].
  - unfold packed. packet_simpl. rewrite Hwire. subst q. unfold unpacked. packet_simpl.
    f_equal. rewrite Hr. unfold frame, preimage. simpl app.
    rewrite hashable_flags_7f. f_equal. by destruct (decide _).
  - change (raw (packed b q)) with (content b). by rewrite Hb, Hwire, Hr.
Qed.

(** C30.  [Unpack] is total: on every input it returns, without a run-time
    panic, and it returns an error exactly when a bound is violated, the first
    one in the order [unpack_error] lists. *)
Theorem Unpack_total p :
  snd (Unpack p) = match unpack_error (raw p) with Some e => Err e | None => Ok () end.
Proof.
  destruct (unpack_error (raw p)) as [e|] eqn:He.
  - destruct (Unpack_rejects p e He) as (p' & ->). done.
  - apply unpack_error_None, unpackable_frame in He
      as (f & h & tid & dh & ctx & data & Hr & Hok & Hmax).
    by rewrite (Unpack_run _ _ _ _ _ _ _ Hr Hok Hmax).
Qed.

(** ** The in-place path *)

Lemma nextRawWireCap_ge need : need <= nextRawWireCap need.
Proof.
  unfold nextRawWireCap. repeat case_match; rewrite ?Z.ltb_lt, ?Z.ltb_ge in *; try lia.
  pose proof (Z.div_mod (need + 64 - 1) 64). pose proof (Z.mod_pos_bound (need + 64 - 1) 64).
  lia.
Qed.

Definition ht1_header (p : packet) (destHash : bytes) : bytes :=
  [headerFlags p; Hops p] ++ destHash ++ [Context p].

Lemma ht1_header_length p dh :
  len dh = TruncatedHashLength → length (ht1_header p dh) = 19%nat.
Proof.
  intros. unfold ht1_header. rewrite !length_app. unfold len, TruncatedHashLength in *.
  simpl. lia.
Qed.

(** A successful preparation: the header, then whatever the buffer held. *)
Lemma PrepareHT1Buffer_run p destHash n :
  HeaderType p = HeaderType1 → len destHash = TruncatedHashLength →
  0 <= n → HeaderType1Overhead + n <= MTU →
  ∃ rest, let b := Buf (ht1_header p destHash ++ rest) (Z.to_nat (HeaderType1Overhead + n)) in
    let data := drop 19 (content b) in
    n <= len rest
    ∧ PrepareHT1Buffer destHash n p =
      (invalidateHash (set_Packed false
         (set_body (TransportID p) destHash (Context p) data (set_Raw b p))), Ok data).
Proof.
  intros Hht Hd Hn Hm. set (need := HeaderType1Overhead + n) in *.
  assert (Hneed : need = 19 + n) by done.
  set (b0 := if cap (Raw p) <? need
      then Buf (replicate (Z.to_nat (nextRawWireCap need)) x00) (Z.to_nat need)
      else Buf (cells (Raw p)) (Z.to_nat need)).
  assert (Hu : used b0 = Z.to_nat need) by (subst b0; by destruct (cap (Raw p) <? need)).
  assert (Hc : need <= len (cells b0)).
  { subst b0. destruct (cap (Raw p) <? need) eqn:Hc; cbn [cells].
    - rewrite len_replicate. pose proof (nextRawWireCap_ge need). lia.
    - by apply Z.ltb_ge in Hc. }
  exists (drop 19 (cells b0)). split; [rewrite len_drop; lia|].
  unfold PrepareHT1Buffer. autorewrite with goM.
  rewrite Hd, Z.eqb_refl, bool_decide_eq_true_2 by done. autorewrite with goM.
  fold need. rewrite (proj2 (Z.leb_le _ _)) by done. autorewrite with goM.
  rewrite (proj2 (Z.ltb_ge _ _)) by (unfold HeaderType1Overhead, TruncatedHashLength; lia).
  fold b0. autorewrite with goM. rewrite Hu. done.
Qed.

(** Writing the payload into the prepared region gives the wire image. *)
Lemma fill_payload_content header rest payload n p :
  length header = 19%nat → n = (19 + length payload)%nat →
  len payload <= len rest → Raw p = Buf (header ++ rest) n →
  raw (fill_payload payload p) = header ++ payload.
Proof.
  intros Hh -> Hl HR. unfold raw, fill_payload. packet_simpl. rewrite HR.
  cbn [content cells used]. unfold HeaderType1Overhead, TruncatedHashLength.
  change (Z.to_nat (2 + 16 + 1)) with 19%nat.
  rewrite (take_app_mid header rest) by done. unfold content. cbn [cells used].
  rewrite app_assoc. apply take_app_mid. rewrite length_app. lia.
Qed.

Lemma CommitPacked_run p :
  raw p ≠ [] → len (raw p) <= MTU →
  CommitPacked p =
    (set_hash (Sha256.Sum256 (preimage (HeaderType p) (raw p))) true (set_Packed true p), Ok ()).
Proof.
  intros Hne Hl. unfold CommitPacked. autorewrite with goM.
  rewrite (proj2 (Z.leb_le _ _) Hl). autorewrite with goM. by rewrite updateHash_run.
Qed.

(** The in-place path equals [Pack]: preparing the buffer for a payload,
    filling the returned region and committing puts the same bytes on the wire,
    with the same packet hash, as packing the packet with that destination and
    payload, whatever the buffer held before. *)
Theorem inplace_equals_Pack p destHash payload :
  let want := set_body (TransportID p) destHash (Context p) payload (set_Packed false p) in
  HeaderType p = HeaderType1 → len destHash = TruncatedHashLength →
  HeaderType1Overhead + len payload <= MTU →
  ∃ p1 region p2 p3,
    PrepareHT1Buffer destHash (len payload) p = (p1, Ok region) ∧ len region = len payload
    ∧ CommitPacked (fill_payload payload p1) = (p2, Ok ())
    ∧ Pack want = (p3, Ok ())
    ∧ raw p2 = raw p3 ∧ PacketHash p2 = PacketHash p3 ∧ Data p2 = Data p3
    ∧ DestinationHash p2 = DestinationHash p3.
Proof.
  intros want Hht Hd Hm.
  destruct (PrepareHT1Buffer_run p destHash (len payload) Hht Hd (len_nonneg _) Hm)
    as (rest & Hrest & HP).
  assert (Hw : wire want = ht1_header p destHash ++ payload).
  { subst want. unfold wire, ht1_header. packet_simpl. rewrite Hht.
    rewrite decide_False by done. by rewrite <- !app_assoc. }
  assert (Hwl : len (wire want) <= MTU).
  { rewrite Hw, len_app. unfold len at 1. rewrite ht1_header_length by done. exact Hm. }
  destruct (Pack_run want) as (b & Hb & HPk); [done| |].
  { unfold packable. rewrite (proj2 (Z.leb_le _ _) Hwl). subst want. packet_simpl.
    rewrite Hd, Hht, decide_False by done. done. }
  set (p1 := invalidateHash _) in HP.
  assert (Hraw : raw (fill_payload payload p1) = ht1_header p destHash ++ payload).
  { eapply fill_payload_content; [by apply ht1_header_length| |exact Hrest|reflexivity].
    unfold HeaderType1Overhead, TruncatedHashLength, len. lia. }
  eexists _, _, _, _. split_and!; [exact HP| | |exact HPk|..].
  { unfold content. cbn [cells used]. rewrite len_drop, len_take, len_app.
    pose proof (ht1_header_length p destHash Hd) as Hhl. apply (f_equal Z.of_nat) in Hhl.
    fold (len (ht1_header p destHash)) in Hhl. pose proof (len_nonneg payload).
    unfold HeaderType1Overhead, TruncatedHashLength. lia. }
  1: apply CommitPacked_run; rewrite Hraw, <- Hw; done.
  all: unfold packed, raw in *; packet_simpl; rewrite ?Hraw, ?Hb, ?Hw; try done.
Qed.

(** ** Frame summaries *)

Lemma hex2_pair b : ∃ c1 c2, hex2 b = String c1 (String c2 EmptyString).
Proof. destruct b; eexists _, _; reflexivity. Qed.

Definition hex_value (s : string) : Z :=
  default 0 (head (filter (λ z, hex2 (z2b z) = s) (seqZ 0 256))).

Lemma hex2_value b : hex_value (hex2 b) = b2z b.
Proof. byte_cases b. Qed.

#[global] Instance hex2_inj : Inj (=) (=) hex2.
Proof. intros a b H. apply (f_equal hex_value) in H. rewrite !hex2_value in H. by apply b2z_inj. Qed.

#[global] Instance hexEncode_inj : Inj (=) (=) hexEncode.
Proof.
  intros l. induction l as [|a l IH]; intros [|b k]; simpl; [done| | |].
  - destruct (hex2_pair b) as (c1 & c2 & ->). done.
  - destruct (hex2_pair a) as (c1 & c2 & ->). done.
  - destruct (hex2_pair a) as (a1 & a2 & Ha), (hex2_pair b) as (b1 & b2 & Hb).
    rewrite Ha, Hb. cbn [String.append]. intros [= -> -> H].
    f_equal; [|by apply IH]. apply hex2_inj. by rewrite Ha, Hb.
Qed.

Lemma unpackable_min r : unpackable r = true → MinPacketSize <= len r.
Proof.
  intros (f & h & tid & dh & ctx & data & -> & _ & _)%unpackable_frame.
  unfold frame, MinPacketSize. len_simpl.
  pose proof (len_nonneg tid). pose proof (len_nonneg dh). pose proof (len_nonneg data). lia.
Qed.

Lemma raw_packet_of_raw r : raw (packet_of_raw r) = r.
Proof. apply content_buf_of. Qed.

(** The three results of [DecodeFrame]. *)
Lemma DecodeFrame_cases r :
  ∃ fr, DecodeFrame r = Ok fr ∧ fOK fr = unpackable r
    ∧ fRawHex fr = hexEncode r ∧ fRawLen fr = len r
    ∧ (fError fr = ""%string ↔ unpackable r = true).
Proof.
  unfold DecodeFrame.
  assert (Hhex : (if 0 <? len r then hexEncode r else ""%string) = hexEncode r).
  { destruct r; [done|]. rewrite (proj2 (Z.ltb_lt _ _)); [done|]. rewrite len_cons.
    pose proof (len_nonneg r). lia. }
  rewrite Hhex. destruct (len r <? MinPacketSize) eqn:Hmin.
  - apply Z.ltb_lt in Hmin. eexists. split; [done|]. cbn [fOK fRawHex fRawLen fError].
    destruct (unpackable r) eqn:Hu; [apply unpackable_min in Hu; lia|]. done.
  - apply Z.ltb_ge in Hmin. unfold MinPacketSize in Hmin.
    destruct r as [|f [|h r']]; [done..|]. set (r := f :: h :: r') in *.
    change (go_index 0 r) with (Ok (E:=packet_error) f).
    change (go_index 1 r) with (Ok (E:=packet_error) h).
    pose proof (raw_packet_of_raw r) as Hraw.
    destruct (unpack_error r) as [e|] eqn:He.
    + destruct (Unpack_rejects (packet_of_raw r) e) as [p' ->]; [by rewrite Hraw|].
      rewrite (proj2 (Z.ltb_lt 1 _)) by lia. eexists. split; [reflexivity|]. cbn [fOK fRawHex fRawLen fError].
      destruct (unpackable r) eqn:Hu; [apply unpack_error_None in Hu; congruence|].
      by destruct e.
    + apply unpack_error_None in He as Hu. rewrite Hu.
      apply unpackable_frame in Hu as (? & ? & tid & dh & ctx & data & Hr & Hok & Hmax).
      rewrite (Unpack_run (packet_of_raw r) _ _ tid dh ctx data) by (by rewrite ?Hraw).
      eexists. split; [reflexivity|]. done.
Qed.

(** [DecodeFrame] never panics, reports success exactly on the frames
    [Unpack] accepts, and its summary determines the frame: two inputs with
    the same summary are the same bytes. *)
Theorem DecodeFrame_faithful r1 r2 :
  ∃ f1 f2, DecodeFrame r1 = Ok f1 ∧ DecodeFrame r2 = Ok f2
    ∧ (fOK f1 = true ↔ snd (Unpack (packet_of_raw r1)) = Ok ())
    ∧ (f1 = f2 ↔ r1 = r2).
Proof.
  destruct (DecodeFrame_cases r1) as (f1 & H1 & Hok & Hx1 & _).
  destruct (DecodeFrame_cases r2) as (f2 & H2 & _ & Hx2 & _).
  exists f1, f2. split_and!; [done..| |].
  - rewrite Hok, <- unpack_error_None. destruct (unpack_error r1) as [e|] eqn:He.
    + destruct (Unpack_rejects (packet_of_raw r1) e) as [p' ->];
        [by rewrite raw_packet_of_raw|]. split; intros; simplify_eq/=.
    + split; [intros _|done]. apply unpack_error_None, unpackable_frame in He
        as (f & h & tid & dh & ctx & data & Hr & Hfo & Hmax).
      by rewrite (Unpack_run _ f h tid dh ctx data) by (by rewrite ?raw_packet_of_raw).
  - split; [|congruence]. intros <-. apply hexEncode_inj. congruence.
Qed.

(** ** Concrete packets *)

Definition sample_hash : bytes := z2b <$> seqZ 1 16.
Definition sample_tid : bytes := z2b <$> seqZ 101 16.

(** A transport-routed data packet, three hops along. *)
Definition sample_packet : packet :=
  set_Hops x03 (set_body (Some sample_tid) sample_hash x00 [x68; x69]
    (NewPacket DestinationSingle [] PacketTypeData ContextNone PropagationTransport
       HeaderType2 (Some sample_tid) false x00)).

Lemma pack_unpack_roundtrip_witness :
  ∃ p' q', Pack sample_packet = (p', Ok ()) ∧ raw p' = wire sample_packet
    ∧ Unpack (packet_of_raw (wire sample_packet)) = (q', Ok ())
    ∧ flag_fields q' = flag_fields sample_packet
    ∧ body_fields q' = body_fields sample_packet ∧ PacketHash q' = PacketHash p'.
Proof. apply pack_unpack_roundtrip; vm_compute; reflexivity. Defined.

Lemma unpack_pack_roundtrip_witness :
  ∃ p'', Pack (fst (Unpack (packet_of_raw (wire sample_packet)))) = (p'', Ok ())
    ∧ PacketHash p'' = PacketHash (fst (Unpack (packet_of_raw (wire sample_packet))))
    ∧ raw p'' = match raw (packet_of_raw (wire sample_packet)) with
                | f :: r => (f &&& x7f) :: r | [] => [] end.
Proof. apply unpack_pack_roundtrip; [vm_compute; reflexivity|vm_compute; discriminate]. Defined.

Lemma inplace_equals_Pack_witness :
  ∃ p1 region p2 p3,
    PrepareHT1Buffer sample_hash (len [x68; x69]) (packet_of_raw sample_tid) = (p1, Ok region)
    ∧ len region = len [x68; x69]
    ∧ CommitPacked (fill_payload [x68; x69] p1) = (p2, Ok ())
    ∧ Pack (set_body None sample_hash x00 [x68; x69]
              (set_Packed false (packet_of_raw sample_tid))) = (p3, Ok ())
    ∧ raw p2 = raw p3 ∧ PacketHash p2 = PacketHash p3 ∧ Data p2 = Data p3
    ∧ DestinationHash p2 = DestinationHash p3.
Proof.
  apply (inplace_equals_Pack (packet_of_raw sample_tid) sample_hash [x68; x69]);
    [reflexivity|reflexivity|vm_compute; discriminate].
Defined.

End Packet.
