(* ===== verification/Hdlc.v ===== *)
(** * HDLC framing

    The byte-stuffing of [pkg/backbone/hdlc.go] and [pkg/interfaces/tcp.go],
    and the two incremental decoders: [backbone.HDLCDecoder] and
    [interfaces.hdlcStreamDecoder].  Both run the same bulk loop over a
    byte-at-a-time state machine; the loop and the framing theorems are stated
    once, against the interface [Assembler], and each decoder discharges it. *)

From S2P Require Import Prelude.

Module Hdlc.
Local Open Scope go_scope.

Definition hdlcFlag : byte := x7e.
Definition hdlcEsc : byte := x7d.
Definition hdlcEscMask : byte := x20.

(** ** Byte stuffing *)

Definition appendEscapeHDLC (dst data : bytes) : bytes :=
  foldl (λ dst b,
    if bool_decide (b = hdlcFlag) || bool_decide (b = hdlcEsc)
    then dst ++ [hdlcEsc; b ^^^ hdlcEscMask] else dst ++ [b]) dst data.

Definition escapeHDLC (data : bytes) : bytes := appendEscapeHDLC [] data.

Definition appendFrameHDLC (dst payload : bytes) : bytes :=
  let dst := dst ++ [hdlcFlag] in
  let dst := appendEscapeHDLC dst payload in
  dst ++ [hdlcFlag].

Definition frameHDLC (payload : bytes) : bytes := appendFrameHDLC [] payload.

Definition unescapeHDLC (data : bytes) : bytes :=
  fst (foldl (λ '(out, escape) b,
    if (escape : bool) then (out ++ [b ^^^ hdlcEscMask], false)
    else if decide (b = hdlcEsc) then (out, true)
    else (out ++ [b], false)) ([], false) data).

(** [bytes.IndexByte]: the first position of [c], or -1. *)
Definition IndexByte (l : bytes) (c : byte) : Z :=
  match list_find (λ b, b = c) l with
  | Some (i, _) => Z.of_nat i
  | None => -1
  end.

(** ** The decoder interface *)

(** The part of a decoder's state that the framing changes. *)
Record core := Core { inFrame : bool; escape : bool; data : bytes }.

(** [feedByte] and [appendRun] are the decoder's own methods; [limit] bounds the
    assembled payload, [accepts] tells which ones are delivered, [afterFrame] is
    [inFrame] after a closing flag. A call returns the frames it delivered. *)
Class Assembler (D : Type) := {
  get : D → core;
  put : core → D → D;
  limit : D → Z;
  accepts : D → bytes → bool;
  afterFrame : D → bool;
  feedByte : byte → D → D * list bytes;
  appendRun : bytes → D → D
}.

Class AssemblerLaws (D : Type) `{Assembler D} := {
  get_put : ∀ c d, get (put c d) = c;
  put_get : ∀ d, put (get d) d = d;
  put_put : ∀ c c' d, put c (put c' d) = put c d;
  limit_put : ∀ c d, limit (put c d) = limit d;
  accepts_put : ∀ c d, accepts (put c d) = accepts d;
  afterFrame_put : ∀ c d, afterFrame (put c d) = afterFrame d;
  accepts_nil : ∀ d, accepts d [] = false;
  (** outside a frame only a flag has an effect *)
  feed_skip : ∀ d b, inFrame (get d) = false → b ≠ hdlcFlag → feedByte b d = (d, []);
  feed_open : ∀ d e, get d = Core false e [] →
    feedByte hdlcFlag d = (put (Core true false []) d, []);
  feed_close : ∀ d e l, get d = Core true e l →
    feedByte hdlcFlag d =
      (put (Core (afterFrame d) false []) d, if accepts d l then [l] else []);
  feed_esc : ∀ d e l, get d = Core true e l →
    feedByte hdlcEsc d = (put (Core true true l) d, []);
  feed_data : ∀ d e l b, get d = Core true e l → b ≠ hdlcFlag → b ≠ hdlcEsc →
    feedByte b d =
      (put (if limit d <=? len l then Core false false []
            else Core true false (l ++ [if e then b ^^^ hdlcEscMask else b])) d, []);
  appendRun_data : ∀ d l run, get d = Core true false l → run ≠ [] →
    appendRun run d =
      put (if limit d <? len l + len run then Core false false []
           else Core true false (l ++ run)) d
}.

Section loop.
Context {D : Type} `{Assembler D}.

(** The reference: one byte at a time. *)
Fixpoint feedBytes (d : D) (buf : bytes) : D * list bytes :=
  match buf with
  | [] => (d, [])
  | b :: buf =>
      let '(d, o) := feedByte b d in
      let '(d, o') := feedBytes d buf in (d, o ++ o')
  end.

(** The loop of [Feed]: runs between flags and escapes are appended in bulk,
    bytes between frames are skipped in bulk.  [None] is running out of fuel. *)
Fixpoint feedLoop (fuel : nat) (d : D) (buf : bytes) : option (D * list bytes) :=
  match buf, fuel with
  | [], _ => Some (d, [])
  | _, O => None
  | b :: rest, S fuel =>
      if escape (get d) then
        let '(d, o) := feedByte b d in
        '(d, o') ← feedLoop fuel d rest; Some (d, o ++ o')
      else if negb (inFrame (get d)) then
        let i := IndexByte buf hdlcFlag in
        if i <? 0 then Some (d, [])
        else
          let '(d, o) := feedByte hdlcFlag d in
          '(d, o') ← feedLoop fuel d (drop (Z.to_nat i + 1) buf); Some (d, o ++ o')
      else
        let iFlag := IndexByte buf hdlcFlag in
        let iEsc := IndexByte buf hdlcEsc in
        let next := len buf in
        let next := if (0 <=? iFlag) && (iFlag <? next) then iFlag else next in
        let next := if (0 <=? iEsc) && (iEsc <? next) then iEsc else next in
        if 0 <? next then
          feedLoop fuel (appendRun (take (Z.to_nat next) buf) d) (drop (Z.to_nat next) buf)
        else
          let '(d, o) := feedByte b d in
          '(d, o') ← feedLoop fuel d rest; Some (d, o ++ o')
  end.

Definition feed (d : D) (buf : bytes) : option (D * list bytes) :=
  feedLoop (length buf) d buf.

(** Successive reads of the connection. *)
Fixpoint feedAll (d : D) (chunks : list bytes) : option (D * list bytes) :=
  match chunks with
  | [] => Some (d, [])
  | c :: chunks =>
      '(d, o) ← feed d c; '(d, o') ← feedAll d chunks; Some (d, o ++ o')
  end.

End loop.

(** ** The bulk loop is the byte loop *)

Definition plain (b : byte) : Prop := b ≠ hdlcFlag ∧ b ≠ hdlcEsc.

Lemma IndexByte_neg l c : IndexByte l c < 0 → Forall (λ b, b ≠ c) l.
Proof.
  unfold IndexByte. destruct (list_find _ l) as [[i b]|] eqn:Hf; [lia|intros _].
  by apply list_find_None in Hf.
Qed.

Lemma IndexByte_pos l c :
  0 <= IndexByte l c →
  Forall (λ b, b ≠ c) (take (Z.to_nat (IndexByte l c)) l)
  ∧ l !! Z.to_nat (IndexByte l c) = Some c.
Proof.
  unfold IndexByte. destruct (list_find _ l) as [[i b]|] eqn:Hf; [|lia]. intros _.
  rewrite Nat2Z.id. apply list_find_Some in Hf as (Hi & -> & Hbefore). split; [|done].
  apply Forall_lookup. intros j x Hj. apply lookup_take_Some in Hj as [Hj ?]. eauto.
Qed.

Lemma plain_not_flag l : Forall plain l → Forall (λ b, b ≠ hdlcFlag) l.
Proof. apply Forall_impl. by intros b []. Qed.

Lemma Forall_take_le {A} (P : A → Prop) (n m : nat) (l : list A) :
  (n <= m)%nat → Forall P (take m l) → Forall P (take n l).
Proof.
  intros Hle Hm. replace n with (n `min` m)%nat by lia. rewrite <- take_take.
  by apply Forall_take.
Qed.

(** The position up to which the decoders append in bulk: the first of two
    special bytes, or the end. *)
Lemma next_run (c1 c2 : byte) buf (next : Z) :
  next = (let n := len buf in
          let n := if (0 <=? IndexByte buf c1) && (IndexByte buf c1 <? n)
                   then IndexByte buf c1 else n in
          if (0 <=? IndexByte buf c2) && (IndexByte buf c2 <? n)
          then IndexByte buf c2 else n) →
  0 <= next <= len buf ∧ Forall (λ b, b ≠ c1 ∧ b ≠ c2) (take (Z.to_nat next) buf).
Proof.
  assert (Hone : ∀ c n, 0 <= n <= len buf →
    let m := if (0 <=? IndexByte buf c) && (IndexByte buf c <? n) then IndexByte buf c else n in
    0 <= m <= n ∧ Forall (λ b, b ≠ c) (take (Z.to_nat m) buf)).
  { intros c n Hn m. subst m. destruct (0 <=? IndexByte buf c) eqn:H1; simpl.
    - apply Z.leb_le in H1. destruct (IndexByte_pos buf c H1) as [Hbefore _].
      destruct (IndexByte buf c <? n) eqn:H2; rewrite ?Z.ltb_lt, ?Z.ltb_ge in H2.
      + split; [lia|done].
      + split; [lia|]. eapply Forall_take_le; [|exact Hbefore]. lia.
    - apply Z.leb_gt in H1. split; [lia|]. by apply Forall_take, IndexByte_neg. }
  pose proof (len_nonneg buf) as Hb. intros Hnext.
  destruct (Hone c1 (len buf)) as [Ha HFa]; [lia|].
  set (a := if _ : bool then _ else _) in Ha, HFa. cbv zeta in Hnext. fold a in Hnext.
  destruct (Hone c2 a) as [Hc HFc]; [lia|]. rewrite <- Hnext in Hc, HFc.
  split; [lia|]. apply Forall_and; [|done].
  eapply Forall_take_le; [|exact HFa]. lia.
Qed.

Section loop_facts.
Context {D : Type} `{AssemblerLaws D}.

Lemma feedBytes_app (d : D) l k :
  feedBytes d (l ++ k) =
    let '(d, o) := feedBytes d l in let '(d, o') := feedBytes d k in (d, o ++ o').
Proof.
  revert d. induction l as [|b l IH]; intros d; simpl.
  - by destruct (feedBytes d k).
  - destruct (feedByte b d) as [d1 o1]. rewrite IH. destruct (feedBytes d1 l) as [d2 o2].
    destruct (feedBytes d2 k) as [d3 o3]. by rewrite app_assoc.
Qed.

Lemma feedBytes_skip (d : D) l :
  inFrame (get d) = false → Forall (λ b, b ≠ hdlcFlag) l → feedBytes d l = (d, []).
Proof.
  intros Hf. induction 1 as [|b l Hb _ IH]; [done|]. simpl. by rewrite feed_skip, IH.
Qed.

(** A run of plain bytes, from a buffer within its limit. *)
Lemma feedBytes_plain (d : D) l run :
  get d = Core true false l → len l <= limit d → Forall plain run →
  feedBytes d run =
    (put (if limit d <? len l + len run then Core false false []
          else Core true false (l ++ run)) d, []).
Proof.
  intros Hd Hl Hp. revert d l Hd Hl. induction Hp as [|b run [Hb1 Hb2] Hp IH]; intros d l Hd Hl.
  - rewrite len_nil, Z.add_0_r, (proj2 (Z.ltb_ge _ _)), app_nil_r, <- Hd, put_get by done.
    done.
  - cbn [feedBytes]. rewrite (feed_data d false l) by done.
    destruct (limit d <=? len l) eqn:Hfull.
    + apply Z.leb_le in Hfull. rewrite (proj2 (Z.ltb_lt _ _)) by (rewrite len_cons;
        pose proof (len_nonneg run); lia).
      rewrite feedBytes_skip; [done|by rewrite get_put|]. by apply plain_not_flag.
    + apply Z.leb_gt in Hfull. rewrite (IH _ (l ++ [b])).
      * rewrite limit_put, put_put, len_app, !len_cons, len_nil, <- app_assoc.
        by rewrite Z.add_0_r, <- Z.add_assoc.
      * by rewrite get_put.
      * rewrite limit_put, len_app. change (len [b]) with 1. lia.
Qed.

Lemma feedBytes_run (d : D) l run :
  get d = Core true false l → run ≠ [] → Forall plain run →
  feedBytes d run = (appendRun run d, []).
Proof.
  intros Hd Hne Hp. rewrite (appendRun_data d l) by done.
  destruct (decide (len l <= limit d)) as [Hl|Hl]; [by apply feedBytes_plain|].
  rewrite (proj2 (Z.ltb_lt _ _)) by (pose proof (len_nonneg run); lia).
  destruct Hp as [|b run [Hb1 Hb2] Hp]; [done|]. cbn [feedBytes].
  rewrite (feed_data d false l), (proj2 (Z.leb_le _ _)) by (done || lia).
  rewrite feedBytes_skip; [done|by rewrite get_put|]. by apply plain_not_flag.
Qed.

Lemma feedLoop_bytes fuel (d : D) buf :
  (length buf <= fuel)%nat → feedLoop fuel d buf = Some (feedBytes d buf).
Proof.
  revert d buf. induction fuel as [|fuel IH]; intros d [|b rest] Hfuel; simpl in Hfuel; try done; try lia.
  assert (Hstep : (let '(d', o) := feedByte b d in
            '(d'', o') ← feedLoop fuel d' rest; Some (d'', o ++ o'))
          = Some (feedBytes d (b :: rest))).
  { simpl. destruct (feedByte b d) as [d1 o1]. rewrite IH by lia. simpl.
    by destruct (feedBytes d1 rest). }
  cbn [feedLoop]. destruct (get d) as [inF esc l] eqn:Hd. cbn [escape inFrame].
  destruct esc; [exact Hstep|]. set (buf := b :: rest) in *.
  destruct inF; cbn [negb].
  - set (next := if _ && _ : bool then IndexByte buf hdlcEsc else _).
    destruct (next_run hdlcFlag hdlcEsc buf next eq_refl) as [Hnext Hplain].
    destruct (0 <? next) eqn:Hpos; [|exact Hstep]. apply Z.ltb_lt in Hpos.
    rewrite IH by (rewrite length_drop; subst buf; simpl; lia).
    rewrite <- (take_drop (Z.to_nat next) buf) at 3. rewrite feedBytes_app.
    assert (take (Z.to_nat next) buf ≠ []) by (subst buf; by destruct (Z.to_nat next) eqn:?; [lia|]).
    rewrite (feedBytes_run d l) by done.
    by destruct (feedBytes _ (drop _ _)).
  - destruct (IndexByte buf hdlcFlag <? 0) eqn:Hi; rewrite ?Z.ltb_lt, ?Z.ltb_ge in Hi.
    + rewrite feedBytes_skip; [done|by rewrite Hd|]. by apply IndexByte_neg.
    + destruct (IndexByte_pos buf hdlcFlag Hi) as [Hbefore Hat].
      set (i := Z.to_nat (IndexByte buf hdlcFlag)) in *.
      replace (i + 1)%nat with (S i) by lia.
      replace (feedBytes d buf) with (feedBytes d (take i buf ++ hdlcFlag :: drop (S i) buf))
        by (by rewrite take_drop_middle).
      rewrite feedBytes_app, feedBytes_skip by (try done; by rewrite Hd).
      simpl. destruct (feedByte hdlcFlag d) as [d1 o1].
      rewrite IH by (rewrite length_drop; subst buf; simpl; lia).
      simpl. by destruct (feedBytes d1 _).
Qed.

Lemma feed_bytes (d : D) buf : feed d buf = Some (feedBytes d buf).
Proof. by apply feedLoop_bytes. Qed.

Lemma feedAll_bytes (d : D) chunks : feedAll d chunks = Some (feedBytes d (concat chunks)).
Proof.
  revert d. induction chunks as [|c chunks IH]; intros d; [done|]. simpl.
  rewrite feed_bytes, feedBytes_app. destruct (feedBytes d c) as [d1 o1]. simpl.
  rewrite IH. simpl. by destruct (feedBytes d1 _).
Qed.

End loop_facts.

(** ** Stuffing *)

Definition stuff (b : byte) : bytes :=
  if bool_decide (b = hdlcFlag) || bool_decide (b = hdlcEsc)
  then [hdlcEsc; b ^^^ hdlcEscMask] else [b].

Lemma appendEscapeHDLC_stuff dst l : appendEscapeHDLC dst l = dst ++ (l ≫= stuff).
Proof.
  unfold appendEscapeHDLC. revert dst. induction l as [|b l IH]; intros dst; simpl.
  - by rewrite app_nil_r.
  - rewrite IH, app_assoc. unfold stuff at 2. f_equal. by case_match.
Qed.

Lemma frameHDLC_stuff l : frameHDLC l = hdlcFlag :: (l ≫= stuff) ++ [hdlcFlag].
Proof. unfold frameHDLC, appendFrameHDLC. by rewrite appendEscapeHDLC_stuff. Qed.

Lemma stuff_cases b :
  (plain b ∧ stuff b = [b])
  ∨ (stuff b = [hdlcEsc; b ^^^ hdlcEscMask] ∧ plain (b ^^^ hdlcEscMask)).
Proof.
  unfold stuff, plain.
  destruct (decide (b = hdlcFlag)) as [->|H1]; [right; by split; [|split]|].
  destruct (decide (b = hdlcEsc)) as [->|H2]; [right; by split; [|split]|].
  left. rewrite !bool_decide_eq_false_2 by done. done.
Qed.

Lemma stuffed_no_flag l : Forall (λ b, b ≠ hdlcFlag) (l ≫= stuff).
Proof.
  induction l as [|b l IH]; simpl; [constructor|]. apply Forall_app. split; [|done].
  destruct (stuff_cases b) as [[[H1 _] ->]|[-> [H1 _]]]; repeat constructor; done.
Qed.

Lemma unescape_stuffed l out :
  foldl (λ '(out, escape) b,
    if (escape : bool) then (out ++ [b ^^^ hdlcEscMask], false)
    else if decide (b = hdlcEsc) then (out, true)
    else (out ++ [b], false)) (out, false) (l ≫= stuff) = (out ++ l, false).
Proof.
  revert out. induction l as [|b l IH]; intros out; simpl; [by rewrite app_nil_r|].
  rewrite foldl_app. destruct (stuff_cases b) as [[[_ H2] ->]|[-> _]]; cbn [foldl].
  - rewrite decide_False by done. by rewrite IH, <- app_assoc.
  - rewrite decide_True by done. by rewrite IH, bxor_cancel, <- app_assoc.
Qed.

(** ** Frames through a decoder *)

Section frames.
Context {D : Type} `{AssemblerLaws D}.
Implicit Types d : D.

Lemma feed_stuffed_byte d l b :
  get d = Core true false l →
  feedBytes d (stuff b) =
    (put (if limit d <=? len l then Core false false [] else Core true false (l ++ [b])) d, []).
Proof.
  intros Hd. destruct (stuff_cases b) as [[[H1 H2] ->]|[-> [H1 H2]]]; cbn [feedBytes].
  - by rewrite (feed_data d false l).
  - rewrite (feed_esc d false l) by done.
    rewrite (feed_data _ true l) by (try done; by rewrite get_put).
    by rewrite limit_put, put_put, bxor_cancel.
Qed.

Lemma feed_stuffed d l p :
  get d = Core true false l → len l <= limit d →
  feedBytes d (p ≫= stuff) =
    (put (if limit d <? len l + len p then Core false false []
          else Core true false (l ++ p)) d, []).
Proof.
  revert d l. induction p as [|b p IH]; intros d l Hd Hl; simpl.
  - rewrite len_nil, Z.add_0_r, (proj2 (Z.ltb_ge _ _)), app_nil_r, <- Hd, put_get by done.
    done.
  - rewrite feedBytes_app, (feed_stuffed_byte d l) by done.
    destruct (limit d <=? len l) eqn:Hfull.
    + apply Z.leb_le in Hfull. rewrite (proj2 (Z.ltb_lt _ _)) by (rewrite len_cons;
        pose proof (len_nonneg p); lia).
      rewrite feedBytes_skip; [done|by rewrite get_put|apply stuffed_no_flag].
    + apply Z.leb_gt in Hfull. rewrite (IH _ (l ++ [b])).
      * rewrite limit_put, put_put, len_app, !len_cons, len_nil, <- app_assoc.
        by rewrite Z.add_0_r, <- Z.add_assoc.
      * by rewrite get_put.
      * rewrite limit_put, len_app, len_cons, len_nil. lia.
Qed.

(** Between frames: nothing assembled, and the next flag opens a frame. *)
Definition ready d : Prop :=
  get d = Core false false [] ∨ (get d = Core true false [] ∧ afterFrame d = true).

Lemma feed_flag_ready d : ready d → feedByte hdlcFlag d = (put (Core true false []) d, []).
Proof.
  intros [Hd|[Hd Ha]]; [by apply (feed_open d false)|].
  rewrite (feed_close d false []) by done. by rewrite Ha, accepts_nil.
Qed.

Lemma feed_frame d p :
  ready d → 0 <= limit d →
  feedBytes d (frameHDLC p) =
    if limit d <? len p then (put (Core true false []) d, [])
    else (put (Core (afterFrame d) false []) d, if accepts d p then [p] else []).
Proof.
  intros Hr Hl. rewrite frameHDLC_stuff. cbn [feedBytes]. rewrite (feed_flag_ready d Hr).
  rewrite feedBytes_app, (feed_stuffed _ []) by (rewrite ?get_put, ?limit_put; done).
  rewrite limit_put, put_put. cbn [app]. rewrite len_nil, Z.add_0_l. cbn [feedBytes].
  destruct (limit d <? len p).
  - rewrite (feed_open _ false) by (by rewrite get_put). by rewrite put_put.
  - rewrite (feed_close _ false p) by (by rewrite get_put).
    rewrite put_put, afterFrame_put, accepts_put. simpl. by rewrite app_nil_r.
Qed.

(** A list of frames, none above the limit: the accepted ones are delivered. *)
Lemma feed_frames d ps :
  ready d → 0 <= limit d → Forall (λ p, len p <= limit d) ps →
  ∃ d', feedBytes d (concat (frameHDLC <$> ps)) = (d', filter (λ p, accepts d p = true) ps)
    ∧ ready d' ∧ limit d' = limit d ∧ accepts d' = accepts d.
Proof.
  intros Hr Hl Hps. revert d Hr Hl Hps.
  induction ps as [|p ps IH]; intros d Hr Hl Hps; [by exists d|].
  inversion_clear Hps as [|?? Hp Hps']. rewrite fmap_cons. cbn [concat].
  rewrite feedBytes_app, feed_frame by done.
  rewrite (proj2 (Z.ltb_ge _ _)) by lia.
  set (d1 := put _ d). destruct (IH d1) as (d' & Heq & Hr' & Hl' & Ha').
  - unfold ready, d1. rewrite get_put, afterFrame_put. destruct (afterFrame d); auto.
  - subst d1. by rewrite limit_put.
  - subst d1. by rewrite limit_put.
  - exists d'. rewrite Heq. subst d1. rewrite limit_put, accepts_put in *.
    split; [|done]. rewrite filter_cons.
    destruct (accepts d p); [by rewrite decide_True by done|by rewrite decide_False by done].
Qed.

(** A decoder whose flags only open and close the assembly (no toggling) also
    resynchronises after frames above the limit. *)
Lemma feed_frames_resync d ps :
  afterFrame d = true → ready d → 0 <= limit d →
  (feedBytes d (concat (frameHDLC <$> ps))).2 =
    filter (λ p, len p <= limit d ∧ accepts d p = true) ps.
Proof.
  intros Ha Hr Hl. revert d Ha Hr Hl.
  induction ps as [|p ps IH]; intros d Ha Hr Hl; [done|].
  rewrite fmap_cons. cbn [concat]. rewrite feedBytes_app, feed_frame, filter_cons by done.
  assert (Hrec : ∀ d1, d1 = put (Core true false []) d →
    (feedBytes d1 (concat (frameHDLC <$> ps))).2
      = filter (λ p, len p <= limit d ∧ accepts d p = true) ps).
  { intros d1 ->. rewrite IH; rewrite ?limit_put, ?accepts_put, ?afterFrame_put; try done.
    right. by rewrite get_put, afterFrame_put. }
  destruct (limit d <? len p) eqn:Hp; rewrite ?Z.ltb_lt, ?Z.ltb_ge in Hp.
  - rewrite decide_False by lia. specialize (Hrec _ eq_refl).
    by destruct (feedBytes _ (concat _)).
  - specialize (Hrec _ eq_refl). rewrite Ha.
    destruct (feedBytes _ (concat _)) as [d2 o2]. simpl in Hrec. subst o2.
    destruct (accepts d p); [by rewrite decide_True by done|rewrite decide_False by naive_solver].
    done.
Qed.

(** Out of step: inside an empty frame with toggling flags, every frame is
    read as its complement. *)
Lemma feed_frames_desync d ps :
  afterFrame d = false → get d = Core true false [] →
  feedBytes d (concat (frameHDLC <$> ps)) = (d, []).
Proof.
  intros Ha Hd. induction ps as [|p ps IH]; [done|]. rewrite fmap_cons. cbn [concat].
  rewrite feedBytes_app.
  assert (Hone : feedBytes d (frameHDLC p) = (d, [])); [|by rewrite Hone, IH].
  rewrite frameHDLC_stuff. cbn [feedBytes]. rewrite (feed_close d false []) by done.
  rewrite Ha, accepts_nil, feedBytes_app, feedBytes_skip;
    [|by rewrite get_put|apply stuffed_no_flag].
  cbn [feedBytes]. rewrite (feed_open _ false) by (by rewrite get_put).
  by rewrite put_put, <- Hd, put_get.
Qed.

(** ** The invariant *)

Definition asm_inv d : Prop :=
  len (data (get d)) <= limit d ∧ (inFrame (get d) = false → data (get d) = []).

Lemma feedByte_inv d b :
  0 <= limit d → asm_inv d →
  asm_inv (feedByte b d).1 ∧ limit (feedByte b d).1 = limit d
  ∧ accepts (feedByte b d).1 = accepts d
  ∧ Forall (λ p, accepts d p = true ∧ len p <= limit d) (feedByte b d).2.
Proof.
  intros Hl [Hlen Hidle]. destruct (get d) as [inF esc l] eqn:Hd. simpl in Hlen, Hidle.
  destruct inF; cycle 1.
  - rewrite (Hidle eq_refl) in *. destruct (decide (b = hdlcFlag)) as [->|Hb].
    + rewrite (feed_open d esc) by done. simpl. unfold asm_inv.
      rewrite get_put, limit_put, accepts_put. done.
    + rewrite feed_skip by (by rewrite ?Hd). simpl. unfold asm_inv. by rewrite Hd.
  - destruct (decide (b = hdlcFlag)) as [->|Hb1]; [|destruct (decide (b = hdlcEsc)) as [->|Hb2]].
    + rewrite (feed_close d esc l) by done. simpl. unfold asm_inv.
      rewrite get_put, limit_put, accepts_put. split_and!; try done.
      destruct (accepts d l) eqn:?; by repeat constructor.
    + rewrite (feed_esc d esc l) by done. simpl. unfold asm_inv.
      rewrite get_put, limit_put, accepts_put. done.
    + rewrite (feed_data d esc l) by done. simpl. unfold asm_inv.
      rewrite get_put, limit_put, accepts_put.
      destruct (limit d <=? len l) eqn:Hf; rewrite ?Z.leb_gt in Hf; simpl; split_and!; try done.
      rewrite len_app, len_cons, len_nil. lia.
Qed.

Lemma feedBytes_inv d buf :
  0 <= limit d → asm_inv d →
  asm_inv (feedBytes d buf).1 ∧ limit (feedBytes d buf).1 = limit d
  ∧ Forall (λ p, accepts d p = true ∧ len p <= limit d) (feedBytes d buf).2.
Proof.
  revert d. induction buf as [|b buf IH]; intros d Hl Hinv; [done|]. simpl.
  destruct (feedByte_inv d b Hl Hinv) as (Hinv1 & Hl1 & Ha1 & Ho1).
  destruct (feedByte b d) as [d1 o1]. simpl in *.
  destruct (IH d1) as (Hinv2 & Hl2 & Ho2); [by rewrite Hl1|done|].
  destruct (feedBytes d1 buf) as [d2 o2]. simpl in *.
  rewrite Hl1, Ha1 in *. split_and!; [done..|]. by apply Forall_app.
Qed.

End frames.
End Hdlc.

(** * [backbone.HDLCDecoder] *)
Module Backbone.
Import Hdlc.
Local Open Scope go_scope.

(** [onPacket] records whether a callback is set; the frames it receives are the
    outputs of the methods. *)
Record HDLCDecoder := mkHDLCDecoder {
  mtu : Z;
  inFrame : bool;
  escape : bool;
  data : bytes;
  maxFrame : Z;
  onPacket : bool
}.

Definition NewHDLCDecoder (mtu : Z) (onPacket : bool) : HDLCDecoder :=
  let maxFrame := mtu in
  let maxFrame := if maxFrame <? 256 then 2048 else maxFrame in
  mkHDLCDecoder mtu false false [] maxFrame onPacket.

Definition set_core (inF esc : bool) (l : bytes) (d : HDLCDecoder) : HDLCDecoder :=
  mkHDLCDecoder (mtu d) inF esc l (maxFrame d) (onPacket d).

Definition headerMinSize : Z := 19.

Definition emit (d : HDLCDecoder) : HDLCDecoder * list bytes :=
  let cleared := set_core (inFrame d) (escape d) [] d in
  if negb (onPacket d) || (len (data d) =? 0) then (cleared, [])
  else if (len (data d) <=? headerMinSize) || ((0 <? mtu d) && (mtu d <? len (data d)))
  then (cleared, [])
  else (cleared, [data d]).

Definition feedByte (b : byte) (d : HDLCDecoder) : HDLCDecoder * list bytes :=
  if decide (b = hdlcFlag) then
    let '(d, o) := if inFrame d && (0 <? len (data d)) then emit d else (d, []) in
    (set_core (negb (inFrame d)) false (data d) d, o)
  else if negb (inFrame d) then (d, [])
  else if decide (b = hdlcEsc) then (set_core (inFrame d) true (data d) d, [])
  else
    let '(b, d) := if escape d then (b ^^^ hdlcEscMask, set_core (inFrame d) false (data d) d)
                   else (b, d) in
    if maxFrame d <=? len (data d) then (set_core false false [] d, [])
    else (set_core (inFrame d) (escape d) (data d ++ [b]) d, []).

Definition appendRun (run : bytes) (d : HDLCDecoder) : HDLCDecoder :=
  let room := maxFrame d - len (data d) in
  if (room <=? 0) || (room <? len run) then set_core false false [] d
  else set_core (inFrame d) (escape d) (data d ++ run) d.

Definition Reset (d : HDLCDecoder) : HDLCDecoder := set_core false false [] d.

Definition accepted (d : HDLCDecoder) (l : bytes) : bool :=
  onPacket d && (headerMinSize <? len l) && negb ((0 <? mtu d) && (mtu d <? len l)).

#[global] Instance assembler : Assembler HDLCDecoder := {
  get d := Core (inFrame d) (escape d) (data d);
  put c d := set_core (Hdlc.inFrame c) (Hdlc.escape c) (Hdlc.data c) d;
  limit := maxFrame;
  accepts := accepted;
  afterFrame _ := false;
  Hdlc.feedByte := feedByte;
  Hdlc.appendRun := appendRun
}.

Definition Feed (d : HDLCDecoder) (buf : bytes) : option (HDLCDecoder * list bytes) :=
  Hdlc.feed d buf.

Lemma accepted_nil d : accepted d [] = false.
Proof. unfold accepted. change (headerMinSize <? len []) with false. by rewrite andb_false_r. Qed.

(** [emit] delivers what [accepted] says. *)
Lemma emit_accepted d :
  emit d = (set_core (inFrame d) (escape d) [] d, if accepted d (data d) then [data d] else []).
Proof.
  unfold emit, accepted, headerMinSize. destruct (onPacket d); simpl; [|done].
  destruct (len (data d) =? 0) eqn:H0; [apply Z.eqb_eq in H0; rewrite H0; done|].
  rewrite (Z.ltb_antisym (len _) 19). destruct (len (data d) <=? 19); simpl; [done|].
  by destruct (_ && _).
Qed.

#[global] Instance assembler_laws : AssemblerLaws HDLCDecoder.
Proof.
  split; try done.
  - by intros [].
  - by intros [].
  - apply accepted_nil.
  - intros d b Hin Hb. simpl in *. unfold feedByte. by rewrite decide_False, Hin.
  - intros d e [= Hin He Hl]. simpl. unfold feedByte. rewrite decide_True, Hin by done.
    simpl. unfold set_core. simpl. by rewrite Hl, Hin.
  - intros d e l [= Hin He Hl]. simpl. unfold feedByte. rewrite decide_True, Hin by done.
    rewrite emit_accepted, Hl. destruct l as [|b l].
    + rewrite accepted_nil. unfold set_core. simpl. by rewrite ?Hl, Hin.
    + rewrite (proj2 (Z.ltb_lt _ _)) by (rewrite len_cons; pose proof (len_nonneg l); lia).
      simpl. by rewrite Hin.
  - intros d e l [= Hin He Hl]. simpl. unfold feedByte.
    rewrite decide_False, decide_True, Hin, Hl by done. done.
  - intros d e l b [= Hin He Hl] H1 H2. simpl. unfold feedByte.
    rewrite !decide_False, Hin, He by done. simpl.
    destruct e; simpl; rewrite Hl; destruct (_ <=? _); simpl; by rewrite ?Hin, ?He.
  - intros d l run [= Hin He Hl] Hne. simpl. unfold appendRun. rewrite Hl.
    assert (Hrun : 0 < len run).
    { destruct run; [done|]. rewrite len_cons. pose proof (len_nonneg run). lia. }
    destruct (maxFrame d <? len l + len run) eqn:Ho; rewrite ?Z.ltb_lt, ?Z.ltb_ge in Ho.
    + replace (_ || _) with true; [done|]. symmetry. apply orb_true_iff.
      rewrite Z.ltb_lt. right. lia.
    + replace (_ || _) with false; [by rewrite Hin, He|]. symmetry. apply orb_false_iff.
      rewrite Z.leb_gt, Z.ltb_ge. lia.
Qed.

Lemma NewHDLCDecoder_ready mtu cb : ready (NewHDLCDecoder mtu cb).
Proof. by left. Qed.

Lemma NewHDLCDecoder_limit mtu cb :
  256 <= limit (NewHDLCDecoder mtu cb) ∧ mtu <= limit (NewHDLCDecoder mtu cb).
Proof. simpl. destruct (mtu <? 256) eqn:E; rewrite ?Z.ltb_lt, ?Z.ltb_ge in E; lia. Qed.

(** C31.  Framing round trip over a stream: packets longer than the 19-byte
    minimum and within the MTU, framed one after the other and cut into reads
    of any sizes, are delivered by [HDLCDecoder] unchanged, in order and once. *)
Theorem backbone_stream_roundtrip mtu ps chunks :
  Forall (λ p, headerMinSize < len p <= mtu) ps →
  concat chunks = concat (frameHDLC <$> ps) →
  ∃ d, feedAll (NewHDLCDecoder mtu true) chunks = Some (d, ps).
Proof.
  intros Hps Hc. rewrite feedAll_bytes, Hc.
  pose proof (NewHDLCDecoder_limit mtu true) as [Hl1 Hl2].
  destruct (feed_frames (NewHDLCDecoder mtu true) ps) as (d & -> & _).
  - apply NewHDLCDecoder_ready.
  - lia.
  - eapply Forall_weaken; [exact Hps|]. intros p Hp. simpl in Hp. lia.
  - exists d. do 2 f_equal. apply filter_id.
    eapply Forall_weaken; [exact Hps|]. intros p [Hp1 Hp2]. simpl. unfold accepted. simpl.
    rewrite (proj2 (Z.ltb_lt _ _) Hp1), (proj2 (Z.ltb_ge _ _) Hp2). by rewrite andb_false_r.
Qed.

(** The bulk path of [Feed] is an optimisation only: from every decoder
    state and for every way the stream is cut into reads, it terminates with
    the state and the deliveries of feeding the bytes one at a time. *)
Theorem Feed_is_bytewise (d : HDLCDecoder) buf chunks :
  Feed d buf = Some (feedBytes d buf)
  ∧ feedAll d chunks = Some (feedBytes d (concat chunks)).
Proof. split; [apply feed_bytes|apply feedAll_bytes]. Qed.

(** Memory and delivery bounds against an arbitrary peer: whatever bytes
    arrive, the assembly buffer stays within [maxFrame] and every delivered
    frame is longer than the header minimum and within the MTU. *)
Theorem backbone_bounded mtu stream :
  let '(d, out) := feedBytes (NewHDLCDecoder mtu true) stream in
  len (data d) <= Z.max mtu 2048
  ∧ Forall (λ p, headerMinSize < len p ∧ (0 < mtu → len p <= mtu)) out.
Proof.
  pose proof (NewHDLCDecoder_limit mtu true) as [Hl1 Hl2].
  destruct (feedBytes_inv (NewHDLCDecoder mtu true) stream) as ([Hd _] & Hl & Ho);
    [lia|split; simpl; [|done]; simpl in *; change (len []) with 0; lia|].
  destruct (feedBytes _ stream) as [d out]. cbn [fst snd] in *. simpl in Hd, Hl.
  split; [rewrite Hl in Hd; destruct (mtu <? 256); lia|].
  eapply Forall_weaken; [exact Ho|]. intros p [Hp _]. simpl in Hp. unfold accepted in Hp.
  simpl in Hp. apply andb_true_iff in Hp as [H1 H2]. apply Z.ltb_lt in H1. split; [done|].
  intros Hm. rewrite (proj2 (Z.ltb_lt _ _) Hm) in H2. simpl in H2.
  apply negb_true_iff, Z.ltb_ge in H2. done.
Qed.

(** A terminated frame above the limit leaves the decoder out of step. *)
Lemma backbone_desync mtu p ps :
  Z.max mtu 2048 < len p →
  (feedBytes (NewHDLCDecoder mtu true) (frameHDLC p ++ concat (frameHDLC <$> ps))).2 = [].
Proof.
  intros Hp. pose proof (NewHDLCDecoder_limit mtu true) as [Hl1 Hl2].
  rewrite feedBytes_app, feed_frame; [|apply NewHDLCDecoder_ready|lia].
  rewrite (proj2 (Z.ltb_lt _ _)) by (simpl; destruct (mtu <? 256); lia).
  by rewrite feed_frames_desync.
Qed.

(** Two packets, one with bytes that need stuffing, read in three chunks. *)
Definition sample1 : bytes := replicate 19 x41 ++ [x7e; x7d; x5e].
Definition sample2 : bytes := replicate 25 x00.
Definition sample_chunks : list bytes :=
  [take 7 (concat (frameHDLC <$> [sample1; sample2]));
   take 15 (drop 7 (concat (frameHDLC <$> [sample1; sample2])));
   drop 15 (drop 7 (concat (frameHDLC <$> [sample1; sample2])))].

Lemma backbone_stream_roundtrip_witness :
  ∃ d, feedAll (NewHDLCDecoder 500 true) sample_chunks = Some (d, [sample1; sample2]).
Proof.
  apply backbone_stream_roundtrip; [|vm_compute; reflexivity].
  repeat constructor; vm_compute; (reflexivity || discriminate).
Defined.

End Backbone.

(** * [interfaces.hdlcStreamDecoder] *)
Module Stream.
Import Hdlc.
Local Open Scope go_scope.

Record hdlcStreamDecoder := mkStream {
  mtu : Z;
  minPayload : Z;
  inFrame : bool;
  escape : bool;
  toggle : bool;
  data : bytes;
  maxFrame : Z;
  onFrame : bool
}.

Definition newHDLCStreamDecoderOpts (mtu : Z) (toggle : bool) (minPayload : Z) (onFrame : bool)
    : hdlcStreamDecoder :=
  let maxFrame := 2 * mtu + 32 in
  let maxFrame := if maxFrame <? 256 then 2048 else maxFrame in
  mkStream mtu minPayload false false toggle [] maxFrame onFrame.

Definition reticulumHeaderMinSize : Z := 19.

Definition newHDLCStreamDecoder (mtu : Z) (onFrame : bool) : hdlcStreamDecoder :=
  newHDLCStreamDecoderOpts mtu false 0 onFrame.
Definition newHDLCToggleStreamDecoder (mtu : Z) (onFrame : bool) : hdlcStreamDecoder :=
  newHDLCStreamDecoderOpts mtu true 0 onFrame.
Definition newTCPHDLCStreamDecoder (mtu : Z) (onFrame : bool) : hdlcStreamDecoder :=
  newHDLCStreamDecoderOpts mtu true reticulumHeaderMinSize onFrame.

Definition set_core (inF esc : bool) (l : bytes) (d : hdlcStreamDecoder) : hdlcStreamDecoder :=
  mkStream (mtu d) (minPayload d) inF esc (toggle d) l (maxFrame d) (onFrame d).

Definition reset (d : hdlcStreamDecoder) : hdlcStreamDecoder := set_core false false [] d.

Definition assemblyLimit (d : hdlcStreamDecoder) : Z :=
  let limit := maxFrame d in
  if (0 <? mtu d) && (mtu d <? limit) then mtu d else limit.

Definition appendRun (run : bytes) (d : hdlcStreamDecoder) : hdlcStreamDecoder :=
  let limit := assemblyLimit d in
  if limit <? len (data d) + len run then set_core false false [] d
  else set_core (inFrame d) (escape d) (data d ++ run) d.

(** Idle timeout of the serial interfaces: drop what was assembled. *)
Definition dropPartial (d : hdlcStreamDecoder) : hdlcStreamDecoder * bool :=
  if negb (inFrame d) && (len (data d) =? 0) && negb (escape d) then (d, false)
  else
    let had := inFrame d || (0 <? len (data d)) || escape d in
    let d := reset d in
    let d := if negb (toggle d) then set_core false (escape d) (data d) d else d in
    (d, had).

Definition feedByte (b : byte) (d : hdlcStreamDecoder) : hdlcStreamDecoder * list bytes :=
  if decide (b = hdlcFlag) then
    let o :=
      if inFrame d && (0 <? len (data d)) then
        let ok := onFrame d && ((mtu d <=? 0) || (len (data d) <=? mtu d)) in
        let ok := if ok && (0 <? minPayload d) && (len (data d) <=? minPayload d)
                  then false else ok in
        if ok then [data d] else []
      else [] in
    (set_core (if toggle d then negb (inFrame d) else true) false [] d, o)
  else if negb (inFrame d) then (d, [])
  else if decide (b = hdlcEsc) then (set_core (inFrame d) true (data d) d, [])
  else
    let '(b, d) := if escape d then (b ^^^ hdlcEscMask, set_core (inFrame d) false (data d) d)
                   else (b, d) in
    let limit := assemblyLimit d in
    if limit <=? len (data d) then (set_core false false [] d, [])
    else (set_core (inFrame d) (escape d) (data d ++ [b]) d, []).

Definition accepted (d : hdlcStreamDecoder) (l : bytes) : bool :=
  (0 <? len l) && onFrame d && ((mtu d <=? 0) || (len l <=? mtu d))
  && negb ((0 <? minPayload d) && (len l <=? minPayload d)).

#[global] Instance assembler : Assembler hdlcStreamDecoder := {
  get d := Core (inFrame d) (escape d) (data d);
  put c d := set_core (Hdlc.inFrame c) (Hdlc.escape c) (Hdlc.data c) d;
  limit := assemblyLimit;
  accepts := accepted;
  afterFrame d := negb (toggle d);
  Hdlc.feedByte := feedByte;
  Hdlc.appendRun := appendRun
}.

Definition feed (d : hdlcStreamDecoder) (buf : bytes)
    : option (hdlcStreamDecoder * list bytes) :=
  Hdlc.feed d buf.

#[global] Instance assembler_laws : AssemblerLaws hdlcStreamDecoder.
Proof.
  split; try done.
  - by intros [].
  - by intros [].
  - intros d b Hin Hb. simpl in *. unfold feedByte. by rewrite decide_False, Hin.
  - intros d e [= Hin He Hl]. simpl. unfold feedByte. rewrite decide_True, Hin by done.
    by destruct (toggle d).
  - intros d e l [= Hin He Hl]. simpl. unfold feedByte, accepted.
    rewrite decide_True, Hin, Hl by done. cbn [andb].
    destruct (toggle d), (0 <? len l), (onFrame d),
      ((mtu d <=? 0) || (len l <=? mtu d)); simpl; try done.
  - intros d e l [= Hin He Hl]. simpl. unfold feedByte.
    rewrite decide_False, decide_True, Hin, Hl by done. done.
  - intros d e l b [= Hin He Hl] H1 H2. simpl. unfold feedByte.
    rewrite !decide_False, Hin, He by done. simpl.
    destruct e; simpl; rewrite Hl; fold (assemblyLimit d);
      destruct (assemblyLimit _ <=? len l); simpl; by rewrite ?Hin, ?He.
  - intros d l run [= Hin He Hl] Hne. simpl. unfold appendRun. rewrite Hl.
    destruct (_ <? _); [done|]. by rewrite Hin, He.
Qed.

Lemma stream_limit mtu tg mp cb :
  0 < mtu → assemblyLimit (newHDLCStreamDecoderOpts mtu tg mp cb) = mtu.
Proof.
  intros Hm. unfold assemblyLimit. simpl. rewrite (proj2 (Z.ltb_lt _ _) Hm). simpl.
  destruct (2 * mtu + 32 <? 256) eqn:E; rewrite ?Z.ltb_lt, ?Z.ltb_ge in E;
    rewrite (proj2 (Z.ltb_lt _ _)) by lia; done.
Qed.

Lemma stream_accepts mtu tg mp l :
  0 < mtu → 0 <= mp →
  accepted (newHDLCStreamDecoderOpts mtu tg mp true) l = true ↔ mp < len l <= mtu.
Proof.
  intros Hm Hmp. unfold accepted. simpl.
  rewrite !andb_true_iff, orb_true_iff, negb_true_iff, andb_false_iff,
    !Z.ltb_lt, !Z.leb_le, Z.leb_gt, Z.ltb_ge. lia.
Qed.

(** Every stream interface (TCP, I2P, QUIC, serial, pipe, local) gets back
    the packets it framed: with any flag discipline and any minimum payload,
    packets longer than the minimum and within the MTU, cut into reads of any
    sizes, are delivered unchanged, in order and once. *)
Theorem stream_roundtrip mtu tg mp ps chunks :
  0 < mtu → 0 <= mp → Forall (λ p, mp < len p <= mtu) ps →
  concat chunks = concat (frameHDLC <$> ps) →
  ∃ d, feedAll (newHDLCStreamDecoderOpts mtu tg mp true) chunks = Some (d, ps).
Proof.
  intros Hm Hmp Hps Hc. rewrite feedAll_bytes, Hc.
  set (d0 := newHDLCStreamDecoderOpts mtu tg mp true).
  assert (Hl : limit d0 = mtu) by (by apply stream_limit).
  destruct (feed_frames d0 ps) as (d & -> & _); [by left|lia| |].
  - rewrite Hl. eapply Forall_weaken; [exact Hps|]. simpl. lia.
  - exists d. do 2 f_equal. apply filter_id. eapply Forall_weaken; [exact Hps|].
    intros p Hp. by apply stream_accepts.
Qed.

(** The non-toggling decoder (serial, pipe, local) resynchronises: from
    any sequence of well-formed frames it delivers exactly the non-empty
    packets within the MTU, also after frames it had to drop. *)
Theorem serial_resync mtu ps :
  0 < mtu →
  (feedBytes (newHDLCStreamDecoder mtu true) (concat (frameHDLC <$> ps))).2 =
    filter (λ p, 0 < len p <= mtu) ps.
Proof.
  intros Hm. unfold newHDLCStreamDecoder.
  set (d0 := newHDLCStreamDecoderOpts mtu false 0 true).
  assert (Hl : limit d0 = mtu) by (by apply stream_limit).
  rewrite feed_frames_resync; [|done|by left|lia].
  apply list_filter_iff. intros p. rewrite Hl.
  pose proof (stream_accepts mtu false 0 p Hm ltac:(lia)) as Ha.
  change (accepts d0 p) with (accepted d0 p). unfold d0. rewrite Ha. lia.
Qed.

(** A terminated frame above the limit silences a toggling connection (TCP,
    backbone): the decoder leaves the frame on overflow, so the closing flag
    opens a new one and every later frame is read between the wrong flags;
    nothing sent after it, of any size, is delivered until the decoder is
    reset. *)
Theorem toggle_oversize_desync mtu p ps :
  0 < mtu →
  (mtu < len p →
   (feedBytes (newTCPHDLCStreamDecoder mtu true) (frameHDLC p ++ concat (frameHDLC <$> ps))).2 = [])
  ∧ (Z.max mtu 2048 < len p →
   (feedBytes (Backbone.NewHDLCDecoder mtu true) (frameHDLC p ++ concat (frameHDLC <$> ps))).2 = []).
Proof.
  intros Hm. split; [|apply Backbone.backbone_desync]. intros Hp.
  unfold newTCPHDLCStreamDecoder.
  set (d0 := newHDLCStreamDecoderOpts mtu true reticulumHeaderMinSize true).
  assert (Hl : limit d0 = mtu) by (by apply stream_limit).
  rewrite feedBytes_app, feed_frame by (by left || lia).
  rewrite Hl, (proj2 (Z.ltb_lt _ _) Hp). by rewrite feed_frames_desync.
Qed.

Lemma stream_roundtrip_witness :
  ∃ d, feedAll (newHDLCStreamDecoderOpts 500 true 19 true) Backbone.sample_chunks
    = Some (d, [Backbone.sample1; Backbone.sample2]).
Proof.
  apply stream_roundtrip; [reflexivity|discriminate| |vm_compute; reflexivity].
  repeat constructor; vm_compute; (reflexivity || discriminate).
Defined.

Lemma serial_resync_witness :
  (feedBytes (newHDLCStreamDecoder 30 true)
     (concat (frameHDLC <$> [replicate 31 x00; Backbone.sample1]))).2
  = filter (λ p, 0 < len p <= 30) [replicate 31 x00; Backbone.sample1].
Proof. apply serial_resync. reflexivity. Defined.

Lemma toggle_oversize_desync_witness :
  (30 < len (replicate 31 x00) →
   (feedBytes (newTCPHDLCStreamDecoder 30 true)
     (frameHDLC (replicate 31 x00) ++ concat (frameHDLC <$> [Backbone.sample1]))).2 = [])
  ∧ (Z.max 30 2048 < len (replicate 31 x00) →
   (feedBytes (Backbone.NewHDLCDecoder 30 true)
     (frameHDLC (replicate 31 x00) ++ concat (frameHDLC <$> [Backbone.sample1]))).2 = []).
Proof. apply toggle_oversize_desync. reflexivity. Defined.

End Stream.
