(* ===== verification/Kiss.v ===== *)
(** * KISS framing

    [interfaces.kissStreamDecoder] (KISS over TCP and I2P, data frames only) with
    its bulk loop, and [interfaces.rnodeCmdDecoder] (RNode command streams, full
    command byte), with the frame writers of both. *)

From S2P Require Import Prelude.
From S2P Require Import Hdlc.

Module Kiss.
Local Open Scope go_scope.

Definition KISSFend : byte := xc0.
Definition KISSFesc : byte := xdb.
Definition KISSTFend : byte := xdc.
Definition KISSTFesc : byte := xdd.
Definition KISSCmdData : byte := x00.
Definition kissCmdUnknown : byte := xfe.
Definition DefaultMTU : Z := 1064.

(** ** Writing frames *)

Definition stuff (b : byte) : bytes :=
  if decide (b = KISSFend) then [KISSFesc; KISSTFend]
  else if decide (b = KISSFesc) then [KISSFesc; KISSTFesc]
  else [b].

Definition appendEscaped (dst payload : bytes) : bytes :=
  foldl (λ dst b, dst ++ stuff b) dst payload.

Definition appendFrameKISS (dst payload : bytes) : bytes :=
  let dst := dst ++ [KISSFend; KISSCmdData] in
  let dst := appendEscaped dst payload in
  dst ++ [KISSFend].

Definition escapeKISS (data : bytes) : bytes := appendEscaped [] data.

Definition frameKISS (payload : bytes) : bytes := appendFrameKISS [] payload.

(** ** The decoder *)

Record kissStreamDecoder := mkKiss {
  mtu : Z;
  inFrame : bool;
  escape : bool;
  haveCmd : bool;
  command : byte;
  data : bytes;
  onFrame : bool
}.

Definition newKISSStreamDecoder (mtu : Z) (onFrame : bool) : kissStreamDecoder :=
  mkKiss (if mtu <=? 0 then DefaultMTU else mtu) false false false kissCmdUnknown [] onFrame.

Definition set_all (inF esc have : bool) (cmd : byte) (l : bytes) (d : kissStreamDecoder) :=
  mkKiss (mtu d) inF esc have cmd l (onFrame d).

Definition reset (d : kissStreamDecoder) : kissStreamDecoder :=
  set_all false false false kissCmdUnknown [] d.

Definition unstuff (b : byte) : byte :=
  if decide (b = KISSTFend) then KISSFend
  else if decide (b = KISSTFesc) then KISSFesc
  else b.

Definition feedByte (b : byte) (d : kissStreamDecoder) : kissStreamDecoder * list bytes :=
  if inFrame d && bool_decide (b = KISSFend) && haveCmd d && bool_decide (command d = KISSCmdData)
  then (set_all false false false kissCmdUnknown [] d, if onFrame d then [data d] else [])
  else if decide (b = KISSFend) then (set_all true false false kissCmdUnknown [] d, [])
  else if negb (inFrame d) then (d, [])
  else if negb (haveCmd d) then
    (set_all (inFrame d) (escape d) true (b &&& x0f) (data d) d, [])
  else if bool_decide (command d ≠ KISSCmdData) then (d, [])
  else if mtu d <=? len (data d) then (reset d, [])
  else if decide (b = KISSFesc) then
    (set_all (inFrame d) true (haveCmd d) (command d) (data d) d, [])
  else
    let b := if escape d then unstuff b else b in
    (set_all (inFrame d) false (haveCmd d) (command d) (data d ++ [b]) d, []).

Fixpoint feedBytes (d : kissStreamDecoder) (buf : bytes) : kissStreamDecoder * list bytes :=
  match buf with
  | [] => (d, [])
  | b :: buf =>
      let '(d, o) := feedByte b d in
      let '(d, o') := feedBytes d buf in (d, o ++ o')
  end.

(** [inFrame && haveCmd && command == KISSCmdData]: inside the payload of a
    data frame. *)
Definition inPayload (d : kissStreamDecoder) : bool :=
  inFrame d && haveCmd d && bool_decide (command d = KISSCmdData).

(** The loop of [feed]; [None] is running out of fuel.  A run that would exceed
    the MTU resets the decoder and returns, leaving the rest of [buf] unread. *)
Fixpoint feedLoop (fuel : nat) (d : kissStreamDecoder) (buf : bytes)
    : option (kissStreamDecoder * list bytes) :=
  match buf, fuel with
  | [], _ => Some (d, [])
  | _, O => None
  | b :: rest, S fuel =>
      if escape d || negb (inPayload d) then
        let '(d, o) := feedByte b d in
        '(d, o') ← feedLoop fuel d rest; Some (d, o ++ o')
      else
        let iFend := Hdlc.IndexByte buf KISSFend in
        let iEsc := Hdlc.IndexByte buf KISSFesc in
        let next := len buf in
        let next := if (0 <=? iFend) && (iFend <? next) then iFend else next in
        let next := if (0 <=? iEsc) && (iEsc <? next) then iEsc else next in
        if 0 <? next then
          if mtu d <? len (data d) + next then Some (reset d, [])
          else
            feedLoop fuel
              (set_all (inFrame d) (escape d) (haveCmd d) (command d)
                 (data d ++ take (Z.to_nat next) buf) d)
              (drop (Z.to_nat next) buf)
        else
          let '(d, o) := feedByte b d in
          '(d, o') ← feedLoop fuel d rest; Some (d, o ++ o')
  end.

Definition feed (d : kissStreamDecoder) (buf : bytes) : option (kissStreamDecoder * list bytes) :=
  feedLoop (length buf) d buf.

Fixpoint feedAll (d : kissStreamDecoder) (chunks : list bytes)
    : option (kissStreamDecoder * list bytes) :=
  match chunks with
  | [] => Some (d, [])
  | c :: chunks =>
      '(d, o) ← feed d c; '(d, o') ← feedAll d chunks; Some (d, o ++ o')
  end.

(** ** Bulk and byte-wise feeding *)

(** [feedByte] would drop the frame at this byte for lack of room. *)
Definition overflows (d : kissStreamDecoder) (b : byte) : bool :=
  inPayload d && negb (bool_decide (b = KISSFend)) && (mtu d <=? len (data d)).

Fixpoint fits (d : kissStreamDecoder) (buf : bytes) : bool :=
  match buf with
  | [] => true
  | b :: buf => negb (overflows d b) && fits (feedByte b d).1 buf
  end.

Definition plain (b : byte) : Prop := b ≠ KISSFend ∧ b ≠ KISSFesc.

Lemma kiss_feedBytes_app d l k :
  feedBytes d (l ++ k) =
    let '(d, o) := feedBytes d l in let '(d, o') := feedBytes d k in (d, o ++ o').
Proof.
  revert d. induction l as [|b l IH]; intros d; simpl.
  - by destruct (feedBytes d k).
  - destruct (feedByte b d) as [d1 o1]. rewrite IH. destruct (feedBytes d1 l) as [d2 o2].
    destruct (feedBytes d2 k) as [d3 o3]. by rewrite app_assoc.
Qed.

Lemma fits_app d l k : fits d (l ++ k) = fits d l && fits (feedBytes d l).1 k.
Proof.
  revert d. induction l as [|b l IH]; intros d; simpl; [done|].
  destruct (feedByte b d) as [d1 o1] eqn:E. simpl. rewrite IH.
  destruct (feedBytes d1 l) as [d2 o2]. simpl. by rewrite andb_assoc.
Qed.

(** The byte-by-byte effect of a plain payload byte. *)
Lemma kiss_feedByte_payload d b :
  inPayload d = true → b ≠ KISSFend →
  feedByte b d =
    if mtu d <=? len (data d) then (reset d, [])
    else if decide (b = KISSFesc) then (set_all true true true KISSCmdData (data d) d, [])
    else (set_all true false true KISSCmdData
            (data d ++ [if escape d then unstuff b else b]) d, []).
Proof.
  unfold inPayload. rewrite !andb_true_iff, bool_decide_eq_true. intros [[Hin Hc] Hcmd] Hb.
  unfold feedByte. rewrite (bool_decide_eq_false_2 (b = KISSFend)) by done.
  rewrite andb_false_r. simpl andb. cbv iota.
  rewrite decide_False, Hin, Hc, Hcmd by done. cbn [negb].
  by rewrite bool_decide_eq_false_2 by naive_solver.
Qed.

Lemma inPayload_set esc l d : inPayload (set_all true esc true KISSCmdData l d) = true.
Proof. done. Qed.

(** A run of plain bytes that fits is appended; one that does not is not
    [fits]. *)
Lemma kiss_feedBytes_run d run :
  inPayload d = true → escape d = false → Forall plain run → run ≠ [] →
  fits d run = true →
  len (data d) + len run <= mtu d
  ∧ feedBytes d run = (set_all true false true KISSCmdData (data d ++ run) d, []).
Proof.
  intros Hin He Hp. revert d Hin He.
  induction Hp as [|b run [Hb1 Hb2] Hp IH]; intros d Hin He Hne; [done|].
  cbn [fits feedBytes]. unfold overflows. rewrite Hin, bool_decide_eq_false_2 by done.
  cbn [negb andb]. rewrite andb_true_iff, negb_true_iff, Z.leb_gt. intros [Hlt Hf].
  rewrite kiss_feedByte_payload in * by done. rewrite (proj2 (Z.leb_gt _ _) Hlt) in *.
  rewrite decide_False, He in * by done. cbn [fst] in Hf. rewrite len_cons.
  destruct run as [|b' run]; [simpl; split; [change (len []) with 0; lia|done]|].
  destruct (IH (set_all true false true KISSCmdData (data d ++ [b]) d)) as [Hl Heq]; try done.
  rewrite Heq. simpl in Hl |- *. rewrite len_app in Hl. change (len [b]) with 1 in Hl.
  split; [lia|]. unfold set_all. simpl. by rewrite <- app_assoc.
Qed.

(** As long as no frame exceeds the MTU, the bulk loop is the byte loop. *)
Lemma kiss_feedLoop_bytes fuel d buf :
  (length buf <= fuel)%nat → fits d buf = true → feedLoop fuel d buf = Some (feedBytes d buf).
Proof.
  revert d buf. induction fuel as [|fuel IH]; intros d [|b rest] Hfuel Hfits;
    simpl in Hfuel; try done; try lia.
  assert (Hstep : (let '(d', o) := feedByte b d in
            '(d'', o') ← feedLoop fuel d' rest; Some (d'', o ++ o'))
          = Some (feedBytes d (b :: rest))).
  { simpl in Hfits |- *. apply andb_true_iff in Hfits as [_ Hfits].
    destruct (feedByte b d) as [d1 o1]. rewrite IH by (done || lia). simpl.
    by destruct (feedBytes d1 rest). }
  cbn [feedLoop]. set (buf := b :: rest) in *.
  destruct (escape d) eqn:He; [exact Hstep|].
  destruct (inPayload d) eqn:Hin; [|exact Hstep]. cbn [negb orb].
  set (next := if _ && _ : bool then Hdlc.IndexByte buf KISSFesc else _).
  destruct (Hdlc.next_run KISSFend KISSFesc buf next eq_refl) as [Hnext Hplain].
  destruct (0 <? next) eqn:Hpos; [|exact Hstep]. apply Z.ltb_lt in Hpos.
  assert (take (Z.to_nat next) buf ≠ []) by (subst buf; by destruct (Z.to_nat next) eqn:?; [lia|]).
  rewrite <- (take_drop (Z.to_nat next) buf), fits_app in Hfits.
  apply andb_true_iff in Hfits as [Hf1 Hf2].
  destruct (kiss_feedBytes_run d _ Hin He Hplain H Hf1) as [Hl Heq].
  rewrite Heq in Hf2. cbn [fst] in Hf2.
  rewrite len_take, Z2Nat.id, Z.min_l in Hl by lia.
  rewrite (proj2 (Z.ltb_ge _ _)) by lia.
  replace (feedBytes d buf)
    with (feedBytes d (take (Z.to_nat next) buf ++ drop (Z.to_nat next) buf))
    by (by rewrite take_drop).
  rewrite kiss_feedBytes_app, Heq.
  assert (Hsame : set_all (inFrame d) false (haveCmd d) (command d)
            (data d ++ take (Z.to_nat next) buf) d
          = set_all true false true KISSCmdData (data d ++ take (Z.to_nat next) buf) d).
  { unfold inPayload in Hin. rewrite !andb_true_iff, bool_decide_eq_true in Hin.
    by destruct Hin as [[-> ->] ->]. }
  rewrite Hsame, IH; [by destruct (feedBytes _ (drop _ _))| |done].
  rewrite length_drop. subst buf. simpl. lia.
Qed.

Lemma kiss_feedAll_bytes d chunks :
  fits d (concat chunks) = true → feedAll d chunks = Some (feedBytes d (concat chunks)).
Proof.
  revert d. induction chunks as [|c chunks IH]; intros d Hf; [done|]. simpl in *.
  rewrite fits_app, andb_true_iff in Hf. destruct Hf as [Hf1 Hf2].
  unfold feed. rewrite kiss_feedLoop_bytes, kiss_feedBytes_app by done.
  destruct (feedBytes d c) as [d1 o1]. simpl in *.
  rewrite IH by done. simpl. by destruct (feedBytes d1 _).
Qed.

(** ** Frames *)

Lemma appendEscaped_stuff dst l : appendEscaped dst l = dst ++ (l ≫= stuff).
Proof.
  unfold appendEscaped. revert dst. induction l as [|b l IH]; intros dst; simpl.
  - by rewrite app_nil_r.
  - by rewrite IH, app_assoc.
Qed.

Lemma frameKISS_stuff p :
  frameKISS p = KISSFend :: KISSCmdData :: (p ≫= stuff) ++ [KISSFend].
Proof. unfold frameKISS, appendFrameKISS. by rewrite appendEscaped_stuff. Qed.

Lemma kiss_stuff_cases b :
  (plain b ∧ stuff b = [b])
  ∨ (∃ t, stuff b = [KISSFesc; t] ∧ plain t ∧ unstuff t = b).
Proof.
  unfold stuff, plain.
  destruct (decide (b = KISSFend)) as [->|H1]; [right; exists KISSTFend; by split_and!|].
  destruct (decide (b = KISSFesc)) as [->|H2]; [right; exists KISSTFesc; by split_and!|].
  by left.
Qed.

Lemma kiss_feed_stuffed d p :
  inPayload d = true → escape d = false → len (data d) + len p <= mtu d →
  feedBytes d (p ≫= stuff) = (set_all true false true KISSCmdData (data d ++ p) d, [])
  ∧ fits d (p ≫= stuff) = true.
Proof.
  revert d. induction p as [|b p IH]; intros d Hin He Hl.
  - simpl. rewrite app_nil_r. unfold inPayload in Hin.
    rewrite !andb_true_iff, bool_decide_eq_true in Hin. destruct d as [m i e h c l o].
    simpl in *. by destruct Hin as [[-> ->] ->], He.
  - rewrite bind_cons, kiss_feedBytes_app, fits_app. rewrite len_cons in Hl.
    pose proof (len_nonneg p).
    assert (Hb : feedBytes d (stuff b)
        = (set_all true false true KISSCmdData (data d ++ [b]) d, [])
      ∧ fits d (stuff b) = true).
    { assert (Hov : ∀ c, c ≠ KISSFend → overflows d c = false).
      { intros c Hc. unfold overflows. rewrite (proj2 (Z.leb_gt _ _)) by lia.
        by rewrite andb_false_r. }
      destruct (kiss_stuff_cases b) as [[[H1 H2] ->]|(t & -> & [H1 H2] & Ht)]; cbn [feedBytes fits].
      - rewrite Hov, kiss_feedByte_payload, (proj2 (Z.leb_gt _ _)), decide_False, He by (done || lia).
        done.
      - rewrite Hov, (kiss_feedByte_payload d), (proj2 (Z.leb_gt (mtu d) _)) by (done || lia).
        rewrite decide_True by done. cbn [fst].
        unfold overflows. rewrite (kiss_feedByte_payload _ t) by done. simpl.
        rewrite (proj2 (Z.leb_gt (mtu d) _)), decide_False, Ht by (done || lia).
        by rewrite andb_false_r. }
    destruct Hb as [-> ->]. cbn [fst].
    destruct (IH (set_all true false true KISSCmdData (data d ++ [b]) d)) as [-> ->]; try done.
    { simpl. rewrite len_app. change (len [b]) with 1. lia. }
    unfold set_all. simpl. by rewrite <- app_assoc.
Qed.

Lemma kiss_feed_frame d p :
  inPayload d = false → len p <= mtu d →
  feedBytes d (frameKISS p) = (reset d, if onFrame d then [p] else [])
  ∧ fits d (frameKISS p) = true.
Proof.
  intros Hin Hl. rewrite frameKISS_stuff. cbn [feedBytes fits].
  assert (Hopen : feedByte KISSFend d = (set_all true false false kissCmdUnknown [] d, [])).
  { unfold feedByte, inPayload in *. rewrite bool_decide_eq_true_2 by done.
    rewrite andb_true_r, Hin. by rewrite decide_True. }
  rewrite Hopen. unfold overflows at 1. rewrite Hin. cbn [negb andb fst].
  change (feedByte KISSCmdData (set_all true false false kissCmdUnknown [] d))
    with (set_all true false true KISSCmdData [] d, @nil bytes).
  cbn [fst]. rewrite kiss_feedBytes_app, fits_app.
  destruct (kiss_feed_stuffed (set_all true false true KISSCmdData [] d) p) as [-> ->]; try done.
  split; [|done]. cbn [feedBytes data set_all app].
  change (feedByte KISSFend (set_all true false true KISSCmdData p
            (set_all true false true KISSCmdData [] d)))
    with (reset d, if onFrame d then [p] else []).
  by destruct (onFrame d).
Qed.

Lemma kiss_feed_frames d ps :
  inPayload d = false → Forall (λ p, len p <= mtu d) ps →
  (feedBytes d (concat (frameKISS <$> ps))).2 = (if onFrame d then ps else [])
  ∧ fits d (concat (frameKISS <$> ps)) = true.
Proof.
  revert d. induction ps as [|p ps IH]; intros d Hin Hps; [by destruct (onFrame d)|].
  inversion_clear Hps as [|?? Hp Hps']. rewrite fmap_cons. cbn [concat].
  rewrite kiss_feedBytes_app, fits_app.
  destruct (kiss_feed_frame d p Hin Hp) as [-> ->]. cbn [fst].
  destruct (IH (reset d)) as [Ho ->]; try done.
  destruct (feedBytes (reset d) _) as [d2 o2]. simpl in *. subst o2. by destruct (onFrame d).
Qed.

(** C32.  KISS round trip: packets within the MTU, framed one after the other
    and cut into reads of any sizes, are delivered unchanged, in order and
    once. *)
Theorem kiss_stream_roundtrip m ps chunks :
  0 < m → Forall (λ p, len p <= m) ps →
  concat chunks = concat (frameKISS <$> ps) →
  ∃ d, feedAll (newKISSStreamDecoder m true) chunks = Some (d, ps).
Proof.
  intros Hm Hps Hc. set (d0 := newKISSStreamDecoder m true).
  assert (Hmtu : mtu d0 = m) by (simpl; by rewrite (proj2 (Z.leb_gt _ _))).
  destruct (kiss_feed_frames d0 ps) as [Ho Hf]; [done|by rewrite Hmtu|].
  rewrite kiss_feedAll_bytes; [|by rewrite Hc]. rewrite Hc.
  destruct (feedBytes d0 _) as [d o]. simpl in Ho. subst o. by exists d.
Qed.

(** ** Frames above the MTU *)

Lemma kiss_feedBytes_skip d l :
  inFrame d = false → Forall (λ b, b ≠ KISSFend) l → feedBytes d l = (d, []).
Proof.
  intros Hin. induction 1 as [|b l Hb _ IH]; [done|]. simpl. unfold feedByte.
  rewrite Hin, decide_False by done. simpl. by rewrite IH.
Qed.

Lemma plain_not_fend l : Forall plain l → Forall (λ b, b ≠ KISSFend) l.
Proof. intros H. eapply Forall_weaken; [exact H|]. by intros ? []. Qed.

Lemma feedBytes_overflow d run :
  inPayload d = true → escape d = false → Forall plain run →
  mtu d < len (data d) + len run → len (data d) <= mtu d →
  feedBytes d run = (reset d, []).
Proof.
  intros Hin He Hp. revert d Hin He.
  induction Hp as [|b run [Hb1 Hb2] Hp IH]; intros d Hin He Hl Hd;
    [change (len []) with 0 in Hl; lia|].
  cbn [feedBytes]. rewrite kiss_feedByte_payload by done. rewrite len_cons in Hl.
  destruct (mtu d <=? len (data d)) eqn:Hfull; rewrite ?Z.leb_gt in Hfull.
  - rewrite kiss_feedBytes_skip by (try done; by apply plain_not_fend). done.
  - rewrite decide_False, He by done. rewrite IH; try done; simpl;
      rewrite len_app; change (len [b]) with 1; lia.
Qed.

Lemma IndexByte_app l k c :
  Forall (λ b, b ≠ c) l → 0 <= Hdlc.IndexByte (l ++ k) c → len l <= Hdlc.IndexByte (l ++ k) c.
Proof.
  intros Hl Hpos. destruct (Hdlc.IndexByte_pos _ _ Hpos) as [_ Hat].
  destruct (decide (len l <= Hdlc.IndexByte (l ++ k) c)) as [|Hlt]; [done|].
  rewrite lookup_app_l in Hat by (unfold len in Hlt; lia).
  rewrite Forall_lookup in Hl. by apply Hl in Hat.
Qed.

Lemma bulk_end l k c n :
  Forall (λ b, b ≠ c) l → len l <= n →
  len l <= if (0 <=? Hdlc.IndexByte (l ++ k) c) && (Hdlc.IndexByte (l ++ k) c <? n)
           then Hdlc.IndexByte (l ++ k) c else n.
Proof.
  intros Hl Hn. destruct (0 <=? _) eqn:H1; simpl; [|done].
  apply Z.leb_le, IndexByte_app in H1; [|done]. by destruct (_ <? _).
Qed.

Lemma feedLoop_step fuel d b rest :
  inPayload d = false →
  feedLoop (S fuel) d (b :: rest) =
    let '(d, o) := feedByte b d in '(d, o') ← feedLoop fuel d rest; Some (d, o ++ o').
Proof. intros Hin. cbn [feedLoop]. rewrite Hin. by rewrite orb_true_r. Qed.

(** A run above the MTU makes [feed] return with a reset decoder. *)
Lemma feedLoop_oversize fuel d p rest :
  inPayload d = true → escape d = false → Forall plain p → p ≠ [] → 0 <= len (data d) →
  mtu d < len (data d) + len p →
  feedLoop (S fuel) d (p ++ rest) = Some (reset d, []).
Proof.
  intros Hin He Hp Hne Hd Hl. destruct (p ++ rest) as [|b0 r0] eqn:Hbuf.
  { by destruct p. }
  cbn [feedLoop]. rewrite He, Hin. cbn [negb orb]. rewrite <- Hbuf.
  set (buf := p ++ rest).
  assert (Hlen : 0 < len p).
  { destruct p; [done|]. rewrite len_cons. pose proof (len_nonneg p). lia. }
  match goal with |- context [0 <? ?n] => set (next := n) end.
  assert (Hnext : len p <= next).
  { subst next buf. apply bulk_end; [eapply Forall_weaken; [exact Hp|]; by intros ? []|].
    apply bulk_end; [by apply plain_not_fend|].
    rewrite len_app. pose proof (len_nonneg rest). lia. }
  rewrite !(proj2 (Z.ltb_lt _ _)) by lia. done.
Qed.

(** A read that contains a data frame above the MTU loses everything after
    it: [feed] drops the frame and returns, so a valid frame behind it in the
    same read is never parsed, whereas the byte-wise decoder delivers it. *)
Theorem kiss_oversize_discards_read m p q :
  0 < m → Forall plain p → m < len p → len q <= m →
  feed (newKISSStreamDecoder m true) (frameKISS p ++ frameKISS q)
    = Some (newKISSStreamDecoder m true, [])
  ∧ (feedBytes (newKISSStreamDecoder m true) (frameKISS p ++ frameKISS q)).2 = [q].
Proof.
  intros Hm Hp Hlp Hlq. set (d0 := newKISSStreamDecoder m true).
  assert (Hmtu : mtu d0 = m) by (simpl; by rewrite (proj2 (Z.leb_gt _ _))).
  set (d1 := set_all true false true KISSCmdData [] d0).
  set (d2 := set_all true false false kissCmdUnknown [] d0).
  assert (Hstuff : p ≫= stuff = p).
  { clear -Hp. induction Hp as [|b p [H1 H2] _ IH]; [done|]. rewrite bind_cons, IH.
    unfold stuff. by rewrite !decide_False. }
  assert (Hframe : frameKISS p ++ frameKISS q
    = KISSFend :: KISSCmdData :: (p ++ KISSFend :: frameKISS q)).
  { rewrite (frameKISS_stuff p), Hstuff. cbn [app]. by rewrite <- app_assoc. }
  assert (Hne : p ≠ []) by (intros ->; change (len []) with 0 in Hlp; lia).
  rewrite Hframe. split.
  - unfold feed. set (rest := KISSFend :: frameKISS q).
    change (length _) with (S (S (length (p ++ rest)))).
    rewrite feedLoop_step by done. change (feedByte KISSFend d0) with (d2, @nil bytes). cbv iota beta.
    rewrite feedLoop_step by done. change (feedByte KISSCmdData d2) with (d1, @nil bytes). cbv iota beta.
    rewrite length_app, (Nat.add_succ_r _ (length (frameKISS q)) : _ = S _).
    rewrite feedLoop_oversize; try done. change (mtu d1) with (mtu d0). by rewrite Hmtu.
  - cbn [feedBytes]. change (feedByte KISSFend d0) with (d2, @nil bytes). cbv iota beta.
    change (feedByte KISSCmdData d2) with (d1, @nil bytes). cbv iota beta.
    rewrite kiss_feedBytes_app, feedBytes_overflow; try done.
    + cbn [feedBytes]. change (feedByte KISSFend (reset d1)) with (d2, @nil bytes). cbv iota beta.
      destruct (kiss_feed_frame d2 q) as [-> _];
        [done|change (mtu d2) with (mtu d0); by rewrite Hmtu|done].
    + change (mtu d1) with (mtu d0). rewrite Hmtu. change (data d1) with (@nil byte).
      by rewrite len_nil.
    + change (mtu d1) with (mtu d0). rewrite Hmtu. change (data d1) with (@nil byte).
      rewrite len_nil. lia.
Qed.

Lemma kiss_stream_roundtrip_witness :
  let stream := concat (frameKISS <$> [[xc0; x01]; [xdb; xdc; xdd]]) in
  ∃ d, feedAll (newKISSStreamDecoder 500 true) [take 3 stream; drop 3 stream]
    = Some (d, [[xc0; x01]; [xdb; xdc; xdd]]).
Proof.
  apply kiss_stream_roundtrip; [reflexivity| |vm_compute; reflexivity].
  repeat constructor; vm_compute; discriminate.
Defined.

Lemma kiss_oversize_discards_read_witness :
  feed (newKISSStreamDecoder 4 true) (frameKISS [x01; x02; x03; x04; x05] ++ frameKISS [x06])
    = Some (newKISSStreamDecoder 4 true, [])
  ∧ (feedBytes (newKISSStreamDecoder 4 true)
       (frameKISS [x01; x02; x03; x04; x05] ++ frameKISS [x06])).2 = [[x06]].
Proof.
  apply kiss_oversize_discards_read; [reflexivity| |reflexivity|vm_compute; discriminate].
  repeat constructor; discriminate.
Defined.

End Kiss.

(** * [interfaces.rnodeCmdDecoder] *)
Module RNode.
Import Kiss.
Local Open Scope go_scope.

Definition rnodeCmdUnknown : byte := xfe.
Definition rnodeCmdData : byte := x00.
Definition rnodeCmdDetect : byte := x08.
Definition rnodeCmdFWVersion : byte := x50.
Definition rnodeCmdPlatform : byte := x48.
Definition rnodeCmdMCU : byte := x49.
Definition rnodeCmdInterfaces : byte := x71.
Definition rnodeCmdSelInt : byte := x1f.
Definition rnodeDetectReq : byte := x73.
Definition rnodeHWMTU : Z := 508.

(** The data commands of the sub-interfaces of a multi-radio RNode. *)
Definition rnodeIntDataCmds : bytes :=
  [x00; x10; x20; x70; x75; x90; xa0; xb0; xc0; xd0; xe0; xf0].

Definition rnodeIntDataIndex (cmd : byte) : Z * bool :=
  match list_find (λ c, c = cmd) rnodeIntDataCmds with
  | Some (i, _) => (Z.of_nat i, true)
  | None => (0, false)
  end.

Definition rnodeEscape (dst data : bytes) : bytes := appendEscaped dst data.

Definition appendRNodeFrame (dst : bytes) (cmd : byte) (payload : bytes) : bytes :=
  let dst := dst ++ [KISSFend; cmd] in
  let dst := rnodeEscape dst payload in
  dst ++ [KISSFend].

Definition appendRNodeDataFrame (dst payload : bytes) : bytes :=
  appendRNodeFrame dst rnodeCmdData payload.
Definition appendRNodeSelIntFrame (dst : bytes) (index : byte) : bytes :=
  appendRNodeFrame dst rnodeCmdSelInt [index].
Definition appendRNodeU32Frame (dst : bytes) (cmd : byte) (v : Z) : bytes :=
  appendRNodeFrame dst cmd (be_encode 4 v).
Definition appendRNodeDetect (dst : bytes) : bytes :=
  let dst := appendRNodeFrame dst rnodeCmdDetect [rnodeDetectReq] in
  let dst := appendRNodeFrame dst rnodeCmdFWVersion [x00] in
  let dst := appendRNodeFrame dst rnodeCmdPlatform [x00] in
  appendRNodeFrame dst rnodeCmdMCU [x00].
Definition appendRNodeMultiDetect (dst : bytes) : bytes :=
  appendRNodeFrame (appendRNodeDetect dst) rnodeCmdInterfaces [x00].

Definition rnodeFirmwareOK (maj min reqMaj reqMin : Z) : bool :=
  if reqMaj <? maj then true
  else if maj <? reqMaj then false
  else reqMin <=? min.

Record rnodeCmdDecoder := mkRNode {
  mtu : Z;
  inFrame : bool;
  escape : bool;
  command : byte;
  haveCmd : bool;
  data : bytes;
  onEvent : bool
}.

Definition newRNodeCmdDecoder (mtu : Z) (onEvent : bool) : rnodeCmdDecoder :=
  mkRNode (if mtu <=? 0 then rnodeHWMTU else mtu) false false rnodeCmdUnknown false [] onEvent.

Definition set_all (inF esc : bool) (cmd : byte) (have : bool) (l : bytes)
    (d : rnodeCmdDecoder) : rnodeCmdDecoder :=
  mkRNode (mtu d) inF esc cmd have l (onEvent d).

Definition reset (d : rnodeCmdDecoder) : rnodeCmdDecoder :=
  set_all false false rnodeCmdUnknown false [] d.

Definition feedByte (b : byte) (d : rnodeCmdDecoder) : rnodeCmdDecoder * list (byte * bytes) :=
  if inFrame d && bool_decide (b = KISSFend) && haveCmd d
  then (reset d, if onEvent d then [(command d, data d)] else [])
  else if decide (b = KISSFend) then (set_all true false rnodeCmdUnknown false [] d, [])
  else if negb (inFrame d) then (d, [])
  else if negb (haveCmd d) then (set_all (inFrame d) (escape d) b true (data d) d, [])
  else if mtu d <=? len (data d) then (reset d, [])
  else if decide (b = KISSFesc) then
    (set_all (inFrame d) true (command d) (haveCmd d) (data d) d, [])
  else
    let b := if escape d then unstuff b else b in
    (set_all (inFrame d) false (command d) (haveCmd d) (data d ++ [b]) d, []).

Fixpoint feed (d : rnodeCmdDecoder) (buf : bytes) : rnodeCmdDecoder * list (byte * bytes) :=
  match buf with
  | [] => (d, [])
  | b :: buf =>
      let '(d, o) := feedByte b d in
      let '(d, o') := feed d buf in (d, o ++ o')
  end.

(** ** Command streams *)

Lemma feed_app d l k :
  feed d (l ++ k) = let '(d, o) := feed d l in let '(d, o') := feed d k in (d, o ++ o').
Proof.
  revert d. induction l as [|b l IH]; intros d; simpl.
  - by destruct (feed d k).
  - destruct (feedByte b d) as [d1 o1]. rewrite IH. destruct (feed d1 l) as [d2 o2].
    destruct (feed d2 k) as [d3 o3]. by rewrite app_assoc.
Qed.

Lemma rnode_feedByte_payload d cmd esc l b :
  b ≠ KISSFend → len l < mtu d →
  feedByte b (set_all true esc cmd true l d) =
    (if decide (b = KISSFesc) then set_all true true cmd true l d
     else set_all true false cmd true (l ++ [if esc then unstuff b else b]) d, []).
Proof.
  intros Hb Hl. unfold feedByte. cbn [inFrame haveCmd set_all].
  rewrite bool_decide_eq_false_2, decide_False by done. cbn [andb negb].
  change (mtu (set_all true esc cmd true l d)) with (mtu d). cbn [data set_all].
  rewrite (proj2 (Z.leb_gt _ _) Hl). by destruct (decide _).
Qed.

Lemma rnode_feed_stuffed d cmd l p :
  len l + len p <= mtu d →
  feed (set_all true false cmd true l d) (p ≫= stuff)
    = (set_all true false cmd true (l ++ p) d, []).
Proof.
  revert l. induction p as [|b p IH]; intros l Hl; [by rewrite app_nil_r|].
  rewrite len_cons in Hl. pose proof (len_nonneg p). rewrite bind_cons, feed_app.
  assert (Hb : feed (set_all true false cmd true l d) (stuff b)
            = (set_all true false cmd true (l ++ [b]) d, [])).
  { destruct (kiss_stuff_cases b) as [[[H1 H2] ->]|(t & -> & [H1 H2] & Ht)]; cbn [feed].
    - rewrite rnode_feedByte_payload by (done || lia). by rewrite decide_False.
    - rewrite rnode_feedByte_payload, decide_True by (done || lia).
      rewrite rnode_feedByte_payload by (done || lia). by rewrite decide_False, Ht by done. }
  rewrite Hb, IH by (rewrite len_app; change (len [b]) with 1; lia).
  by rewrite <- app_assoc.
Qed.

Lemma appendRNodeFrame_app dst cmd p :
  appendRNodeFrame dst cmd p = dst ++ KISSFend :: cmd :: (p ≫= stuff) ++ [KISSFend].
Proof.
  unfold appendRNodeFrame, rnodeEscape. rewrite appendEscaped_stuff. by rewrite <- !app_assoc.
Qed.

(** Between commands. *)
Definition idle (d : rnodeCmdDecoder) : Prop := haveCmd d = false.

Lemma feed_command d cmd p :
  idle d → cmd ≠ KISSFend → len p <= mtu d →
  feed d (appendRNodeFrame [] cmd p) = (reset d, if onEvent d then [(cmd, p)] else []).
Proof.
  intros Hd Hc Hl. rewrite appendRNodeFrame_app. cbn [app feed].
  assert (Hopen : feedByte KISSFend d = (set_all true false rnodeCmdUnknown false [] d, [])).
  { unfold feedByte. rewrite Hd, andb_false_r. by rewrite decide_True. }
  rewrite Hopen.
  assert (Hcmd : feedByte cmd (set_all true false rnodeCmdUnknown false [] d)
            = (set_all true false cmd true [] d, [])).
  { unfold feedByte. cbn [inFrame haveCmd set_all]. rewrite andb_false_r.
    by rewrite decide_False. }
  rewrite Hcmd, feed_app, rnode_feed_stuffed by (change (len []) with 0; lia).
  cbn [app feed]. change (feedByte KISSFend (set_all true false cmd true p d))
    with (reset d, if onEvent d then [(cmd, p)] else []).
  by destruct (onEvent d).
Qed.

(** RNode command round trip: a sequence of commands with payloads within
    the MTU is decoded to the same events, for every command byte other than
    the frame delimiter. *)
Theorem rnode_command_roundtrip m cmds :
  0 < m → Forall (λ '(cmd, p), cmd ≠ KISSFend ∧ len p <= m) cmds →
  (feed (newRNodeCmdDecoder m true)
     (foldl (λ dst '(cmd, p), appendRNodeFrame dst cmd p) [] cmds)).2 = cmds.
Proof.
  intros Hm Hcmds. set (d0 := newRNodeCmdDecoder m true).
  assert (Hmtu : mtu d0 = m) by (simpl; by rewrite (proj2 (Z.leb_gt _ _))).
  assert (Hgen : ∀ cs dst d o,
    Forall (λ '(cmd, p), cmd ≠ KISSFend ∧ len p <= m) cs →
    feed d0 dst = (d, o) → idle d → mtu d = m → onEvent d = true →
    (feed d0 (foldl (λ dst '(cmd, p), appendRNodeFrame dst cmd p) dst cs)).2 = o ++ cs).
  { induction cs as [|[cmd p] cs IH]; intros dst d o HF Hd Hi Hdm He.
    - simpl. by rewrite Hd, app_nil_r.
    - inversion_clear HF as [|?? Hcp HF']. destruct Hcp as [Hc Hp]. cbn [foldl].
      rewrite (IH _ (reset d) (o ++ [(cmd, p)])); try done; [by rewrite <- app_assoc|].
      rewrite appendRNodeFrame_app, feed_app, Hd.
      pose proof (feed_command d cmd p Hi Hc) as Hf. rewrite appendRNodeFrame_app in Hf.
      cbn [app] in Hf. rewrite Hf, He by lia. done. }
  by apply (Hgen cmds [] d0 []).
Qed.

(** The data command of sub-interface 8 is the frame delimiter, so its
    frames are never decoded as data of that sub-interface: the command byte is
    taken for a delimiter and the first payload byte for the command. *)
Theorem rnode_int8_misread m b p :
  0 < m → plain b → len p <= m →
  rnodeIntDataIndex KISSFend = (8, true)
  ∧ (feed (newRNodeCmdDecoder m true) (appendRNodeFrame [] KISSFend (b :: p))).2 = [(b, p)].
Proof.
  intros Hm [Hb1 Hb2] Hl. split; [reflexivity|]. set (d0 := newRNodeCmdDecoder m true).
  assert (Hmtu : mtu d0 = m) by (simpl; by rewrite (proj2 (Z.leb_gt _ _))).
  rewrite appendRNodeFrame_app, bind_cons. cbn [app].
  assert (Hs : stuff b = [b]) by (unfold stuff; by rewrite !decide_False).
  rewrite Hs. set (d1 := set_all true false rnodeCmdUnknown false [] d0).
  pose proof (feed_command d1 b p eq_refl Hb1) as Hf. change (mtu d1) with (mtu d0) in Hf.
  rewrite Hmtu, appendRNodeFrame_app in Hf. cbn [app] in *.
  match goal with |- (feed d0 (KISSFend :: ?l)).2 = _ =>
    change (KISSFend :: l) with ([KISSFend] ++ l) end.
  rewrite feed_app. change (feed d0 [KISSFend]) with (d1, @nil (byte * bytes)).
  cbv iota beta. by rewrite (Hf Hl).
Qed.

Lemma rnode_command_roundtrip_witness :
  (feed (newRNodeCmdDecoder 508 true)
     (foldl (λ dst '(cmd, p), appendRNodeFrame dst cmd p) []
        [(rnodeCmdDetect, [rnodeDetectReq]); (rnodeCmdData, [xc0; xdb; x00])])).2
  = [(rnodeCmdDetect, [rnodeDetectReq]); (rnodeCmdData, [xc0; xdb; x00])].
Proof.
  apply rnode_command_roundtrip; [reflexivity|].
  repeat constructor; vm_compute; discriminate.
Defined.

Lemma rnode_int8_misread_witness :
  rnodeIntDataIndex KISSFend = (8, true)
  ∧ (feed (newRNodeCmdDecoder 508 true) (appendRNodeFrame [] KISSFend [x01; x02])).2
    = [(x01, [x02])].
Proof.
  apply rnode_int8_misread; [reflexivity|split; discriminate|vm_compute; discriminate].
Defined.

End RNode.
