(* ===== verification/Aes.v ===== *)
(** * AES

    The block cipher of Go's [crypto/aes] (FIPS 197), written out for 128-bit and
    256-bit keys, with its inverse law.  The modes of operation in [Crypto.v]
    use it through the [cipher.Block] interface only. *)

From Stdlib Require Import Btauto.
From S2P Require Import Prelude.

Module Aes.
Local Open Scope go_scope.

(** ** The field with 256 elements *)

Definition xtime (a : byte) : byte :=
  let s := a <<< 1 in
  if 128 <=? b2z a then s ^^^ x1b else s.

(** Multiplication by the small constants of MixColumns. *)
Definition mul2 (a : byte) : byte := xtime a.
Definition mul3 (a : byte) : byte := xtime a ^^^ a.
Definition mul9 (a : byte) : byte := xtime (xtime (xtime a)) ^^^ a.
Definition mul11 (a : byte) : byte := xtime (xtime (xtime a)) ^^^ xtime a ^^^ a.
Definition mul13 (a : byte) : byte := xtime (xtime (xtime a)) ^^^ xtime (xtime a) ^^^ a.
Definition mul14 (a : byte) : byte :=
  xtime (xtime (xtime a)) ^^^ xtime (xtime a) ^^^ xtime a.

(** General product, for the inverse in the S-box. *)
Fixpoint gmul (n : nat) (a b : byte) : byte :=
  match n with
  | O => x00
  | S n => let r := gmul n (xtime a) (b >>> 1) in
      if Z.odd (b2z b) then a ^^^ r else r
  end.

(** [a^254], the inverse (and 0 for 0). *)
Definition ginv (a : byte) : byte := Nat.iter 253 (gmul 8 a) a.

Definition rotl (a : byte) (n : Z) : byte := (a <<< n) ||| (a >>> (8 - n)).

Definition sbox_of (a : byte) : byte :=
  let b := ginv a in
  b ^^^ rotl b 1 ^^^ rotl b 2 ^^^ rotl b 3 ^^^ rotl b 4 ^^^ x63.

Definition sbox_table : bytes := Eval vm_compute in sbox_of <$> all_bytes.
Definition sbox (a : byte) : byte := nth (Z.to_nat (b2z a)) sbox_table x00.

Definition inv_sbox_table : bytes := Eval vm_compute in
  (λ a, match list_find (λ b, b = a) sbox_table with
        | Some (i, _) => z2b (Z.of_nat i) | None => x00 end) <$> all_bytes.
Definition inv_sbox (a : byte) : byte := nth (Z.to_nat (b2z a)) inv_sbox_table x00.

(** ** The round functions, on the 16 bytes of a block (column by column) *)

Definition SubBytes (s : bytes) : bytes := sbox <$> s.
Definition InvSubBytes (s : bytes) : bytes := inv_sbox <$> s.

Definition ShiftRows (s : bytes) : bytes :=
  (λ i, nth (Nat.modulo (5 * i) 16) s x00) <$> seq 0 16.
Definition InvShiftRows (s : bytes) : bytes :=
  (λ i, nth (Nat.modulo (13 * i) 16) s x00) <$> seq 0 16.

Fixpoint MixColumns (s : bytes) : bytes :=
  match s with
  | a :: b :: c :: d :: s =>
      (mul2 a ^^^ mul3 b ^^^ c ^^^ d) :: (a ^^^ mul2 b ^^^ mul3 c ^^^ d)
      :: (a ^^^ b ^^^ mul2 c ^^^ mul3 d) :: (mul3 a ^^^ b ^^^ c ^^^ mul2 d)
      :: MixColumns s
  | _ => []
  end.
Fixpoint InvMixColumns (s : bytes) : bytes :=
  match s with
  | a :: b :: c :: d :: s =>
      (mul14 a ^^^ mul11 b ^^^ mul13 c ^^^ mul9 d)
      :: (mul9 a ^^^ mul14 b ^^^ mul11 c ^^^ mul13 d)
      :: (mul13 a ^^^ mul9 b ^^^ mul14 c ^^^ mul11 d)
      :: (mul11 a ^^^ mul13 b ^^^ mul9 c ^^^ mul14 d)
      :: InvMixColumns s
  | _ => []
  end.

Definition AddRoundKey (k s : bytes) : bytes :=
  imap (λ i b, b ^^^ nth i k x00) s.

(** ** Key expansion *)

Definition xor_word (a b : bytes) : bytes := zip_with bxor a b.
Definition RotWord (w : bytes) : bytes := drop 1 w ++ take 1 w.
Definition SubWord (w : bytes) : bytes := sbox <$> w.

(** One more word, the words so far newest first; [i] is its index. *)
Definition expand_word (nk : nat) (i : nat) (ws : list bytes) : list bytes :=
  let temp := nth 0 ws [] in
  let temp :=
    if Nat.eqb (Nat.modulo i nk) 0 then
      xor_word (SubWord (RotWord temp)) [Nat.iter (Nat.div i nk - 1) xtime x01; x00; x00; x00]
    else if Nat.ltb 6 nk && Nat.eqb (Nat.modulo i nk) 4 then SubWord temp
    else temp in
  xor_word (nth (nk - 1) ws []) temp :: ws.

Fixpoint chunks (n : nat) (l : bytes) : list bytes :=
  match n with
  | O => []
  | S n => take 4 l :: chunks n (drop 4 l)
  end.

Fixpoint round_keys (n : nat) (ws : list bytes) : list bytes :=
  match n with
  | O => []
  | S n => concat (take 4 ws) :: round_keys n (drop 4 ws)
  end.

(** The round keys, first one first: 11 for 128-bit keys, 15 for 256-bit. *)
Definition expandKey (key : bytes) : list bytes :=
  let nk := Nat.div (length key) 4 in
  let nr := (nk + 6)%nat in
  let ws := foldl (λ ws i, expand_word nk i ws) (rev (chunks nk key))
              (seq nk (4 * (nr + 1) - nk)) in
  round_keys (nr + 1) (rev ws).

(** ** The cipher *)

Definition enc_round (s k : bytes) : bytes := AddRoundKey k (MixColumns (ShiftRows (SubBytes s))).
Definition enc_last (k s : bytes) : bytes := AddRoundKey k (ShiftRows (SubBytes s)).
Definition dec_round (k s : bytes) : bytes :=
  InvSubBytes (InvShiftRows (InvMixColumns (AddRoundKey k s))).
Definition dec_last (k s : bytes) : bytes := InvSubBytes (InvShiftRows (AddRoundKey k s)).

(** Round keys: the first, the inner ones, the last. *)
Definition encryptBlock (key s : bytes) : bytes :=
  let ks := expandKey key in
  enc_last (nth (length ks - 1) ks [])
    (foldl enc_round (AddRoundKey (nth 0 ks []) s) (take (length ks - 2) (drop 1 ks))).

Definition decryptBlock (key s : bytes) : bytes :=
  let ks := expandKey key in
  AddRoundKey (nth 0 ks [])
    (foldr dec_round (dec_last (nth (length ks - 1) ks []) s) (take (length ks - 2) (drop 1 ks))).

(** FIPS 197, appendices C.1 and C.3. *)
Example aes128_vector :
  be_decode (encryptBlock (z2b <$> seqZ 0 16) ((λ i, z2b (17 * i)) <$> seqZ 0 16))
  = 0x69c4e0d86a7b0430d8cdb78070b4c55a.
Proof. vm_compute. reflexivity. Qed.

Example aes256_vector :
  be_decode (encryptBlock (z2b <$> seqZ 0 32) ((λ i, z2b (17 * i)) <$> seqZ 0 16))
  = 0x8ea2b7ca516745bfeafc49904b496089.
Proof. vm_compute. reflexivity. Qed.

(** ** Decryption inverts encryption *)

Lemma inv_sbox_sbox b : inv_sbox (sbox b) = b.
Proof. byte_cases b. Qed.

Lemma InvSubBytes_SubBytes s : InvSubBytes (SubBytes s) = s.
Proof. unfold InvSubBytes, SubBytes. 
  rewrite <- list_fmap_compose. rewrite <- (list_fmap_id s) at 2. apply list_fmap_ext.
  intros i b _. apply inv_sbox_sbox.
Qed.

(** A block is a list of 16 bytes. *)
Lemma block_cases (s : bytes) (P : bytes → Prop) :
  length s = 16%nat →
  (∀ a b c d e f g h i j k l m n o p, P [a;b;c;d;e;f;g;h;i;j;k;l;m;n;o;p]) → P s.
Proof.
  intros Hs HP. do 16 (destruct s as [|? s]; [done|]). destruct s; [apply HP|done].
Qed.

Lemma InvShiftRows_ShiftRows s : length s = 16%nat → InvShiftRows (ShiftRows s) = s.
Proof. intros Hs. pattern s. apply block_cases; [done|]. reflexivity. Qed.

(** The bits of a doubled element: shifted, and reduced when the top bit was
    set. *)
Lemma xtime_bits a :
  forallb (λ n, bool_decide (Z.testbit (b2z (xtime a)) n =
      xorb (negb (n =? 0) && Z.testbit (b2z a) (n - 1)) (Z.testbit (b2z a) 7 && Z.testbit 27 n)))
    (seqZ 0 8) = true.
Proof. byte_cases a. Qed.

Lemma xtime_bxor a b : xtime (a ^^^ b) = xtime a ^^^ xtime b.
Proof.
  apply b2z_inj. rewrite b2z_bxor. apply Z.bits_inj'. intros n Hn. rewrite Z.lxor_spec.
  destruct (decide (8 <= n)) as [H8|H8]; [by rewrite !testbit_b2z_high|].
  assert (Hbit : ∀ c, Z.testbit (b2z (xtime c)) n =
      xorb (negb (n =? 0) && Z.testbit (b2z c) (n - 1)) (Z.testbit (b2z c) 7 && Z.testbit 27 n)).
  { intros c. pose proof (xtime_bits c) as H. rewrite forallb_forall in H.
    assert (Hin : In n (seqZ 0 8)) by (apply list_elem_of_In, elem_of_seqZ; lia).
    apply H in Hin. by apply bool_decide_eq_true in Hin. }
  rewrite !Hbit, b2z_bxor, !Z.lxor_spec. btauto.
Qed.

(** Equations between exclusive-or terms. *)
Ltac bxor_ac :=
  apply b2z_inj; rewrite !b2z_bxor; apply Z.bits_inj'; intros ? _;
  rewrite !Z.lxor_spec; btauto.

(** Sixteen terms grouped by row are the same terms grouped by column. *)
Lemma bxor_transpose a1 b1 c1 d1 a2 b2 c2 d2 a3 b3 c3 d3 a4 b4 c4 d4 :
  (a1 ^^^ b1 ^^^ c1 ^^^ d1) ^^^ (a2 ^^^ b2 ^^^ c2 ^^^ d2) ^^^ (a3 ^^^ b3 ^^^ c3 ^^^ d3)
    ^^^ (a4 ^^^ b4 ^^^ c4 ^^^ d4)
  = (a1 ^^^ a2 ^^^ a3 ^^^ a4) ^^^ (b1 ^^^ b2 ^^^ b3 ^^^ b4) ^^^ (c1 ^^^ c2 ^^^ c3 ^^^ c4)
    ^^^ (d1 ^^^ d2 ^^^ d3 ^^^ d4).
Proof. bxor_ac. Qed.

(** Multiplication by a constant is additive. *)
Definition additive (f : byte → byte) : Prop :=
  ∀ a b c d, f (a ^^^ b ^^^ c ^^^ d) = f a ^^^ f b ^^^ f c ^^^ f d.

Lemma additive2 (f : byte → byte) : (∀ a b, f (a ^^^ b) = f a ^^^ f b) → additive f.
Proof. intros H a b c d. by rewrite !H. Qed.

Lemma mul9_additive : additive mul9.
Proof. apply additive2. intros a b. unfold mul9. rewrite !xtime_bxor. bxor_ac. Qed.
Lemma mul11_additive : additive mul11.
Proof. apply additive2. intros a b. unfold mul11. rewrite !xtime_bxor. bxor_ac. Qed.
Lemma mul13_additive : additive mul13.
Proof. apply additive2. intros a b. unfold mul13. rewrite !xtime_bxor. bxor_ac. Qed.
Lemma mul14_additive : additive mul14.
Proof. apply additive2. intros a b. unfold mul14. rewrite !xtime_bxor. bxor_ac. Qed.

(** The inverse matrix: each output byte gets one input byte back. *)
Lemma inv_mix_diag a :
  mul14 (mul2 a) ^^^ mul11 a ^^^ mul13 a ^^^ mul9 (mul3 a) = a
  ∧ mul14 (mul3 a) ^^^ mul11 (mul2 a) ^^^ mul13 a ^^^ mul9 a = x00
  ∧ mul14 a ^^^ mul11 (mul3 a) ^^^ mul13 (mul2 a) ^^^ mul9 a = x00
  ∧ mul14 a ^^^ mul11 a ^^^ mul13 (mul3 a) ^^^ mul9 (mul2 a) = x00.
Proof. byte_cases a. Qed.

Lemma inv_mix_row a b c d :
  mul14 (mul2 a ^^^ mul3 b ^^^ c ^^^ d) ^^^ mul11 (a ^^^ mul2 b ^^^ mul3 c ^^^ d)
    ^^^ mul13 (a ^^^ b ^^^ mul2 c ^^^ mul3 d) ^^^ mul9 (mul3 a ^^^ b ^^^ c ^^^ mul2 d) = a.
Proof.
  rewrite mul14_additive, mul11_additive, mul13_additive, mul9_additive, bxor_transpose.
  destruct (inv_mix_diag a) as (-> & _), (inv_mix_diag b) as (_ & -> & _),
    (inv_mix_diag c) as (_ & _ & -> & _), (inv_mix_diag d) as (_ & _ & _ & ->).
  by rewrite !bxor_0_r.
Qed.

(** The other rows are the first one on a rotated column. *)
Lemma inv_mix_rows a b c d :
  InvMixColumns (MixColumns [a; b; c; d]) = [a; b; c; d].
Proof.
  cbn [MixColumns InvMixColumns]. f_equal; [apply inv_mix_row|].
  f_equal; [|f_equal; [|f_equal]]; (etrans;
    [|first [apply (inv_mix_row b c d a)|apply (inv_mix_row c d a b)|apply (inv_mix_row d a b c)]]);
  rewrite !mul14_additive, !mul11_additive, !mul13_additive, !mul9_additive; bxor_ac.
Qed.

Lemma InvMixColumns_MixColumns s : length s = 16%nat → InvMixColumns (MixColumns s) = s.
Proof.
  intros Hs. pattern s. apply block_cases; [done|]. intros.
  assert (Hstep : ∀ a b c d r, InvMixColumns (MixColumns (a :: b :: c :: d :: r))
            = [a; b; c; d] ++ InvMixColumns (MixColumns r)).
  { intros. rewrite <- inv_mix_rows. done. }
  by rewrite !Hstep.
Qed.

Lemma AddRoundKey_length k s : length (AddRoundKey k s) = length s.
Proof. apply length_imap. Qed.

Lemma AddRoundKey_inv k s : AddRoundKey k (AddRoundKey k s) = s.
Proof.
  unfold AddRoundKey. apply list_eq. intros i. rewrite !list_lookup_imap.
  destruct (s !! i); simpl; [|done]. by rewrite bxor_cancel.
Qed.

Lemma SubBytes_length s : length (SubBytes s) = length s.
Proof. apply length_fmap. Qed.

Lemma ShiftRows_length s : length (ShiftRows s) = 16%nat.
Proof. done. Qed.

Lemma MixColumns_length s : length s = 16%nat → length (MixColumns s) = 16%nat.
Proof. intros Hs. pattern s. by apply block_cases. Qed.

Lemma enc_round_length s k : length (enc_round s k) = 16%nat.
Proof. unfold enc_round. rewrite AddRoundKey_length. by apply MixColumns_length. Qed.

Lemma dec_enc_round s k : length s = 16%nat → dec_round k (enc_round s k) = s.
Proof.
  intros Hs. unfold dec_round, enc_round.
  rewrite AddRoundKey_inv, InvMixColumns_MixColumns by done.
  rewrite InvShiftRows_ShiftRows by (by rewrite SubBytes_length). apply InvSubBytes_SubBytes.
Qed.

Lemma dec_enc_rounds ks s :
  length s = 16%nat → length (foldl enc_round s ks) = 16%nat
  ∧ foldr dec_round (foldl enc_round s ks) ks = s.
Proof.
  revert s. induction ks as [|k ks IH]; intros s Hs; [done|]. simpl.
  destruct (IH (enc_round s k)) as [Hl Heq]; [apply enc_round_length|].
  split; [done|]. by rewrite Heq, dec_enc_round.
Qed.

Lemma encryptBlock_length key s : length (encryptBlock key s) = 16%nat.
Proof. unfold encryptBlock, enc_last. by rewrite AddRoundKey_length. Qed.

Lemma decrypt_encryptBlock key s :
  length s = 16%nat → decryptBlock key (encryptBlock key s) = s.
Proof.
  intros Hs. unfold decryptBlock, encryptBlock, dec_last, enc_last.
  set (ks := expandKey key). rewrite AddRoundKey_inv.
  destruct (dec_enc_rounds (take (length ks - 2) (drop 1 ks)) (AddRoundKey (nth 0 ks []) s))
    as [Hl Heq]; [by rewrite AddRoundKey_length|].
  rewrite InvShiftRows_ShiftRows, InvSubBytes_SubBytes by (by rewrite SubBytes_length).
  by rewrite Heq, AddRoundKey_inv.
Qed.

End Aes.

#[global] Opaque Aes.encryptBlock Aes.decryptBlock.
