(* ===== verification/Crypto.v ===== *)
(** * Package [cryptography]

    PKCS#7, CBC over the [cipher.Block] interface, the Token format (IV,
    ciphertext, HMAC), and HKDF.  Randomness is an argument: the IV a call draws
    from [crypto/rand], or [None] when the read fails. *)

From S2P Require Import Prelude.
From S2P Require Import Sha256.
From S2P Require Import Aes.

Module Crypto.
Local Open Scope go_scope.

Definition BlockSize : Z := 16.
Definition SHA256Size : Z := 32.
Definition AES256KeySize : Z := 32.
Definition IdentityKeyMaterialSize : Z := SHA256Size + AES256KeySize.
Definition TokenKeySize : Z := 64.
Definition TokenKeySize128 : Z := 32.

Inductive crypto_error :=
  | PaddingEmpty | PaddingSize | PaddingTooLarge | PaddingBytes
  | CBCArgs | InvalidKeySize | CiphertextTooShort | CiphertextNotMultiple
  | TokenKeyLength | TokenTooShort | TokenHMACInvalid
  | InvalidOutputLength | EmptyInputMaterial | OutputTooLong
  | RandomFailed.

#[global] Instance crypto_error_eq_dec : EqDecision crypto_error.
Proof. solve_decision. Defined.

(** [IsPaddingError]. *)
Definition IsPaddingError (e : crypto_error) : bool :=
  match e with
  | PaddingEmpty | PaddingSize | PaddingTooLarge | PaddingBytes => true
  | _ => false
  end.

(** ** PKCS#7 ([pkcs7.go]) *)

(** The fill loop of the encryption functions. *)
Definition pkcs7_pad (plaintext : bytes) : bytes :=
  let padding := BlockSize - len plaintext `mod` BlockSize in
  plaintext ++ replicate (Z.to_nat padding) (z2b padding).

Definition RemovePKCS7Padding (plaintext : bytes) : outcome crypto_error bytes :=
  if len plaintext =? 0 then Err PaddingEmpty
  else if negb (len plaintext `mod` BlockSize =? 0) then Err PaddingSize
  else
    last ← go_index (len plaintext - 1) plaintext;
    let padding := b2z last in
    if (BlockSize <? padding) || (padding =? 0) then Err PaddingSize
    else if len plaintext <? padding then Err PaddingTooLarge
    else
      tail ← go_slice (len plaintext - padding) (len plaintext) plaintext;
      let bad := foldl (λ bad b, bad ||| (b ^^^ z2b padding)) x00 tail in
      if decide (bad ≠ x00) then Err PaddingBytes
      else go_slice 0 (len plaintext - padding) plaintext.

(** ** Block ciphers and CBC ([cbc.go]) *)

(** [cipher.Block]. *)
Class CipherBlock (B : Type) := {
  blockSize : B → Z;
  Encrypt : B → bytes → bytes;
  Decrypt : B → bytes → bytes
}.

Class CipherBlockLaws (B : Type) `{CipherBlock B} := {
  blockSize_range : ∀ k, 0 < blockSize k <= 32;
  Encrypt_len : ∀ k s, len s = blockSize k → len (Encrypt k s) = blockSize k;
  Decrypt_Encrypt : ∀ k s, len s = blockSize k → Decrypt k (Encrypt k s) = s
}.

Definition XORBytes (x y : bytes) : bytes := zip_with bxor x y.

Section cbc.
Context {B : Type} `{CipherBlock B}.

(** The loops over the blocks of the buffer: [n] blocks. *)
Fixpoint encryptBlocks (n : nat) (block : B) (prev buf : bytes) : bytes :=
  match n with
  | O => []
  | S n =>
      let bs := Z.to_nat (blockSize block) in
      let chunk := Encrypt block (XORBytes (take bs buf) prev) in
      chunk ++ encryptBlocks n block chunk (drop bs buf)
  end.

Fixpoint decryptBlocks (n : nat) (block : B) (prev src : bytes) : bytes :=
  match n with
  | O => []
  | S n =>
      let bs := Z.to_nat (blockSize block) in
      let ciph := take bs src in
      XORBytes (Decrypt block ciph) prev ++ decryptBlocks n block ciph (drop bs src)
  end.

Definition EncryptCBC (block : option B) (iv buf : bytes) : outcome crypto_error bytes :=
  match block with
  | None => Err CBCArgs
  | Some block =>
      let bs := blockSize block in
      if negb (len iv =? bs) || negb (len buf `mod` bs =? 0) then Err CBCArgs
      else Ok (encryptBlocks (Z.to_nat (len buf `div` bs)) block iv buf)
  end.

(** [dst] is only measured: it has the length of the result. *)
Definition DecryptCBC (block : option B) (iv src : bytes) (dstLen : Z)
    : outcome crypto_error bytes :=
  match block with
  | None => Err CBCArgs
  | Some block =>
      let bs := blockSize block in
      if negb (len iv =? bs) || negb (len src =? dstLen) || negb (len src `mod` bs =? 0)
      then Err CBCArgs
      else if 32 <? bs then Err CBCArgs
      else Ok (decryptBlocks (Z.to_nat (len src `div` bs)) block iv src)
  end.

End cbc.

(** [aes.NewCipher], for keys of 16 or 32 bytes here. *)
Record aesCipher := NewCipher { aes_key : bytes }.

#[global] Instance aes_block : CipherBlock aesCipher := {
  blockSize _ := BlockSize;
  Encrypt c s := Aes.encryptBlock (aes_key c) s;
  Decrypt c s := Aes.decryptBlock (aes_key c) s
}.

#[global] Instance aes_block_laws : CipherBlockLaws aesCipher.
Proof.
  split.
  - intros k. simpl. unfold BlockSize. lia.
  - intros k s _. simpl. unfold len. by rewrite Aes.encryptBlock_length.
  - intros k s Hs. simpl in *. apply Aes.decrypt_encryptBlock.
    unfold len, BlockSize in Hs. lia.
Qed.

(** ** AES-CBC with a prepended IV ([aes.go], [token.go]) *)

(** The body shared by [implEncryptAES256CBC] and the 128-bit branch of
    [encryptAESCBC]. *)
Definition sealCBC (rand : option bytes) (key plaintext : bytes) : outcome crypto_error bytes :=
  match rand with
  | None => Err RandomFailed
  | Some iv =>
      ct ← EncryptCBC (Some (NewCipher key)) iv (pkcs7_pad plaintext);
      Ok (iv ++ ct)
  end.

Definition openCBC (key ciphertext : bytes) : outcome crypto_error bytes :=
  if len ciphertext <? BlockSize then Err CiphertextTooShort
  else
    iv ← go_slice 0 BlockSize ciphertext;
    ct ← go_slice BlockSize (len ciphertext) ciphertext;
    if negb (len ct `mod` BlockSize =? 0) then Err CiphertextNotMultiple
    else
      plaintext ← DecryptCBC (Some (NewCipher key)) iv ct (len ct);
      RemovePKCS7Padding plaintext.

Definition implEncryptAES256CBC (rand : option bytes) (key plaintext : bytes)
    : outcome crypto_error bytes :=
  if negb (len key =? AES256KeySize) then Err InvalidKeySize else sealCBC rand key plaintext.

Definition implDecryptAES256CBC (key ciphertext : bytes) : outcome crypto_error bytes :=
  if negb (len key =? AES256KeySize) then Err InvalidKeySize else openCBC key ciphertext.

Definition encryptAESCBC (rand : option bytes) (key plaintext : bytes)
    : outcome crypto_error bytes :=
  if len key =? AES256KeySize then implEncryptAES256CBC rand key plaintext
  else if negb (len key =? 16) then Err InvalidKeySize
  else sealCBC rand key plaintext.

Definition decryptAESCBC (key ciphertext : bytes) : outcome crypto_error bytes :=
  if len key =? AES256KeySize then implDecryptAES256CBC key ciphertext
  else if negb (len key =? 16) then Err InvalidKeySize
  else openCBC key ciphertext.

(** ** Tokens ([token.go]) *)

Definition splitTokenKey (key : bytes) : outcome crypto_error (bytes * bytes) :=
  if len key =? TokenKeySize128 then Ok (take 16 key, drop 16 key)
  else if len key =? TokenKeySize then Ok (take 32 key, drop 32 key)
  else Err TokenKeyLength.

Definition ComputeHMAC (key message : bytes) : bytes := Hmac.mac key message.
Definition ValidateHMAC (key message messageHMAC : bytes) : bool :=
  bool_decide (messageHMAC = ComputeHMAC key message).

Definition EncryptToken (rand : option bytes) (key plaintext : bytes)
    : outcome crypto_error bytes :=
  '(hmacKey, encKey) ← splitTokenKey key;
  ct ← encryptAESCBC rand encKey plaintext;
  let mac := ComputeHMAC hmacKey ct in
  Ok (ct ++ mac).

Definition DecryptToken (key token : bytes) : outcome crypto_error bytes :=
  '(hmacKey, encKey) ← splitTokenKey key;
  if len token <? BlockSize + SHA256Size then Err TokenTooShort
  else
    mac ← go_slice (len token - SHA256Size) (len token) token;
    body ← go_slice 0 (len token - SHA256Size) token;
    if negb (ValidateHMAC hmacKey body mac) then Err TokenHMACInvalid
    else decryptAESCBC encKey body.

(** ** HKDF ([hkdf.go]) *)

Definition hkdfZeroSalt : bytes := replicate 32 x00.

(** The expansion loop: iteration [i] of [n] still to do, [block] the previous
    output block. *)
Fixpoint hkdfExpand (n : nat) (i : Z) (prk block info : bytes) : bytes :=
  match n with
  | O => []
  | S n =>
      let block := Hmac.mac prk (block ++ info ++ [z2b (i + 1)]) in
      block ++ hkdfExpand n (i + 1) prk block info
  end.

(** [dst] has length [length] and is filled completely. *)
Definition implDeriveKeyWrite (length : Z) (secret salt info : bytes)
    : outcome crypto_error bytes :=
  if length <? 1 then Err InvalidOutputLength
  else if len secret =? 0 then Err EmptyInputMaterial
  else
    let salt := if len salt =? 0 then hkdfZeroSalt else salt in
    let prk := Hmac.mac salt secret in
    let iterations := (length + 31) `div` 32 in
    if 255 <? iterations then Err OutputTooLong
    else Ok (take (Z.to_nat length) (hkdfExpand (Z.to_nat iterations) 0 prk [] info)).

Definition implDeriveKey (secret salt info : bytes) (length : Z) : outcome crypto_error bytes :=
  if length <? 1 then Err InvalidOutputLength
  else implDeriveKeyWrite length secret salt info.

(** ** PKCS#7 *)

Lemma pad_amount n : 0 <= n → 1 <= BlockSize - n `mod` BlockSize <= BlockSize.
Proof. unfold BlockSize. pose proof (Z.mod_pos_bound n 16). lia. Qed.

Lemma len_pkcs7_pad p : len (pkcs7_pad p) `mod` BlockSize = 0 ∧ len p < len (pkcs7_pad p).
Proof.
  unfold pkcs7_pad. rewrite len_app, len_replicate.
  pose proof (pad_amount (len p) (len_nonneg p)). rewrite Z2Nat.id by lia.
  split; [|lia]. unfold BlockSize. pose proof (Z.div_mod (len p) 16).
  replace (len p + (16 - len p `mod` 16)) with ((len p `div` 16 + 1) * 16) by lia.
  apply Z_mod_mult.
Qed.

(** The accumulated difference is zero exactly when all bytes agree. *)
Lemma diff_zero c l acc :
  foldl (λ bad b, bad ||| (b ^^^ c)) acc l = x00 ↔ acc = x00 ∧ Forall (λ b, b = c) l.
Proof.
  revert acc. induction l as [|b l IH]; intros acc; simpl.
  - split; [done|by intros [? _]].
  - rewrite IH, bor_eq_0, bxor_eq_0, Forall_cons_iff. naive_solver.
Qed.

Lemma Forall_eq_replicate {A} (c : A) l : Forall (λ b, b = c) l ↔ l = replicate (length l) c.
Proof.
  split; [induction 1; simpl; congruence|]. intros ->. apply Forall_replicate. done.
Qed.

Lemma last_pkcs7_pad p :
  (pkcs7_pad p) !! Z.to_nat (len (pkcs7_pad p) - 1)
    = Some (z2b (BlockSize - len p `mod` BlockSize)).
Proof.
  pose proof (pad_amount (len p) (len_nonneg p)) as Hn.
  unfold pkcs7_pad. set (n := BlockSize - len p `mod` BlockSize) in *.
  rewrite lookup_app_r by (rewrite len_app, len_replicate; unfold len; lia).
  apply lookup_replicate. rewrite len_app, len_replicate. unfold len. split; [done|lia].
Qed.

Lemma Remove_pad p : RemovePKCS7Padding (pkcs7_pad p) = Ok p.
Proof.
  destruct (len_pkcs7_pad p) as [Hmod Hlt]. pose proof (len_nonneg p).
  pose proof (pad_amount (len p) (len_nonneg p)) as Hn.
  unfold RemovePKCS7Padding. rewrite (proj2 (Z.eqb_neq _ _)), Hmod by lia. cbn [negb Z.eqb].
  rewrite (go_index_Some _ _ _) by (lia || apply last_pkcs7_pad). cbn [mbind outcome_bind].
  set (n := BlockSize - len p `mod` BlockSize) in *.
  assert (Hlen : len (pkcs7_pad p) = len p + n).
  { unfold pkcs7_pad. fold n. rewrite len_app, len_replicate. lia. }
  rewrite b2z_z2b_small by (unfold BlockSize in Hn; lia).
  rewrite (proj2 (Z.ltb_ge _ _)), (proj2 (Z.eqb_neq _ _)), (proj2 (Z.ltb_ge _ _)) by lia.
  cbn [orb]. rewrite !go_slice_Ok by lia. cbn [mbind outcome_bind].
  assert (Htail : slice (len (pkcs7_pad p) - n) (len (pkcs7_pad p)) (pkcs7_pad p)
            = replicate (Z.to_nat n) (z2b n)).
  { rewrite slice_to_end by lia. unfold pkcs7_pad at 2. apply drop_app_mid.
    unfold len in *. lia. }
  rewrite Htail, decide_False.
  - rewrite slice_0. unfold pkcs7_pad at 2. rewrite take_app_mid; [done|]. unfold len in *. lia.
  - intros Hne. apply Hne. apply diff_zero. split; [done|]. by apply Forall_replicate.
Qed.

(** A buffer that ends in [n] bytes of value [n], on a block boundary, is a
    padded one. *)
Lemma pkcs7_pad_intro c n :
  len c `mod` BlockSize = 0 → 1 <= n <= BlockSize → n <= len c →
  Forall (λ b, b = z2b n) (drop (Z.to_nat (len c - n)) c) →
  c = pkcs7_pad (take (Z.to_nat (len c - n)) c).
Proof.
  intros Hm Hn Hl Hall. apply Forall_eq_replicate in Hall. unfold pkcs7_pad. rewrite len_take.
  assert (Hmodn : BlockSize - Z.min (Z.of_nat (Z.to_nat (len c - n))) (len c) `mod` BlockSize = n).
  { rewrite Z.min_l, Z2Nat.id by lia. unfold BlockSize in *.
    pose proof (Z.div_mod (len c) 16). pose proof (Z.div_mod (len c - n) 16).
    pose proof (Z.mod_pos_bound (len c - n) 16). lia. }
  rewrite Hmodn. rewrite <- (take_drop (Z.to_nat (len c - n)) c) at 1. f_equal.
  rewrite Hall, length_drop. f_equal. unfold len in *. lia.
Qed.

Lemma RemovePKCS7Padding_cases c :
  (∃ e, RemovePKCS7Padding c = Err e ∧ IsPaddingError e = true)
  ∨ (∃ p, RemovePKCS7Padding c = Ok p ∧ c = pkcs7_pad p).
Proof.
  unfold RemovePKCS7Padding. pose proof (len_nonneg c).
  destruct (len c =? 0) eqn:H0; [left; by eexists|]. apply Z.eqb_neq in H0.
  destruct (len c `mod` BlockSize =? 0) eqn:Hm; [|left; by eexists].
  apply Z.eqb_eq in Hm. cbn [negb].
  destruct (go_index_Ok (E:=crypto_error) (len c - 1) c) as (b & -> & _); [lia|].
  cbn [mbind outcome_bind]. pose proof (b2z_range b).
  destruct (_ || _) eqn:Hsz; [left; by eexists|]. apply orb_false_iff in Hsz as [Hs1 Hs2].
  apply Z.ltb_ge in Hs1. apply Z.eqb_neq in Hs2.
  destruct (len c <? b2z b) eqn:Hl; [left; by eexists|]. apply Z.ltb_ge in Hl.
  rewrite !go_slice_Ok by lia. cbn [mbind outcome_bind].
  destruct (decide _) as [|Hz]; [left; by eexists|]. right. eexists. split; [done|].
  apply dec_stable, diff_zero in Hz as [_ Hall].
  rewrite slice_0. rewrite slice_to_end in Hall by lia. apply pkcs7_pad_intro; (done || lia).
Qed.

(** PKCS#7 is a bijection: [RemovePKCS7Padding] never panics, and it
    accepts a buffer with result [p] exactly when the buffer is the padding of
    [p]; anything else is one of the four padding errors. *)
Theorem RemovePKCS7Padding_spec c :
  (∀ p, RemovePKCS7Padding c = Ok p ↔ c = pkcs7_pad p)
  ∧ ((∀ p, c ≠ pkcs7_pad p) → ∃ e, RemovePKCS7Padding c = Err e ∧ IsPaddingError e = true).
Proof.
  destruct (RemovePKCS7Padding_cases c) as [(e & He & Hpad)|(q & Hq & ->)].
  - split; [|eauto]. intros p. rewrite He. split; [done|].
    intros ->. by rewrite Remove_pad in He.
  - split; [|intros Hno; by destruct (Hno q)]. intros p. split; [intros Hp; congruence|].
    intros Heq. by rewrite Heq, Remove_pad.
Qed.

(** ** CBC *)

Lemma XORBytes_cancel x y : len x = len y → XORBytes (XORBytes x y) y = x.
Proof.
  unfold XORBytes, len. revert y. induction x as [|a x IH]; intros [|b y] Hl; simpl in *; try done;
    try lia. rewrite bxor_cancel, IH by lia. done.
Qed.

Lemma len_XORBytes x y : len x = len y → len (XORBytes x y) = len x.
Proof. intros Hl. unfold XORBytes, len in *. rewrite length_zip_with. lia. Qed.

Section cbc_facts.
Context {B : Type} `{CipherBlockLaws B}.

Lemma len_encryptBlocks n (block : B) prev buf :
  len prev = blockSize block → len buf = Z.of_nat n * blockSize block →
  len (encryptBlocks n block prev buf) = len buf.
Proof.
  pose proof (blockSize_range block) as Hbs.
  revert prev buf. induction n as [|n IH]; intros prev buf Hp Hb; simpl.
  - by rewrite Hb.
  - set (bs := Z.to_nat (blockSize block)).
    assert (Hx : len (XORBytes (take bs buf) prev) = blockSize block).
    { rewrite len_XORBytes; rewrite len_take; lia. }
    rewrite len_app, IH, Encrypt_len, len_drop by (try apply Encrypt_len; try done;
      rewrite ?len_drop; lia). lia.
Qed.

Lemma decryptBlocks_encryptBlocks n (block : B) prev buf :
  len prev = blockSize block → len buf = Z.of_nat n * blockSize block →
  decryptBlocks n block prev (encryptBlocks n block prev buf) = buf.
Proof.
  pose proof (blockSize_range block) as Hbs.
  revert prev buf. induction n as [|n IH]; intros prev buf Hp Hb; simpl.
  - symmetry. by apply len_0_nil.
  - set (bs := Z.to_nat (blockSize block)).
    assert (Htk : len (take bs buf) = blockSize block) by (rewrite len_take; lia).
    assert (Hx : len (XORBytes (take bs buf) prev) = blockSize block).
    { rewrite len_XORBytes; lia. }
    set (chunk := Encrypt block (XORBytes (take bs buf) prev)).
    assert (Hc : len chunk = blockSize block) by (by apply Encrypt_len).
    assert (Hcl : length chunk = bs) by (unfold len in Hc; lia).
    rewrite take_app_mid, drop_app_mid by done. subst chunk.
    rewrite Decrypt_Encrypt, XORBytes_cancel, IH by (try done; rewrite ?len_drop; lia).
    apply take_drop.
Qed.

(** A buffer of whole blocks. *)
Lemma whole_blocks (block : B) (buf : bytes) :
  len buf `mod` blockSize block = 0 →
  len buf = Z.of_nat (Z.to_nat (len buf `div` blockSize block)) * blockSize block.
Proof.
  intros Hm. pose proof (blockSize_range block). pose proof (len_nonneg buf).
  rewrite Z2Nat.id by (apply Z.div_pos; lia).
  pose proof (Z.div_mod (len buf) (blockSize block)). lia.
Qed.

Lemma EncryptCBC_ok (block : B) iv buf :
  len iv = blockSize block → len buf `mod` blockSize block = 0 →
  ∃ ct, EncryptCBC (Some block) iv buf = Ok ct ∧ len ct = len buf
    ∧ DecryptCBC (Some block) iv ct (len ct) = Ok buf.
Proof.
  intros Hiv Hm. unfold EncryptCBC, DecryptCBC. rewrite Hiv, Z.eqb_refl, Hm.
  cbn [negb orb Z.eqb]. eexists. split; [reflexivity|].
  rewrite len_encryptBlocks by (try done; by apply whole_blocks). split; [done|].
  rewrite Z.eqb_refl, Hm. cbn [negb orb Z.eqb].
  pose proof (blockSize_range block). rewrite (proj2 (Z.ltb_ge _ _)) by lia.
  rewrite decryptBlocks_encryptBlocks; [done..|]. by apply whole_blocks.
Qed.

End cbc_facts.

(** ** Sealed messages *)

Lemma seal_open key iv p :
  len iv = BlockSize →
  ∃ body, sealCBC (Some iv) key p = Ok body ∧ 2 * BlockSize <= len body
    ∧ openCBC key body = Ok p.
Proof.
  intros Hiv. destruct (len_pkcs7_pad p) as [Hm Hpad]. pose proof (len_nonneg p).
  assert (Hpos : BlockSize <= len (pkcs7_pad p)).
  { apply Z.mod_divide in Hm as [q Hq]; [|done]. unfold BlockSize in *. lia. }
  destruct (EncryptCBC_ok (NewCipher key) iv (pkcs7_pad p)) as (ct & He & Hl & Hd); [done..|].
  unfold sealCBC, openCBC. rewrite He. cbn [mbind outcome_bind].
  exists (iv ++ ct). pose proof (len_nonneg ct). split_and!; [done|rewrite len_app, Hl; lia|].
  rewrite len_app, Hiv, (proj2 (Z.ltb_ge _ _)) by lia.
  rewrite !go_slice_Ok by (rewrite ?len_app; unfold BlockSize in *; lia). cbn [mbind outcome_bind].
  assert (Hs1 : slice 0 BlockSize (iv ++ ct) = iv).
  { rewrite slice_0. apply take_app_mid. unfold len in Hiv. lia. }
  assert (Hs2 : slice BlockSize (BlockSize + len ct) (iv ++ ct) = ct).
  { rewrite <- (app_nil_r ct) at 2. apply slice_app_mid; lia. }
  rewrite Hs1, Hs2, Hl, Hm, <- Hl. cbn [negb Z.eqb]. rewrite Hd. cbn [mbind outcome_bind].
  apply Remove_pad.
Qed.

Lemma len_sealCBC key iv p body :
  len iv = BlockSize → sealCBC (Some iv) key p = Ok body →
  len body = BlockSize + len p + (BlockSize - len p `mod` BlockSize).
Proof.
  intros Hiv. destruct (len_pkcs7_pad p) as [Hm _].
  destruct (EncryptCBC_ok (NewCipher key) iv (pkcs7_pad p)) as (ct & He & Hl & _); [done..|].
  unfold sealCBC. rewrite He. cbn [mbind outcome_bind]. intros [= <-].
  rewrite len_app, Hl, Hiv. unfold pkcs7_pad. rewrite len_app, len_replicate.
  pose proof (pad_amount (len p) (len_nonneg p)). lia.
Qed.

Lemma splitTokenKey_Ok key :
  len key = 32 ∨ len key = 64 →
  ∃ hk ek, splitTokenKey key = Ok (hk, ek) ∧ (len ek = 16 ∨ len ek = 32).
Proof.
  unfold splitTokenKey, TokenKeySize128, TokenKeySize. intros [Hk|Hk]; rewrite Hk; cbn [Z.eqb Pos.eqb];
    eexists _, _; (split; [done|]); rewrite len_drop; lia.
Qed.

Lemma splitTokenKey_cases key :
  splitTokenKey key = Err TokenKeyLength
  ∨ ∃ hk ek, splitTokenKey key = Ok (hk, ek) ∧ (len ek = 16 ∨ len ek = 32).
Proof.
  destruct (decide (len key = 32 ∨ len key = 64)) as [Hk|Hk];
    [right; by apply splitTokenKey_Ok|left].
  unfold splitTokenKey, TokenKeySize128, TokenKeySize.
  by rewrite !(proj2 (Z.eqb_neq _ _)) by lia.
Qed.

Lemma openCBC_no_panic key c : openCBC key c ≠ Panic.
Proof.
  unfold openCBC. destruct (len c <? BlockSize) eqn:Hl; [done|]. apply Z.ltb_ge in Hl.
  rewrite !go_slice_Ok by (unfold BlockSize in *; lia). cbn [mbind outcome_bind].
  rewrite slice_to_end by (unfold BlockSize in *; lia).
  destruct (negb _); [done|]. unfold DecryptCBC. case_match; [done|]. case_match; [done|].
  cbn [mbind outcome_bind].
  destruct (RemovePKCS7Padding_cases (decryptBlocks (Z.to_nat
    (len (drop (Z.to_nat BlockSize) c) `div` blockSize {| aes_key := key |})) (NewCipher key)
    (slice 0 BlockSize c) (drop (Z.to_nat BlockSize) c))) as [(e & -> & _)|(p & -> & _)]; done.
Qed.

Lemma encryptAESCBC_seal rand ek p :
  len ek = 16 ∨ len ek = 32 →
  encryptAESCBC rand ek p = sealCBC rand ek p ∧ ∀ c, decryptAESCBC ek c = openCBC ek c.
Proof.
  unfold encryptAESCBC, decryptAESCBC, implEncryptAES256CBC, implDecryptAES256CBC, AES256KeySize.
  by intros [-> | ->].
Qed.

(** C33.  Token round trip: with a 32- or 64-byte key and any 16-byte IV, what
    [EncryptToken] returns, [DecryptToken] opens to the plaintext. *)
Theorem token_roundtrip key iv p :
  len key = TokenKeySize128 ∨ len key = TokenKeySize → len iv = BlockSize →
  ∃ token, EncryptToken (Some iv) key p = Ok token ∧ DecryptToken key token = Ok p.
Proof.
  intros Hk Hiv. destruct (splitTokenKey_Ok key Hk) as (hk & ek & Hsplit & Hek).
  destruct (encryptAESCBC_seal (Some iv) ek p Hek) as [Henc Hdec].
  destruct (seal_open ek iv p Hiv) as (body & Hs & Hl & Ho).
  unfold EncryptToken, DecryptToken. rewrite Hsplit. cbn [mbind outcome_bind].
  rewrite Henc, Hs. cbn [mbind outcome_bind]. eexists. split; [done|].
  pose proof (Hmac.len_mac hk body) as Hml. fold (ComputeHMAC hk body) in Hml.
  rewrite len_app, Hml. unfold SHA256Size, BlockSize in *. rewrite (proj2 (Z.ltb_ge _ _)) by lia.
  rewrite !go_slice_Ok by (rewrite ?len_app; lia). cbn [mbind outcome_bind].
  assert (Hs1 : slice (len body + 32 - 32) (len body + 32) (body ++ ComputeHMAC hk body)
            = ComputeHMAC hk body).
  { rewrite <- (app_nil_r (ComputeHMAC hk body)) at 1. apply slice_app_mid; lia. }
  assert (Hs2 : slice 0 (len body + 32 - 32) (body ++ ComputeHMAC hk body) = body).
  { rewrite slice_0. apply take_app_mid. unfold len. lia. }
  rewrite Hs1, Hs2. unfold ValidateHMAC. rewrite bool_decide_eq_true_2 by done. cbn [negb].
  by rewrite Hdec.
Qed.

(** Authenticity: [DecryptToken] never panics, and it returns a plaintext
    only for a token that is a body followed by the HMAC-SHA256 of that body
    under the token's MAC key; the padding is inspected after that check, so
    every padding error is behind a valid MAC. *)
Theorem DecryptToken_authentic key token :
  DecryptToken key token ≠ Panic
  ∧ ∀ r, DecryptToken key token = r →
      (∃ p, r = Ok p) ∨ (∃ e, r = Err e ∧ IsPaddingError e = true) →
      ∃ hk ek body, splitTokenKey key = Ok (hk, ek)
        ∧ token = body ++ ComputeHMAC hk body ∧ decryptAESCBC ek body = r.
Proof.
  destruct (splitTokenKey_cases key) as [Hs|(hk & ek & Hs & Hek)];
    unfold DecryptToken; rewrite Hs; cbn [mbind outcome_bind].
  { split; [done|]. intros r <- [[? ?]|(? & [= <-] & ?)]; done. }
  destruct (len token <? BlockSize + SHA256Size) eqn:Hl.
  { split; [done|]. intros r <- [[? ?]|(? & [= <-] & ?)]; done. }
  apply Z.ltb_ge in Hl. unfold BlockSize, SHA256Size in *.
  rewrite !go_slice_Ok by lia. cbn [mbind outcome_bind].
  rewrite slice_to_end, slice_0 by lia. set (n := Z.to_nat (len token - 32)).
  unfold ValidateHMAC. destruct (bool_decide _) eqn:Hv; cbn [negb]; cycle 1.
  { split; [done|]. intros r <- [[? ?]|(? & [= <-] & ?)]; done. }
  apply bool_decide_eq_true in Hv. split.
  - destruct (encryptAESCBC_seal None ek [] Hek) as [_ ->]. apply openCBC_no_panic.
  - intros r <- _. exists hk, ek, (take n token). split_and!; [done| |done].
    rewrite <- Hv. by rewrite take_drop.
Qed.

(** ** HKDF *)

Lemma len_hkdfExpand n i prk block info : len (hkdfExpand n i prk block info) = 32 * Z.of_nat n.
Proof.
  revert i block. induction n as [|n IH]; intros i block; [done|].
  cbn [hkdfExpand]. rewrite len_app, Hmac.len_mac, IH. lia.
Qed.

Lemma hkdfExpand_prefix n m i prk block info :
  (n <= m)%nat →
  take (32 * n) (hkdfExpand m i prk block info) = hkdfExpand n i prk block info.
Proof.
  revert m i block. induction n as [|n IH]; intros m i block Hm; [by destruct m|].
  destruct m as [|m]; [lia|]. cbn [hkdfExpand].
  set (blk := Hmac.mac prk (block ++ info ++ [z2b (i + 1)])).
  assert (Hb : length blk = 32%nat) by apply Hmac.mac_length.
  replace (32 * S n)%nat with (length blk + 32 * n)%nat by lia.
  rewrite take_app_add. f_equal. apply IH. lia.
Qed.

(** The output material for a request, before it is cut to length. *)
Lemma implDeriveKey_Ok secret salt info n :
  secret ≠ [] → 1 <= n <= 8160 →
  implDeriveKey secret salt info n =
    Ok (take (Z.to_nat n) (hkdfExpand (Z.to_nat ((n + 31) `div` 32)) 0
          (Hmac.mac (if len salt =? 0 then hkdfZeroSalt else salt) secret) [] info)).
Proof.
  intros Hs Hn. unfold implDeriveKey, implDeriveKeyWrite.
  rewrite !(proj2 (Z.ltb_ge _ 1)) by lia.
  destruct secret as [|b secret]; [done|]. rewrite len_cons. pose proof (len_nonneg secret).
  rewrite (proj2 (Z.eqb_neq _ _)) by lia.
  assert ((n + 31) `div` 32 <= 255) by (apply Z.lt_succ_r, Z.div_lt_upper_bound; lia).
  by rewrite (proj2 (Z.ltb_ge _ _)) by lia.
Qed.

Lemma implDeriveKey_len secret salt info n k : implDeriveKey secret salt info n = Ok k → len k = n.
Proof.
  unfold implDeriveKey, implDeriveKeyWrite. destruct (n <? 1) eqn:Hn; [done|]. apply Z.ltb_ge in Hn.
  pose proof (Z.div_mod (n + 31) 32). pose proof (Z.mod_pos_bound (n + 31) 32).
  repeat case_match; try done; intros [= <-]; rewrite len_take, len_hkdfExpand; lia.
Qed.

(** HKDF output: for every length from 1 to 8160 and non-empty input
    material the derivation succeeds with exactly that many bytes, and a shorter
    key is a prefix of a longer one from the same inputs; every other request
    is an error, none a panic. *)
Theorem DeriveKey_length_prefix secret salt info n m :
  (secret ≠ [] → 1 <= n <= m → m <= 8160 →
   ∃ k k', implDeriveKey secret salt info n = Ok k ∧ len k = n
     ∧ implDeriveKey secret salt info m = Ok k' ∧ take (Z.to_nat n) k' = k)
  ∧ ((n < 1 ∨ 8160 < n ∨ secret = []) → ∃ e, implDeriveKey secret salt info n = Err e).
Proof.
  split.
  - intros Hs Hn Hm. rewrite !implDeriveKey_Ok by (done || lia).
    assert (Hi : ∀ x, 1 <= x → x <= 32 * ((x + 31) `div` 32)).
    { intros x Hx. pose proof (Z.div_mod (x + 31) 32). pose proof (Z.mod_pos_bound (x + 31) 32).
      lia. }
    assert (Hmono : (n + 31) `div` 32 <= (m + 31) `div` 32) by (apply Z.div_le_mono; lia).
    pose proof (Hi n ltac:(lia)). pose proof (Hi m ltac:(lia)).
    eexists _, _. split_and!; [done| |done|].
    + rewrite len_take, len_hkdfExpand. lia.
    + rewrite take_take, Nat.min_l by lia.
      rewrite <- (hkdfExpand_prefix (Z.to_nat ((n + 31) `div` 32)) (Z.to_nat ((m + 31) `div` 32)))
        by lia.
      rewrite take_take, Nat.min_l by lia. done.
  - unfold implDeriveKey, implDeriveKeyWrite.
    destruct (n <? 1) eqn:H1; [by eexists|]. apply Z.ltb_ge in H1.
    intros [?|[Hn| ->]]; [lia| |by eexists].
    destruct (len secret =? 0); [by eexists|].
    assert (256 <= (n + 31) `div` 32) by (apply Z.div_le_lower_bound; lia).
    rewrite (proj2 (Z.ltb_lt _ _)) by lia. by eexists.
Qed.

Lemma token_roundtrip_witness :
  ∃ token, EncryptToken (Some (replicate 16 x07)) (z2b <$> seqZ 0 64) [x68; x69] = Ok token
    ∧ DecryptToken (z2b <$> seqZ 0 64) token = Ok [x68; x69].
Proof. apply token_roundtrip; [right; reflexivity|reflexivity]. Defined.

End Crypto.

(** * Signatures and key agreement

    Ed25519 and X25519 through the operations the code base uses, with the
    behaviour it relies on: fixed sizes, verification of what was signed, and
    agreement of the two sides of an exchange. *)
Module Ed25519.

Definition SeedSize : Z := 32.
Definition PublicKeySize : Z := 32.
Definition SignatureSize : Z := 64.

Class Scheme := {
  publicKey : bytes → bytes;
  sign : bytes → bytes → bytes;
  verify : bytes → bytes → bytes → bool
}.

Class SchemeLaws `{Scheme} := {
  publicKey_len : ∀ seed, len (publicKey seed) = PublicKeySize;
  sign_len : ∀ seed m, len (sign seed m) = SignatureSize;
  verify_sign : ∀ seed m, verify (publicKey seed) m (sign seed m) = true
}.

(** A stand-in that satisfies the laws, for evaluation: the "signature" is a
    digest anyone can recompute. *)
Definition hashScheme : Scheme := {|
  publicKey seed := Sha256.Sum256 seed;
  sign seed m := let h := Sha256.Sum256 (Sha256.Sum256 seed ++ m) in h ++ h;
  verify pub m sig := let h := Sha256.Sum256 (pub ++ m) in bool_decide (sig = h ++ h)
|}.

Lemma hashScheme_laws : @SchemeLaws hashScheme.
Proof.
  split; intros; simpl.
  - apply Sha256.len_Sum256.
  - by rewrite len_app, Sha256.len_Sum256.
  - by rewrite bool_decide_eq_true_2.
Qed.

End Ed25519.
