(* ===== verification/Ifac.v ===== *)
(** * Package [ifac]: interface access codes

    Masking of outbound packets with a keyed signature and its verification on
    receipt.  Ed25519 is used through [Ed25519.Scheme]; the mask is HKDF
    output. *)

From S2P Require Import Prelude.
From S2P Require Import Sha256.
From S2P Require Import Crypto.

Module Ifac.
Local Open Scope go_scope.

Definition IFACFlag : byte := x80.
Definition MinSize : Z := 1.
Definition DefaultSize : Z := 16.
Definition keyLen : Z := 64.

Definition saltBytes : bytes :=
  be_encode 32 0xadf54d882c9a9b80771eb4995d702d4a3e733391b2a0f53f416d9f907e55cff8.

(** The key is the 64-byte HKDF output; the Ed25519 seed is its second half. *)
Record Identity := mkIdentity { size : Z; key : bytes }.

Inductive ifac_error :=
  | NoCredentials
  | KeyLength (n : Z)
  | SignatureShorter (n size : Z)
  | PacketTooShort (n : Z)
  | DeriveFailed (e : Crypto.crypto_error).

Definition signingSeed (i : Identity) : bytes := drop 32 (key i).

Definition clampSize (size : Z) : Z :=
  let size := if size <=? 0 then DefaultSize else size in
  if size <? MinSize then MinSize else size.

(** Errors of [cryptography] are wrapped. *)
Definition wrap {A} (r : outcome Crypto.crypto_error A) : outcome ifac_error A :=
  match r with Ok a => Ok a | Err e => Err (DeriveFailed e) | Panic => Panic end.

Definition FromKey (size : Z) (key : bytes) : outcome ifac_error Identity :=
  if negb (len key =? keyLen) then Err (KeyLength (len key))
  else Ok (mkIdentity (clampSize size) key).

Definition New (size : Z) (netname netkey : bytes) : outcome ifac_error Identity :=
  if bool_decide (netname = []) && bool_decide (netkey = []) then Err NoCredentials
  else
    let size := clampSize size in
    let origin := if decide (netname = []) then [] else Sha256.Sum256 netname in
    let origin := if decide (netkey = []) then origin else origin ++ Sha256.Sum256 netkey in
    let originHash := Sha256.Sum256 origin in
    key ← wrap (Crypto.implDeriveKey originHash saltBytes [] keyLen);
    Ok (mkIdentity size key).

Section scheme.
Context `{Ed25519.Scheme}.

(** The last [size] bytes of the signature. *)
Definition Sign (i : Identity) (raw : bytes) : outcome ifac_error bytes :=
  let sig := Ed25519.sign (signingSeed i) raw in
  if len sig <? size i then Err (SignatureShorter (len sig) (size i))
  else go_slice (len sig - size i) (len sig) sig.

(** The result of [MaskInto]; the destination buffer only saves an allocation. *)
Definition MaskInto (i : Identity) (raw : bytes) : outcome ifac_error bytes :=
  if len raw <? 2 then Err (PacketTooShort (len raw))
  else
    ifacSig ← Sign i raw;
    let maskLen := len raw + size i in
    r0 ← go_index 0 raw;
    r1 ← go_index 1 raw;
    let dst := [r0 ||| IFACFlag; r1] ++ ifacSig ++ drop 2 raw in
    mask ← wrap (Crypto.implDeriveKeyWrite maskLen ifacSig (key i) []);
    Ok (imap (λ k b,
      let m := nth k mask x00 in
      if Nat.eqb k 0 then (b ^^^ m) ||| IFACFlag
      else if Nat.eqb k 1 || (size i + 1 <? Z.of_nat k) then b ^^^ m
      else b) dst).

Definition Mask := MaskInto.

(** Constant-time comparison. *)
Definition equal (a b : bytes) : bool :=
  if negb (len a =? len b) then false
  else bool_decide (foldl bor x00 (zip_with bxor a b) = x00).

(** [Some raw] and [true]: accepted (or no code present); [None] and [false]:
    rejected. *)
Definition Unmask (i : Identity) (raw : bytes) : outcome ifac_error (option bytes * bool) :=
  if len raw <? 2 then Err (PacketTooShort (len raw))
  else
    r0 ← go_index 0 raw;
    r1 ← go_index 1 raw;
    if decide (r0 &&& IFACFlag ≠ IFACFlag) then Ok (Some raw, true)
    else if len raw <=? 2 + size i then Ok (None, false)
    else
      code ← go_slice 2 (2 + size i) raw;
      mask ← wrap (Crypto.implDeriveKeyWrite (len raw) code (key i) []);
      m0 ← go_index 0 mask;
      m1 ← go_index 1 mask;
      let from := Z.to_nat (2 + size i) in
      let rebuilt := [(r0 ^^^ m0) &&& x7f; r1 ^^^ m1]
                     ++ zip_with bxor (drop from raw) (drop from mask) in
      expected ← Sign i rebuilt;
      if negb (equal expected code) then Ok (None, false)
      else Ok (Some rebuilt, true).

End scheme.

(** ** Bytes under the mask *)

Lemma flag_bits n : Z.testbit 128 n && Z.testbit 127 n = false.
Proof. rewrite <- Z.land_spec. apply Z.bits_0. Qed.

Lemma first_byte_unmask r k :
  ((((r ||| IFACFlag) ^^^ k) ||| IFACFlag) ^^^ k) &&& x7f = r &&& x7f.
Proof.
  apply b2z_inj. autorewrite with bytes. apply Z.bits_inj'. intros n _.
  change (b2z IFACFlag) with 128. change (b2z x7f) with 127.
  rewrite !Z.land_spec, !Z.lxor_spec, !Z.lor_spec, !Z.lxor_spec, !Z.lor_spec.
  pose proof (flag_bits n) as Hf.
  destruct (Z.testbit 128 n), (Z.testbit 127 n), (Z.testbit (b2z r) n), (Z.testbit (b2z k) n);
    done.
Qed.

Lemma masked_flag b : (b ||| IFACFlag) &&& IFACFlag = IFACFlag.
Proof. byte_cases b. Qed.

Lemma low_bits_clear b : b &&& IFACFlag ≠ IFACFlag → b &&& x7f = b.
Proof. byte_cases b. Qed.

Lemma low_bits_no_flag b : (b &&& x7f) &&& IFACFlag ≠ IFACFlag.
Proof. byte_cases b. Qed.

(** Position-wise exclusive-or with the part of the mask from [n] on. *)
Lemma imap_mask (n : nat) (l mask : bytes) :
  length mask = (n + length l)%nat →
  imap (λ k b, b ^^^ nth (n + k) mask x00) l = zip_with bxor l (drop n mask).
Proof.
  intros Hl. apply list_eq. intros i. rewrite list_lookup_imap, lookup_zip_with, lookup_drop.
  destruct (l !! i) as [b|] eqn:Hi; [|done]. simpl.
  apply lookup_lt_Some in Hi.
  destruct (lookup_lt_is_Some_2 mask (n + i)) as [m Hm]; [lia|].
  rewrite Hm. simpl. by rewrite (nth_lookup_Some _ _ _ _ Hm).
Qed.

Lemma equal_spec a b : equal a b = true ↔ a = b.
Proof.
  unfold equal. destruct (len a =? len b) eqn:Hl; cbn [negb]; rewrite ?Z.eqb_eq, ?Z.eqb_neq in Hl.
  - rewrite bool_decide_eq_true. unfold len in Hl.
    assert (Hgen : ∀ acc, foldl bor acc (zip_with bxor a b) = x00 ↔ acc = x00 ∧ a = b).
    { revert b Hl. induction a as [|x a IH]; intros [|y b] Hl acc; simpl in *; try done; try lia.
      - naive_solver.
      - rewrite IH, bor_eq_0, bxor_eq_0 by lia. naive_solver. }
    rewrite Hgen. naive_solver.
  - split; [done|]. intros ->. done.
Qed.

Section scheme_facts.
Context `{Ed25519.SchemeLaws}.

(** The code sizes for which a signature suffix exists. *)
Definition size_ok (i : Identity) : Prop := 1 <= size i <= Ed25519.SignatureSize.

Lemma Sign_Ok i raw :
  size_ok i → ∃ sig, Sign i raw = Ok sig ∧ len sig = size i.
Proof.
  unfold size_ok, Ed25519.SignatureSize. intros Hs.
  pose proof (Ed25519.sign_len (signingSeed i) raw) as Hl. unfold Ed25519.SignatureSize in Hl.
  unfold Sign. rewrite Hl, (proj2 (Z.ltb_ge _ _)), go_slice_Ok by lia.
  eexists. split; [done|]. rewrite len_slice; lia.
Qed.

Definition derive_ok (n : Z) : Prop := 1 <= n <= 8160.

Lemma mask_Ok i n sig :
  sig ≠ [] → derive_ok n →
  ∃ mask, wrap (Crypto.implDeriveKeyWrite n sig (key i) []) = Ok mask ∧ len mask = n.
Proof.
  unfold derive_ok. intros Hs Hn. pose proof (Crypto.implDeriveKey_Ok sig (key i) [] n Hs Hn) as Hd.
  unfold Crypto.implDeriveKey in Hd. rewrite (proj2 (Z.ltb_ge _ _)) in Hd by lia.
  rewrite Hd. eexists. split; [done|]. rewrite len_take, Crypto.len_hkdfExpand.
  pose proof (Z.div_mod (n + 31) 32). pose proof (Z.mod_pos_bound (n + 31) 32). lia.
Qed.

(** The masked packet, part by part. *)
Lemma MaskInto_run i r0 r1 rest :
  size_ok i → derive_ok (2 + len rest + size i) →
  ∃ sig m0 m1 mask,
    Sign i (r0 :: r1 :: rest) = Ok sig ∧ len sig = size i ∧ len mask = len rest + size i
    ∧ wrap (Crypto.implDeriveKeyWrite (2 + len rest + size i) sig (key i) []) = Ok (m0 :: m1 :: mask)
    ∧ MaskInto i (r0 :: r1 :: rest) = Ok ([((r0 ||| IFACFlag) ^^^ m0) ||| IFACFlag; r1 ^^^ m1]
        ++ sig ++ zip_with bxor rest (drop (length sig) mask)).
Proof.
  intros Hs Hn. destruct (Sign_Ok i (r0 :: r1 :: rest) Hs) as (sig & Hsig & Hsl).
  unfold size_ok in Hs. pose proof (len_nonneg rest).
  assert (Hne : sig ≠ []) by (intros ->; change (len []) with 0 in Hsl; lia).
  destruct (mask_Ok i _ sig Hne Hn) as (mask & Hmask & Hml).
  destruct mask as [|m0 [|m1 mask]]; rewrite ?len_cons, ?len_nil in Hml; [lia..|].
  exists sig, m0, m1, mask. split_and!; [done|done|lia|done|].
  unfold MaskInto. rewrite !len_cons, (proj2 (Z.ltb_ge _ _)) by lia.
  rewrite Hsig. change (go_index 0 (r0 :: r1 :: rest)) with (Ok (E:=ifac_error) r0).
  change (go_index 1 (r0 :: r1 :: rest)) with (Ok (E:=ifac_error) r1).
  cbn [mbind outcome_bind]. replace (1 + (1 + len rest) + size i) with (2 + len rest + size i) by lia.
  rewrite Hmask. cbn [mbind outcome_bind]. f_equal.
  rewrite imap_app. f_equal. rewrite imap_app. f_equal.
  - apply list_eq. intros k. rewrite list_lookup_imap.
    destruct (sig !! k) as [b|] eqn:Hk; [|done]. apply lookup_lt_Some in Hk. simpl.
    rewrite (proj2 (Z.ltb_ge _ _)) by (unfold len in Hsl; lia). done.
  - rewrite <- imap_mask by (unfold len in *; lia). apply imap_ext. intros k b _. simpl.
    rewrite (proj2 (Z.ltb_lt _ _)) by (unfold len in Hsl; lia). done.
Qed.

(** Zipping with the mask twice. *)
Lemma zip_mask_cancel (l mask : bytes) :
  length l = length mask → zip_with bxor (zip_with bxor l mask) mask = l.
Proof.
  revert mask. induction l as [|b l IH]; intros [|m mask] Hl; simpl in *; try done; try lia.
  by rewrite bxor_cancel, IH by lia.
Qed.

(** Unmasking inverts masking: a packet of at least three bytes with a clear
    access-code bit, on an interface whose code is 1 to 64 bytes, is recovered
    and accepted by every holder of the key. *)
Theorem mask_unmask_roundtrip i raw :
  size_ok i → 3 <= len raw → len raw + size i <= 8160 →
  head raw ≫= (λ b, Some (b &&& IFACFlag)) = Some x00 →
  ∃ masked, Mask i raw = Ok masked ∧ len masked = len raw + size i
    ∧ Unmask i masked = Ok (Some raw, true).
Proof.
  intros Hs Hl Hmax Hflag. destruct raw as [|r0 [|r1 rest]]; [done| |].
  { rewrite len_cons, len_nil in Hl. lia. }
  injection Hflag as Hflag. rewrite !len_cons in *.
  unfold size_ok in Hs. pose proof (len_nonneg rest).
  destruct (MaskInto_run i r0 r1 rest) as (sig & m0 & m1 & mask & Hsig & Hsl & Hml & Hd & HM);
    [done|unfold derive_ok; lia|].
  unfold Mask. rewrite HM. set (body := zip_with bxor rest (drop (length sig) mask)).
  assert (Hbl : len body = len rest).
  { subst body. unfold len in *. rewrite length_zip_with, length_drop. lia. }
  eexists. split_and!; [done| |].
  { rewrite !len_app, Hbl, Hsl. change (len [_; _]) with 2. lia. }
  unfold Unmask. cbn [app]. rewrite !len_cons, len_app, Hbl, Hsl.
  rewrite (proj2 (Z.ltb_ge _ _)) by lia.
  set (c0 := ((r0 ||| IFACFlag) ^^^ m0) ||| IFACFlag). set (c1 := r1 ^^^ m1).
  change (go_index 0 (c0 :: c1 :: sig ++ body)) with (Ok (E:=ifac_error) c0).
  change (go_index 1 (c0 :: c1 :: sig ++ body)) with (Ok (E:=ifac_error) c1).
  cbn [mbind outcome_bind]. rewrite decide_False by (intros Hc; apply Hc, masked_flag).
  rewrite (proj2 (Z.leb_gt _ _)) by lia.
  rewrite go_slice_Ok by (rewrite ?len_cons, ?len_app; lia).
  assert (Hcode : slice 2 (2 + size i) (c0 :: c1 :: sig ++ body) = sig).
  { apply (slice_app_mid [c0; c1] sig body); [done|]. change (len [c0; c1]) with 2. lia. }
  rewrite Hcode. cbn [mbind outcome_bind].
  replace (1 + (1 + (size i + len rest))) with (2 + len rest + size i) by lia. rewrite Hd.
  cbn [mbind outcome_bind].
  change (go_index 0 (m0 :: m1 :: mask)) with (Ok (E:=ifac_error) m0).
  change (go_index 1 (m0 :: m1 :: mask)) with (Ok (E:=ifac_error) m1).
  cbn [mbind outcome_bind].
  assert (Hfrom : Z.to_nat (2 + size i) = (2 + length sig)%nat) by (unfold len in Hsl; lia).
  rewrite Hfrom. change (drop (2 + length sig) (c0 :: c1 :: sig ++ body))
    with (drop (length sig) (sig ++ body)).
  change (drop (2 + length sig) (m0 :: m1 :: mask)) with (drop (length sig) mask).
  rewrite drop_app_length. subst body c0 c1. rewrite zip_mask_cancel
    by (rewrite length_drop; unfold len in *; lia).
  rewrite first_byte_unmask, bxor_cancel, low_bits_clear by (rewrite Hflag; done).
  cbn [app]. rewrite Hsig. cbn [mbind outcome_bind].
  by rewrite (proj2 (equal_spec sig sig)).
Qed.

(** The branch that verifies a code. *)
Lemma Unmask_flagged i c0 c1 rest :
  size_ok i → c0 &&& IFACFlag = IFACFlag → size i < len rest →
  2 + len rest <= 8160 →
  ∃ code p sig, rest = code ++ drop (length code) rest ∧ len code = size i
    ∧ len p + size i = 2 + len rest ∧ head p ≫= (λ b, Some (b &&& IFACFlag)) = Some x00
    ∧ Sign i p = Ok sig
    ∧ Unmask i (c0 :: c1 :: rest)
        = Ok (if equal sig code then (Some p, true) else (None, false)).
Proof.
  intros Hs Hc Hl Hmax. unfold size_ok in Hs. pose proof (len_nonneg rest).
  set (code := take (Z.to_nat (size i)) rest).
  assert (Hcl : len code = size i) by (subst code; rewrite len_take; lia).
  assert (Hcln : length code = Z.to_nat (size i)) by (unfold len in Hcl; lia).
  assert (Hne : code ≠ []) by (intros E; rewrite E in Hcl; change (len []) with 0 in Hcl; lia).
  destruct (mask_Ok i (2 + len rest) code Hne) as (mask & Hmask & Hml); [unfold derive_ok; lia|].
  destruct mask as [|m0 [|m1 mask]]; rewrite ?len_cons, ?len_nil in Hml; [lia..|].
  set (p := [(c0 ^^^ m0) &&& x7f; c1 ^^^ m1]
            ++ zip_with bxor (drop (Z.to_nat (size i)) rest) (drop (Z.to_nat (size i)) mask)).
  destruct (Sign_Ok i p Hs) as (sig & Hsig & _). exists code, p, sig.
  split_and!; [rewrite Hcln; symmetry; apply take_drop|done| | |done|].
  - subst p. rewrite len_app. change (len [_; _]) with 2. unfold len in *.
    rewrite length_zip_with, !length_drop. lia.
  - subst p. cbn [app head mbind option_bind]. f_equal.
    generalize (c0 ^^^ m0). intros b. byte_cases b.
  - unfold Unmask. rewrite !len_cons, (proj2 (Z.ltb_ge _ _)) by lia.
    change (go_index 0 (c0 :: c1 :: rest)) with (Ok (E:=ifac_error) c0).
    change (go_index 1 (c0 :: c1 :: rest)) with (Ok (E:=ifac_error) c1).
    cbn [mbind outcome_bind]. rewrite decide_False by (intros Hf; by apply Hf).
    rewrite (proj2 (Z.leb_gt _ _)), go_slice_Ok by (rewrite ?len_cons; lia).
    assert (Hcode : slice 2 (2 + size i) (c0 :: c1 :: rest) = code).
    { unfold slice. replace (2 + size i - 2) with (size i) by lia. done. }
    rewrite Hcode. cbn [mbind outcome_bind].
    replace (1 + (1 + len rest)) with (2 + len rest) by lia. rewrite Hmask.
    cbn [mbind outcome_bind].
    change (go_index 0 (m0 :: m1 :: mask)) with (Ok (E:=ifac_error) m0).
    change (go_index 1 (m0 :: m1 :: mask)) with (Ok (E:=ifac_error) m1).
    cbn [mbind outcome_bind].
    replace (Z.to_nat (2 + size i)) with (2 + Z.to_nat (size i))%nat by lia.
    cbn [drop Nat.add]. fold p. rewrite Hsig. cbn [mbind outcome_bind].
    by destruct (equal sig code).
Qed.

(** Only signed packets pass: on an interface with an access code, a frame
    that claims to carry one is either rejected or carries, after its second
    byte, the signature suffix of the very packet that is returned, whose own
    access-code bit is clear; there is no panic. *)
Theorem Unmask_authentic i c0 c1 rest :
  size_ok i → c0 &&& IFACFlag = IFACFlag → 2 + len rest <= 8160 →
  Unmask i (c0 :: c1 :: rest) = Ok (None, false)
  ∨ ∃ p code, Unmask i (c0 :: c1 :: rest) = Ok (Some p, true)
      ∧ Sign i p = Ok code ∧ code = take (Z.to_nat (size i)) rest
      ∧ len p + size i = 2 + len rest
      ∧ head p ≫= (λ b, Some (b &&& IFACFlag)) = Some x00.
Proof.
  intros Hs Hc Hmax. destruct (decide (size i < len rest)) as [Hl|Hl].
  - destruct (Unmask_flagged i c0 c1 rest Hs Hc Hl Hmax)
      as (code & p & sig & Hrest & Hcl & Hpl & Hflag & Hsig & ->).
    destruct (equal sig code) eqn:He; [right|by left]. apply equal_spec in He as ->.
    exists p, code. split_and!; try done. rewrite Hrest.
    symmetry. apply take_app_mid. unfold len in Hcl. lia.
  - left. unfold Unmask. pose proof (len_nonneg rest).
    rewrite !len_cons, (proj2 (Z.ltb_ge _ _)) by lia.
    change (go_index 0 (c0 :: c1 :: rest)) with (Ok (E:=ifac_error) c0).
    change (go_index 1 (c0 :: c1 :: rest)) with (Ok (E:=ifac_error) c1).
    cbn [mbind outcome_bind]. rewrite decide_False by (intros Hf; by apply Hf).
    by rewrite (proj2 (Z.leb_le _ _)) by lia.
Qed.

End scheme_facts.

(** ** A concrete interface *)

Definition sample_identity : Identity := mkIdentity 16 (z2b <$> seqZ 0 64).
Definition sample_raw : bytes := [x01; x02; x03; x04; x05].

Lemma mask_unmask_roundtrip_witness :
  ∃ masked, @Mask Ed25519.hashScheme sample_identity sample_raw = Ok masked
    ∧ len masked = len sample_raw + size sample_identity
    ∧ @Unmask Ed25519.hashScheme sample_identity masked = Ok (Some sample_raw, true).
Proof.
  apply (@mask_unmask_roundtrip Ed25519.hashScheme Ed25519.hashScheme_laws);
    [split; vm_compute; discriminate|vm_compute; discriminate|vm_compute; discriminate|reflexivity].
Defined.

Lemma Unmask_authentic_witness :
  let rest := replicate 30 x00 in
  @Unmask Ed25519.hashScheme sample_identity (x80 :: x00 :: rest) = Ok (None, false)
  ∨ ∃ p code, @Unmask Ed25519.hashScheme sample_identity (x80 :: x00 :: rest) = Ok (Some p, true)
      ∧ @Sign Ed25519.hashScheme sample_identity p = Ok code
      ∧ code = take (Z.to_nat (size sample_identity)) rest
      ∧ len p + size sample_identity = 2 + len rest
      ∧ head p ≫= (λ b, Some (b &&& IFACFlag)) = Some x00.
Proof.
  apply (@Unmask_authentic Ed25519.hashScheme Ed25519.hashScheme_laws);
    [split; vm_compute; discriminate|reflexivity|vm_compute; discriminate].
Defined.

End Ifac.
