(* ===== verification/HashList.v ===== *)
(** * The packet hash list ([transport/packet_hashlist.go])

    Two generations of an open-addressing hash set with linear probing, and the
    duplicate filter built on it.  The tables are proved to refine a finite
    set; probing is proved to terminate because a table is never more than half
    full. *)

From S2P Require Import Prelude.
From S2P Require Import Packet.

Module HashList.
Local Open Scope go_scope.

Definition HashlistMaxSize : Z := 1000000.

(** ** One generation *)

Record hashGen := HashGen {
  slots : list bytes;
  occ : bytes;
  n : Z;
  mask : Z
}.

(** The zero value of the struct. *)
Definition emptyGen : hashGen := HashGen [] [] 0 0.

Definition MaxInt : Z := 2 ^ 63 - 1.

Definition hashSlot (k : bytes) (mask : Z) : Z :=
  let x := le_decode (slice 0 8 k) in
  let x := Z.lxor x (le_decode (slice 8 16 k)) in
  let x := Z.lxor x (le_decode (slice 16 24 k)) in
  let x := Z.lxor x (le_decode (slice 24 32 k)) in
  if mask <? 0 then 0
  else
    let slot := Z.land x mask in
    if MaxInt <? slot then 0 else slot.

(** The probe loops run until they meet the key or a free slot.  [Err ()] is
    running out of fuel, [Panic] an index outside the table. *)
Fixpoint hasLoop (fuel : nat) (g : hashGen) (k : bytes) (i : Z) : outcome () bool :=
  match fuel with
  | O => Err ()
  | S fuel =>
      o ← go_index i (occ g);
      if decide (o = x00) then Ok false
      else
        s ← go_index i (slots g);
        if decide (s = k) then Ok true
        else hasLoop fuel g k (Z.land (i + 1) (mask g))
  end.

Definition has (g : hashGen) (k : bytes) : outcome () bool :=
  if len (slots g) =? 0 then Ok false
  else hasLoop (length (slots g)) g k (hashSlot k (mask g)).

Fixpoint insertLoop (fuel : nat) (g : hashGen) (k : bytes) (i : Z) : outcome () hashGen :=
  match fuel with
  | O => Err ()
  | S fuel =>
      o ← go_index i (occ g);
      if decide (o = x00) then
        Ok (HashGen (<[Z.to_nat i := k]> (slots g)) (<[Z.to_nat i := x01]> (occ g))
              (n g + 1) (mask g))
      else
        s ← go_index i (slots g);
        if decide (s = k) then Ok g
        else insertLoop fuel g k (Z.land (i + 1) (mask g))
  end.

Definition insert (g : hashGen) (k : bytes) : outcome () hashGen :=
  insertLoop (length (slots g)) g k (hashSlot k (mask g)).

(** The reinsertion loop of [grow] over the old slots. *)
Fixpoint reinsert (ng : hashGen) (os : bytes) (ss : list bytes) : outcome () hashGen :=
  match os, ss with
  | o :: os, s :: ss =>
      if decide (o = x00) then reinsert ng os ss
      else ng ← insert ng s; reinsert ng os ss
  | [], _ => Ok ng
  | _, [] => Panic
  end.

Definition grow (g : hashGen) : outcome () hashGen :=
  let ns := if 0 <? len (slots g) then len (slots g) * 2 else 8 in
  let ng := HashGen (replicate (Z.to_nat ns) (replicate 32 x00))
              (replicate (Z.to_nat ns) x00) 0 (ns - 1) in
  reinsert ng (occ g) (slots g).

Definition put (g : hashGen) (k : bytes) : outcome () hashGen :=
  g ← (if (len (slots g) =? 0) || (len (slots g) <? (n g + 1) * 2) then grow g else Ok g);
  insert g k.

(** ** Two generations *)

Record packetHashList := mkHashList { max : Z; cur : hashGen; prev : hashGen }.

Definition newPacketHashList (limit : Z) : packetHashList :=
  mkHashList (if limit <=? 0 then HashlistMaxSize else limit) emptyGen emptyGen.

Definition hash32FromSlice (h : bytes) : bytes := take 32 (h ++ replicate 32 x00).

Definition seen (hl : packetHashList) (h : bytes) : outcome () bool :=
  if len h =? 0 then Ok false
  else
    let k := hash32FromSlice h in
    c ← has (cur hl) k;
    if c : bool then Ok true else has (prev hl) k.

Definition rotateAt (hl : packetHashList) : Z := Z.max (max hl `div` 2) 1.

Definition add (hl : packetHashList) (h : bytes) : outcome () packetHashList :=
  if len h =? 0 then Ok hl
  else
    let k := hash32FromSlice h in
    c ← put (cur hl) k;
    if rotateAt hl <? n c then Ok (mkHashList (max hl) emptyGen c)
    else Ok (mkHashList (max hl) c (prev hl)).

Definition Len (hl : packetHashList) : Z := n (cur hl) + n (prev hl).

(** ** Probe sequences

    A table seen as a list of optional keys; probing from [h] visits
    [(h + d) mod cap] for [d = 0, 1, ...]. *)

Definition view (g : hashGen) : list (option bytes) :=
  zip_with (λ o s, if decide (o = x00) then None else Some s) (occ g) (slots g).

Section probing.
Context (v : list (option bytes)).
Implicit Types k : bytes.

Definition at_ (h d : nat) : option (option bytes) := v !! Nat.modulo (h + d) (length v).

(** The probe for [k] from [h] stops after [d] steps: at the key or at a free
    slot. *)
Definition stops (k : bytes) (h d : nat) : Prop :=
  (∀ e, (e < d)%nat → ∃ k', at_ h e = Some (Some k') ∧ k' ≠ k)
  ∧ (at_ h d = Some None ∨ at_ h d = Some (Some k)).

Lemma at_is_Some h d : v ≠ [] → ∃ c, at_ h d = Some c.
Proof.
  intros Hv. unfold at_. destruct (lookup_lt_is_Some_2 v (Nat.modulo (h + d) (length v))) as [c Hc];
    [|eauto]. apply Nat.mod_upper_bound. by destruct v.
Qed.

(** Where there is a free slot, every probe stops within one round. *)
Lemma probe_stops k h j :
  v !! j = Some None → ∃ d, (d < length v)%nat ∧ stops k h d.
Proof.
  intros Hj. assert (Hjl : (j < length v)%nat) by (by eapply lookup_lt_Some).
  assert (Hv : v ≠ []) by (by destruct v).
  (* the distance of the free slot bounds the search *)
  assert (Hfree : ∃ d, (d < length v)%nat ∧ at_ h d = Some None).
  { exists (Nat.modulo (j + (length v - Nat.modulo h (length v))) (length v)).
    split; [apply Nat.mod_upper_bound; lia|]. unfold at_.
    rewrite Nat.Div0.add_mod_idemp_r, <- Nat.Div0.add_mod_idemp_l.
    pose proof (Nat.mod_upper_bound h (length v)).
    replace (Nat.modulo h (length v) + (j + (length v - Nat.modulo h (length v))))%nat
      with (j + 1 * length v)%nat by lia.
    rewrite Nat.Div0.mod_add, Nat.mod_small by lia. done. }
  destruct Hfree as (d0 & Hd0 & Hat).
  assert (Hsearch : ∀ m, (m <= d0)%nat →
    (∃ d, (d < m)%nat ∧ stops k h d)
    ∨ (∀ e, (e < m)%nat → ∃ k', at_ h e = Some (Some k') ∧ k' ≠ k)).
  { induction m as [|m IH]; intros Hm; [right; lia|].
    destruct IH as [(d & Hd & Hs)|Hall]; [lia|left; exists d; split; [lia|done]|].
    destruct (at_is_Some h m Hv) as [[k'|] Hc].
    - destruct (decide (k' = k)) as [->|Hne].
      + left. exists m. split; [lia|]. split; [done|by right].
      + right. intros e He. destruct (decide (e = m)) as [->|]; [eauto|]. apply Hall. lia.
    - left. exists m. split; [lia|]. split; [done|by left]. }
  destruct (Hsearch d0) as [(d & Hd & Hs)|Hall]; [lia|exists d; split; [lia|done]|].
  exists d0. split; [done|]. split; [done|by left].
Qed.

End probing.

(** ** Table contents *)

Fixpoint stored (v : list (option bytes)) : list bytes :=
  match v with
  | [] => []
  | Some k :: v => k :: stored v
  | None :: v => stored v
  end.
Definition keys (v : list (option bytes)) : gset bytes := list_to_set (stored v).

Lemma stored_app v w : stored (v ++ w) = stored v ++ stored w.
Proof. induction v as [|[k|] v IH]; simpl; [done|by rewrite IH|done]. Qed.

Lemma elem_of_stored v k : k ∈ stored v ↔ ∃ j : nat, v !! j = Some (Some k).
Proof.
  induction v as [|c v IH]; simpl.
  - split; [by intros ?%elem_of_nil|by intros [[] ?]].
  - assert (Hcons : (∃ j : nat, (c :: v) !! j = Some (Some k))
              ↔ c = Some k ∨ ∃ j : nat, v !! j = Some (Some k)).
    { split; [intros [[|j] Hj]; naive_solver|]. intros [->|[j Hj]]; [by exists 0%nat|by exists (S j)]. }
    rewrite Hcons, <- IH. destruct c as [k'|]; rewrite ?elem_of_cons; naive_solver.
Qed.

Lemma free_slot v : (length (stored v) < length v)%nat → ∃ j : nat, v !! j = Some None.
Proof.
  induction v as [|[k|] v IH]; simpl; intros Hl; [lia| |by exists 0%nat].
  destruct IH as [j Hj]; [lia|]. by exists (S j).
Qed.

Lemma stored_insert v (j : nat) k :
  v !! j = Some None → stored (<[j := Some k]> v) ≡ₚ k :: stored v.
Proof.
  intros Hj. assert (Hl : (j < length v)%nat) by (by eapply lookup_lt_Some).
  rewrite insert_take_drop by done.
  rewrite <- (take_drop_middle v j None Hj) at 3.
  rewrite !stored_app. simpl. by rewrite Permutation_middle.
Qed.

(** The invariant: every key can be reached from its slot over occupied cells,
    and is stored once. *)
Record probe_inv (slotf : bytes → nat) (v : list (option bytes)) : Prop := {
  inv_reach : ∀ (j : nat) k, v !! j = Some (Some k) →
    ∃ d, (d < length v)%nat ∧ j = Nat.modulo (slotf k + d) (length v)
      ∧ ∀ e, (e < d)%nat → ∃ k', at_ v (slotf k) e = Some (Some k');
  inv_unique : ∀ (i j : nat) k, v !! i = Some (Some k) → v !! j = Some (Some k) → i = j
}.

Lemma probe_inv_NoDup slotf v : probe_inv slotf v → NoDup (stored v).
Proof.
  intros [_ Hu]. induction v as [|[k|] v IH]; simpl; [constructor| |].
  - constructor.
    + intros Hin. apply elem_of_stored in Hin as [j Hj].
      by specialize (Hu 0%nat (S j) k eq_refl Hj).
    + apply IH. intros i j k' Hi Hj. by specialize (Hu (S i) (S j) k' Hi Hj) as [= ->].
  - apply IH. intros i j k' Hi Hj. by specialize (Hu (S i) (S j) k' Hi Hj) as [= ->].
Qed.

(** A probe that stops finds exactly the stored keys. *)
Lemma probe_finds slotf v k d :
  probe_inv slotf v → stops v k (slotf k) d →
  at_ v (slotf k) d = Some (Some k) ↔ k ∈ keys v.
Proof.
  intros [Hr _] [Hbefore Hstop]. unfold keys. rewrite elem_of_list_to_set, elem_of_stored. split.
  - intros Hat. unfold at_ in Hat. eauto.
  - intros [j Hj]. destruct Hstop as [Hnone|]; [|done].
    destruct (Hr j k Hj) as (d0 & Hd0 & Hjd & Hrun).
    destruct (Nat.lt_trichotomy d d0) as [Hlt|[->|Hgt]].
    + destruct (Hrun d Hlt) as [k' Hk']. congruence.
    + unfold at_ in *. rewrite <- Hjd in *. congruence.
    + destruct (Hbefore d0 Hgt) as (k' & Hk' & Hne). unfold at_ in Hk'. rewrite <- Hjd in Hk'.
      congruence.
Qed.

(** Filling the free slot where the probe stopped keeps the invariant. *)
Lemma probe_inv_insert slotf v k d :
  probe_inv slotf v → (d < length v)%nat → stops v k (slotf k) d →
  at_ v (slotf k) d = Some None →
  probe_inv slotf (<[Nat.modulo (slotf k + d) (length v) := Some k]> v).
Proof.
  intros Hinv Hd Hst Hnone. set (j0 := Nat.modulo (slotf k + d) (length v)).
  assert (Hj0 : v !! j0 = Some None) by done.
  assert (Hjl : (j0 < length v)%nat) by (by eapply lookup_lt_Some).
  assert (Hnot : ∀ j : nat, v !! j ≠ Some (Some k)).
  { intros j Hj. apply (probe_finds slotf v k d Hinv) in Hst as [_ Hst].
    rewrite Hnone in Hst. unfold keys in Hst. rewrite elem_of_list_to_set, elem_of_stored in Hst.
    by discriminate Hst; eauto. }
  assert (Hkeep : ∀ h e k', at_ v h e = Some (Some k') →
            at_ (<[j0 := Some k]> v) h e = Some (Some k')).
  { intros h e k' Hat. unfold at_ in *. rewrite length_insert.
    rewrite list_lookup_insert_ne; [done|]. intros Heq. rewrite <- Heq in Hat. congruence. }
  split.
  - intros j k' Hj. rewrite length_insert.
    destruct (decide (j = j0)) as [->|Hne].
    + rewrite list_lookup_insert_eq in Hj by done. injection Hj as <-.
      exists d. split_and!; [done|done|]. intros e He.
      destruct Hst as [Hb _]. destruct (Hb e He) as (k'' & Hk'' & _). eauto.
    + rewrite list_lookup_insert_ne in Hj by done.
      destruct (inv_reach _ _ Hinv j k' Hj) as (d' & Hd' & Hjd & Hrun).
      exists d'. split_and!; [done|done|]. intros e He. destruct (Hrun e He) as [k'' Hk'']. eauto.
  - intros i j k' Hi Hj.
    assert (Hins : ∀ l : nat, <[j0:=Some k]> v !! l = Some (Some k') →
              (l = j0 ∧ k' = k) ∨ v !! l = Some (Some k')).
    { intros l Hl. destruct (decide (l = j0)) as [->|Hne].
      - rewrite list_lookup_insert_eq in Hl by done. left. by injection Hl as <-.
      - rewrite list_lookup_insert_ne in Hl by done. by right. }
    destruct (Hins i Hi) as [[-> ->]|Hi'], (Hins j Hj) as [[-> Hk]|Hj']; [done|..].
    + by destruct (Hnot j).
    + subst k'. by destruct (Hnot i).
    + by eapply inv_unique.
Qed.

(** ** The loops *)

Definition slotf (g : hashGen) (k : bytes) : nat := Z.to_nat (hashSlot k (mask g)).

(** A non-empty table. *)
Record table_wf (g : hashGen) : Prop := {
  wf_pow : ∃ p : nat, length (slots g) = (2 ^ p)%nat;
  wf_occ : length (occ g) = length (slots g);
  wf_mask : mask g = len (slots g) - 1;
  wf_n : n g = len (stored (view g));
  wf_probe : probe_inv (slotf g) (view g)
}.

Lemma view_length g : length (occ g) = length (slots g) → length (view g) = length (slots g).
Proof. intros H. unfold view. rewrite length_zip_with. lia. Qed.

Lemma view_lookup g (i : nat) o sl :
  occ g !! i = Some o → slots g !! i = Some sl →
  view g !! i = Some (if decide (o = x00) then None else Some sl).
Proof. intros Ho Hs. unfold view. by rewrite lookup_zip_with, Ho, Hs. Qed.

Lemma table_pos g : table_wf g → (0 < length (slots g))%nat.
Proof. intros [[p ->] _ _ _ _]. pose proof (Nat.pow_nonzero 2 p). lia. Qed.

Lemma land_mask x (p : nat) : Z.land x (2 ^ Z.of_nat p - 1) = x `mod` 2 ^ Z.of_nat p.
Proof. rewrite <- Z.land_ones by lia. by rewrite Z.ones_equiv, <- Z.sub_1_r. Qed.

Lemma table_mask g :
  table_wf g → ∀ x, Z.land x (mask g) = x `mod` len (slots g).
Proof.
  intros [[p Hp] _ Hm _ _] x. rewrite Hm. unfold len. rewrite Hp, Nat2Z.inj_pow.
  apply land_mask.
Qed.

Lemma slotf_range g k :
  table_wf g → Z.of_nat (slotf g k) = hashSlot k (mask g)
    ∧ (slotf g k < length (slots g))%nat.
Proof.
  intros Hwf. pose proof (table_pos g Hwf) as Hpos.
  assert (Hr : 0 <= hashSlot k (mask g) < len (slots g)).
  { assert (Hm : 0 <= mask g) by (rewrite (wf_mask g Hwf); unfold len; lia).
    unfold hashSlot. rewrite (proj2 (Z.ltb_ge _ _)) by done.
    rewrite (table_mask g Hwf).
    destruct (MaxInt <? _); [unfold len; lia|]. apply Z.mod_pos_bound. unfold len. lia. }
  unfold slotf. unfold len in Hr. lia.
Qed.

(** One step along the table. *)
Lemma next_index g (i : nat) :
  table_wf g → Z.land (Z.of_nat i + 1) (mask g) = Z.of_nat (Nat.modulo (i + 1) (length (slots g))).
Proof.
  intros Hwf. rewrite (table_mask g Hwf), Nat2Z.inj_mod, Nat2Z.inj_add. done.
Qed.

Lemma stops_shift v k h d : stops v k h (S d) → stops v k (h + 1) d.
Proof.
  intros [Hb Hs]. split.
  - intros e He. destruct (Hb (S e)) as (k' & Hk & Hne); [lia|]. exists k'. split; [|done].
    unfold at_ in *. by replace (h + 1 + e)%nat with (h + S e)%nat by lia.
  - unfold at_ in *. by replace (h + 1 + d)%nat with (h + S d)%nat by lia.
Qed.

(** What the loops read at a probe position. *)
Lemma read_cell g h :
  table_wf g →
  let i := Nat.modulo h (length (slots g)) in
  ∃ o sl, go_index (E:=()) (Z.of_nat i) (occ g) = Ok o
    ∧ go_index (E:=()) (Z.of_nat i) (slots g) = Ok sl
    ∧ at_ (view g) h 0 = Some (if decide (o = x00) then None else Some sl).
Proof.
  intros Hwf i. pose proof (table_pos g Hwf).
  assert (Hi : (i < length (slots g))%nat) by (apply Nat.mod_upper_bound; lia).
  pose proof (wf_occ g Hwf) as Hocc.
  destruct (lookup_lt_is_Some_2 (occ g) i) as [o Ho]; [lia|].
  destruct (lookup_lt_is_Some_2 (slots g) i) as [sl Hs]; [lia|].
  exists o, sl. split_and!.
  - apply go_index_Some; [lia|]. by rewrite Nat2Z.id.
  - apply go_index_Some; [lia|]. by rewrite Nat2Z.id.
  - unfold at_. rewrite view_length, Nat.add_0_r by done. by apply view_lookup.
Qed.

Lemma hasLoop_stops fuel g k h d :
  table_wf g → stops (view g) k h d → (d < fuel)%nat →
  hasLoop fuel g k (Z.of_nat (Nat.modulo h (length (slots g))))
    = Ok (bool_decide (at_ (view g) h d = Some (Some k))).
Proof.
  intros Hwf. revert fuel h. induction d as [|d IH]; intros fuel h Hst Hf;
    (destruct fuel as [|fuel]; [lia|]); cbn [hasLoop];
    destruct (read_cell g h Hwf) as (o & sl & Ho & Hsl & Hat); rewrite Ho;
    cbn [mbind outcome_bind].
  - destruct Hst as [_ Hs]. destruct (decide (o = x00)).
    + rewrite Hat. by rewrite bool_decide_eq_false_2.
    + rewrite Hsl. cbn [mbind outcome_bind]. rewrite Hat in *.
      destruct Hs as [|[= ->]]; [done|]. by rewrite decide_True, bool_decide_eq_true_2.
  - destruct (proj1 Hst 0%nat) as (k' & Hk' & Hne); [lia|]. rewrite Hat in Hk'.
    destruct (decide (o = x00)); [done|]. injection Hk' as ->.
    rewrite Hsl. cbn [mbind outcome_bind]. rewrite decide_False by done.
    rewrite (next_index g _ Hwf), Nat.Div0.add_mod_idemp_l.
    rewrite (IH fuel (h + 1)%nat) by (try lia; by apply stops_shift).
    unfold at_. by replace (h + 1 + d)%nat with (h + S d)%nat by lia.
Qed.

Lemma insertLoop_stops fuel g k h d :
  table_wf g → stops (view g) k h d → (d < fuel)%nat →
  insertLoop fuel g k (Z.of_nat (Nat.modulo h (length (slots g)))) =
    Ok (if decide (at_ (view g) h d = Some (Some k)) then g
        else let j := Nat.modulo (h + d) (length (slots g)) in
             HashGen (<[j := k]> (slots g)) (<[j := x01]> (occ g)) (n g + 1) (mask g)).
Proof.
  intros Hwf. revert fuel h. induction d as [|d IH]; intros fuel h Hst Hf;
    (destruct fuel as [|fuel]; [lia|]); cbn [insertLoop];
    destruct (read_cell g h Hwf) as (o & sl & Ho & Hsl & Hat); rewrite Ho;
    cbn [mbind outcome_bind].
  - destruct Hst as [_ Hs]. rewrite Hat in *. destruct (decide (o = x00)).
    + rewrite decide_False by done. by rewrite Nat2Z.id, Nat.add_0_r.
    + rewrite Hsl. cbn [mbind outcome_bind].
      destruct Hs as [|[= ->]]; [done|]. by rewrite !decide_True.
  - destruct (proj1 Hst 0%nat) as (k' & Hk' & Hne); [lia|]. rewrite Hat in Hk'.
    destruct (decide (o = x00)); [done|]. injection Hk' as ->.
    rewrite Hsl. cbn [mbind outcome_bind]. rewrite decide_False by done.
    rewrite (next_index g _ Hwf), Nat.Div0.add_mod_idemp_l.
    rewrite (IH fuel (h + 1)%nat) by (try lia; by apply stops_shift).
    unfold at_. by replace (h + 1 + d)%nat with (h + S d)%nat by lia.
Qed.

(** ** A generation refines a finite set *)

Definition gkeys (g : hashGen) : gset bytes := keys (view g).

Definition gen_wf (g : hashGen) : Prop :=
  g = emptyGen ∨ (table_wf g ∧ 2 * n g <= len (slots g)).

Lemma size_insert_le (k : bytes) (X : gset bytes) : (size ({[ k ]} ∪ X) <= 1 + size X)%nat.
Proof.
  rewrite size_union_alt, size_singleton.
  assert (size (X ∖ {[ k ]}) <= size X)%nat by (apply subseteq_size; set_solver). lia.
Qed.

Lemma table_n_size g : table_wf g → n g = Z.of_nat (size (gkeys g)).
Proof.
  intros Hwf. rewrite (wf_n g Hwf). unfold gkeys, keys, len.
  rewrite size_list_to_set; [done|]. eapply probe_inv_NoDup, wf_probe, Hwf.
Qed.

Lemma gen_n_size g : gen_wf g → n g = Z.of_nat (size (gkeys g)).
Proof. intros [->|[Hwf _]]; [done|by apply table_n_size]. Qed.

Lemma table_stops g k :
  table_wf g → n g < len (slots g) →
  ∃ d, (d < length (slots g))%nat ∧ stops (view g) k (slotf g k) d.
Proof.
  intros Hwf Hn. pose proof (view_length g (wf_occ g Hwf)) as Hl.
  rewrite (wf_n g Hwf) in Hn. unfold len in Hn.
  destruct (free_slot (view g)) as [j Hj]; [lia|].
  destruct (probe_stops (view g) k (slotf g k) j Hj) as (d & Hd & Hs).
  exists d. split; [lia|done].
Qed.

Lemma has_spec g k : gen_wf g → has g k = Ok (bool_decide (k ∈ gkeys g)).
Proof.
  intros [->|[Hwf Hload]]; [done|]. pose proof (table_pos g Hwf).
  unfold has. rewrite (proj2 (Z.eqb_neq _ _)) by (unfold len; lia).
  destruct (table_stops g k Hwf) as (d & Hd & Hs); [unfold len in *; lia|].
  destruct (slotf_range g k Hwf) as [Hslot Hlt].
  pose proof (hasLoop_stops (length (slots g)) g k (slotf g k) d Hwf Hs Hd) as Hloop.
  rewrite Nat.mod_small, Hslot in Hloop by done. rewrite Hloop. f_equal.
  apply bool_decide_ext. apply probe_finds; [apply wf_probe, Hwf|done].
Qed.

Lemma view_insert g (j : nat) k :
  length (occ g) = length (slots g) → (j < length (slots g))%nat →
  view (HashGen (<[j := k]> (slots g)) (<[j := x01]> (occ g)) (n g + 1) (mask g))
    = <[j := Some k]> (view g).
Proof.
  intros Hl Hj. unfold view. cbn [occ slots].
  by rewrite <- insert_zip_with.
Qed.

Lemma insert_spec g k :
  table_wf g → n g < len (slots g) →
  ∃ g', insert g k = Ok g' ∧ table_wf g' ∧ gkeys g' = {[ k ]} ∪ gkeys g
    ∧ length (slots g') = length (slots g).
Proof.
  intros Hwf Hn. destruct (table_stops g k Hwf Hn) as (d & Hd & Hs).
  destruct (slotf_range g k Hwf) as [Hslot Hlt].
  pose proof (insertLoop_stops (length (slots g)) g k (slotf g k) d Hwf Hs Hd) as Hloop.
  rewrite Nat.mod_small, Hslot in Hloop by done. unfold insert. rewrite Hloop. clear Hloop.
  pose proof (probe_finds _ _ k d (wf_probe g Hwf) Hs) as Hfind.
  destruct (decide _) as [Hat|Hat].
  - exists g. split_and!; try done. apply Hfind in Hat. unfold gkeys. set_solver.
  - assert (Hnone : at_ (view g) (slotf g k) d = Some None).
    { destruct (proj2 Hs) as [|]; [done|congruence]. }
    pose proof (view_length g (wf_occ g Hwf)) as Hvl.
    set (j := Nat.modulo (slotf g k + d) (length (slots g))).
    assert (Hj : (j < length (slots g))%nat) by (apply Nat.mod_upper_bound; lia).
    eexists. split; [reflexivity|]. cbn zeta. fold j.
    pose proof (view_insert g j k (wf_occ g Hwf) Hj) as Hview.
    assert (Hperm : stored (<[j := Some k]> (view g)) ≡ₚ k :: stored (view g)).
    { apply stored_insert. unfold at_ in Hnone. by rewrite Hvl in Hnone. }
    split_and!; [split; cbn [slots occ mask n]| |cbn [slots]; by rewrite length_insert].
    + rewrite length_insert. apply (wf_pow g Hwf).
    + rewrite !length_insert. apply (wf_occ g Hwf).
    + rewrite (wf_mask g Hwf). unfold len. by rewrite length_insert.
    + rewrite Hview. unfold len. rewrite Hperm. rewrite (wf_n g Hwf). unfold len. simpl. lia.
    + rewrite Hview. unfold j. rewrite <- Hvl.
      apply (probe_inv_insert (slotf g)); [apply wf_probe, Hwf|lia|done|done].
    + unfold gkeys, keys. rewrite Hview, Hperm. done.
Qed.

(** Cells still to be reinserted. *)
Definition cells_of (os : bytes) (ss : list bytes) : list (option bytes) :=
  zip_with (λ o s, if decide (o = x00) then None else Some s) os ss.

Lemma reinsert_spec os ss ng :
  table_wf ng → length os = length ss →
  n ng + len (stored (cells_of os ss)) <= len (slots ng) →
  ∃ g', reinsert ng os ss = Ok g' ∧ table_wf g'
    ∧ gkeys g' = list_to_set (stored (cells_of os ss)) ∪ gkeys ng
    ∧ length (slots g') = length (slots ng).
Proof.
  revert ss ng. induction os as [|o os IH]; intros [|s ss] ng Hwf Hl Hn; simpl in *; try lia.
  - exists ng. split_and!; try done. set_solver.
  - destruct (decide (o = x00)) as [|Ho].
    + apply IH; [done|lia|done].
    + rewrite len_cons in Hn. pose proof (len_nonneg (stored (cells_of os ss))).
      destruct (insert_spec ng s Hwf) as (g1 & -> & Hwf1 & Hk1 & Hl1); [lia|].
      cbn [mbind outcome_bind].
      destruct (IH ss g1) as (g' & -> & Hwf' & Hk' & Hl'); [done|lia| |].
      * rewrite (table_n_size g1 Hwf1), Hk1, (table_n_size ng Hwf) in *. unfold len in *.
        rewrite Hl1. pose proof (size_insert_le s (gkeys ng)). lia.
      * exists g'. split_and!; [done|done| |lia]. rewrite Hk', Hk1. simpl. set_solver.
Qed.

Lemma stored_replicate_None m : stored (replicate m None) = [].
Proof. by induction m. Qed.

(** A fresh table of a power-of-two size. *)
Lemma fresh_table (p : nat) (z : bytes) :
  let g := HashGen (replicate (2 ^ p) z) (replicate (2 ^ p) x00) 0 (2 ^ Z.of_nat p - 1) in
  table_wf g ∧ gkeys g = ∅.
Proof.
  intros g.
  assert (Hview : view g = replicate (2 ^ p) None).
  { unfold view, g. cbn [occ slots]. induction (2 ^ p)%nat as [|m IH]; [done|].
    cbn [replicate zip_with]. rewrite IH, decide_True by done. done. }
  assert (Hstored : stored (view g) = []).
  { rewrite Hview. apply stored_replicate_None. }
  split; [split; cbn [slots occ mask n]|].
  - exists p. unfold g. apply length_replicate.
  - unfold g. cbn [slots occ]. by rewrite !length_replicate.
  - unfold len, g. cbn [slots mask]. by rewrite length_replicate, Nat2Z.inj_pow.
  - by rewrite Hstored.
  - rewrite Hview. split; intros; by apply lookup_replicate in H as [? _].
  - unfold gkeys, keys. by rewrite Hstored.
Qed.

Lemma grow_spec g :
  gen_wf g →
  ∃ g', grow g = Ok g' ∧ table_wf g' ∧ gkeys g' = gkeys g
    ∧ len (slots g') = (if len (slots g) =? 0 then 8 else 2 * len (slots g)).
Proof.
  intros [->|[Hwf Hload]].
  - destruct (fresh_table 3 (replicate 32 x00)) as [Hf Hk].
    unfold grow. simpl. eexists. split; [reflexivity|]. done.
  - pose proof (table_pos g Hwf) as Hpos. destruct (wf_pow g Hwf) as [p Hp].
    unfold grow. rewrite (proj2 (Z.ltb_lt _ _)), (proj2 (Z.eqb_neq _ _)) by (unfold len; lia).
    assert (Hns : len (slots g) * 2 = 2 ^ Z.of_nat (S p)).
    { unfold len. rewrite Hp, Nat2Z.inj_pow, (Nat2Z.inj_succ p), Z.pow_succ_r by lia. lia. }
    assert (Hnat : Z.to_nat (len (slots g) * 2) = (2 ^ S p)%nat).
    { rewrite Hns. change 2 with (Z.of_nat 2). rewrite <- Nat2Z.inj_pow. lia. }
    rewrite Hnat, Hns. destruct (fresh_table (S p) (replicate 32 x00)) as [Hf Hk].
    destruct (reinsert_spec (occ g) (slots g) _ Hf (wf_occ g Hwf)) as (g' & -> & Hwf' & Hk' & Hl').
    + cbn [n slots]. unfold len at 2. rewrite length_replicate.
      change (cells_of (occ g) (slots g)) with (view g). rewrite <- (wf_n g Hwf).
      rewrite <- Hnat. unfold len in *. lia.
    + exists g'. split_and!; [done|done| |].
      * rewrite Hk', Hk. unfold gkeys, keys. change (cells_of (occ g) (slots g)) with (view g).
        set_solver.
      * unfold len in *. rewrite Hl'. cbn [slots]. rewrite length_replicate, <- Hnat. lia.
Qed.

Lemma put_spec g k :
  gen_wf g → ∃ g', put g k = Ok g' ∧ gen_wf g' ∧ gkeys g' = {[ k ]} ∪ gkeys g.
Proof.
  intros Hwf. unfold put.
  assert (Hroom : ∃ g1, (if (len (slots g) =? 0) || (len (slots g) <? (n g + 1) * 2)
      then grow g else Ok g) = Ok g1 ∧ table_wf g1 ∧ gkeys g1 = gkeys g
      ∧ 2 * (Z.of_nat (size (gkeys g)) + 1) <= len (slots g1)).
  { rewrite <- (gen_n_size g Hwf). destruct (_ || _) eqn:Hc.
    - destruct (grow_spec g Hwf) as (g1 & Hg & Hwf1 & Hk & Hl).
      exists g1. split_and!; try done. rewrite Hl.
      destruct Hwf as [->|[_ Hload]]; [done|].
      destruct (len (slots g) =? 0) eqn:H0; rewrite ?Z.eqb_eq, ?Z.eqb_neq in H0; [lia|].
      pose proof (len_nonneg (slots g)). lia.
    - apply orb_false_iff in Hc as [H0 Hn]. apply Z.eqb_neq in H0. apply Z.ltb_ge in Hn.
      exists g. destruct Hwf as [->|[Ht _]]; [done|]. split_and!; try done. lia. }
  destruct Hroom as (g1 & -> & Hwf1 & Hk1 & Hl1). cbn [mbind outcome_bind].
  rewrite <- Hk1 in Hl1. pose proof (table_n_size g1 Hwf1) as Hn1.
  destruct (insert_spec g1 k Hwf1) as (g2 & -> & Hwf2 & Hk2 & Hl2); [lia|].
  exists g2. split_and!; [done| |by rewrite Hk2, Hk1]. right. split; [done|].
  rewrite (table_n_size g2 Hwf2), Hk2. unfold len in *. rewrite Hl2.
  pose proof (size_insert_le k (gkeys g1)). lia.
Qed.

(** ** The list refines a pair of sets *)

(** The abstract list: current and previous generation as sets of keys. *)
Definition spec_add (r : Z) (k : bytes) (st : gset bytes * gset bytes)
    : gset bytes * gset bytes :=
  let c := {[ k ]} ∪ st.1 in
  if r <? Z.of_nat (size c) then (∅, c) else (c, st.2).

Definition abs (hl : packetHashList) : gset bytes * gset bytes :=
  (gkeys (cur hl), gkeys (prev hl)).

Definition hl_wf (hl : packetHashList) : Prop :=
  gen_wf (cur hl) ∧ gen_wf (prev hl) ∧ n (cur hl) <= rotateAt hl ∧ n (prev hl) <= rotateAt hl + 1.

Lemma newPacketHashList_wf limit : hl_wf (newPacketHashList limit).
Proof. unfold hl_wf, rotateAt. simpl. split_and!; [by left|by left|lia|lia]. Qed.

Lemma seen_spec hl h :
  hl_wf hl → h ≠ [] →
  seen hl h = Ok (bool_decide (hash32FromSlice h ∈ (abs hl).1 ∪ (abs hl).2)).
Proof.
  intros (Hc & Hp & _) Hh. destruct h as [|b h]; [done|]. unfold seen.
  rewrite (proj2 (Z.eqb_neq _ _)) by (rewrite len_cons; pose proof (len_nonneg h); lia).
  rewrite !has_spec by done. cbn [mbind outcome_bind abs fst snd].
  destruct (bool_decide (_ ∈ gkeys (cur hl))) eqn:H1.
  - apply bool_decide_eq_true in H1. by rewrite bool_decide_eq_true_2 by set_solver.
  - apply bool_decide_eq_false in H1. f_equal. apply bool_decide_ext. set_solver.
Qed.

Lemma add_spec hl h :
  hl_wf hl → h ≠ [] →
  ∃ hl', add hl h = Ok hl' ∧ hl_wf hl' ∧ max hl' = max hl
    ∧ abs hl' = spec_add (rotateAt hl) (hash32FromSlice h) (abs hl).
Proof.
  intros (Hc & Hp & Hnc & Hnp) Hh. destruct h as [|b h]; [done|]. unfold add.
  rewrite (proj2 (Z.eqb_neq _ _)) by (rewrite len_cons; pose proof (len_nonneg h); lia).
  set (k := hash32FromSlice _).
  destruct (put_spec (cur hl) k Hc) as (c & -> & Hcwf & Hck). cbn [mbind outcome_bind].
  pose proof (gen_n_size c Hcwf) as Hn. pose proof (gen_n_size _ Hc) as Hn0.
  pose proof (size_insert_le k (gkeys (cur hl))) as Hsz.
  unfold spec_add, abs. cbn [fst snd]. rewrite <- Hck, <- Hn.
  destruct (rotateAt hl <? n c) eqn:Hrot; rewrite ?Z.ltb_lt, ?Z.ltb_ge in Hrot;
    (eexists; split; [reflexivity|]); unfold hl_wf, rotateAt in *; cbn [cur prev max];
    split_and!; try done; try (by left); rewrite ?Hck in *; simpl; lia.
Qed.

(** A sequence of additions. *)
Fixpoint addAll (hl : packetHashList) (hs : list bytes) : outcome () packetHashList :=
  match hs with
  | [] => Ok hl
  | h :: hs => hl ← add hl h; addAll hl hs
  end.

Lemma addAll_spec hl hs :
  hl_wf hl → Forall (λ h, h ≠ []) hs →
  ∃ hl', addAll hl hs = Ok hl' ∧ hl_wf hl' ∧ max hl' = max hl
    ∧ abs hl' = foldl (λ st h, spec_add (rotateAt hl) (hash32FromSlice h) st) (abs hl) hs.
Proof.
  intros Hwf Hhs. revert hl Hwf. induction Hhs as [|h hs Hh _ IH]; intros hl Hwf; [eauto|].
  destruct (add_spec hl h Hwf Hh) as (hl1 & Ha & Hwf1 & Hm1 & Habs1).
  destruct (IH hl1 Hwf1) as (hl2 & Hall & Hwf2 & Hm2 & Habs2).
  exists hl2. cbn [addAll foldl]. rewrite Ha. cbn [mbind outcome_bind]. rewrite Hall.
  split_and!; [done|done|congruence|]. rewrite Habs2, Habs1. unfold rotateAt. by rewrite Hm1.
Qed.

(** C34.  The packet hash list refines two generations of finite sets: from an
    empty list, any sequence of additions runs to completion (no probe loops
    forever, no index is out of range), [seen] answers membership in the two
    sets the abstract additions give, and the list never holds more than
    [2 * rotateAt + 1] hashes. *)
Theorem hashlist_refines_sets limit hs :
  Forall (λ h, h ≠ []) hs →
  let hl0 := newPacketHashList limit in
  let st := foldl (λ st h, spec_add (rotateAt hl0) (hash32FromSlice h) st) (∅, ∅) hs in
  ∃ hl, addAll hl0 hs = Ok hl
    ∧ (∀ h, h ≠ [] → seen hl h = Ok (bool_decide (hash32FromSlice h ∈ st.1 ∪ st.2)))
    ∧ Len hl = Z.of_nat (size st.1) + Z.of_nat (size st.2)
    ∧ Len hl <= 2 * rotateAt hl0 + 1.
Proof.
  intros Hhs hl0 st.
  destruct (addAll_spec hl0 hs (newPacketHashList_wf limit) Hhs) as (hl & Hall & Hwf & Hm & Habs).
  change (abs hl0) with ((∅, ∅) : gset bytes * gset bytes) in Habs. fold st in Habs.
  exists hl. split_and!; [done| | |].
  - intros h Hh. by rewrite seen_spec, Habs.
  - destruct Hwf as (Hc & Hp & _). unfold Len. rewrite (gen_n_size _ Hc), (gen_n_size _ Hp).
    rewrite <- Habs. done.
  - destruct Hwf as (_ & _ & H1 & H2). unfold Len, rotateAt in *. rewrite Hm in *. lia.
Qed.

(** Survival of a key over further additions, on the abstract list. *)
Lemma spec_survives r k ks st :
  Z.of_nat (length ks) <= r →
  k ∈ st.1 ∨ (k ∈ st.2 ∧ Z.of_nat (size st.1) + Z.of_nat (length ks) <= r) →
  let st' := foldl (λ st k, spec_add r k st) st ks in k ∈ st'.1 ∪ st'.2.
Proof.
  revert st. induction ks as [|x ks IH]; intros st Hl Hk; simpl in *.
  - set_solver.
  - apply IH; [lia|]. unfold spec_add. pose proof (size_insert_le x st.1).
    destruct (r <? _) eqn:Hr; rewrite ?Z.ltb_lt, ?Z.ltb_ge in Hr; cbn [fst snd].
    + destruct Hk as [Hk|[Hk Hs]]; [|lia]. right. split; [set_solver|]. rewrite size_empty. lia.
    + destruct Hk as [Hk|[Hk Hs]]; [left; set_solver|]. right. split; [done|]. lia.
Qed.

(** Recent packets are remembered: after a hash is added, it is seen through
    at least [max / 2] further additions, whatever they are. *)
Theorem recently_added_is_seen limit before h after :
  Forall (λ h, h ≠ []) before → h ≠ [] → Forall (λ h, h ≠ []) after →
  Z.of_nat (length after) <= rotateAt (newPacketHashList limit) →
  ∃ hl, addAll (newPacketHashList limit) (before ++ h :: after) = Ok hl
    ∧ seen hl h = Ok true.
Proof.
  intros Hb Hh Ha Hl. set (hl0 := newPacketHashList limit) in *.
  destruct (addAll_spec hl0 (before ++ h :: after) (newPacketHashList_wf limit))
    as (hl & Hall & Hwf & _ & Habs); [apply Forall_app; split; [done|by constructor]|].
  exists hl. split; [done|]. rewrite seen_spec by done. f_equal. apply bool_decide_eq_true.
  rewrite Habs, foldl_app. cbn [foldl]. set (st := spec_add _ _ _).
  replace (foldl _ st after) with
    (foldl (λ st k, spec_add (rotateAt hl0) k st) st (hash32FromSlice <$> after))
    by (by rewrite foldl_fmap).
  apply spec_survives; [by rewrite length_fmap|]. rewrite length_fmap.
  subst st. unfold spec_add. destruct (_ <? _); cbn [fst snd]; [|set_solver].
  right. split; [set_solver|]. rewrite ?size_empty. lia.
Qed.

(** ** The duplicate filter *)

(** [pkt.GetHash()] for its value; the cached hash it may compute is not used
    again here. *)
Definition pktHash (pkt : Packet.packet) : outcome () bytes :=
  match snd (Packet.GetHash pkt) with
  | Ok h => Ok h
  | Err _ => Err ()
  | Panic => Panic
  end.

Definition exemptContext (c : byte) : bool :=
  bool_decide (c ∈ [Packet.ContextKeepalive; Packet.ContextResourceReq; Packet.ContextResourcePRF;
                    Packet.ContextResource; Packet.ContextCacheReq; Packet.ContextChannel]).

(** [shared] is [config.ConnectedToSharedInstance]; [None] a nil hash list. *)
Definition packetFilter (shared : bool) (hashes : option packetHashList)
    (pkt : Packet.packet) : outcome () bool :=
  if shared then Ok true
  else if exemptContext (Packet.Context pkt) then Ok true
  else if bool_decide (Packet.DestinationType pkt = Packet.DestinationPlain)
       || bool_decide (Packet.DestinationType pkt = Packet.DestinationGroup) then
    if decide (Packet.PacketType pkt = Packet.PacketTypeAnnounce) then Ok false
    else if 1 <? b2z (Packet.Hops pkt) then Ok false
    else Ok true
  else
    h ← pktHash pkt;
    dup ← (match hashes with None => Ok false | Some hl => seen hl h end);
    if negb dup then Ok true
    else if bool_decide (Packet.PacketType pkt = Packet.PacketTypeAnnounce)
         && bool_decide (Packet.DestinationType pkt = Packet.DestinationSingle) then Ok true
    else Ok false.

(** [inLinkTable] looks the destination up in the relay table. *)
Definition maybeRememberPacketHash (shared : bool) (inLinkTable : bytes → bool)
    (hashes : option packetHashList) (pkt : Packet.packet) : outcome () (option packetHashList) :=
  match hashes with
  | None => Ok None
  | Some hl =>
      if shared then Ok (Some hl)
      else if inLinkTable (take (Z.to_nat Packet.TruncatedHashLength) (Packet.DestinationHash pkt))
      then Ok (Some hl)
      else if bool_decide (Packet.PacketType pkt = Packet.PacketTypeProof)
           && bool_decide (Packet.Context pkt = Packet.ContextLRProof) then Ok (Some hl)
      else h ← pktHash pkt; hl ← add hl h; Ok (Some hl)
  end.

Definition rememberPacketHashForced (shared : bool) (hashes : option packetHashList)
    (pkt : Packet.packet) : outcome () (option packetHashList) :=
  match hashes with
  | None => Ok None
  | Some hl =>
      if shared then Ok (Some hl)
      else h ← pktHash pkt; hl ← add hl h; Ok (Some hl)
  end.

(** Packets subject to the duplicate check: neither exempt by context nor
    broadcast by type, nor announces of single destinations. *)
Definition filtered (pkt : Packet.packet) : bool :=
  negb (exemptContext (Packet.Context pkt))
  && negb (bool_decide (Packet.DestinationType pkt = Packet.DestinationPlain))
  && negb (bool_decide (Packet.DestinationType pkt = Packet.DestinationGroup))
  && negb (bool_decide (Packet.PacketType pkt = Packet.PacketTypeAnnounce)
           && bool_decide (Packet.DestinationType pkt = Packet.DestinationSingle)).

Lemma pktHash_valid pkt : Packet.hashValid pkt = true → pktHash pkt = Ok (Packet.PacketHash pkt).
Proof.
  intros Hv. unfold pktHash, Packet.GetHash. autorewrite with goM. rewrite Hv.
  by autorewrite with goM.
Qed.

Lemma packetFilter_filtered hl pkt :
  hl_wf hl → Packet.hashValid pkt = true → Packet.PacketHash pkt ≠ [] → filtered pkt = true →
  packetFilter false (Some hl) pkt
    = Ok (bool_decide (hash32FromSlice (Packet.PacketHash pkt) ∉ (abs hl).1 ∪ (abs hl).2)).
Proof.
  intros Hwf Hv Hne Hf. unfold packetFilter, filtered in *.
  rewrite !andb_true_iff, !negb_true_iff in Hf. destruct Hf as [[[H1 H2] H3] H4].
  rewrite H1, H2, H3. cbn [orb]. rewrite (pktHash_valid pkt Hv). cbn [mbind outcome_bind].
  rewrite (seen_spec hl _ Hwf Hne). cbn [mbind outcome_bind]. rewrite H4.
  set (P := hash32FromSlice _ ∈ _). destruct (decide P) as [HP|HP].
  - rewrite (bool_decide_eq_true_2 P HP), (bool_decide_eq_false_2 (¬ P)) by auto. done.
  - rewrite (bool_decide_eq_false_2 P HP), (bool_decide_eq_true_2 (¬ P)) by auto. done.
Qed.

(** Duplicates are dropped, first copies are not: once a packet's hash has
    been remembered, every packet with the same hash that is subject to the
    check is refused, through at least [max / 2] packets remembered in between;
    one whose hash is in neither generation is let through. *)
Theorem duplicate_filtered hl pkt dup between :
  hl_wf hl → Packet.hashValid pkt = true → Packet.PacketHash pkt ≠ [] →
  Packet.hashValid dup = true → Packet.PacketHash dup = Packet.PacketHash pkt →
  filtered dup = true → Forall (λ h, h ≠ []) between →
  Z.of_nat (length between) <= rotateAt hl →
  ∃ hl1 hl2, rememberPacketHashForced false (Some hl) pkt = Ok (Some hl1)
    ∧ addAll hl1 between = Ok hl2
    ∧ packetFilter false (Some hl2) dup = Ok false
    ∧ (hash32FromSlice (Packet.PacketHash dup) ∉ (abs hl).1 ∪ (abs hl).2 →
       packetFilter false (Some hl) dup = Ok true).
Proof.
  intros Hwf Hv Hne Hdv Hdh Hf Hb Hl.
  destruct (add_spec hl (Packet.PacketHash pkt) Hwf Hne) as (hl1 & Ha & Hwf1 & Hm1 & Habs1).
  destruct (addAll_spec hl1 between Hwf1 Hb) as (hl2 & Hall & Hwf2 & Hm2 & Habs2).
  exists hl1, hl2. unfold rememberPacketHashForced. rewrite (pktHash_valid pkt Hv).
  cbn [mbind outcome_bind]. rewrite Ha. split_and!; [done|done| |].
  - rewrite packetFilter_filtered, Hdh by congruence. f_equal. apply bool_decide_eq_false.
    intros Hnot. apply Hnot. rewrite Habs2, Habs1.
    unfold rotateAt in Hl |- *. rewrite Hm1.
    set (r := Z.max (max hl `div` 2) 1) in *. set (st := spec_add _ _ _).
    replace (foldl _ st between) with
      (foldl (λ st k, spec_add r k st) st (hash32FromSlice <$> between))
      by (by rewrite foldl_fmap).
    apply spec_survives; [by rewrite length_fmap|]. rewrite length_fmap.
    subst st. unfold spec_add. destruct (_ <? _); cbn [fst snd]; [|set_solver].
    right. split; [set_solver|]. rewrite size_empty. lia.
  - intros Hnew. rewrite packetFilter_filtered by congruence. by rewrite bool_decide_eq_true_2.
Qed.

(** ** Concrete packets *)

Definition sample_hashes : list bytes := [replicate 32 x01; replicate 32 x02; [x03]].

Lemma hashlist_refines_sets_witness :
  let hl0 := newPacketHashList 4 in
  let st := foldl (λ st h, spec_add (rotateAt hl0) (hash32FromSlice h) st) (∅, ∅) sample_hashes in
  ∃ hl, addAll hl0 sample_hashes = Ok hl
    ∧ (∀ h, h ≠ [] → seen hl h = Ok (bool_decide (hash32FromSlice h ∈ st.1 ∪ st.2)))
    ∧ Len hl = Z.of_nat (size st.1) + Z.of_nat (size st.2)
    ∧ Len hl <= 2 * rotateAt hl0 + 1.
Proof. apply (hashlist_refines_sets 4 sample_hashes). repeat constructor; discriminate. Defined.

Lemma recently_added_is_seen_witness :
  ∃ hl, addAll (newPacketHashList 4) (sample_hashes ++ [x09] :: [replicate 32 x01; [x05]]) = Ok hl
    ∧ seen hl [x09] = Ok true.
Proof.
  apply recently_added_is_seen;
    [repeat constructor; discriminate|discriminate|repeat constructor; discriminate|
     vm_compute; discriminate].
Defined.

Definition sample_pkt : Packet.packet := fst (Packet.Unpack (Packet.packet_of_raw (Packet.wire Packet.sample_packet))).

Lemma duplicate_filtered_witness :
  ∃ hl1 hl2, rememberPacketHashForced false (Some (newPacketHashList 4)) sample_pkt = Ok (Some hl1)
    ∧ addAll hl1 [[x05]] = Ok hl2
    ∧ packetFilter false (Some hl2) sample_pkt = Ok false
    ∧ (hash32FromSlice (Packet.PacketHash sample_pkt)
         ∉ (abs (newPacketHashList 4)).1 ∪ (abs (newPacketHashList 4)).2 →
       packetFilter false (Some (newPacketHashList 4)) sample_pkt = Ok true).
Proof.
  apply duplicate_filtered;
    [apply newPacketHashList_wf|vm_compute; reflexivity|vm_compute; discriminate|
     vm_compute; reflexivity|reflexivity|vm_compute; reflexivity|
     repeat constructor; discriminate|vm_compute; discriminate].
Defined.

End HashList.
