(* ===== verification/HeaderRewrite.v ===== *)
(** * Header rewriting on the relay path (package [transport])

    The wire helpers of [relay.go] (header type 2 insertion, rebuilding and
    removal, hop rewriting and accounting) and the link MTU clamp of
    [lr_mtu.go], with the facts the relay relies on: what a rewritten frame
    unpacks to, and that packet hash and link id survive the rewriting. *)

From S2P Require Import Prelude.
From S2P Require Import Sha256.
From S2P Require Import Packet.

Module HeaderRewrite.
Import Packet.
Local Open Scope go_scope.

Inductive rewrite_error :=
  | TooShortRewrite
  | NextHopLength (n : Z)
  | TooShortInsert
  | TooShortStrip.

(** The in-place helpers return the backing array after the call as well, for
    the slices of the packet that alias it. *)
Definition rebuildHeaderType2 (raw : bytes) (hops : byte) (nextHop : bytes)
    : outcome rewrite_error bytes :=
  let tail := TruncatedHashLength + 2 in
  check (tail <=? len raw) TooShortRewrite ;;
  check (len nextHop =? TruncatedHashLength) (NextHopLength (len nextHop)) ;;
  let raw := <[1%nat := hops]> raw in
  Ok (overwrite 2 nextHop raw).

Definition insertHeaderType2 (raw : bytes) (hops : byte) (nextHop : bytes)
    : outcome rewrite_error bytes :=
  let hopLen := TruncatedHashLength in
  check (2 <=? len raw) TooShortInsert ;;
  check (len nextHop =? hopLen) (NextHopLength (len nextHop)) ;;
  flags ← go_index 0 raw;
  let newFlags := x00 in
  let newFlags := newFlags ||| ((HeaderType2 <<< 6) &&& HeaderMaskHeaderType) in
  let newFlags := newFlags ||| ((PropagationTransport <<< 4) &&& HeaderMaskTransportType) in
  let newFlags := newFlags ||| (flags &&& (HeaderMaskContextFlag ||| x0f)) in
  Ok ([newFlags; hops] ++ nextHop ++ drop 2 raw).

(** [(backing array, result)]: the result is the array without its last 16
    bytes, which keep their old content. *)
Definition stripHeaderType2 (raw : bytes) (hops : byte)
    : outcome rewrite_error (bytes * bytes) :=
  let tail := TruncatedHashLength + 2 in
  check (tail <=? len raw) TooShortStrip ;;
  flags ← go_index 0 raw;
  let newFlags := x00 in
  let newFlags := newFlags ||| ((HeaderType1 <<< 6) &&& HeaderMaskHeaderType) in
  let newFlags := newFlags ||| ((PropagationBroadcast <<< 4) &&& HeaderMaskTransportType) in
  let newFlags := newFlags ||| (flags &&& x0f) in
  let raw := overwrite 2 (drop (Z.to_nat tail) raw) raw in
  let raw := <[1%nat := hops]> (<[0%nat := newFlags]> raw) in
  out ← go_slice 0 (len raw - TruncatedHashLength) raw;
  Ok (raw, out).

Definition rewriteHopsInPlace (raw : bytes) (hops : byte) : bytes :=
  if 2 <=? len raw then <[1%nat := hops]> raw else raw.

Definition rewriteHopsOnly (raw : bytes) (hops : byte) : bytes :=
  if len raw <? 2 then raw else <[1%nat := hops]> raw.

Definition linkRelayAccountedHops (wireHops : byte) (fromLocalClient : bool) : byte :=
  if fromLocalClient then wireHops
  else if b2z wireHops <? 255 then badd wireHops x01
  else wireHops.

(** ** The link MTU clamp ([lr_mtu.go]) *)

Definition lrECPubSize : Z := 64.
Definition lrMTUSize : Z := 3.

Definition mtuFromLRData (data : bytes) : outcome rewrite_error (Z * byte * bool) :=
  if len data <? lrECPubSize + lrMTUSize then Ok (0, x00, false)
  else
    b ← go_slice lrECPubSize (lrECPubSize + lrMTUSize) data;
    b0 ← go_index 0 b; b1 ← go_index 1 b; b2 ← go_index 2 b;
    let mtu := Z.lor (Z.lor (Z.shiftl (b2z (b0 &&& x1f)) 16) (Z.shiftl (b2z b1) 8)) (b2z b2) in
    Ok (mtu, (b0 &&& xe0) >>> 5, true).

Definition signallingBytesMTU (mtu : Z) (mode : byte) : bytes :=
  let b0 := z2b (Z.land (Z.shiftr mtu 16) 255) in
  let b1 := z2b (Z.land (Z.shiftr mtu 8) 255) in
  let b2 := z2b (Z.land mtu 255) in
  [b0 ||| (mode <<< 5); b1; b2].

(** [data] is the packet's payload slice as it reads at the time of the call,
    [phMTU] and [nhMTU] are the MTUs of the receiving and of the next-hop
    interface, 0 for none. *)
Definition clampRelayedLinkRequestMTU (raw data : bytes) (phMTU nhMTU : Z)
    : outcome rewrite_error bytes :=
  if (len raw <? lrMTUSize) || (len data <? lrECPubSize + lrMTUSize) then Ok raw
  else
    '(pathMTU, mode, ok) ← mtuFromLRData data;
    if negb ok || (pathMTU <=? 0) then Ok raw
    else if nhMTU <=? 0 then go_slice 0 (len raw - lrMTUSize) raw
    else
      let limit := nhMTU in
      let limit := if (0 <? phMTU) && (phMTU <? limit) then phMTU else limit in
      if pathMTU <=? limit then Ok raw
      else
        let clamped := signallingBytesMTU limit mode in
        outRaw ← go_slice 0 (len raw - lrMTUSize) raw;
        Ok (outRaw ++ clamped).

(** ** Frames *)

(** What a receiver reads from wire bytes. *)
Definition parse (r : bytes) : option packet :=
  match Unpack (packet_of_raw r) with (p, Ok _) => Some p | _ => None end.

Lemma parse_frame f h tid dh ctx data :
  frame_ok f h tid dh = true → len (frame f h tid dh ctx data) <= MaxInboundPacketSize →
  parse (frame f h tid dh ctx data)
    = Some (unpacked f h tid dh ctx data (packet_of_raw (frame f h tid dh ctx data))).
Proof.
  intros Hok Hm. unfold parse.
  by rewrite (Unpack_run _ f h tid dh ctx data) by (rewrite ?raw_packet_of_raw; done).
Qed.

Lemma parse_Some r p :
  parse r = Some p → ∃ f h tid dh ctx data, r = frame f h tid dh ctx data
    ∧ frame_ok f h tid dh = true ∧ len r <= MaxInboundPacketSize
    ∧ p = unpacked f h tid dh ctx data (packet_of_raw r).
Proof.
  intros Hp. destruct (unpackable r) eqn:Hu.
  - apply unpackable_frame in Hu as (f & h & tid & dh & ctx & data & -> & Hok & Hm).
    rewrite parse_frame in Hp by done. simplify_eq. by exists f, h, tid, dh, ctx, data.
  - destruct (unpack_error r) as [e|] eqn:He; [|apply unpack_error_None in He; congruence].
    rewrite <- (raw_packet_of_raw r) in He. apply Unpack_rejects in He as [p' He].
    unfold parse in Hp. by rewrite He in Hp.
Qed.

Lemma frame_ok_spec f h tid dh :
  frame_ok f h tid dh = true ↔
  len dh = 16 ∧ b2z h < 128
  ∧ (headerTypeOf f = HeaderType2 ∧ len tid = 16 ∨ headerTypeOf f = HeaderType1 ∧ tid = []).
Proof.
  unfold frame_ok, PathfinderM, TruncatedHashLength.
  rewrite !andb_true_iff, !Z.eqb_eq, Z.ltb_lt.
  destruct (header_type_decoded f) as [E|E]; fold (headerTypeOf f) in E; rewrite E.
  - rewrite decide_False by done. split; [intros [[? ?] ?%len_0_nil]|intros (? & ? & [[? ?]|[? ->]])];
      naive_solver.
  - rewrite decide_True by done. naive_solver.
Qed.

Lemma preimage_frame f h tid dh ctx data :
  frame_ok f h tid dh = true →
  preimage (headerTypeOf f) (frame f h tid dh ctx data)
    = (f &&& HashableFlagsMask) :: dh ++ ctx :: data.
Proof.
  intros (_ & _ & Ht)%frame_ok_spec. unfold preimage, frame. cbn [app].
  destruct Ht as [[-> Ht]|[-> ->]]; [rewrite decide_True by done|rewrite decide_False by done; done].
  f_equal. unfold TruncatedHashLength. change (Z.to_nat (16 + 2)) with (S (S 16)).
  cbn [drop]. rewrite drop_app_mid by (unfold len in Ht; lia). done.
Qed.

(** ** The helpers on frames *)

Lemma rebuild_frame f h tid dh ctx data hops nh :
  len tid = 16 → len nh = 16 →
  rebuildHeaderType2 (frame f h tid dh ctx data) hops nh = Ok (frame f hops nh dh ctx data).
Proof.
  intros Ht Hn. unfold rebuildHeaderType2, TruncatedHashLength. rewrite Hn.
  rewrite (proj2 (Z.leb_le _ _)) by (unfold frame; len_simpl; pose proof (len_nonneg dh);
    pose proof (len_nonneg data); lia).
  unfold frame, overwrite, len in *. cbn. change (Z.to_nat 2) with 2%nat. f_equal.
  rewrite (take_ge nh) by (rewrite !length_app; lia).
  cbn [Nat.add drop]. rewrite (drop_app_mid tid) by lia. done.
Qed.

(** The flags of a stripped and of an upgraded frame. *)
Definition strip_flags (f : byte) : byte := f &&& x0f.
Definition insert_flags (f : byte) : byte := x50 ||| (f &&& x2f).

Lemma strip_flags_eq f :
  x00 ||| ((HeaderType1 <<< 6) &&& HeaderMaskHeaderType)
    ||| ((PropagationBroadcast <<< 4) &&& HeaderMaskTransportType) ||| (f &&& x0f) = strip_flags f.
Proof. byte_cases f. Qed.

Lemma insert_flags_eq f :
  x00 ||| ((HeaderType2 <<< 6) &&& HeaderMaskHeaderType)
    ||| ((PropagationTransport <<< 4) &&& HeaderMaskTransportType)
    ||| (f &&& (HeaderMaskContextFlag ||| x0f)) = insert_flags f.
Proof. byte_cases f. Qed.

(** The part of the array beyond the stripped frame keeps its old bytes. *)
Definition stale (r : bytes) : bytes := drop (length r - 16) r.

Lemma strip_frame f h tid dh ctx data hops :
  len tid = 16 →
  let r := frame f h tid dh ctx data in
  let out := frame (strip_flags f) hops [] dh ctx data in
  stripHeaderType2 r hops = Ok (out ++ stale r, out).
Proof.
  intros Ht r out. unfold stripHeaderType2, TruncatedHashLength.
  assert (Hl : length r = (16 + length out)%nat).
  { subst r out. unfold frame, len in *. cbn. rewrite !length_app. lia. }
  rewrite (proj2 (Z.leb_le _ _)).
  2:{ unfold len. rewrite Hl. subst out. unfold frame. cbn. lia. }
  change (go_index 0 r) with (Ok (E:=rewrite_error) f). cbn [mbind outcome_bind check].
  rewrite strip_flags_eq.
  assert (Hmem : <[1%nat:=hops]> (<[0%nat:=strip_flags f]>
            (overwrite 2 (drop (Z.to_nat (16 + 2)) r) r)) = out ++ stale r).
  { unfold overwrite, stale. rewrite Hl.
    assert (Hd : drop (Z.to_nat (16 + 2)) r = dh ++ ctx :: data).
    { subst r. unfold frame. change (Z.to_nat (16 + 2)) with (S (S 16)). cbn [app drop].
      apply drop_app_mid. unfold len in Ht. lia. }
    rewrite Hd. change (Z.to_nat 2) with 2%nat.
    rewrite (take_ge (dh ++ _)) by (subst out; unfold frame; cbn; rewrite !length_app; cbn; lia).
    replace (2 + length (dh ++ ctx :: data))%nat with (length out)
      by (subst out; unfold frame; cbn; rewrite !length_app; cbn; lia).
    replace (16 + length out - 16)%nat with (length out) by lia.
    subst r out. unfold frame. cbn [app take]. cbn. by rewrite <- app_assoc. }
  assert (Hlen : len (out ++ stale r) - 16 = len out).
  { unfold len, stale. rewrite length_app, length_drop, Hl. lia. }
  rewrite Hmem, Hlen, go_slice_Ok by (pose proof (len_nonneg out); lia).
  cbn [mbind outcome_bind]. rewrite slice_0, take_app_mid by (unfold len; lia). done.
Qed.

Lemma insert_frame f h dh ctx data hops nh :
  len nh = 16 →
  insertHeaderType2 (frame f h [] dh ctx data) hops nh
    = Ok (frame (insert_flags f) hops nh dh ctx data).
Proof.
  intros Hn. unfold insertHeaderType2, TruncatedHashLength. rewrite Hn.
  rewrite (proj2 (Z.leb_le _ _)) by (unfold frame; len_simpl; pose proof (len_nonneg dh);
    pose proof (len_nonneg data); lia).
  change (go_index 0 _) with (Ok (E:=rewrite_error) f). cbn [mbind outcome_bind check].
  by rewrite insert_flags_eq.
Qed.

Lemma rewriteHops_frame f h tid dh ctx data hops :
  rewriteHopsInPlace (frame f h tid dh ctx data) hops = frame f hops tid dh ctx data
  ∧ rewriteHopsOnly (frame f h tid dh ctx data) hops = frame f hops tid dh ctx data.
Proof.
  assert (2 <= len (frame f h tid dh ctx data)).
  { unfold frame. len_simpl. pose proof (len_nonneg (tid ++ dh ++ [ctx] ++ data)). len_simpl. lia. }
  unfold rewriteHopsInPlace, rewriteHopsOnly.
  rewrite (proj2 (Z.leb_le _ _)), (proj2 (Z.ltb_ge _ _)) by lia. done.
Qed.

Lemma strip_flags_type f :
  headerTypeOf (strip_flags f) = HeaderType1
  ∧ strip_flags f &&& HashableFlagsMask = f &&& HashableFlagsMask
  ∧ (strip_flags f &&& HeaderMaskDestinationType) >>> 2 = (f &&& HeaderMaskDestinationType) >>> 2
  ∧ strip_flags f &&& HeaderMaskPacketType = f &&& HeaderMaskPacketType
  ∧ (strip_flags f &&& HeaderMaskTransportType) >>> 4 = PropagationBroadcast.
Proof. byte_cases f. Qed.

Lemma insert_flags_type f :
  headerTypeOf (insert_flags f) = HeaderType2
  ∧ insert_flags f &&& HashableFlagsMask = f &&& HashableFlagsMask
  ∧ (insert_flags f &&& HeaderMaskDestinationType) >>> 2 = (f &&& HeaderMaskDestinationType) >>> 2
  ∧ insert_flags f &&& HeaderMaskPacketType = f &&& HeaderMaskPacketType
  ∧ (insert_flags f &&& HeaderMaskTransportType) >>> 4 = PropagationTransport.
Proof. byte_cases f. Qed.

(** ** What relaying keeps *)

(** Two packets that are the same message for their end points: same type,
    destination, context and payload, and the same packet hash and link id. *)
Definition same_message (p q : packet) : Prop :=
  PacketType p = PacketType q ∧ DestinationType p = DestinationType q
  ∧ DestinationHash p = DestinationHash q ∧ Context p = Context q ∧ Data p = Data q
  ∧ PacketHash p = PacketHash q
  ∧ LinkIDFromLinkRequest p = LinkIDFromLinkRequest q.

(** The link id hashes the preimage without the payload beyond the keys. *)
Definition link_preimage (f : byte) (dh : bytes) (ctx : byte) (data : bytes) : bytes :=
  (f &&& HashableFlagsMask) :: dh ++ ctx :: take 64 data.

Lemma link_id_frame f h tid dh ctx data :
  frame_ok f h tid dh = true →
  LinkIDFromLinkRequest
    (unpacked f h tid dh ctx data (packet_of_raw (frame f h tid dh ctx data)))
    = Ok (identity_TruncatedHash (link_preimage f dh ctx data)).
Proof.
  intros Hok. set (r := frame f h tid dh ctx data).
  assert (Hr : raw (unpacked f h tid dh ctx data (packet_of_raw r)) = r).
  { unfold raw. change (Raw (unpacked _ _ _ _ _ _ _)) with (buf_of r). apply content_buf_of. }
  unfold LinkIDFromLinkRequest. rewrite Hr.
  rewrite (proj2 (Z.eqb_neq _ _)).
  2:{ subst r. unfold frame. len_simpl. pose proof (len_nonneg (tid ++ dh ++ [ctx] ++ data)).
      len_simpl. lia. }
  rewrite hashableInto_preimage by (rewrite Hr; done). rewrite Hr.
  change (HeaderType (unpacked _ _ _ _ _ _ _)) with (headerTypeOf f).
  change (Data (unpacked _ _ _ _ _ _ _)) with data.
  subst r. rewrite preimage_frame by done. cbn [mbind outcome_bind].
  unfold LinkRequestECPubSize, link_preimage. f_equal. f_equal.
  assert (Hl : len ((f &&& HashableFlagsMask) :: dh ++ ctx :: data) = 2 + len dh + len data)
    by (len_simpl; lia).
  pose proof (len_nonneg dh). pose proof (len_nonneg data). rewrite Hl.
  destruct (64 <? len data) eqn:Hd; [apply Z.ltb_lt in Hd|apply Z.ltb_ge in Hd].
  - rewrite (proj2 (Z.leb_le _ _)) by lia.
    replace (Z.to_nat _) with (S (length dh + S 64)) by (unfold len in *; lia).
    cbn [take]. rewrite take_app_add. done.
  - rewrite take_ge by (unfold len in *; lia). done.
Qed.

Lemma relayed_same_message f h tid dh ctx data f' h' tid' :
  frame_ok f h tid dh = true → frame_ok f' h' tid' dh = true →
  f' &&& HashableFlagsMask = f &&& HashableFlagsMask →
  (f' &&& HeaderMaskDestinationType) >>> 2 = (f &&& HeaderMaskDestinationType) >>> 2 →
  f' &&& HeaderMaskPacketType = f &&& HeaderMaskPacketType →
  same_message
    (unpacked f' h' tid' dh ctx data (packet_of_raw (frame f' h' tid' dh ctx data)))
    (unpacked f h tid dh ctx data (packet_of_raw (frame f h tid dh ctx data))).
Proof.
  intros H1 H2 Hf Hd Hp. unfold same_message. split_and!; try done.
  - unfold unpacked at 1 2. packet_simpl. rewrite !raw_packet_of_raw, !preimage_frame by done.
    by rewrite Hf.
  - rewrite !link_id_frame by done. unfold link_preimage. by rewrite Hf.
Qed.

Lemma len_frame f h tid dh ctx data :
  len (frame f h tid dh ctx data) = 3 + len tid + len dh + len data.
Proof. unfold frame. len_simpl. lia. Qed.

Lemma unpacked_header f h tid dh ctx data r :
  let p := unpacked f h tid dh ctx data (packet_of_raw r) in
  HeaderType p = headerTypeOf f ∧ Hops p = h
  ∧ TransportID p = (if decide (headerTypeOf f = HeaderType2) then Some tid else None)
  ∧ TransportType p = (f &&& HeaderMaskTransportType) >>> 4.
Proof. split_and!; reflexivity. Qed.

(** The next node's view of a relayed frame. *)
Lemma relayed f h tid dh ctx data f' h' tid' :
  frame_ok f h tid dh = true → frame_ok f' h' tid' dh = true →
  f' &&& HashableFlagsMask = f &&& HashableFlagsMask →
  (f' &&& HeaderMaskDestinationType) >>> 2 = (f &&& HeaderMaskDestinationType) >>> 2 →
  f' &&& HeaderMaskPacketType = f &&& HeaderMaskPacketType →
  len (frame f' h' tid' dh ctx data) <= MaxInboundPacketSize →
  ∃ q, parse (frame f' h' tid' dh ctx data) = Some q
    ∧ same_message q (unpacked f h tid dh ctx data (packet_of_raw (frame f h tid dh ctx data)))
    ∧ HeaderType q = headerTypeOf f' ∧ Hops q = h'
    ∧ TransportID q = (if decide (headerTypeOf f' = HeaderType2) then Some tid' else None)
    ∧ TransportType q = (f' &&& HeaderMaskTransportType) >>> 4.
Proof.
  intros. eexists. split; [by apply parse_frame|].
  split; [by apply relayed_same_message|]. apply unpacked_header.
Qed.

(** Relaying keeps the message: every header rewriting of a packet that was
    accepted gives a packet the next node accepts, with the new hop count and
    transport id, and with the type, destination, payload, packet hash and link
    id of the original; this is what lets a proof for the packet, and the proof
    of a link request, match at every node on the path. *)
Theorem rewrite_keeps_message r p hops nh :
  parse r = Some p → b2z hops < 128 → len nh = 16 → len r + 16 <= MaxInboundPacketSize →
  (HeaderType p = HeaderType2 →
     (∃ r' q, rebuildHeaderType2 r hops nh = Ok r' ∧ parse r' = Some q ∧ same_message q p
        ∧ HeaderType q = HeaderType2 ∧ TransportID q = Some nh ∧ Hops q = hops
        ∧ TransportType q = TransportType p)
     ∧ (∃ mem r' q, stripHeaderType2 r hops = Ok (mem, r') ∧ parse r' = Some q
        ∧ same_message q p ∧ HeaderType q = HeaderType1 ∧ Hops q = hops
        ∧ TransportType q = PropagationBroadcast))
  ∧ (HeaderType p = HeaderType1 →
      ∃ r' q, insertHeaderType2 r hops nh = Ok r' ∧ parse r' = Some q ∧ same_message q p
        ∧ HeaderType q = HeaderType2 ∧ TransportID q = Some nh ∧ Hops q = hops
        ∧ TransportType q = PropagationTransport)
  ∧ rewriteHopsInPlace r hops = rewriteHopsOnly r hops
  ∧ ∃ q, parse (rewriteHopsOnly r hops) = Some q ∧ same_message q p ∧ Hops q = hops
      ∧ HeaderType q = HeaderType p ∧ TransportID q = TransportID p.
Proof.
  intros (f & h & tid & dh & ctx & data & -> & Hok & Hm & ->)%parse_Some Hh Hn Hl.
  destruct (unpacked_header f h tid dh ctx data (frame f h tid dh ctx data)) as (-> & _ & -> & ->).
  pose proof Hok as (Hd & Hh0 & Ht)%frame_ok_spec. rewrite len_frame in Hm, Hl.
  destruct (strip_flags_type f) as (Hs0 & Hs1 & Hs2 & Hs3 & Hs4).
  destruct (insert_flags_type f) as (Hi0 & Hi1 & Hi2 & Hi3 & Hi4).
  destruct (rewriteHops_frame f h tid dh ctx data hops) as [-> ->].
  split_and!.
  - intros HT. destruct Ht as [[_ Ht]|[HT' _]]; [|rewrite HT' in HT; done]. split.
    + destruct (relayed f h tid dh ctx data f hops nh) as (q & Hq & Hs & E1 & E2 & E3 & E4);
        [done|apply frame_ok_spec; naive_solver|done..|rewrite len_frame; lia|].
      rewrite HT in *. rewrite decide_True in E3 by done.
      eexists _, q. by rewrite rebuild_frame.
    + destruct (relayed f h tid dh ctx data (strip_flags f) hops []) as (q & Hq & Hs & E1 & E2 & _ & E4);
        [done|apply frame_ok_spec; naive_solver|done..|rewrite len_frame; change (len []) with 0; lia|].
      rewrite Hs0 in E1. rewrite Hs4 in E4. eexists _, _, q. by rewrite strip_frame.
  - intros HT. destruct Ht as [[HT' _]|[_ ->]]; [rewrite HT' in HT; done|].
    destruct (relayed f h [] dh ctx data (insert_flags f) hops nh) as (q & Hq & Hs & E1 & E2 & E3 & E4);
      [done|apply frame_ok_spec; naive_solver|done..|rewrite len_frame; change (len []) with 0 in *; lia|].
    rewrite Hi0 in *. rewrite decide_True in E3 by done. rewrite Hi4 in E4.
    eexists _, q. by rewrite insert_frame.
  - done.
  - destruct (relayed f h tid dh ctx data f hops tid) as (q & Hq & Hs & E1 & E2 & E3 & _);
      [done|apply frame_ok_spec; naive_solver|done..|rewrite len_frame; lia|].
    by exists q.
Qed.

(** ** The MTU clamp *)

Lemma signalling_first_byte_all mode :
  b2z mode < 8 →
  Forall (λ a, (a ||| (mode <<< 5)) &&& x1f = a ∧ ((a ||| (mode <<< 5)) &&& xe0) >>> 5 = mode)
    (take 32 all_bytes).
Proof. byte_cases mode. Qed.

Lemma signalling_first_byte a mode :
  b2z a < 32 → b2z mode < 8 →
  (a ||| (mode <<< 5)) &&& x1f = a ∧ ((a ||| (mode <<< 5)) &&& xe0) >>> 5 = mode.
Proof.
  intros Ha Hm. pose proof (signalling_first_byte_all mode Hm) as HF.
  rewrite Forall_lookup in HF. apply (HF (Z.to_nat (b2z a))).
  pose proof (b2z_range a). rewrite lookup_take_lt by lia.
  unfold all_bytes. rewrite list_lookup_fmap, lookup_seqZ_lt by lia. cbn [fmap option_fmap option_map].
  f_equal. rewrite <- (z2b_b2z a) at 2. f_equal. lia.
Qed.

Lemma mtu_recompose m :
  0 <= m < 2 ^ 21 →
  Z.lor (Z.lor (Z.shiftl (Z.shiftr m 16) 16) (Z.shiftl (Z.land (Z.shiftr m 8) 255) 8))
    (Z.land m 255) = m.
Proof.
  intros Hm. apply Z.bits_inj'. intros n Hn. change 255 with (Z.ones 8).
  rewrite !Z.lor_spec, Z.land_spec, Z.testbit_ones_nonneg by lia.
  destruct (Z.lt_ge_cases n 8).
  - rewrite !Z.shiftl_spec_low, (proj2 (Z.ltb_lt _ _)) by lia. by rewrite andb_true_r.
  - rewrite (proj2 (Z.ltb_ge n 8)) by lia. rewrite andb_false_r, orb_false_r.
    rewrite (Z.shiftl_spec_high _ 8), Z.land_spec, Z.testbit_ones_nonneg by lia.
    rewrite Z.shiftr_spec by lia. replace (n - 8 + 8) with n by lia.
    destruct (Z.lt_ge_cases n 16).
    + rewrite Z.shiftl_spec_low, (proj2 (Z.ltb_lt _ _)) by lia. by rewrite andb_true_r.
    + rewrite Z.shiftl_spec_high, Z.shiftr_spec, (proj2 (Z.ltb_ge (n - 8) 8)) by lia.
      replace (n - 16 + 16) with n by lia. by rewrite andb_false_r, orb_false_r.
Qed.

Lemma mtuFromLRData_sig keys b0 b1 b2 :
  len keys = 64 →
  mtuFromLRData (keys ++ [b0; b1; b2]) =
    Ok (Z.lor (Z.lor (Z.shiftl (b2z (b0 &&& x1f)) 16) (Z.shiftl (b2z b1) 8)) (b2z b2),
        (b0 &&& xe0) >>> 5, true).
Proof.
  intros Hk. unfold mtuFromLRData, lrECPubSize, lrMTUSize. rewrite len_app, Hk.
  rewrite (proj2 (Z.ltb_ge _ _)) by done.
  rewrite go_slice_Ok by (rewrite ?len_app, ?Hk; change (len [b0; b1; b2]) with 3; lia).
  rewrite <- (app_nil_r [b0; b1; b2]) at 1.
  by rewrite slice_app_mid by (rewrite ?Hk; done).
Qed.

Lemma signalling_decode keys m mode :
  len keys = 64 → 0 <= m < 2 ^ 21 → b2z mode < 8 →
  mtuFromLRData (keys ++ signallingBytesMTU m mode) = Ok (m, mode, true).
Proof.
  intros Hk Hm Hmode. unfold signallingBytesMTU. rewrite mtuFromLRData_sig by done.
  assert (H16 : 0 <= Z.shiftr m 16 < 32).
  { rewrite Z.shiftr_div_pow2 by lia. split; [apply Z.div_pos; lia|].
    apply Z.div_lt_upper_bound; lia. }
  change 255 with (Z.ones 8). rewrite !Z.land_ones by lia. change (2 ^ 8) with 256.
  rewrite (Z.mod_small (Z.shiftr m 16)) by lia.
  destruct (signalling_first_byte (z2b (Z.shiftr m 16)) mode) as [-> ->];
    [rewrite b2z_z2b_small; lia|done|].
  rewrite !b2z_z2b, !Z.mod_mod, (Z.mod_small (Z.shiftr m 16)) by lia.
  do 3 f_equal. rewrite <- (mtu_recompose m Hm) at 4. change 255 with (Z.ones 8).
  by rewrite !Z.land_ones by lia.
Qed.

Lemma mode_range b : b2z ((b &&& xe0) >>> 5) < 8.
Proof. byte_cases b. Qed.

Lemma mtuFromLRData_range keys b0 b1 b2 :
  len keys = 64 →
  ∃ m mode, mtuFromLRData (keys ++ [b0; b1; b2]) = Ok (m, mode, true)
    ∧ 0 <= m < 2 ^ 21 ∧ b2z mode < 8.
Proof.
  intros Hk. do 2 eexists. split; [by apply mtuFromLRData_sig|].
  pose proof (b2z_range b1). pose proof (b2z_range b2). pose proof (b2z_range (b0 &&& x1f)).
  assert (Hnn : 0 <= Z.lor (Z.lor (Z.shiftl (b2z (b0 &&& x1f)) 16) (Z.shiftl (b2z b1) 8)) (b2z b2)).
  { rewrite !Z.lor_nonneg, !Z.shiftl_nonneg. lia. }
  split_and!; [done| |apply mode_range].
  apply lt_pow2_of_bits; [done..|]. intros i Hi.
  rewrite !Z.lor_spec, !Z.shiftl_spec by lia.
  rewrite b2z_band, Z.land_spec. change (b2z x1f) with (Z.ones 5).
  rewrite Z.testbit_ones_nonneg, (proj2 (Z.ltb_ge _ 5)), (testbit_b2z_high b1), (testbit_b2z_high b2) by lia.
  by rewrite andb_false_r.
Qed.

(** The tighter of the two interface MTUs; a receiving interface without one
    does not limit. *)
Definition mtu_limit (phMTU nhMTU : Z) : Z :=
  if 0 <? phMTU then Z.min phMTU nhMTU else nhMTU.

Lemma frame_cut f h tid dh ctx keys sig :
  len sig = 3 →
  let r := frame f h tid dh ctx (keys ++ sig) in
  go_slice (E:=rewrite_error) 0 (len r - 3) r = Ok (frame f h tid dh ctx keys).
Proof.
  intros Hs r.
  assert (Hr : r = frame f h tid dh ctx keys ++ sig) by (subst r; unfold frame; by rewrite <- !app_assoc).
  assert (Hl : len r - 3 = len (frame f h tid dh ctx keys)) by (rewrite Hr, len_app; lia).
  pose proof (len_nonneg (frame f h tid dh ctx keys)).
  rewrite Hl, go_slice_Ok by lia. rewrite slice_0, Hr, take_app_mid by (unfold len; lia). done.
Qed.

Lemma clamp_frame f h tid dh ctx keys sig phMTU nhMTU :
  len keys = 64 → len sig = 3 →
  let r := frame f h tid dh ctx (keys ++ sig) in
  ∃ m mode sig', mtuFromLRData (keys ++ sig) = Ok (m, mode, true) ∧ 0 <= m
  ∧ clampRelayedLinkRequestMTU r (keys ++ sig) phMTU nhMTU
    = Ok (frame f h tid dh ctx (keys ++ sig'))
  ∧ len sig' <= 3
  ∧ (m = 0 → sig' = sig)
  ∧ (0 < m → 0 < nhMTU →
     mtuFromLRData (keys ++ sig') = Ok (Z.min m (mtu_limit phMTU nhMTU), mode, true))
  ∧ (0 < m → nhMTU <= 0 → sig' = []).
Proof.
  intros Hk Hs r. destruct sig as [|b0 [|b1 [|b2 [|]]]]; try (exfalso; len_lia).
  destruct (mtuFromLRData_range keys b0 b1 b2 Hk) as (m & mode & Hd & Hm21 & Hmode).
  exists m, mode.
  assert (Hr : len r <? lrMTUSize = false).
  { apply Z.ltb_ge. subst r. rewrite len_frame. unfold lrMTUSize. pose proof (len_nonneg tid).
    pose proof (len_nonneg dh). pose proof (len_nonneg (keys ++ [b0; b1; b2])). lia. }
  assert (Hl : len (keys ++ [b0; b1; b2]) <? lrECPubSize + lrMTUSize = false)
    by (rewrite len_app, Hk; done).
  unfold clampRelayedLinkRequestMTU. rewrite Hr, Hl, Hd. cbn [orb negb mbind outcome_bind].
  unfold lrMTUSize. destruct (Z.leb_spec m 0).
  { exists [b0; b1; b2]. split_and!; done || lia. }
  destruct (Z.leb_spec nhMTU 0).
  { exists []. rewrite app_nil_r. subst r. rewrite frame_cut by done. split_and!; done || lia. }
  replace (if _ && _ then phMTU else nhMTU) with (mtu_limit phMTU nhMTU).
  2:{ unfold mtu_limit. destruct (Z.ltb_spec 0 phMTU), (Z.ltb_spec phMTU nhMTU); cbn; lia. }
  assert (0 < mtu_limit phMTU nhMTU) by (unfold mtu_limit; destruct (Z.ltb_spec 0 phMTU); lia).
  destruct (Z.leb_spec m (mtu_limit phMTU nhMTU)).
  - exists [b0; b1; b2]. rewrite Z.min_l by lia. split_and!; done || lia.
  - exists (signallingBytesMTU (mtu_limit phMTU nhMTU) mode).
    subst r. rewrite frame_cut by done. cbn [mbind outcome_bind].
    rewrite Z.min_r, signalling_decode by lia. split_and!; try done; try lia.
    unfold frame. by rewrite <- !app_assoc.
Qed.

(** The clamp looks at the payload slice only for its length and MTU. *)
Lemma clamp_view r view data phMTU nhMTU :
  len view = len data → mtuFromLRData view = mtuFromLRData data →
  clampRelayedLinkRequestMTU r view phMTU nhMTU = clampRelayedLinkRequestMTU r data phMTU nhMTU.
Proof. intros Hl Hm. unfold clampRelayedLinkRequestMTU. by rewrite Hl, Hm. Qed.

(** The relayed link request carries a feasible MTU: a request with the
    64-byte keys and the 3-byte signalling leaves with the same keys and mode
    and with the smallest of the requested MTU and of the two interface MTUs,
    or without signalling when the next hop has no MTU; the link id is that of
    the original request in all cases. *)
Theorem clamp_spec f h tid dh ctx keys sig phMTU nhMTU :
  len keys = 64 → len sig = 3 → frame_ok f h tid dh = true →
  let r := frame f h tid dh ctx (keys ++ sig) in
  len r <= MaxInboundPacketSize →
  ∃ m mode p sig' q, let r' := frame f h tid dh ctx (keys ++ sig') in
    mtuFromLRData (keys ++ sig) = Ok (m, mode, true) ∧ parse r = Some p
    ∧ clampRelayedLinkRequestMTU r (keys ++ sig) phMTU nhMTU = Ok r'
    ∧ parse r' = Some q ∧ LinkIDFromLinkRequest q = LinkIDFromLinkRequest p
    ∧ (m = 0 → sig' = sig)
    ∧ (0 < m → 0 < nhMTU →
       mtuFromLRData (keys ++ sig') = Ok (Z.min m (mtu_limit phMTU nhMTU), mode, true))
    ∧ (0 < m → nhMTU <= 0 → sig' = []).
Proof.
  intros Hk Hs Hok r Hm.
  destruct (clamp_frame f h tid dh ctx keys sig phMTU nhMTU Hk Hs)
    as (m & mode & sig' & Hd & _ & Hc & Hl & H0 & H1 & H2).
  eexists m, mode, _, sig', _. split_and!; [done|by apply parse_frame|done| | |done..].
  - apply parse_frame; [done|]. subst r. rewrite len_frame, len_app in *. lia.
  - subst r. rewrite !link_id_frame by done. unfold link_preimage.
    by rewrite !(take_app_mid keys) by (unfold len in Hk; lia).
Qed.

(** Whatever the payload slice reads, the clamp changes only the last three
    bytes of a payload of at least 67, or removes them. *)
Lemma clamp_general f h tid dh ctx data view phMTU nhMTU :
  len view = len data →
  ∃ data', clampRelayedLinkRequestMTU (frame f h tid dh ctx data) view phMTU nhMTU
             = Ok (frame f h tid dh ctx data')
    ∧ take 64 data' = take 64 data ∧ len data' <= len data.
Proof.
  intros Hv. unfold clampRelayedLinkRequestMTU, lrMTUSize, lrECPubSize.
  destruct (_ || _) eqn:Hb; [by exists data|]. apply orb_false_iff in Hb as [_ Hl].
  apply Z.ltb_ge in Hl. rewrite Hv in Hl.
  set (sig := drop (length data - 3) data). set (keys := take (length data - 3) data).
  assert (Hdata : data = keys ++ sig) by (symmetry; apply take_drop).
  assert (Hsig : len sig = 3) by (subst sig; rewrite len_drop; unfold len in *; lia).
  assert (Hkeys : 64 <= len keys).
  { apply (f_equal len) in Hdata. rewrite len_app in Hdata. lia. }
  assert (Hk : ∀ l, take 64 (keys ++ l) = take 64 keys).
  { intros l. apply take_app_le. unfold len in Hkeys. lia. }
  assert (Hd : ∃ m mode, mtuFromLRData view = Ok (m, mode, true)).
  { unfold mtuFromLRData, lrECPubSize, lrMTUSize. rewrite (proj2 (Z.ltb_ge _ _)) by lia.
    rewrite go_slice_Ok by lia.
    destruct (slice 64 (64 + 3) view) as [|b0 [|b1 [|b2 l]]] eqn:Hs;
      apply (f_equal len) in Hs; rewrite len_slice in Hs by lia;
      rewrite ?len_cons, ?len_nil in Hs; [lia..|]. by do 2 eexists. }
  destruct Hd as (m & mode & ->). cbn [mbind outcome_bind negb orb].
  destruct (m <=? 0); [by exists data|].
  rewrite Hdata, frame_cut by done.
  destruct (nhMTU <=? 0); [exists keys; rewrite Hk, len_app, Hsig; split_and!; done || lia|].
  destruct (m <=? _); [by exists (keys ++ sig)|]. cbn [mbind outcome_bind].
  set (clamped := signallingBytesMTU _ _). exists (keys ++ clamped). rewrite !Hk, !len_app, Hsig.
  split_and!; [unfold frame; by rewrite <- !app_assoc|done|].
  change (len clamped) with 3. lia.
Qed.

(** ** Examples *)

Definition sample_ht2 : bytes := frame x50 x02 sample_tid sample_hash x00 [x61; x62; x63].

Lemma rewrite_keeps_message_witness :
  ∃ p, parse sample_ht2 = Some p ∧ HeaderType p = HeaderType2
  ∧ ∃ r' q, rebuildHeaderType2 sample_ht2 x03 (rev sample_tid) = Ok r' ∧ parse r' = Some q
      ∧ same_message q p ∧ Hops q = x03.
Proof.
  destruct (parse sample_ht2) as [p|] eqn:Hp; [|by vm_compute in Hp].
  assert (HT : HeaderType p = HeaderType2).
  { revert Hp. vm_compute. by intros [= <-]. }
  exists p. split; [done|]. split; [done|].
  destruct (rewrite_keeps_message sample_ht2 p x03 (rev sample_tid)) as (H2 & _);
    [done|reflexivity|reflexivity|vm_compute; discriminate|].
  destruct (H2 HT) as [(r' & q & H) _]. exists r', q. naive_solver.
Defined.

Definition sample_keys : bytes := z2b <$> seqZ 0 64.

Lemma clamp_spec_witness :
  clampRelayedLinkRequestMTU
    (frame x02 x01 [] sample_hash x00 (sample_keys ++ signallingBytesMTU 8192 x01))
    (sample_keys ++ signallingBytesMTU 8192 x01) 1064 500
    = Ok (frame x02 x01 [] sample_hash x00 (sample_keys ++ signallingBytesMTU 500 x01))
  ∧ ∃ m mode, mtuFromLRData (sample_keys ++ signallingBytesMTU 8192 x01) = Ok (m, mode, true).
Proof.
  split; [vm_compute; reflexivity|].
  destruct (clamp_spec x02 x01 [] sample_hash x00 sample_keys (signallingBytesMTU 8192 x01) 1064 500)
    as (m & mode & p & sig' & q & H & _);
    [reflexivity|reflexivity|reflexivity|vm_compute; discriminate|].
  by exists m, mode.
Defined.
End HeaderRewrite.
