(* ===== verification/Float64.v ===== *)
(** * Go's [float64]

    IEEE-754 binary64 with round to nearest even, through the executable
    specification of the standard library ([SpecFloat]); conversions from and
    to [int64] as the gc compiler performs them on amd64. *)

From Stdlib Require Import Floats.SpecFloat.
From S2P Require Import Prelude.

Module Float64.

Definition f64 : Type := spec_float.

(** [float64(z)]. *)
Definition of_Z (z : Z) : f64 := binary_normalize 53 1024 z 0 false.

Definition add (x y : f64) : f64 := SFadd 53 1024 x y.
Definition sub (x y : f64) : f64 := SFsub 53 1024 x y.
Definition mul (x y : f64) : f64 := SFmul 53 1024 x y.
Definition div (x y : f64) : f64 := SFdiv 53 1024 x y.
Definition ltb (x y : f64) : bool := SFltb x y.
Definition leb (x y : f64) : bool := SFleb x y.
Definition eqb (x y : f64) : bool := SFeqb x y.

(** The constant [n/d], a decimal literal of the source. *)
Definition ratio (n d : Z) : f64 := div (of_Z n) (of_Z d).

(** [math.Max] of two values that are numbers. *)
Definition max (x y : f64) : f64 := if ltb x y then y else x.

(** [int64(x)]: truncation towards zero, the most negative integer for values
    out of range and for NaN. *)
Definition to_int64 (x : f64) : Z :=
  match x with
  | S754_zero _ => 0
  | S754_finite s m e =>
      let v := if 0 <=? e then Z.pos m * 2 ^ e else Z.pos m `div` 2 ^ (- e) in
      let v := if s then - v else v in
      if (- 2 ^ 63 <=? v) && (v <? 2 ^ 63) then v else - 2 ^ 63
  | _ => - 2 ^ 63
  end.

(** ** Signs *)

(** Not below zero: such a value compares as at least zero, or is NaN. *)
Definition nonneg (x : f64) : Prop :=
  match x with S754_finite true _ _ | S754_infinity true => False | _ => True end.

Lemma round_nonneg m e l : nonneg (binary_round_aux 53 1024 false m e l).
Proof. unfold binary_round_aux. repeat case_match; done. Qed.

Lemma normalize_nonneg z e : 0 <= z → nonneg (binary_normalize 53 1024 z e false).
Proof.
  intros Hz. destruct z as [|p|p]; [done| |lia]. cbn [binary_normalize].
  unfold binary_round. case_match. apply round_nonneg.
Qed.

Lemma of_Z_nonneg z : 0 <= z → nonneg (of_Z z).
Proof. apply normalize_nonneg. Qed.

Lemma add_nonneg x y : nonneg x → nonneg y → nonneg (add x y).
Proof.
  destruct x as [sx|sx| |sx mx ex], y as [sy|sy| |sy my ey]; try destruct sx; try destruct sy; cbn; try done.
  intros _ _. apply normalize_nonneg. lia.
Qed.

Lemma div_nonneg x m e : nonneg x → nonneg (div x (S754_finite false m e)).
Proof.
  destruct x as [[]|[]| |[] mx ex]; try done. intros _. unfold div, SFdiv. case_match. destruct p. apply round_nonneg.
Qed.

Lemma ltb_zero x : nonneg x → ltb x (of_Z 0) = false.
Proof. destruct x as [[]|[]| |[] m e]; done. Qed.
End Float64.
