(* ===== verification/Common.v ===== *)
(** * Types shared by the transport files (packages [common] and [transport])

    Interfaces as references with the methods the transport calls on them,
    the clock and the iteration order of maps as one run-time environment,
    paths, and the fixed-width map keys. *)

From stdpp Require Import pretty.
From S2P Require Import Prelude.
From S2P Require Import Packet.
From S2P Require Import Float64.

Module Common.
Local Open Scope go_scope.

Inductive InterfaceType :=
  | IFTypeNone | IFTypeUDP | IFTypeTCP | IFTypeUnix | IFTypeI2P | IFTypeBluetooth
  | IFTypeSerial | IFTypeAuto | IFTypeBackbone | IFTypePipe | IFTypeQUIC
  | IFTypeWebTransport | IFTypeDNSRendezvous | IFTypeVSOCK | IFTypeHTTPS
  | IFTypeModem73 | IFTypeSDR | IFTypeRNode | IFTypeRNodeMulti.

#[global] Instance InterfaceType_eq_dec : EqDecision InterfaceType.
Proof. solve_decision. Defined.

Inductive InterfaceMode :=
  | IFModeOther | IFModeFull | IFModePoint | IFModeAccessPoint | IFModeRoaming
  | IFModeBoundary | IFModeGateway | IFModeInternal.

#[global] Instance InterfaceMode_eq_dec : EqDecision InterfaceMode.
Proof. solve_decision. Defined.

(** A [common.NetworkInterface] value is [nil] or a reference; references are
    compared by identity. *)
Definition iface : Type := positive.
Abbreviation NetworkInterface := (option iface).

(** ** Map keys *)

(** [hash16]: up to 16 bytes, zero padded, with their number. *)
Abbreviation hash16 := (bytes * Z)%type.

Definition hash16FromSlice (b : bytes) : hash16 :=
  let b := take 16 b in
  (b ++ replicate (16 - length b) x00, len b).

Definition PathMapKeySize : nat := 32.

Definition pathMapKey (h : bytes) : bytes :=
  let h := take PathMapKeySize h in
  h ++ replicate (PathMapKeySize - length h) x00.

Lemma hash16FromSlice_take b : hash16FromSlice (take 16 b) = hash16FromSlice b.
Proof. unfold hash16FromSlice. by rewrite take_take. Qed.

Lemma hash16FromSlice_inj a b :
  hash16FromSlice a = hash16FromSlice b → take 16 a = take 16 b.
Proof.
  unfold hash16FromSlice. intros [= H1 H2].
  apply (f_equal (take (length (take 16 a)))) in H1.
  rewrite take_app_length in H1. unfold len in H2. apply Nat2Z.inj in H2.
  rewrite H2, take_app_length in H1. done.
Qed.

(** ** The run-time environment

    What a handler observes of the outside during one run: the methods of the
    interfaces, the clock, and the order in which [range] visits a map. *)
Class Runtime := {
  GetType : iface → InterfaceType;
  IsEnabled : iface → bool;
  AllowsOutgoing : iface → bool;
  GetMTU : iface → Z;
  GetBitrate : iface → Z;
  GetMode : iface → InterfaceMode;
  GetGravity : iface → Z;
  GetName : iface → string;
  now : Z;
  mapOrder : ∀ {K : Type} `{Countable K} {A : Type}, gmap K A → list (K * A)
}.

(** [range] visits every entry once, in an unspecified order. *)
Class RuntimeLaws `{Runtime} :=
  mapOrder_perm : ∀ {K : Type} `{Countable K} {A : Type} (m : gmap K A),
    mapOrder m ≡ₚ map_to_list m.

Section runtime.
Context `{Runtime}.

Definition isLocalClientInterface (i : NetworkInterface) : bool :=
  match i with None => false | Some i => bool_decide (GetType i = IFTypeUnix) end.

Definition interfaceBitrate (i : NetworkInterface) : Z :=
  match i with None => 0 | Some i => GetBitrate i end.

Definition BitrateMinimum : Z := 5.
Definition Second : Z := 1000000000.

(** Durations are nanoseconds. *)
Definition ExtraLinkProofTimeout (i : NetworkInterface) : Z :=
  let br := interfaceBitrate i in
  if br <=? 0 then 0
  else
    let br := if br <? BitrateMinimum then BitrateMinimum else br in
    Float64.to_int64
      (Float64.mul (Float64.div (Float64.mul (Float64.of_Z Packet.MTU) (Float64.of_Z 8))
                      (Float64.of_Z br))
         (Float64.of_Z Second)).
End runtime.

(** *** A concrete environment *)

(** Interfaces 1 and 2: two enabled TCP interfaces with MTU 500. *)
Definition testRuntime : Runtime := {|
  GetType := λ _, IFTypeTCP;
  IsEnabled := λ _, true;
  AllowsOutgoing := λ _, true;
  GetMTU := λ _, 500;
  GetBitrate := λ _, 1000000;
  GetMode := λ _, IFModeFull;
  GetGravity := λ _, 0;
  GetName := λ i, pretty i;
  now := 1000;
  mapOrder := λ K _ _ A m, map_to_list m
|}.

#[global] Instance testRuntime_laws : @RuntimeLaws testRuntime.
Proof. intros K ? ? A m. done. Qed.

(** ** Paths *)

Record Path := mkPath {
  Interface : NetworkInterface;
  NextHop : bytes;
  Hops : Z;
  LastUpdated : Z;
  HopCount : Z;
  RandomBlobs : list bytes;
  Expires : Z
}.
End Common.
