(* ===== verification/RelayTables.v ===== *)
(** * Transit state (package [transport])

    The link relay table of [relay.go] and the reverse table of [reverse.go]:
    bounded maps with eviction, expiry and removal on interface loss. *)

From S2P Require Import Prelude.
From S2P Require Import Packet.
From S2P Require Import Float64.
From S2P Require Import Common.

(** ** Facts about map traversals *)
Module Traversal.
Import Common.

(** The search for the eligible entry with the smallest time stamp. *)
Definition older {E} (eligible : E → bool) (ts : E → Z) (acc : option (hash16 * Z))
    (ke : hash16 * E) : option (hash16 * Z) :=
  let '(k, e) := ke in
  if eligible e then
    match acc with
    | None => Some (k, ts e)
    | Some (_, oldest) => if ts e <? oldest then Some (k, ts e) else acc
    end
  else acc.

Section traversal.
Context `{RuntimeLaws} {E : Type}.
Implicit Types (m : gmap hash16 E) (l : list (hash16 * E)).

Lemma elem_of_mapOrder m k e : (k, e) ∈ mapOrder m ↔ m !! k = Some e.
Proof. rewrite (mapOrder_perm m). apply elem_of_map_to_list. Qed.

(** The accumulator always names the minimum of what was visited. *)
Definition oldest_of (eligible : E → bool) (ts : E → Z) l (r : option (hash16 * Z)) : Prop :=
  match r with
  | None => ∀ k e, (k, e) ∈ l → eligible e = false
  | Some (k, t) => (∃ e, (k, e) ∈ l ∧ eligible e = true ∧ ts e = t)
      ∧ ∀ k' e', (k', e') ∈ l → eligible e' = true → t <= ts e'
  end.

Lemma older_step eligible ts l r ke :
  oldest_of eligible ts l r → oldest_of eligible ts (l ++ [ke]) (older eligible ts r ke).
Proof.
  destruct ke as [k e]. unfold oldest_of, older. intros Hr.
  destruct (eligible e) eqn:He; [destruct r as [[k0 t0]|]; [destruct (Z.ltb_spec (ts e) t0)|]
                                |destruct r as [[k0 t0]|]];
    repeat setoid_rewrite elem_of_app; repeat setoid_rewrite list_elem_of_singleton.
  - split; [naive_solver|]. intros k' e' [Hin|[= -> ->]] ?; [|lia].
    destruct Hr as [_ Hr]. specialize (Hr _ _ Hin). naive_solver lia.
  - destruct Hr as [? Hr]. split; [naive_solver|]. intros k' e' [Hin|[= -> ->]] ?; [eauto|lia].
  - split; [naive_solver|]. intros k' e' [Hin|[= -> ->]] ?; [|lia].
    rewrite (Hr _ _ Hin) in *. done.
  - destruct Hr as [? Hr]. split; [naive_solver|]. intros k' e' [Hin|[= -> ->]] ?; [eauto|congruence].
  - intros k' e' [Hin|[= -> ->]]; eauto.
Qed.

Lemma older_spec eligible ts l : oldest_of eligible ts l (foldl (older eligible ts) None l).
Proof.
  induction l as [|ke l IH] using rev_ind; [set_solver|].
  rewrite foldl_app. by apply older_step.
Qed.

(** Deleting while traversing removes exactly the selected entries. *)
Definition delete_if (P : E → bool) m (ke : hash16 * E) : gmap hash16 E :=
  if P ke.2 then delete ke.1 m else m.

Lemma foldl_delete_if P l m k e :
  foldl (delete_if P) m l !! k = Some e ↔
  m !! k = Some e ∧ ∀ e', (k, e') ∈ l → P e' = false.
Proof.
  revert m. induction l as [|[k' e'] l IH]; intros m; cbn [foldl]; [set_solver|].
  rewrite IH. unfold delete_if. cbn [fst snd].
  destruct (P e') eqn:HP.
  - rewrite lookup_delete_Some. setoid_rewrite elem_of_cons. split.
    + intros [[Hne Hm] Hl]. split; [done|]. intros e'' [[= -> ->]|?]; [done|eauto].
    + intros [Hm Hl]. split; [split; [|done]|eauto]. intros ->.
      specialize (Hl e' (or_introl eq_refl)). congruence.
  - setoid_rewrite elem_of_cons. split; [|naive_solver].
    intros [Hm Hl]. split; [done|]. intros e'' [[= -> ->]|?]; [done|eauto].
Qed.

Lemma mapOrder_filter (P : hash16 * E → Prop) `{!∀ x, Decision (P x)} m :
  filter P (mapOrder m) ≡ₚ map_to_list (filter P m).
Proof.
  rewrite (mapOrder_perm m). apply NoDup_Permutation.
  - apply list.NoDup_filter, NoDup_map_to_list.
  - apply NoDup_map_to_list.
  - intros [k e]. rewrite list_elem_of_filter, !elem_of_map_to_list, map_lookup_filter_Some. naive_solver.
Qed.

Lemma map_insert_size_le m k e : (size (<[k := e]> m) <= S (size m))%nat.
Proof. rewrite map_size_insert. destruct (m !! k); cbn; lia. Qed.

Lemma map_delete_size m k e : m !! k = Some e → size (delete k m) = pred (size m).
Proof. intros He. by rewrite map_size_delete, He. Qed.

Lemma length_mapOrder m : length (mapOrder m) = size m.
Proof. by rewrite (mapOrder_perm m), length_map_to_list. Qed.

Lemma traverse_delete P m :
  foldl (delete_if P) m (mapOrder m) = filter (λ ke, P ke.2 = false) m.
Proof.
  apply map_eq. intros k. apply option_eq. intros e.
  rewrite foldl_delete_if, map_lookup_filter_Some. cbn [snd].
  setoid_rewrite elem_of_mapOrder. naive_solver.
Qed.
End traversal.
End Traversal.

(** ** Links in transit *)
Module LinkTable.
Import Common.

Record LinkRelayEntry := mkEntry {
  NextHop : bytes;
  NextHopIface : NetworkInterface;
  ReceivedIface : NetworkInterface;
  RemainingHops : Z;
  TakenHops : Z;
  DestinationHash : bytes;
  Validated : bool;
  ProofTimeout : Z;
  Timestamp : Z;
  OriginalLinkID : bytes
}.

Abbreviation linkRelayTable := (gmap hash16 LinkRelayEntry).

Definition newLinkRelayTable : linkRelayTable := ∅.

Definition maxLinkRelayEntries : Z := 8192.

Definition set_Validated (v : bool) (ts : Z) (e : LinkRelayEntry) : LinkRelayEntry :=
  mkEntry (NextHop e) (NextHopIface e) (ReceivedIface e) (RemainingHops e) (TakenHops e)
    (DestinationHash e) v (ProofTimeout e) ts (OriginalLinkID e).
Definition set_RemainingHops (h : Z) (ts : Z) (e : LinkRelayEntry) : LinkRelayEntry :=
  mkEntry (NextHop e) (NextHopIface e) (ReceivedIface e) h (TakenHops e)
    (DestinationHash e) (Validated e) (ProofTimeout e) ts (OriginalLinkID e).

(** One step of the search for the oldest unvalidated entry. *)
Definition older (acc : option (hash16 * Z)) (ke : hash16 * LinkRelayEntry)
    : option (hash16 * Z) :=
  let '(k, e) := ke in
  if Validated e then acc
  else match acc with
       | None => Some (k, Timestamp e)
       | Some (_, oldest) => if Timestamp e <? oldest then Some (k, Timestamp e) else acc
       end.

Section ops.
Context `{Runtime}.

Definition put (linkID : bytes) (entry : LinkRelayEntry) (entries : linkRelayTable)
    : linkRelayTable :=
  let k := hash16FromSlice linkID in
  if maxLinkRelayEntries <=? Z.of_nat (size entries) then
    match foldl older None (mapOrder entries) with
    | Some (oldestKey, _) => <[k := entry]> (delete oldestKey entries)
    | None => entries
    end
  else <[k := entry]> entries.

Definition get (linkID : bytes) (entries : linkRelayTable) : option LinkRelayEntry :=
  entries !! hash16FromSlice linkID.

Definition markValidated (linkID : bytes) (entries : linkRelayTable) : linkRelayTable * bool :=
  let k := hash16FromSlice linkID in
  match entries !! k with
  | None => (entries, false)
  | Some e => (<[k := set_Validated true now e]> entries, true)
  end.

Definition setRemainingHops (linkID : bytes) (hops : Z) (entries : linkRelayTable)
    : linkRelayTable * bool :=
  let k := hash16FromSlice linkID in
  match entries !! k with
  | None => (entries, false)
  | Some e =>
      if Validated e then (entries, false)
      else (<[k := set_RemainingHops hops now e]> entries, true)
  end.

Definition touch (linkID : bytes) (entries : linkRelayTable) : linkRelayTable :=
  let k := hash16FromSlice linkID in
  match entries !! k with
  | None => entries
  | Some e => <[k := set_Validated (Validated e) now e]> entries
  end.

Definition delete (linkID : bytes) (entries : linkRelayTable) : linkRelayTable :=
  base.delete (hash16FromSlice linkID) entries.

Definition sweepStep (maxIdle : Z) (acc : linkRelayTable * list LinkRelayEntry * Z)
    (ke : hash16 * LinkRelayEntry) : linkRelayTable * list LinkRelayEntry * Z :=
  let '(entries, expiredUnvalidated, removed) := acc in
  let '(k, e) := ke in
  if negb (Validated e) then
    if ProofTimeout e <? now then
      (base.delete k entries, expiredUnvalidated ++ [e], removed + 1)
    else acc
  else if maxIdle <? now - Timestamp e then
    (base.delete k entries, expiredUnvalidated, removed + 1)
  else acc.

Definition sweep (maxIdle : Z) (entries : linkRelayTable)
    : linkRelayTable * list LinkRelayEntry * Z :=
  foldl (sweepStep maxIdle) (entries, [], 0) (mapOrder entries).

Definition counts (entries : linkRelayTable) : Z * Z :=
  foldl (λ '(total, validated) '(_, e),
           (total + 1, if Validated e then validated + 1 else validated))
    (0, 0) (mapOrder entries).

Definition removeEntriesReferencing (i : NetworkInterface) (entries : linkRelayTable)
    : linkRelayTable :=
  match i with
  | None => entries
  | Some _ =>
      foldl (λ m '(k, e),
        if decide (NextHopIface e = i ∨ ReceivedIface e = i) then base.delete k m else m)
        entries (mapOrder entries)
  end.
End ops.

(** *** Bounds and eviction *)
Section facts.
Context `{RuntimeLaws}.
Implicit Types entries : linkRelayTable.

Lemma older_traversal l r : foldl older r l = foldl (Traversal.older (negb ∘ Validated) Timestamp) r l.
Proof.
  revert r. induction l as [|[k e] l IH]; intros r; cbn [foldl]; [done|]. rewrite IH. f_equal.
  unfold older, Traversal.older. cbn. by destruct (Validated e).
Qed.

(** The victim of an eviction, if there is one. *)
Lemma eviction_spec entries :
  match foldl older None (mapOrder entries) with
  | None => ∀ k e, entries !! k = Some e → Validated e = true
  | Some (k, t) => (∃ e, entries !! k = Some e ∧ Validated e = false ∧ Timestamp e = t)
      ∧ ∀ k' e', entries !! k' = Some e' → Validated e' = false → t <= Timestamp e'
  end.
Proof.
  rewrite older_traversal.
  pose proof (Traversal.older_spec (negb ∘ Validated) Timestamp (mapOrder entries)) as Ho.
  unfold Traversal.oldest_of in Ho. destruct (foldl _ _ _) as [[k t]|]; cbn in Ho.
  - destruct Ho as [(e & He%Traversal.elem_of_mapOrder & Hv%negb_true_iff & ?) Ho].
    split; [by exists e|]. intros k' e' ?%Traversal.elem_of_mapOrder Hv'.
    eapply Ho; [done|]. by rewrite Hv'.
  - intros k e He%Traversal.elem_of_mapOrder. by apply negb_false_iff, (Ho k).
Qed.

Lemma dom_touch linkID entries : dom (touch linkID entries) = dom entries.
Proof.
  unfold touch. destruct (entries !! _) eqn:He; [|done]. apply dom_insert_lookup_L. by eexists.
Qed.

(** Forged link requests cannot flush the relay table: an insertion keeps
    the table within its bound, never displaces another validated link, and
    displaces at most one entry, the oldest unvalidated one; the new entry is
    stored unless the table is full of validated links, which leaves it
    unchanged. *)
Theorem link_table_put linkID entry entries :
  let k := hash16FromSlice linkID in
  let entries' := put linkID entry entries in
  (Z.of_nat (size entries) <= maxLinkRelayEntries →
   Z.of_nat (size entries') <= maxLinkRelayEntries)
  ∧ (∀ k' e, k' ≠ k → entries !! k' = Some e → Validated e = true → entries' !! k' = Some e)
  ∧ (∀ k' e, k' ≠ k → entries' !! k' = Some e → entries !! k' = Some e)
  ∧ (∀ k1 k2 e1 e2, k1 ≠ k → k2 ≠ k → entries !! k1 = Some e1 → entries !! k2 = Some e2 →
       entries' !! k1 = None →
       (entries' !! k2 = None → k1 = k2)
       ∧ (Validated e2 = false → Timestamp e1 <= Timestamp e2))
  ∧ (entries' !! k = Some entry
     ∨ entries' = entries ∧ maxLinkRelayEntries <= Z.of_nat (size entries)
       ∧ ∀ k' e, entries !! k' = Some e → Validated e = true).
Proof.
  intros k entries'. subst entries'. unfold put. fold k.
  pose proof (eviction_spec entries) as Hev.
  destruct (Z.leb_spec maxLinkRelayEntries (Z.of_nat (size entries))) as [Hfull|Hroom].
  - destruct (foldl _ _ _) as [[ko t]|].
    + destruct Hev as [(eo & Ho & Hv & Ht) Hmin].
      split_and!.
      * intros Hmax. pose proof (Traversal.map_insert_size_le (base.delete ko entries) k entry).
        assert (size entries ≠ 0%nat) by (unfold maxLinkRelayEntries in *; lia).
        pose proof (Traversal.map_delete_size _ _ _ Ho). unfold maxLinkRelayEntries in *. lia.
      * intros k' e Hne He Hve. rewrite lookup_insert_ne, lookup_delete_ne by congruence. done.
      * intros k' e Hne. rewrite lookup_insert_ne by done. by intros [_ ?]%lookup_delete_Some.
      * intros k1 k2 e1 e2 H1 H2 He1 He2. rewrite !lookup_insert_ne by done.
        rewrite !lookup_delete_None. intros [<-|?]; [|congruence]. split; [naive_solver congruence|].
        intros Hv2. replace e1 with eo by congruence. rewrite Ht. eauto.
      * left. apply lookup_insert_eq.
    + split_and!; try done; [congruence|]. by right.
  - split_and!.
    + intros _. pose proof (Traversal.map_insert_size_le entries k entry). lia.
    + intros. by rewrite lookup_insert_ne.
    + intros k' e Hne. by rewrite lookup_insert_ne.
    + intros k1 k2 e1 e2 H1 H2 He1 He2. rewrite !lookup_insert_ne by done. congruence.
    + left. apply lookup_insert_eq.
Qed.

(** An entry is due when its proof is overdue, or when the link is validated
    and idle. *)
Definition expired (maxIdle : Z) (e : LinkRelayEntry) : bool :=
  if Validated e then maxIdle <? now - Timestamp e else ProofTimeout e <? now.

Lemma sweepStep_run maxIdle entries ex n k e :
  sweepStep maxIdle (entries, ex, n) (k, e)
    = (Traversal.delete_if (expired maxIdle) entries (k, e),
       if negb (Validated e) && expired maxIdle e then ex ++ [e] else ex,
       if expired maxIdle e then n + 1 else n).
Proof.
  unfold sweepStep, Traversal.delete_if, expired. cbn [fst snd].
  by destruct (Validated e), (maxIdle <? _), (ProofTimeout e <? now).
Qed.

Lemma sweep_run maxIdle l entries ex n :
  foldl (sweepStep maxIdle) (entries, ex, n) l
    = (foldl (Traversal.delete_if (expired maxIdle)) entries l,
       ex ++ (filter (λ ke, negb (Validated ke.2) && expired maxIdle ke.2 = true) l).*2,
       n + len (filter (λ ke, expired maxIdle ke.2 = true) l)).
Proof.
  revert entries ex n. induction l as [|[k e] l IH]; intros entries ex n; cbn [foldl].
  { cbn. by rewrite app_nil_r, Z.add_0_r. }
  rewrite sweepStep_run, IH, !filter_cons. cbn [snd].
  destruct (expired maxIdle e), (Validated e); cbn [negb andb];
    repeat case_decide; try done;
    rewrite ?len_cons; cbn [fmap list_fmap snd]; rewrite <- ?app_assoc; cbn [app];
    f_equal; lia.
Qed.

(** Expiry is exact: a sweep removes the entries whose proof is overdue and
    the validated links idle for too long, and nothing else; it reports the
    overdue ones, each once, for the caller to act on, and how many it removed. *)
Theorem link_table_sweep maxIdle entries :
  let '(entries', expiredUnvalidated, removed) := sweep maxIdle entries in
  entries' = filter (λ ke, expired maxIdle ke.2 = false) entries
  ∧ expiredUnvalidated ≡ₚ
      (map_to_list (filter (λ ke, negb (Validated ke.2) && expired maxIdle ke.2 = true) entries)).*2
  ∧ removed = Z.of_nat (size entries) - Z.of_nat (size entries').
Proof.
  unfold sweep. rewrite sweep_run, Traversal.traverse_delete. cbn [app].
  split_and!; [done|by rewrite Traversal.mapOrder_filter|].
  rewrite <- !length_map_to_list, <- Traversal.mapOrder_filter, <- (mapOrder_perm entries).
  pose proof (length_filter_split (λ ke, expired maxIdle ke.2) (mapOrder entries)).
  unfold len. lia.
Qed.
End facts.

(** *** Examples *)

#[local] Existing Instance testRuntime.

Definition sample_entry : LinkRelayEntry :=
  mkEntry [] (Some 2%positive) (Some 1%positive) 2 3 [] false 500 400 [].

Lemma link_table_put_witness :
  put [x01] sample_entry ∅ !! hash16FromSlice [x01] = Some sample_entry
  ∧ Z.of_nat (size (put [x01] sample_entry ∅)) <= maxLinkRelayEntries.
Proof.
  destruct (link_table_put [x01] sample_entry ∅) as (H1 & _ & _ & _ & H2).
  split; [destruct H2 as [H2|(_ & H2 & _)]; [exact H2|exfalso]|apply H1].
  - vm_compute in H2. by apply H2.
  - vm_compute. discriminate.
Defined.

Definition sample_table : linkRelayTable := {[hash16FromSlice [x01] := sample_entry]}.

(** The proof of the sample entry is overdue at time 1000. *)
Lemma link_table_sweep_witness :
  let '(entries', ex, removed) := sweep 100 sample_table in
  entries' = ∅ ∧ ex = [sample_entry]
  ∧ removed = Z.of_nat (size sample_table) - Z.of_nat (size entries').
Proof.
  assert (E : sweep 100 sample_table = (∅, [sample_entry], 1))
    by (vm_compute; reflexivity).
  pose proof (link_table_sweep 100 sample_table) as Hs.
  rewrite E in *. destruct Hs as (_ & _ & Hr). split_and!; [reflexivity|reflexivity|exact Hr].
Defined.
End LinkTable.

(** ** Return paths of transported packets *)
Module ReverseTable.
Import Common.

Record ReverseEntry := mkEntry {
  ReceivedIface : NetworkInterface;
  OutboundIface : NetworkInterface;
  Timestamp : Z
}.

#[global] Instance ReverseEntry_eq_dec : EqDecision ReverseEntry.
Proof. solve_decision. Defined.

Abbreviation reverseTable := (gmap hash16 ReverseEntry).

Definition maxReverseEntries : Z := 32768.

Definition older (acc : option (hash16 * Z)) (ke : hash16 * ReverseEntry)
    : option (hash16 * Z) :=
  let '(k, e) := ke in
  match acc with
  | None => Some (k, Timestamp e)
  | Some (_, oldest) => if Timestamp e <? oldest then Some (k, Timestamp e) else acc
  end.

Section ops.
Context `{Runtime}.

Definition put (truncatedHash : bytes) (entry : ReverseEntry) (entries : reverseTable)
    : reverseTable :=
  if len truncatedHash =? 0 then entries
  else
    let entries :=
      if maxReverseEntries <=? Z.of_nat (size entries) then
        match foldl older None (mapOrder entries) with
        | Some (oldestKey, _) => base.delete oldestKey entries
        | None => entries
        end
      else entries in
    <[hash16FromSlice truncatedHash := entry]> entries.

Definition pop (truncatedHash : bytes) (entries : reverseTable)
    : reverseTable * option ReverseEntry :=
  if len truncatedHash =? 0 then (entries, None)
  else
    let k := hash16FromSlice truncatedHash in
    match entries !! k with
    | None => (entries, None)
    | Some e => (base.delete k entries, Some e)
    end.

Definition get (truncatedHash : bytes) (entries : reverseTable) : option ReverseEntry :=
  if len truncatedHash =? 0 then None else entries !! hash16FromSlice truncatedHash.

Definition sweep (maxAge : Z) (entries : reverseTable) : reverseTable * Z :=
  foldl (λ '(m, removed) '(k, e),
    if maxAge <? now - Timestamp e then (base.delete k m, removed + 1) else (m, removed))
    (entries, 0) (mapOrder entries).

Definition removeEntriesReferencing (i : NetworkInterface) (entries : reverseTable)
    : reverseTable :=
  match i with
  | None => entries
  | Some _ =>
      foldl (λ m '(k, e),
        if decide (ReceivedIface e = i ∨ OutboundIface e = i) then base.delete k m else m)
        entries (mapOrder entries)
  end.
End ops.

Section facts.
Context `{RuntimeLaws}.
Implicit Types entries : reverseTable.

Lemma get_put th entry entries : len th ≠ 0 → get th (put th entry entries) = Some entry.
Proof.
  intros Hth. unfold get, put. rewrite (proj2 (Z.eqb_neq _ _)) by done. apply lookup_insert_eq.
Qed.

Lemma get_pop th entries : get th (pop th entries).1 = None ∧ (pop th entries).2 = get th entries.
Proof.
  unfold get, pop. destruct (len th =? 0); [done|].
  destruct (entries !! hash16FromSlice th) eqn:E; cbn; [|done]. split; [apply lookup_delete_eq|done].
Qed.

Lemma reverse_older_traversal l r : foldl older r l = foldl (Traversal.older (λ _, true) Timestamp) r l.
Proof. revert r. by induction l as [|[k e] l IH]; intros r; cbn [foldl]; [|rewrite IH]. Qed.

(** The table keeps its bound, and a full table gives up its oldest entry. *)
Lemma put_bounded th entry entries :
  Z.of_nat (size entries) <= maxReverseEntries →
  Z.of_nat (size (put th entry entries)) <= maxReverseEntries.
Proof.
  intros Hmax. unfold put. destruct (_ =? 0); [done|].
  destruct (Z.leb_spec maxReverseEntries (Z.of_nat (size entries))).
  2:{ pose proof (Traversal.map_insert_size_le entries (hash16FromSlice th) entry). lia. }
  rewrite reverse_older_traversal.
  pose proof (Traversal.older_spec (λ _, true) Timestamp (mapOrder entries)) as Ho.
  destruct (foldl _ _ _) as [[k t]|]; cbn [Traversal.oldest_of] in Ho.
  - destruct Ho as [(e & He%Traversal.elem_of_mapOrder & _) _].
    pose proof (Traversal.map_insert_size_le (delete k entries) (hash16FromSlice th) entry).
    pose proof (Traversal.map_delete_size _ _ _ He). unfold maxReverseEntries in *. lia.
  - exfalso. pose proof (Traversal.length_mapOrder entries) as Hl.
    destruct (mapOrder entries) as [|[k e] l]; [unfold maxReverseEntries in *; cbn in Hl; lia|].
    specialize (Ho k e (list_elem_of_here _ _)). done.
Qed.
End facts.
End ReverseTable.
