(* ===== verification/PathTable.v ===== *)
(** * The path table (package [transport])

    Which announce may replace a path ([path_selection.go]), how long a path
    lives ([path_lifetime.go]), the interface penalties that weigh into the
    choice ([path_gravity.go]), hop corrections ([path_rebalance.go]), and the
    table itself with its lookups, expiry and eviction ([transport.go]). *)

From S2P Require Import Prelude.
From S2P Require Import Packet.
From S2P Require Import Float64.
From S2P Require Import Common.

Module PathTable.
Import Common.
Local Open Scope go_scope.

(** ** Path selection *)

Definition maxRandomBlobs : Z := 64.

(** The emission time is five bytes on the wire; the accumulator is a
    [uint32], so the first of them is shifted out. *)
Definition announceEmitted (randomBlob : bytes) : Z :=
  if len randomBlob <? 10 then 0
  else foldl (λ emitted b, Z.lor (u32 (Z.shiftl emitted 8)) (b2z b)) 0 (slice 5 10 randomBlob).

Definition timebaseFromRandomBlobs (blobs : list bytes) : Z :=
  foldl (λ base blob, let emitted := announceEmitted blob in
           if base <? emitted then emitted else base) 0 blobs.

Definition randomBlobKnown (blobs : list bytes) (blob : bytes) : bool :=
  existsb (λ existing, bool_decide (existing = blob)) blobs.

Definition appendRandomBlob (blobs : list bytes) (blob : bytes) : list bytes :=
  if randomBlobKnown blobs blob then blobs
  else
    let out := blobs ++ [blob] in
    if maxRandomBlobs <? len out then drop (Z.to_nat (len out - maxRandomBlobs)) out else out.

Record announcePathInput := mkInput {
  destinationKnown : bool;
  announceHops : Z;
  randomBlob : bytes;
  in_now : Z;
  announceAffinity : Z;
  currentAffinity : Z;
  affinityKnown : bool
}.

(** The search loop over the stored blobs, with its early exit. *)
Fixpoint pathEmittedLoop (emitted pathEmitted : Z) (blobs : list bytes) : Z :=
  match blobs with
  | [] => pathEmitted
  | blob :: blobs =>
      let v := announceEmitted blob in
      if emitted <=? v then v
      else pathEmittedLoop emitted (if pathEmitted <? v then v else pathEmitted) blobs
  end.

(** The zero [time.Time] is 0. *)
Definition shouldUpdateAnnouncePath (existing : option Path) (i : announcePathInput)
    (pathUnresponsive : bool) : bool :=
  match existing with
  | None => true
  | Some existing =>
      if negb (destinationKnown i) then true
      else if announceHops i <=? HopCount existing then
        let pathTimebase := timebaseFromRandomBlobs (RandomBlobs existing) in
        let emitted := announceEmitted (randomBlob i) in
        if negb (randomBlobKnown (RandomBlobs existing) (randomBlob i)) && (pathTimebase <? emitted)
        then true
        else affinityKnown i && (emitted =? pathTimebase)
               && (currentAffinity i <? announceAffinity i)
      else
        let emitted := announceEmitted (randomBlob i) in
        let pathEmitted := pathEmittedLoop emitted 0 (RandomBlobs existing) in
        let known := randomBlobKnown (RandomBlobs existing) (randomBlob i) in
        if negb (Expires existing =? 0) && negb (in_now i <? Expires existing) then negb known
        else if pathEmitted <? emitted then negb known
        else (emitted =? pathEmitted) && pathUnresponsive
  end.

(** ** The table *)

Definition PathfinderE : Z := 60 * 60 * 24 * 7.
Definition Hour : Z := 3600 * Second.
Definition APPathTime : Z := 24 * Hour.
Definition RoamingPathTime : Z := 6 * Hour.
Definition SeenAnnounceTTL : Z := Hour.
Definition PathfinderM : Z := 128.

Definition StateUnknown : Z := 0.
Definition StateUnresponsive : Z := 1.
Definition StateResponsive : Z := 2.

Definition DefaultMaxInMemoryPaths : Z := 100000.
Definition DefaultMaxSeenAnnounces : Z := 100000.
Definition rebalanceWindow : Z := 60 * Second.
Definition rebalanceMaxPerDest : Z := 8.

Record rebalanceEntry := mkRebalance { windowStart : Z; count : Z }.
Record cachedAnnounce := mkCached { pkt : Packet.packet; at_ : Z }.

(** The configuration fields read here. *)
Record Config := mkConfig {
  MaxInMemoryPaths : Z;
  AllowLinkPathRebalanceSet : bool;
  AllowLinkPathRebalance : bool
}.

Record Table := mkTable {
  config : option Config;
  interfaces : gmap string iface;
  paths : gmap bytes Path;
  pathStates : gmap bytes Z;
  announcePacketCache : gmap hash16 cachedAnnounce;
  seenAnnounces : gmap bytes Z;
  ifacePenalties : gmap string Z;
  rebalanceByDest : gmap bytes rebalanceEntry;
  lastPathRequest : gmap bytes Z
}.

Definition set_paths (p : gmap bytes Path) (st : gmap bytes Z)
    (c : gmap hash16 cachedAnnounce) (t : Table) : Table :=
  mkTable (config t) (interfaces t) p st c (seenAnnounces t) (ifacePenalties t) (rebalanceByDest t)
    (lastPathRequest t).
Definition set_seen (s : gmap bytes Z) (t : Table) : Table :=
  mkTable (config t) (interfaces t) (paths t) (pathStates t) (announcePacketCache t) s
    (ifacePenalties t) (rebalanceByDest t) (lastPathRequest t).
Definition set_penalties (p : gmap string Z) (t : Table) : Table :=
  mkTable (config t) (interfaces t) (paths t) (pathStates t) (announcePacketCache t)
    (seenAnnounces t) p (rebalanceByDest t) (lastPathRequest t).
Definition set_rebalance (r : gmap bytes rebalanceEntry) (t : Table) : Table :=
  mkTable (config t) (interfaces t) (paths t) (pathStates t) (announcePacketCache t)
    (seenAnnounces t) (ifacePenalties t) r (lastPathRequest t).
Definition set_lastPathRequest (l : gmap bytes Z) (t : Table) : Table :=
  mkTable (config t) (interfaces t) (paths t) (pathStates t) (announcePacketCache t)
    (seenAnnounces t) (ifacePenalties t) (rebalanceByDest t) l.

Definition EffectiveMaxInMemoryPaths (c : option Config) : Z :=
  match c with
  | None => DefaultMaxInMemoryPaths
  | Some c =>
      if MaxInMemoryPaths c <? 0 then 0
      else if MaxInMemoryPaths c =? 0 then DefaultMaxInMemoryPaths
      else MaxInMemoryPaths c
  end.

(** *** Selection of the oldest entries

    The three bounded maps share this loop: it keeps up to [batch] entries and
    replaces the first newest of them by an older one. *)
Fixpoint newestFrom (i idx : nat) (newest : Z) (times : list Z) : nat * Z :=
  match times with
  | [] => (idx, newest)
  | t :: times =>
      if newest <? t then newestFrom (S i) i t times else newestFrom (S i) idx newest times
  end.

Definition selectStep {K} (batch : Z) (acc : list (K * Z)) (kw : K * Z) : list (K * Z) :=
  if len acc <? batch then acc ++ [kw]
  else
    match acc.*2 with
    | [] => acc
    | t0 :: times =>
        let '(idx, newest) := newestFrom 1 0 t0 times in
        if kw.2 <? newest then <[idx := kw]> acc else acc
    end.

Definition selectOldest {K} (batch : Z) (entries : list (K * Z)) : list (K * Z) :=
  foldl (selectStep batch) [] entries.

(** How many entries to drop from a table of [n] with this limit; 0 for none. *)
Definition evictionBatch (n limit : Z) : Z :=
  if (limit <=? 0) || (n <=? limit) then 0
  else
    let over := n - limit in
    let batch := Z.max over 64 in
    let batch := if n <? batch then over else batch in
    if batch <? 1 then 0 else batch.

Section ops.
Context `{Runtime}.

Definition pathLifetimeFor (i : NetworkInterface) : Z :=
  match i with
  | None => PathfinderE * Second
  | Some i =>
      match GetMode i with
      | IFModeAccessPoint => APPathTime
      | IFModeRoaming => RoamingPathTime
      | _ => PathfinderE * Second
      end
  end.

Definition dropPathEntryUnlocked (key : bytes) (t : Table) : Table :=
  set_paths (delete key (paths t)) (delete key (pathStates t))
    (delete (hash16FromSlice key) (announcePacketCache t)) t.

Definition whenOf (now : Z) (p : Path) : Z :=
  if LastUpdated p =? 0 then now else LastUpdated p.

Definition evictPathsIfNeededUnlocked (now : Z) (t : Table) : Table :=
  let limit := EffectiveMaxInMemoryPaths (config t) in
  let batch := evictionBatch (Z.of_nat (size (paths t))) limit in
  if batch =? 0 then t
  else
    let keys := selectOldest batch ((λ kp, (kp.1, whenOf now kp.2)) <$> mapOrder (paths t)) in
    foldl (λ t kw, dropPathEntryUnlocked kw.1 t) t keys.

Definition evictSeenAnnouncesUnlocked (t : Table) : Table :=
  let batch := evictionBatch (Z.of_nat (size (seenAnnounces t))) DefaultMaxSeenAnnounces in
  if batch =? 0 then t
  else
    let keys := selectOldest batch (mapOrder (seenAnnounces t)) in
    set_seen (foldl (λ m kw, delete kw.1 m) (seenAnnounces t) keys) t.

Definition announcePacketCacheMax (t : Table) : Z :=
  let limit := EffectiveMaxInMemoryPaths (config t) in
  if limit <=? 0 then DefaultMaxInMemoryPaths else limit.

Definition evictAnnouncePacketCacheUnlocked (t : Table) : Table :=
  let batch := evictionBatch (Z.of_nat (size (announcePacketCache t))) (announcePacketCacheMax t) in
  if batch =? 0 then t
  else
    let keys := selectOldest batch ((λ ke, (ke.1, at_ ke.2)) <$> mapOrder (announcePacketCache t)) in
    set_paths (paths t) (pathStates t)
      (foldl (λ m kw, delete kw.1 m) (announcePacketCache t) keys) t.

Definition rememberSeenAnnounceUnlocked (h : bytes) (now : Z) (t : Table) : Table :=
  evictSeenAnnouncesUnlocked (set_seen (<[h := now]> (seenAnnounces t)) t).

Definition cleanupSeenAnnounces (t : Table) : Table :=
  let cutoff := now - SeenAnnounceTTL in
  evictSeenAnnouncesUnlocked
    (set_seen (foldl (λ m kv, if kv.2 <? cutoff then delete kv.1 m else m)
                 (seenAnnounces t) (mapOrder (seenAnnounces t))) t).

Definition updatePathUnlocked (destinationHash nextHop : bytes) (interfaceName : string)
    (hops : Z) (randomBlob : bytes) (now : Z) (t : Table) : Table :=
  match interfaces t !! interfaceName with
  | None => t
  | Some i =>
      let key := pathMapKey destinationHash in
      let blobs :=
        match paths t !! key with
        | Some existing =>
            if 0 <? len (RandomBlobs existing) then appendRandomBlob (RandomBlobs existing) randomBlob
            else if len randomBlob =? 10 then appendRandomBlob [] randomBlob else []
        | None => if len randomBlob =? 10 then appendRandomBlob [] randomBlob else []
        end in
      let expires := now + pathLifetimeFor (Some i) in
      let path := mkPath (Some i) nextHop hops now hops blobs expires in
      evictPathsIfNeededUnlocked now
        (set_paths (<[key := path]> (paths t)) (<[key := StateUnknown]> (pathStates t))
           (announcePacketCache t) t)
  end.

Definition UpdatePath (destinationHash nextHop : bytes) (interfaceName : string) (hops : Z)
    (t : Table) : Table :=
  updatePathUnlocked destinationHash nextHop interfaceName hops [] now t.

(** *** Lookups and expiry *)

Definition pathExpired (path : Path) (now : Z) : bool :=
  if negb (Expires path =? 0) then negb (now <? Expires path)
  else PathfinderE * Second <? now - LastUpdated path.

Definition livePath (destinationHash : bytes) (now : Z) (t : Table) : option Path :=
  match paths t !! pathMapKey destinationHash with
  | None => None
  | Some path => if pathExpired path now then None else Some path
  end.

Definition HopsTo (destinationHash : bytes) (t : Table) : Z :=
  match livePath destinationHash now t with
  | None => PathfinderM
  | Some path => HopCount path
  end.

Definition NextHopOf (destinationHash : bytes) (t : Table) : bytes :=
  match livePath destinationHash now t with
  | None => []
  | Some path => NextHop path
  end.

Definition NextHopInterface (destinationHash : bytes) (t : Table) : string :=
  match livePath destinationHash now t with
  | Some path => match Interface path with Some i => GetName i | None => ""%string end
  | None => ""%string
  end.

Definition HasPath (destinationHash : bytes) (t : Table) : Table * bool :=
  let key := pathMapKey destinationHash in
  match paths t !! key with
  | None => (t, false)
  | Some path =>
      if negb (pathExpired path now) then (t, true)
      else (set_paths (delete key (paths t)) (delete key (pathStates t)) (announcePacketCache t) t,
            false)
  end.

Definition cleanupExpiredPaths (t : Table) : Table :=
  foldl (λ t kp, if pathExpired kp.2 now then dropPathEntryUnlocked kp.1 t else t)
    t (mapOrder (paths t)).

Definition set_state (destHash : bytes) (st : Z) (t : Table) : Table :=
  set_paths (paths t) (<[pathMapKey destHash := st]> (pathStates t)) (announcePacketCache t) t.

Definition MarkPathUnresponsive (destHash : bytes) : Table → Table :=
  set_state destHash StateUnresponsive.
Definition MarkPathResponsive (destHash : bytes) : Table → Table :=
  set_state destHash StateResponsive.
Definition PathIsUnresponsive (destHash : bytes) (t : Table) : bool :=
  bool_decide (pathStates t !! pathMapKey destHash = Some StateUnresponsive).

Definition ExpirePath (destinationHash : bytes) (t : Table) : Table :=
  if negb (len destinationHash =? 16) then t
  else
    let key := pathMapKey destinationHash in
    set_lastPathRequest (delete key (lastPathRequest t))
      (set_paths (delete key (paths t)) (delete key (pathStates t)) (announcePacketCache t) t).

Definition PathRequestMI : Z := 20 * Second.

Definition PathRequestRetryAfter (destinationHash : bytes) (t : Table) : Z :=
  if len destinationHash =? 0 then 0
  else
    match lastPathRequest t !! pathMapKey destinationHash with
    | None => 0
    | Some last => let wait := PathRequestMI - (now - last) in if wait <? 0 then 0 else wait
    end.

(** *** Interface penalties *)

Definition interfaceGravity (i : NetworkInterface) : Z :=
  match i with None => 0 | Some i => GetGravity i end.

Definition ifacePathPenalty (name : string) (t : Table) : Z :=
  if bool_decide (name = ""%string) then 0 else default 0 (ifacePenalties t !! name).

Definition pathingAffinity (i : NetworkInterface) (t : Table) : Z :=
  let g := interfaceGravity i in
  match i with
  | None => g
  | Some i =>
      let pen := ifacePathPenalty (GetName i) t in
      if pen <=? 0 then g
      else let pen := if 32 <? pen then 32 else pen in g - pen
  end.

Definition noteIfacePathFailure (i : NetworkInterface) (t : Table) : Table :=
  match i with
  | None => t
  | Some i =>
      let name := GetName i in
      if bool_decide (name = ""%string) then t
      else
        let e := default 0 (ifacePenalties t !! name) in
        set_penalties (<[name := if e <? 32 then e + 1 else e]> (ifacePenalties t)) t
  end.

Definition noteIfacePathSuccess (i : NetworkInterface) (t : Table) : Table :=
  match i with
  | None => t
  | Some i =>
      let name := GetName i in
      match ifacePenalties t !! name with
      | None => t
      | Some e =>
          if e =? 0 then t
          else if e - 1 =? 0 then set_penalties (delete name (ifacePenalties t)) t
          else set_penalties (<[name := e - 1]> (ifacePenalties t)) t
      end
  end.

(** *** Hop corrections *)

Definition LinkPathRebalanceAllowed (t : Table) : bool :=
  match config t with
  | None => true
  | Some c => if AllowLinkPathRebalanceSet c then AllowLinkPathRebalance c else true
  end.

Definition allowRebalanceDest (destHash : bytes) (t : Table) : Table * bool :=
  if len destHash =? 0 then (t, false)
  else
    let key := pathMapKey destHash in
    match rebalanceByDest t !! key with
    | None => (set_rebalance (<[key := mkRebalance now 1]> (rebalanceByDest t)) t, true)
    | Some e =>
        if rebalanceWindow <? now - windowStart e then
          (set_rebalance (<[key := mkRebalance now 1]> (rebalanceByDest t)) t, true)
        else if rebalanceMaxPerDest <=? count e then (t, false)
        else (set_rebalance (<[key := mkRebalance (windowStart e) (count e + 1)]>
                (rebalanceByDest t)) t, true)
    end.

(** [pathingAffinityLocked] is [pathingAffinity] without the empty-name test. *)
Definition pathingAffinityLocked (i : NetworkInterface) (t : Table) : Z :=
  let g := interfaceGravity i in
  match i with
  | None => g
  | Some i =>
      let pen := default 0 (ifacePenalties t !! GetName i) in
      if pen <=? 0 then g
      else let pen := if 32 <? pen then 32 else pen in g - pen
  end.

Definition set_hops (newHops ts : Z) (p : Path) : Path :=
  mkPath (Interface p) (NextHop p) newHops ts newHops (RandomBlobs p) (Expires p).

Definition applyPathHopRebalance (destHash : bytes) (newHops : Z) (proofIface : NetworkInterface)
    (t : Table) : Table * bool :=
  if len destHash =? 0 then (t, false)
  else
    let '(t, ok) := allowRebalanceDest destHash t in
    if negb ok then (t, false)
    else
      let key := pathMapKey destHash in
      match paths t !! key with
      | None => (t, true)
      | Some path =>
          let refuse :=
            match Interface path, proofIface with
            | Some _, Some _ =>
                (HopCount path <? newHops)
                && (pathingAffinityLocked proofIface t + 10 <=? pathingAffinityLocked (Interface path) t)
            | _, _ => false
            end in
          if refuse then (t, false)
          else (set_paths (<[key := set_hops newHops now path]> (paths t)) (pathStates t)
                  (announcePacketCache t) t, true)
      end.
End ops.

(** ** Eviction keeps the newest *)

Lemma newestFrom_spec i idx newest times k n :
  newestFrom i idx newest times = (k, n) →
  newest <= n ∧ Forall (λ t, t <= n) times
  ∧ (k = idx ∧ n = newest ∨ (i <= k)%nat ∧ times !! (k - i)%nat = Some n).
Proof.
  revert i idx newest. induction times as [|t times IH]; intros i idx newest; cbn [newestFrom].
  { intros [= <- <-]. split_and!; [lia|done|by left]. }
  destruct (Z.ltb_spec newest t); intros (H1 & H2 & H3)%IH; (split_and!; [lia|constructor; [lia|done]|]).
  - right. destruct H3 as [[-> ->]|[Hle Hk]]; [split; [lia|by rewrite Nat.sub_diag]|].
    split; [lia|]. by replace (k - i)%nat with (S (k - S i)) by lia.
  - destruct H3 as [[-> ->]|[Hle Hk]]; [by left|right].
    split; [lia|]. by replace (k - i)%nat with (S (k - S i)) by lia.
Qed.

Section select.
Context {K : Type}.
Implicit Types (acc rest l : list (K * Z)).

(** [acc] holds the oldest of the visited entries. *)
Definition oldest_so_far (batch : Z) acc l : Prop :=
  ∃ rest, acc ++ rest ≡ₚ l ∧ len acc <= batch ∧ (len acc < batch → rest = [])
    ∧ ∀ a r, a ∈ acc → r ∈ rest → a.2 <= r.2.

Lemma newest_of_acc t0 times acc idx newest :
  acc.*2 = t0 :: times → newestFrom 1 0 t0 times = (idx, newest) →
  (∃ k, acc !! idx = Some (k, newest)) ∧ ∀ a, a ∈ acc → a.2 <= newest.
Proof.
  intros Hacc (H1 & H2 & H3)%newestFrom_spec. split.
  - assert (Hi : acc.*2 !! idx = Some newest).
    { rewrite Hacc. destruct H3 as [[-> ->]|[Hle Hk]]; [done|].
      destruct idx as [|idx]; [lia|]. by replace (S idx - 1)%nat with idx in Hk by lia. }
    rewrite list_lookup_fmap in Hi. destruct (acc !! idx) as [[k w]|]; [|done].
    injection Hi as ->. by exists k.
  - intros a Ha. apply (list_elem_of_fmap_2 snd) in Ha. rewrite Hacc in Ha.
    apply elem_of_cons in Ha as [->|Ha]; [done|]. rewrite Forall_forall in H2.
    by apply H2, list_elem_of_In.
Qed.

Lemma replace_Permutation (a b r : list (K * Z)) x y :
  (a ++ y :: b) ++ x :: r ≡ₚ ((a ++ x :: b) ++ r) ++ [y].
Proof.
  rewrite <- !app_assoc. apply Permutation_app_head. cbn [app].
  rewrite <- (Permutation_middle b r x), app_assoc, <- Permutation_cons_append.
  apply Permutation_swap.
Qed.

Lemma selectStep_spec batch acc l kw :
  0 < batch → oldest_so_far batch acc l → oldest_so_far batch (selectStep batch acc kw) (l ++ [kw]).
Proof.
  intros Hb (rest & Hp & Hlen & Hfull & Hord). unfold selectStep.
  destruct (Z.ltb_spec (len acc) batch) as [Hlt|Hge].
  { rewrite (Hfull Hlt), app_nil_r in *. exists []. rewrite app_nil_r.
    split_and!; [by rewrite Hp|rewrite len_app; change (len [kw]) with 1; lia|done|].
    intros a r _ Hr. by apply not_elem_of_nil in Hr. }
  destruct (acc.*2) as [|t0 times] eqn:Hacc.
  { apply fmap_nil_inv in Hacc. subst. change (len []) with 0 in Hge. lia. }
  destruct (newestFrom 1 0 t0 times) as [idx newest] eqn:Hn.
  destruct (newest_of_acc _ _ _ _ _ Hacc Hn) as [[k Hk] Hmax].
  destruct (Z.ltb_spec kw.2 newest) as [Hold|Hnew].
  - exists ((k, newest) :: rest).
    pose proof (take_drop_middle _ _ _ Hk) as Hsplit. pose proof (lookup_lt_Some _ _ _ Hk) as Hlt.
    rewrite insert_take_drop by done. unfold len. split_and!.
    + rewrite <- Hp. rewrite <- Hsplit at 3. apply replace_Permutation.
    + rewrite length_app. cbn. rewrite length_take, length_drop. unfold len in *. lia.
    + rewrite length_app. cbn. rewrite length_take, length_drop. unfold len in *. lia.
    + assert (Hin : (k, newest) ∈ acc) by (by eapply list_elem_of_lookup_2).
      intros a r Ha Hr.
      assert (Ha' : a ∈ acc ∨ a = kw).
      { apply elem_of_app in Ha as [Ha%elem_of_take|[->|Ha]%elem_of_cons];
          [left|by right|left]; [destruct Ha as (? & ? & _); by eapply list_elem_of_lookup_2|].
        rewrite <- Hsplit. set_solver. }
      assert (Hkw : kw.2 <= r.2 ∧ ∀ a', a' ∈ acc → a'.2 <= r.2).
      { apply elem_of_cons in Hr as [->|Hr]; [cbn; split; [lia|done]|].
        split; [|naive_solver]. specialize (Hord _ _ Hin Hr). cbn in Hord. lia. }
      destruct Ha' as [Ha'| ->]; naive_solver.
  - exists (rest ++ [kw]). split_and!; [by rewrite app_assoc, Hp|done|lia|].
    intros a r Ha [Hr| ->%list_elem_of_singleton]%elem_of_app; [by apply Hord|].
    specialize (Hmax a Ha). lia.
Qed.

Lemma selectOldest_spec batch l : 0 < batch → oldest_so_far batch (selectOldest batch l) l.
Proof.
  intros Hb. induction l as [|kw l IH] using rev_ind.
  - exists []. split_and!; [done|unfold len; cbn; lia|done|].
    intros a r _ Hr. by apply not_elem_of_nil in Hr.
  - unfold selectOldest. rewrite foldl_app. by apply selectStep_spec.
Qed.

Lemma selectOldest_length batch l :
  0 < batch <= len l → len (selectOldest batch l) = batch.
Proof.
  intros [Hb Hl]. destruct (selectOldest_spec batch l Hb) as (rest & Hp & Hle & Hfull & _).
  destruct (Z.lt_ge_cases (len (selectOldest batch l)) batch) as [Hlt|]; [|lia].
  rewrite (Hfull Hlt), app_nil_r in Hp. apply Permutation_length in Hp. unfold len in *. lia.
Qed.
End select.

Lemma evictionBatch_spec n limit :
  0 <= n →
  0 <= evictionBatch n limit <= n
  ∧ (0 < limit → n - limit <= evictionBatch n limit)
  ∧ (limit <= 0 ∨ n <= limit → evictionBatch n limit = 0).
Proof.
  intros Hn. unfold evictionBatch.
  destruct (Z.leb_spec limit 0), (Z.leb_spec n limit); cbn [orb]; try (split_and!; lia).
  destruct (Z.ltb_spec n (Z.max (n - limit) 64)); case_match eqn:Hlt;
    rewrite ?Z.ltb_lt, ?Z.ltb_ge in Hlt; lia.
Qed.

Section evict_facts.
Context `{RuntimeLaws}.

Lemma dropped_lookup {A} (keys : list (bytes * A)) t k :
  let t' := foldl (λ t kw, dropPathEntryUnlocked kw.1 t) t keys in
  (k ∉ keys.*1 → paths t' !! k = paths t !! k ∧ pathStates t' !! k = pathStates t !! k)
  ∧ (k ∈ keys.*1 → paths t' !! k = None ∧ pathStates t' !! k = None
      ∧ announcePacketCache t' !! hash16FromSlice k = None)
  ∧ ∀ h, announcePacketCache t !! h = None → announcePacketCache t' !! h = None.
Proof.
  revert t. induction keys as [|[k0 a] keys IH]; intros t; cbn [foldl]; [set_solver|].
  destruct (IH (dropPathEntryUnlocked k0 t)) as (IH1 & IH2 & IH3).
  rewrite fmap_cons, not_elem_of_cons, elem_of_cons. cbn [fst]. split_and!.
  - intros [Hne Hk]. destruct (IH1 Hk) as [-> ->]. cbn. by rewrite !lookup_delete_ne.
  - intros [->|Hk]; [|by apply IH2].
    destruct (decide (k0 ∈ keys.*1)) as [Hk|Hk]; [by apply IH2|].
    destruct (IH1 Hk) as [-> ->]. cbn. rewrite !lookup_delete_eq. split_and!; [done..|].
    apply IH3. cbn. apply lookup_delete_eq.
  - intros h Hh. apply IH3. cbn. apply lookup_delete_None. by right.
Qed.

(** The victims of an eviction, for any of the bounded maps. *)
Section evict_map.
Context {K V : Type} `{Countable K} (wh : V → Z) (m : gmap K V) (limit : Z).
Let n := Z.of_nat (size m).
Let batch := evictionBatch n limit.
Let keys := selectOldest batch ((λ kv, (kv.1, wh kv.2)) <$> mapOrder m).

Lemma evict_victims :
  batch ≠ 0 →
  NoDup keys.*1 ∧ len keys = batch ∧ (∀ k, k ∈ keys.*1 → is_Some (m !! k))
  ∧ ∀ k v k' v', m !! k = Some v → m !! k' = Some v' → k ∈ keys.*1 → k' ∉ keys.*1 → wh v <= wh v'.
Proof.
  intros Hne. subst keys.
  pose proof (evictionBatch_spec n limit ltac:(subst n; lia)) as (Hb & _).
  fold batch in Hb. set (f := λ kv : K * V, (kv.1, wh kv.2)). set (l := f <$> mapOrder m).
  assert (Hl : len l = n).
  { subst l n. unfold len. by rewrite length_fmap, (mapOrder_perm m), length_map_to_list. }
  assert (Hin : ∀ k w, (k, w) ∈ l ↔ ∃ v, m !! k = Some v ∧ w = wh v).
  { intros k w. subst l f. rewrite list_elem_of_fmap. split.
    - intros ([k' p] & [= -> ->] & Hp). rewrite (mapOrder_perm m), elem_of_map_to_list in Hp. eauto.
    - intros (p & Hp & ->). exists (k, p). split; [done|].
      by rewrite (mapOrder_perm m), elem_of_map_to_list. }
  assert (Hnd : NoDup l.*1).
  { subst l f. rewrite <- list_fmap_compose. cbn. rewrite (mapOrder_perm m). apply NoDup_fst_map_to_list. }
  destruct (selectOldest_spec batch l ltac:(lia)) as (rest & Hp & _ & _ & Hord).
  pose proof (selectOldest_length batch l ltac:(lia)) as Hsel.
  generalize dependent (selectOldest batch l). clearbody l. intros sel Hp Hord Hsel.
  rewrite <- Hp, fmap_app, list.NoDup_app in Hnd. destruct Hnd as (Hnd & Hdisj & _).
  split_and!; [done|done| |].
  - intros k ([k' w] & -> & Hk)%list_elem_of_fmap. cbn.
    destruct (proj1 (Hin k' w)) as (p & Hp' & _); [rewrite <- Hp; set_solver|]. by eexists.
  - intros k p k' p' Hk Hk' Hin1 Hin2.
    apply list_elem_of_fmap in Hin1 as ([k1 w1] & -> & Hk1). cbn in Hk.
    assert (H1' : (k1, w1) ∈ l) by (rewrite <- Hp; set_solver).
    apply Hin in H1' as (p1 & Hp1 & ->). simplify_eq.
    assert (H2 : (k', wh p') ∈ l) by (apply Hin; eauto).
    rewrite <- Hp in H2. apply elem_of_app in H2 as [H2|H2].
    + destruct Hin2. apply list_elem_of_fmap. by eexists (_, _).
    + exact (Hord _ _ Hk1 H2).
Qed.

Lemma evict_size :
  batch ≠ 0 → Z.of_nat (size (foldl (λ m kw, delete kw.1 m) m keys)) = n - batch.
Proof.
  intros Hne. destruct (evict_victims Hne) as (Hnd & Hlen & Hin & _).
  rewrite foldl_delete_size by done. unfold batch in Hlen. lia.
Qed.

Lemma evict_bound :
  0 < limit →
  Z.of_nat (size (if batch =? 0 then m else foldl (λ m kw, delete kw.1 m) m keys)) <= limit.
Proof.
  intros Hl. pose proof (evictionBatch_spec n limit ltac:(subst n; lia)) as (_ & Hb & _).
  fold batch in Hb. destruct (Z.eqb_spec batch 0) as [H0'|Hne]; [subst n; lia|].
  rewrite evict_size by done. lia.
Qed.
End evict_map.

Lemma foldl_drop_paths {A} (keys : list (bytes * A)) t :
  paths (foldl (λ t kw, dropPathEntryUnlocked kw.1 t) t keys) = foldl (λ m kw, delete kw.1 m) (paths t) keys.
Proof. revert t. induction keys as [|k keys IH]; intros t; [done|]. cbn [foldl]. by rewrite IH. Qed.

Lemma evict_paths_eq now t :
  let batch := evictionBatch (Z.of_nat (size (paths t))) (EffectiveMaxInMemoryPaths (config t)) in
  paths (evictPathsIfNeededUnlocked now t)
  = if batch =? 0 then paths t
    else foldl (λ m kw, delete kw.1 m) (paths t)
           (selectOldest batch ((λ kp, (kp.1, whenOf now kp.2)) <$> mapOrder (paths t))).
Proof.
  intros batch. unfold evictPathsIfNeededUnlocked. fold batch. case_match; [done|]. apply foldl_drop_paths.
Qed.

(** The path table stays within its configured size and forgets the oldest
    first: after the eviction that follows every update the table holds at most
    the limit, only entries it had, and none that is older than one it dropped;
    the state and the cached announce of a dropped path go with it.  With a
    limit of 63 the batch of 64 empties the table, the path just learned
    included. *)
Theorem path_eviction now t :
  let limit := EffectiveMaxInMemoryPaths (config t) in
  let t' := evictPathsIfNeededUnlocked now t in
  (0 < limit → Z.of_nat (size (paths t')) <= limit)
  ∧ (limit <= 0 ∨ Z.of_nat (size (paths t)) <= limit → t' = t)
  ∧ paths t' ⊆ paths t
  ∧ (∀ k p, paths t !! k = Some p → paths t' !! k = None →
       pathStates t' !! k = None ∧ announcePacketCache t' !! hash16FromSlice k = None
       ∧ ∀ k' p', paths t' !! k' = Some p' → whenOf now p <= whenOf now p')
  ∧ (limit = 63 → size (paths t) = 64%nat → paths t' = ∅).
Proof.
  intros limit t'. set (n := Z.of_nat (size (paths t))).
  pose proof (evictionBatch_spec n limit ltac:(subst n; lia)) as (Hb & _ & Hnone).
  assert (Hpaths := evict_paths_eq now t). fold t' limit n in Hpaths.
  assert (Hbound : 0 < limit → Z.of_nat (size (paths t')) <= limit) by (rewrite Hpaths; apply evict_bound).
  split; [done|]. pose proof (evict_victims (whenOf now) (paths t) limit) as Hvict.
  pose proof (evict_size (whenOf now) (paths t) limit) as Hsize. fold n in Hvict, Hsize.
  subst t'. unfold evictPathsIfNeededUnlocked in *. fold limit n in Hpaths |- *.
  destruct (Z.eqb_spec (evictionBatch n limit) 0) as [H0'|Hne].
  { split_and!; [done|done|congruence|]. intros -> Hs. subst n. rewrite Hs in H0'. done. }
  destruct (Hvict Hne) as (Hnd & Hlen & Hkeys & Hord). specialize (Hsize Hne).
  set (keys := selectOldest _ _) in *. rewrite <- Hpaths in Hsize.
  assert (Hlook : ∀ k, paths (foldl (λ t kw, dropPathEntryUnlocked kw.1 t) t keys) !! k
                       = if decide (k ∈ keys.*1) then None else paths t !! k).
  { intros k. rewrite Hpaths. apply foldl_delete_lookup. }
  split_and!.
  - intros Hc. by rewrite (Hnone Hc) in Hne.
  - apply map_subseteq_spec. intros k p. rewrite Hlook. by case_decide.
  - intros k p Hk. rewrite Hlook. case_decide as Hin; [intros _|congruence].
    destruct (dropped_lookup keys t k) as (_ & D2 & _).
    destruct (D2 Hin) as (_ & Hst & Hca). split_and!; [done..|].
    intros k' p'. rewrite Hlook. case_decide as Hin'; [done|]. intros Hk'. by apply (Hord k p k' p').
  - intros Hl Hs. apply map_size_empty_inv. subst n. rewrite Hs, Hl in Hsize.
    change (evictionBatch (Z.of_nat 64) 63) with 64 in Hsize. lia.
Qed.
End evict_facts.

#[local] Existing Instance testRuntime.

Lemma path_eviction_witness :
  let p u := mkPath None [] 1 u 1 [] 0 in
  let t := mkTable (Some (mkConfig 2 false false)) ∅
             {[ [Byte.x01] := p 10; [Byte.x02] := p 20; [Byte.x03] := p 30 ]} ∅ ∅ ∅ ∅ ∅ ∅ in
  let t' := evictPathsIfNeededUnlocked 99 t in
  Z.of_nat (size (paths t')) <= 2 ∧ paths t' !! [Byte.x01] = None ∧ paths t' ⊆ paths t.
Proof.
  intros p t t'. destruct (path_eviction 99 t) as (Hsize & _ & Hsub & _).
  split_and!; [apply Hsize; done|vm_compute; reflexivity|exact Hsub].
Defined.

(** ** Which announce replaces a path *)

Lemma announceEmitted_nonneg blob : 0 <= announceEmitted blob.
Proof.
  unfold announceEmitted. case_match; [lia|].
  assert (Hf : ∀ l a, 0 <= a →
    0 <= foldl (λ emitted b, Z.lor (u32 (Z.shiftl emitted 8)) (b2z b)) a l).
  { induction l as [|b l IH]; intros a Ha; cbn [foldl]; [done|]. apply IH, Z.lor_nonneg.
    split; [apply Z.mod_pos_bound; lia|apply b2z_range]. }
  by apply Hf.
Qed.

Lemma timebase_spec blobs e :
  0 <= e →
  (timebaseFromRandomBlobs blobs < e ↔ 0 < e ∧ ∀ b, b ∈ blobs → announceEmitted b < e)
  ∧ (e = timebaseFromRandomBlobs blobs ↔
       (e = 0 ∨ ∃ b, b ∈ blobs ∧ announceEmitted b = e) ∧ ∀ b, b ∈ blobs → announceEmitted b <= e).
Proof.
  intros He. unfold timebaseFromRandomBlobs.
  set (r := foldl _ 0 blobs).
  assert (Hr : 0 <= r ∧ (r = 0 ∨ ∃ b, b ∈ blobs ∧ announceEmitted b = r)
                 ∧ ∀ b, b ∈ blobs → announceEmitted b <= r).
  { subst r. induction blobs as [|b blobs IH] using rev_ind.
    - split_and!; [done|by left|]. intros b Hb. by apply not_elem_of_nil in Hb.
    - rewrite foldl_app. cbn [foldl]. destruct IH as (IH0 & IH1 & IH2).
      generalize dependent (foldl (λ base blob, if base <? announceEmitted blob
        then announceEmitted blob else base) 0 blobs). intros r IH0 IH1 IH2.
      destruct (Z.ltb_spec r (announceEmitted b)) as [Hlt|Hge].
      + split_and!; [lia|right; exists b; set_solver|].
        intros b' [Hb'|Hb']%elem_of_app; [specialize (IH2 b' Hb'); lia|set_solver].
      + split_and!; [lia|set_solver|].
        intros b' [Hb'|Hb']%elem_of_app; [auto|set_solver]. }
  destruct Hr as (Hr0 & Hr1 & Hr2). split; split.
  - intros Hlt. split; [lia|]. intros b Hb. specialize (Hr2 b Hb). lia.
  - intros [H0 Hall]. destruct Hr1 as [->|(b & Hb & <-)]; [done|auto].
  - intros ->. auto.
  - intros [H1 H2]. assert (r <= e) by (destruct Hr1 as [->|(b & Hb & <-)]; auto).
    assert (e <= r) by (destruct H1 as [->|(b & Hb & <-)]; auto). lia.
Qed.

(** The first stored blob that is not older than [e] is as old as [e]. *)
Definition tie (blobs : list bytes) (e : Z) : Prop :=
  match filter (λ b, e <= announceEmitted b) blobs with
  | [] => e = 0
  | b :: _ => announceEmitted b = e
  end.

Lemma pathEmittedLoop_spec blobs e a :
  0 <= a → 0 <= e → (a < e ∨ a = 0) →
  (pathEmittedLoop e a blobs < e ↔ a < e ∧ ∀ b, b ∈ blobs → announceEmitted b < e)
  ∧ (e = pathEmittedLoop e a blobs ↔ tie blobs e).
Proof.
  intros Ha He. revert a Ha. induction blobs as [|b blobs IH]; intros a Ha Hlt.
  - unfold tie. cbn. split; [set_solver|lia].
  - cbn [pathEmittedLoop]. unfold tie. rewrite filter_cons.
    destruct (Z.leb_spec e (announceEmitted b)) as [Hle|Hgt].
    + rewrite decide_True by done. split; [|lia].
      split; [lia|]. intros [_ Hall]. specialize (Hall b ltac:(set_solver)). lia.
    + rewrite decide_False by lia. pose proof (announceEmitted_nonneg b) as Hn.
      destruct (IH (if a <? announceEmitted b then announceEmitted b else a)) as [IH1 IH2];
        [case_match; lia|case_match; lia|].
      split; [|exact IH2]. rewrite IH1. setoid_rewrite elem_of_cons.
      destruct (Z.ltb_spec a (announceEmitted b)); split; intros [? Hall]; split; try lia; naive_solver.
Qed.

Lemma randomBlobKnown_spec blobs b : randomBlobKnown blobs b = true ↔ b ∈ blobs.
Proof.
  unfold randomBlobKnown. rewrite existsb_exists. split.
  - intros (x & Hx & ->%bool_decide_eq_true). by apply list_elem_of_In.
  - intros Hb. exists b. split; [by apply list_elem_of_In|by apply bool_decide_eq_true].
Qed.

Lemma appended_known blobs b : randomBlobKnown (appendRandomBlob blobs b) b = true.
Proof.
  unfold appendRandomBlob. destruct (randomBlobKnown blobs b) eqn:Hk; [done|].
  apply randomBlobKnown_spec. case_match eqn:Hlen; [|set_solver].
  rewrite drop_app_le by (unfold len, maxRandomBlobs in *; rewrite length_app; cbn; lia).
  set_solver.
Qed.

Lemma if_true (b c : bool) : (if b then true else c) = true ↔ b = true ∨ c = true.
Proof. destruct b; naive_solver. Qed.

(** When an announce replaces the path to a known destination, exactly: at
    no more hops it must carry a fresh random blob emitted after every blob of
    the path, or repeat the newest emission over an interface of higher
    affinity; at more hops it needs a fresh blob and an expired path or a later
    emission, or an unresponsive path that it ties with.  So an announce whose
    blob the path recorded never replaces that path again while it is
    responsive and no interface of higher affinity brings it. *)
Theorem path_replacement existing i unresponsive :
  let blobs := RandomBlobs existing in
  let e := announceEmitted (randomBlob i) in
  let fresh := randomBlob i ∉ blobs in
  let newer := 0 < e ∧ ∀ b, b ∈ blobs → announceEmitted b < e in
  let newest := (e = 0 ∨ ∃ b, b ∈ blobs ∧ announceEmitted b = e) ∧ ∀ b, b ∈ blobs → announceEmitted b <= e in
  let expired := Expires existing ≠ 0 ∧ Expires existing <= in_now i in
  let stronger := affinityKnown i = true ∧ currentAffinity i < announceAffinity i in
  shouldUpdateAnnouncePath None i unresponsive = true
  ∧ (shouldUpdateAnnouncePath (Some existing) i unresponsive = true ↔
      destinationKnown i = false
      ∨ announceHops i <= HopCount existing ∧ (fresh ∧ newer ∨ newest ∧ stronger)
      ∨ HopCount existing < announceHops i
        ∧ (fresh ∧ (expired ∨ newer) ∨ ¬ expired ∧ tie blobs e ∧ unresponsive = true))
  ∧ (∀ bs, blobs = appendRandomBlob bs (randomBlob i) → destinationKnown i = true →
       ¬ stronger → shouldUpdateAnnouncePath (Some existing) i false = false).
Proof.
  intros blobs e fresh newer newest expired stronger.
  assert (He : 0 <= e) by apply announceEmitted_nonneg.
  destruct (timebase_spec blobs e He) as [Htb Hnew].
  destruct (pathEmittedLoop_spec blobs e 0 ltac:(lia) He ltac:(lia)) as [Hpl Htie].
  assert (Hfresh : randomBlobKnown blobs (randomBlob i) = false ↔ fresh).
  { subst fresh. rewrite <- randomBlobKnown_spec. by destruct (randomBlobKnown _ _). }
  assert (Hexp : negb (Expires existing =? 0) && negb (in_now i <? Expires existing) = true ↔ expired).
  { subst expired. rewrite andb_true_iff, !negb_true_iff, Z.eqb_neq, Z.ltb_ge. done. }
  assert (true ≠ false) by done. split_and!; [done| |].
  - unfold shouldUpdateAnnouncePath. fold blobs e.
    destruct (destinationKnown i); cbn [negb]; [|tauto].
    destruct (Z.leb_spec (announceHops i) (HopCount existing)) as [Hh|Hh].
    + rewrite if_true, !andb_true_iff, negb_true_iff, Z.eqb_eq, !Z.ltb_lt, Hfresh, Htb, Hnew.
      unfold newer, newest, stronger. assert (¬ HopCount existing < announceHops i) by lia. tauto.
    + assert (¬ announceHops i <= HopCount existing) by lia.
      rewrite <- Z.ltb_lt in Hpl. fold newer in Hpl. rewrite <- Z.eqb_eq in Htie.
      destruct (negb (Expires existing =? 0) && _); rewrite ?negb_true_iff, ?Hfresh.
      * assert expired by (by apply Hexp). tauto.
      * assert (¬ expired) by (by intros ?%Hexp).
        destruct (pathEmittedLoop e 0 blobs <? e) eqn:Hl.
        -- assert newer by (by apply Hpl). assert (¬ tie blobs e).
           { rewrite <- Htie, Z.eqb_eq. apply Z.ltb_lt in Hl. lia. }
           rewrite negb_true_iff, Hfresh. tauto.
        -- assert (¬ newer) by (by intros ?%Hpl). rewrite andb_true_iff, Htie. tauto.
  - intros bs Hbs Hk Hweak. assert (Hkn := appended_known bs (randomBlob i)).
    rewrite <- Hbs in Hkn. unfold shouldUpdateAnnouncePath. fold blobs e. rewrite Hk, Hkn.
    cbn [negb andb]. rewrite andb_false_r.
    repeat case_match; try done. apply not_true_iff_false.
    rewrite !andb_true_iff, Z.ltb_lt. unfold stronger in Hweak. tauto.
Qed.

(** ** Learning a path *)

Lemma evict_room `{Runtime} now t :
  EffectiveMaxInMemoryPaths (config t) <= 0
  ∨ Z.of_nat (size (paths t)) <= EffectiveMaxInMemoryPaths (config t) →
  evictPathsIfNeededUnlocked now t = t.
Proof.
  intros Hroom. unfold evictPathsIfNeededUnlocked.
  destruct (evictionBatch_spec (Z.of_nat (size (paths t))) (EffectiveMaxInMemoryPaths (config t))) as (_ & _ & ->);
    [lia|done|done].
Qed.

(** The blobs of a path after one more announce: those of the path it replaces
    are kept. *)
Definition blobsAfter (old : option Path) (blob : bytes) : list bytes :=
  appendRandomBlob (match old with Some p => RandomBlobs p | None => [] end) blob.

Lemma update_path `{Runtime} d nh ifn i hops blob at' t :
  interfaces t !! ifn = Some i → len blob = 10 →
  has_room (pathMapKey d) (paths t) (EffectiveMaxInMemoryPaths (config t)) →
  paths (updatePathUnlocked d nh ifn hops blob at' t) !! pathMapKey d
  = Some (mkPath (Some i) nh hops at' hops (blobsAfter (paths t !! pathMapKey d) blob)
            (at' + pathLifetimeFor (Some i))).
Proof.
  intros Hi Hb Hroom. unfold updatePathUnlocked. rewrite Hi, Hb. cbn [Z.eqb Pos.eqb].
  rewrite evict_room by (cbn [paths config set_paths]; by apply has_room_insert).
  cbn [paths set_paths]. rewrite lookup_insert_eq. do 2 f_equal. unfold blobsAfter.
  destruct (paths t !! pathMapKey d) as [p|]; [|done]. by destruct (RandomBlobs p).
Qed.

(** The parts of a table that the choice of a path depends on. *)
Definition same_paths (t t' : Table) : Prop :=
  paths t' = paths t ∧ config t' = config t ∧ interfaces t' = interfaces t
  ∧ pathStates t' = pathStates t ∧ ifacePenalties t' = ifacePenalties t.

#[export] Instance same_paths_preorder : PreOrder same_paths.
Proof. split; [done|]. intros a b c (? & ? & ? & ? & ?) (? & ? & ? & ? & ?). split_and!; congruence. Qed.

(** [HasPath] leaves exactly a live path. *)
Lemma hasPath_spec `{Runtime} d t :
  let t' := (HasPath d t).1 in
  paths t' !! pathMapKey d = livePath d now t
  ∧ config t' = config t ∧ interfaces t' = interfaces t ∧ ifacePenalties t' = ifacePenalties t
  ∧ (livePath d now t ≠ None → t' = t)
  ∧ (∀ c, has_room (pathMapKey d) (paths t) c → has_room (pathMapKey d) (paths t') c).
Proof.
  unfold HasPath, livePath. destruct (paths t !! pathMapKey d) as [p|] eqn:Hp; [|by split_and!].
  destruct (pathExpired p now); cbn [negb fst]; [|by split_and!].
  split_and!; [cbn [paths set_paths]; apply lookup_delete_eq|done..|]. intros c. apply has_room_delete.
Qed.

(** Whether an announce heard on [i] replaces the path to its destination. *)
Definition prefers `{Runtime} (i : iface) (d : bytes) (hops : Z) (blob : bytes) (t : Table) : bool :=
  let live := livePath d now t in
  let cur := match live with Some p => Interface p | None => None end in
  shouldUpdateAnnouncePath live
    (mkInput (bool_decide (is_Some live)) hops blob now (pathingAffinity (Some i) t) (pathingAffinity cur t)
       (bool_decide (live = None) || bool_decide (is_Some cur)))
    (PathIsUnresponsive d t).

(** The seen-announce records do not touch the paths. *)
Lemma remember_seen_frame `{Runtime} h at' t :
  same_paths t (rememberSeenAnnounceUnlocked h at' t).
Proof. unfold rememberSeenAnnounceUnlocked, evictSeenAnnouncesUnlocked. by case_match. Qed.

Lemma evict_cache_frame `{Runtime} t :
  same_paths t (evictAnnouncePacketCacheUnlocked t).
Proof. unfold evictAnnouncePacketCacheUnlocked. by case_match. Qed.

(** ** The invariant of the table *)

Section table_invariant.
Context `{RuntimeLaws}.

(** Everything that changes the table, hop corrections apart. *)
Inductive step : Table → Table → Prop :=
  | step_update d nh ifn hops blob at' t : step t (updatePathUnlocked d nh ifn hops blob at' t)
  | step_hasPath d t : step t (HasPath d t).1
  | step_cleanupPaths t : step t (cleanupExpiredPaths t)
  | step_unresponsive d t : step t (MarkPathUnresponsive d t)
  | step_responsive d t : step t (MarkPathResponsive d t)
  | step_expire d t : step t (ExpirePath d t)
  | step_failure i t : step t (noteIfacePathFailure i t)
  | step_success i t : step t (noteIfacePathSuccess i t)
  | step_seen h at' t : step t (rememberSeenAnnounceUnlocked h at' t)
  | step_cleanupSeen t : step t (cleanupSeenAnnounces t).

Record table_ok (t : Table) : Prop := {
  ok_paths : 0 < EffectiveMaxInMemoryPaths (config t) →
    Z.of_nat (size (paths t)) <= EffectiveMaxInMemoryPaths (config t);
  ok_blobs : map_Forall (λ _ p, NoDup (RandomBlobs p) ∧ len (RandomBlobs p) <= maxRandomBlobs) (paths t);
  ok_seen : Z.of_nat (size (seenAnnounces t)) <= DefaultMaxSeenAnnounces;
  ok_penalties : map_Forall (λ _ e, 1 <= e <= 32) (ifacePenalties t);
  ok_rebalance : map_Forall (λ _ e, 1 <= count e <= rebalanceMaxPerDest) (rebalanceByDest t)
}.

Lemma appendRandomBlob_ok blobs b :
  NoDup blobs ∧ len blobs <= maxRandomBlobs →
  NoDup (appendRandomBlob blobs b) ∧ len (appendRandomBlob blobs b) <= maxRandomBlobs.
Proof.
  intros [Hnd Hlen]. unfold appendRandomBlob. destruct (randomBlobKnown blobs b) eqn:Hk; [done|].
  assert (Hnd' : NoDup (blobs ++ [b])).
  { apply list.NoDup_app. split_and!; [done| |apply NoDup_singleton].
    intros x Hx ->%list_elem_of_singleton. apply randomBlobKnown_spec in Hx. congruence. }
  case_match eqn:Hl; [|apply Z.ltb_ge in Hl; done]. split.
  - eapply sublist_NoDup; [done|apply sublist_drop].
  - apply Z.ltb_lt in Hl. unfold len in *. rewrite length_drop. lia.
Qed.

(** A step that only loses paths keeps the clauses about them. *)
Lemma table_ok_fewer t p st c :
  table_ok t → p ⊆ paths t → table_ok (set_paths p st c t).
Proof.
  intros [Hp Hb Hs Hpen Hr] Hsub. constructor; cbn; try done.
  - intros Hl. specialize (Hp Hl). apply map_subseteq_size in Hsub. lia.
  - intros k q Hq. apply (Hb k q). by eapply lookup_weaken.
Qed.

Lemma table_ok_fields t l : table_ok t → table_ok (set_lastPathRequest l t).
Proof. intros []. by constructor. Qed.

Lemma drop_ok key t : table_ok t → table_ok (dropPathEntryUnlocked key t).
Proof. intros Ht. apply table_ok_fewer; [done|apply delete_subseteq]. Qed.

Lemma foldl_drop_frame {A} (keys : list (bytes * A)) t :
  let t' := foldl (λ t kw, dropPathEntryUnlocked kw.1 t) t keys in
  config t' = config t ∧ seenAnnounces t' = seenAnnounces t
  ∧ ifacePenalties t' = ifacePenalties t ∧ rebalanceByDest t' = rebalanceByDest t.
Proof. revert t. induction keys as [|k keys IH]; intros t; [done|]. exact (IH (dropPathEntryUnlocked k.1 t)). Qed.

(** Eviction restores the bound on the paths and needs only the other clauses. *)
Lemma evict_ok now t :
  map_Forall (λ _ p, NoDup (RandomBlobs p) ∧ len (RandomBlobs p) <= maxRandomBlobs) (paths t) →
  Z.of_nat (size (seenAnnounces t)) <= DefaultMaxSeenAnnounces →
  map_Forall (λ _ e, 1 <= e <= 32) (ifacePenalties t) →
  map_Forall (λ _ e, 1 <= count e <= rebalanceMaxPerDest) (rebalanceByDest t) →
  table_ok (evictPathsIfNeededUnlocked now t).
Proof.
  intros Hb Hs Hpen Hr.
  assert (Hfr : config (evictPathsIfNeededUnlocked now t) = config t
    ∧ seenAnnounces (evictPathsIfNeededUnlocked now t) = seenAnnounces t
    ∧ ifacePenalties (evictPathsIfNeededUnlocked now t) = ifacePenalties t
    ∧ rebalanceByDest (evictPathsIfNeededUnlocked now t) = rebalanceByDest t).
  { unfold evictPathsIfNeededUnlocked. case_match; [done|]. apply foldl_drop_frame. }
  destruct Hfr as (Hc & Hs' & Hp' & Hr').
  constructor; rewrite ?Hc, ?Hs', ?Hp', ?Hr'; try done; rewrite evict_paths_eq.
  - intros Hl. by apply evict_bound.
  - case_match; [done|]. intros k p. rewrite foldl_delete_lookup. case_decide; [done|]. apply Hb.
Qed.

Lemma update_ok d nh ifn hops blob at' t :
  table_ok t → table_ok (updatePathUnlocked d nh ifn hops blob at' t).
Proof.
  intros Ht. unfold updatePathUnlocked. destruct (interfaces t !! ifn); [|done].
  destruct Ht as [_ Hb Hs Hpen Hr]. apply evict_ok; try done. cbn [paths set_paths].
  assert (Hnil : NoDup (if len blob =? 10 then appendRandomBlob [] blob else [])
    ∧ len (if len blob =? 10 then appendRandomBlob [] blob else []) <= maxRandomBlobs).
  { case_match; [apply appendRandomBlob_ok|]; (split; [constructor|vm_compute; discriminate]). }
  apply map_Forall_insert_2; [|done]. cbn [RandomBlobs].
  destruct (paths t !! pathMapKey d) as [p|] eqn:Hd; [|done].
  destruct (0 <? _); [|done]. apply appendRandomBlob_ok, (Hb _ _ Hd).
Qed.

Lemma seen_ok m t :
  table_ok t → table_ok (evictSeenAnnouncesUnlocked (set_seen m t)).
Proof.
  intros [Hp Hb Hs Hpen Hr]. unfold evictSeenAnnouncesUnlocked. cbn [seenAnnounces set_seen].
  pose proof (evict_bound (λ v, v) m DefaultMaxSeenAnnounces ltac:(done)) as Hbound.
  assert (Hid : (λ kv : bytes * Z, (kv.1, kv.2)) <$> mapOrder m = mapOrder m).
  { erewrite list_fmap_ext; [apply list_fmap_id|]. by intros ? [] ?. }
  cbv beta in Hbound. rewrite Hid in Hbound. case_match; constructor; cbn; done.
Qed.

Lemma rebalance_ok d hops i t : table_ok t → table_ok (applyPathHopRebalance d hops i t).1.
Proof.
  intros Ht. unfold applyPathHopRebalance. case_match; [done|].
  destruct (allowRebalanceDest d t) as [t1 ok] eqn:Hal.
  assert (Ht1 : table_ok t1).
  { revert Hal. unfold allowRebalanceDest. case_match; [by intros [= <- _]|].
    destruct Ht as [Hp Hb Hs Hpen Hr].
    destruct (rebalanceByDest t !! _) as [e|] eqn:He; [destruct (Hr _ _ He) as [? _]|];
      repeat case_match; intros [= <- _]; constructor; cbn; try done;
      (apply map_Forall_insert_2; [|done]); cbn; unfold rebalanceMaxPerDest in *; lia. }
  destruct ok; [cbn [negb]|done]. destruct (paths t1 !! pathMapKey d) as [p|] eqn:Hd; [|done].
  case_match; [done|]. destruct Ht1 as [Hp Hb Hs Hpen Hr]. constructor; cbn; try done.
  - by rewrite map_size_insert_Some.
  - apply map_Forall_insert_2; [|done]. apply (Hb _ _ Hd).
Qed.

Lemma cleanup_paths_ok t : table_ok t → table_ok (cleanupExpiredPaths t).
Proof.
  unfold cleanupExpiredPaths. generalize (mapOrder (paths t)). intros l. revert t.
  induction l as [|kp l IH]; intros t Ht; [done|]. cbn [foldl]. apply IH.
  case_match; [by apply drop_ok|done].
Qed.

Lemma penalty_ok i t :
  table_ok t → table_ok (noteIfacePathFailure i t) ∧ table_ok (noteIfacePathSuccess i t).
Proof.
  intros Ht. destruct i as [i|]; [|done].
  assert (Hset : ∀ p, map_Forall (λ _ e, 1 <= e <= 32) p → table_ok (set_penalties p t)).
  { intros p Hp. destruct Ht. by constructor. }
  pose proof (ok_penalties _ Ht) as Hpen.
  unfold noteIfacePathFailure, noteIfacePathSuccess. split.
  - case_match; [done|]. apply Hset, map_Forall_insert_2; [|done].
    destruct (ifacePenalties t !! GetName i) as [e|] eqn:He; [|done]. cbn.
    specialize (Hpen _ _ He). cbn in Hpen. destruct (Z.ltb_spec e 32); lia.
  - destruct (ifacePenalties t !! GetName i) as [e|] eqn:He; [|done].
    specialize (Hpen _ _ He) as Hr. cbn in Hr.
    destruct (Z.eqb_spec e 0); [done|]. destruct (Z.eqb_spec (e - 1) 0); apply Hset.
    + by apply map_Forall_delete.
    + apply map_Forall_insert_2; [lia|done].
Qed.

Lemma table_step_ok t t' : table_ok t → step t t' → table_ok t'.
Proof.
  intros Ht Hstep. destruct Hstep; try done.
  - by apply update_ok.
  - unfold HasPath. repeat case_match; try done. cbn [fst]. apply table_ok_fewer; [done|apply delete_subseteq].
  - by apply cleanup_paths_ok.
  - by apply table_ok_fewer.
  - by apply table_ok_fewer.
  - unfold ExpirePath. case_match; [done|].
    apply table_ok_fields, table_ok_fewer; [done|apply delete_subseteq].
  - by apply penalty_ok.
  - by apply penalty_ok.
  - by apply seen_ok.
  - by apply seen_ok.
Qed.

(** The counters of the corrections change with corrections only. *)
Lemma step_rebalanceByDest t t' : step t t' → rebalanceByDest t' = rebalanceByDest t.
Proof.
  intros Hstep. destruct Hstep; try done.
  - unfold updatePathUnlocked, evictPathsIfNeededUnlocked. do 2 (case_match; [|done || idtac]); try done.
    by rewrite (proj2 (proj2 (proj2 (foldl_drop_frame _ _)))).
  - unfold HasPath. by repeat case_match.
  - unfold cleanupExpiredPaths. generalize (mapOrder (paths t)). intros l. revert t.
    induction l as [|kp l IH]; intros t; [done|]. cbn [foldl]. rewrite IH. by case_match.
  - unfold ExpirePath. by case_match.
  - unfold noteIfacePathFailure. by repeat case_match.
  - unfold noteIfacePathSuccess. by repeat case_match.
  - unfold rememberSeenAnnounceUnlocked, evictSeenAnnouncesUnlocked. by case_match.
  - unfold cleanupSeenAnnounces, evictSeenAnnouncesUnlocked. by case_match.
Qed.
End table_invariant.

(** *** Histories *)

(** A correction that was made: its destination, and the start of the window it
    was made in. *)
Definition correction : Type := bytes * Z.
Definition correctionOf (destHash : bytes) (r : Table * bool) : list correction :=
  if r.2 then (λ e, (pathMapKey destHash, windowStart e)) <$> option_list (rebalanceByDest r.1 !! pathMapKey destHash)
  else [].

(** Changes and corrections one after the other, each at its own time and in its
    own surroundings, with the corrections made. *)
Inductive history : Table → list correction → Table → Prop :=
  | history_nil t : history t [] t
  | history_step (R : Runtime) t l t1 t2 :
      RuntimeLaws → history t l t1 → step t1 t2 → history t l t2
  | history_correct (R : Runtime) d hops i t l t1 :
      RuntimeLaws → history t l t1 →
      history t (l ++ correctionOf d (applyPathHopRebalance d hops i t1)) (applyPathHopRebalance d hops i t1).1.

Definition made (c : correction) (l : list correction) : Z := len (filter (λ x, x = c) l).

Lemma made_app c l l' : made c (l ++ l') = made c l + made c l'.
Proof. unfold made. by rewrite list.filter_app, len_app. Qed.

Lemma made_one c x : made c [x] = if bool_decide (x = c) then 1 else 0.
Proof. unfold made. rewrite filter_cons. by repeat case_decide || case_bool_decide. Qed.

(** What the counter of a destination says of the corrections made: none is in a
    window later than its own, and it counts at least those in its own. *)
Definition counted (t : Table) (l : list correction) : Prop :=
  (∀ k w, made (k, w) l <= rebalanceMaxPerDest)
  ∧ ∀ k w, 0 < made (k, w) l → ∃ e, rebalanceByDest t !! k = Some e ∧ w <= windowStart e
      ∧ (w = windowStart e → made (k, w) l <= count e).

(** A correction: the counter before and after. *)
Lemma rebalance_counter `{Runtime} d hops i t :
  let r := applyPathHopRebalance d hops i t in
  (rebalanceByDest r.1 = rebalanceByDest t ∧ correctionOf d r = [])
  ∨ ∃ e', rebalanceByDest r.1 = <[pathMapKey d := e']> (rebalanceByDest t)
      ∧ (correctionOf d r = [(pathMapKey d, windowStart e')] ∨ correctionOf d r = [])
      ∧ match rebalanceByDest t !! pathMapKey d with
        | None => count e' = 1
        | Some e => (windowStart e < windowStart e' ∧ count e' = 1)
            ∨ (windowStart e' = windowStart e ∧ count e' = count e + 1 ∧ count e < rebalanceMaxPerDest)
        end.
Proof.
  intros r. assert (HA : ∀ t1 ok, allowRebalanceDest d t = (t1, ok) → (t1 = t ∧ ok = false) ∨ ∃ e', t1 = set_rebalance (<[pathMapKey d := e']> (rebalanceByDest t)) t
    ∧ match rebalanceByDest t !! pathMapKey d with
      | None => count e' = 1
      | Some e => (windowStart e < windowStart e' ∧ count e' = 1)
          ∨ (windowStart e' = windowStart e ∧ count e' = count e + 1 ∧ count e < rebalanceMaxPerDest)
      end).
  { intros t1 ok. unfold allowRebalanceDest. case_match; [intros [= <- <-]; by left|]. destruct (rebalanceByDest t !! _) as [e|].
    - destruct (Z.ltb_spec rebalanceWindow (now - windowStart e)); [|destruct (Z.leb_spec rebalanceMaxPerDest (count e))]; intros [= <- <-].
      + right. eexists. split; [done|]. left. cbn. unfold rebalanceWindow, Second in *. lia.
      + by left.
      + right. eexists. split; [done|]. right. cbn. lia.
    - intros [= <- <-]. right. by eexists. }
  subst r. unfold applyPathHopRebalance. destruct (len d =? 0); [by left|].
  destruct (allowRebalanceDest d t) as [t1 ok]. destruct (HA t1 ok eq_refl) as [[-> ->]|(e' & -> & He)]; [by left|]. clear HA.
  right. exists e'. destruct ok; cbn [negb]; [|split_and!; [done|by right|done]].
  assert (HC : ∀ p st c, correctionOf d (set_paths p st c (set_rebalance (<[pathMapKey d := e']> (rebalanceByDest t)) t), true) = [(pathMapKey d, windowStart e')]).
  { intros p st c. unfold correctionOf. cbn. by rewrite lookup_insert_eq. }
  destruct (paths _ !! _); [destruct (match Interface _ with Some _ => _ | None => _ end)|]; cbn [fst]; (split; [done|]); (split; [|done]).
  - by right.
  - left. apply HC.
  - left. exact (HC (paths t) (pathStates t) (announcePacketCache t)).
Qed.

Lemma counted_correct `{Runtime} d hops i t l :
  table_ok t → counted t l →
  counted (applyPathHopRebalance d hops i t).1 (l ++ correctionOf d (applyPathHopRebalance d hops i t)).
Proof.
  intros Ht [Hmax Hown]. pose proof (ok_rebalance _ Ht) as Hr.
  destruct (rebalance_counter d hops i t) as [[E ->]|(e' & E & HC & He)]; [rewrite app_nil_r; split; [done|by rewrite E]|].
  set (k := pathMapKey d) in *.
  (* The corrections counted before, by the new counter. *)
  assert (HO : ∀ w, 0 < made (k, w) l → w <= windowStart e' ∧ (w = windowStart e' → made (k, w) l < count e')).
  { intros w Hw. destruct (Hown k w Hw) as (e & Hk & Hle & Hc). rewrite Hk in He. destruct He as [[? ?]|(E1 & E2 & _)]; [lia|].
    split; [lia|]. intros ->. rewrite E1 in *. specialize (Hc eq_refl). lia. }
  assert (He1 : 1 <= count e' <= rebalanceMaxPerDest).
  { destruct (rebalanceByDest t !! k) as [e|] eqn:Hk; [|unfold rebalanceMaxPerDest; lia]. pose proof (Hr _ _ Hk). cbn in *. unfold rebalanceMaxPerDest in *. lia. }
  split.
  - intros k' w. rewrite made_app. specialize (Hmax k' w). destruct HC as [->| ->]; [|change (made _ []) with 0; lia].
    rewrite made_one. case_bool_decide as Hx; [|lia]. injection Hx as <- <-.
    destruct (decide (0 < made (k, windowStart e') l)) as [Hp|]; [destruct (HO _ Hp) as [_ Hlt]; specialize (Hlt eq_refl)|]; lia.
  - intros k' w Hw. rewrite made_app in Hw. rewrite E. destruct (decide (k' = k)) as [->|Hne].
    + rewrite lookup_insert_eq. exists e'. split; [done|].
      destruct (decide (0 < made (k, w) l)) as [Hp|Hz].
      * destruct (HO w Hp) as [Hle Hlt]. split; [done|]. intros ->. specialize (Hlt eq_refl). rewrite made_app.
        destruct HC as [->| ->]; [rewrite made_one, bool_decide_eq_true_2 by done|change (made _ []) with 0]; lia.
      * destruct HC as [Hc|Hc]; rewrite Hc in *; [|change (made _ []) with 0 in Hw; lia]. rewrite made_one in Hw.
        case_bool_decide as Hx; [|lia]. injection Hx as <-. split; [done|]. intros _. rewrite made_app, made_one, bool_decide_eq_true_2 by done. lia.
    + rewrite lookup_insert_ne by done. replace (made (k', w) (l ++ _)) with (made (k', w) l); [apply Hown|rewrite made_app];
        destruct HC as [Hc|Hc]; rewrite Hc in *; rewrite ?made_one, ?bool_decide_eq_false_2 in * by congruence; try change (made (k', w) []) with 0 in *; lia.
Qed.

(** C38.  The path table is bounded in every reachable state: no sequence of
    updates, lookups, expiries, responsiveness marks, penalties, hop corrections
    and announce records, each at its own time, makes it exceed the configured
    number of paths, keep more than 64 or repeated random blobs on a path, remember
    more than 100000 announces or charge an interface a penalty outside 1..32; and
    of the hop corrections made for a destination never more than 8 are in the same
    window. *)
Theorem path_table_bounded t l t' :
  table_ok t → history t l t' → table_ok t' ∧ ∀ d w, made (pathMapKey d, w) l <= rebalanceMaxPerDest.
Proof.
  intros Ht HH. enough (table_ok t' ∧ counted t' l) as [? [? _]] by done.
  induction HH as [t|R t l t1 t2 HL _ IH Hstep|R d hops i t l t1 HL _ IH].
  - split; [done|]. split; [|intros k w]; [done|change (made _ []) with 0; lia].
  - destruct (IH Ht) as [H1 H2]. split; [by eapply table_step_ok|]. unfold counted. by rewrite (step_rebalanceByDest _ _ Hstep).
  - destruct (IH Ht) as [H1 H2]. split; [by apply rebalance_ok|by apply counted_correct].
Qed.

Lemma path_table_bounded_witness :
  let t := mkTable (Some (mkConfig 1 false false)) {[ "tcp"%string := 1%positive ]} ∅ ∅ ∅ ∅ ∅ ∅ ∅ in
  let t' := (applyPathHopRebalance (H:=testRuntime) [Byte.x02] 3 None (updatePathUnlocked (H:=testRuntime) [Byte.x02] [] "tcp" 1 [] 7 t)).1 in
  table_ok t' ∧ made (pathMapKey [Byte.x02], 1000) [(pathMapKey [Byte.x02], 1000)] <= rebalanceMaxPerDest.
Proof.
  intros t t'.
  assert (Ht : table_ok t) by (constructor; cbn; try done; apply map_Forall_empty).
  destruct (path_table_bounded t [(pathMapKey [Byte.x02], 1000)] t' Ht) as [H1 H2]; [|by split; [|apply H2]].
  change [(pathMapKey [Byte.x02], 1000)]
    with ([] ++ correctionOf [Byte.x02] (applyPathHopRebalance (H:=testRuntime) [Byte.x02] 3 None (updatePathUnlocked (H:=testRuntime) [Byte.x02] [] "tcp" 1 [] 7 t))).
  eapply (history_correct testRuntime); [apply _|]. eapply (history_step testRuntime); [apply _|apply history_nil|apply step_update].
Defined.
End PathTable.
