(* ===== verification/Identity.v ===== *)
(** * Package [identity]

    Key pairs, the encryption of single packets to an identity with and without
    ratchets, identity-level ratchets ([identity.go], [secure_keys.go]), and the
    process-wide tables of known destinations and announced ratchets
    ([identity.go], [known_clean.go], [known_ratchets.go]).  Random draws and
    clock readings are arguments; files are left to the operating system, so the
    tables are those of the in-memory mode. *)

From S2P Require Import Prelude.
From S2P Require Import Sha256.
From S2P Require Import Crypto.
From S2P Require Import Common.

(** ** X25519 ([golang.org/x/crypto/curve25519])

    Scalar multiplication fails on arguments of the wrong length and when the
    result is the all-zero point.  The laws are those of RFC 7748: a 32-byte
    scalar has a 32-byte public key and the two sides of an exchange agree. *)
Module X25519.

Class Curve := {
  scalarMult : bytes → bytes → option bytes;
  basepoint : bytes
}.

Class CurveLaws `{Curve} := {
  public_key : ∀ s, len s = 32 → ∃ p, scalarMult s basepoint = Some p ∧ len p = 32;
  agreement : ∀ a b pa pb, len a = 32 → len b = 32 →
    scalarMult a basepoint = Some pa → scalarMult b basepoint = Some pb →
    ∃ k, scalarMult a pb = Some k ∧ scalarMult b pa = Some k;
  scalarMult_len : ∀ s p k, scalarMult s p = Some k → len k = 32
}.

(** Addition of byte strings as a stand-in group, for evaluation. *)
Definition addBytes (x y : bytes) : bytes := zip_with (λ a b, z2b (b2z a + b2z b)) x y.

Definition additive : Curve := {|
  scalarMult s p := if (len s =? 32) && (len p =? 32) then Some (addBytes s p) else None;
  basepoint := replicate 32 Byte.x09
|}.

Lemma len_addBytes x y : len x = 32 → len y = 32 → len (addBytes x y) = 32.
Proof. unfold len, addBytes. rewrite length_zip_with. lia. Qed.

Lemma addBytes_swap x y z : addBytes x (addBytes y z) = addBytes y (addBytes x z).
Proof.
  unfold addBytes. revert y z. induction x as [|a x IH]; intros [|b y] [|c z]; cbn; try done.
  f_equal; [|apply IH]. rewrite !b2z_z2b, <- (z2b_mod (_ + _)), <- (z2b_mod (b2z b + _)).
  f_equal. rewrite !Z.add_mod_idemp_r by done. f_equal. lia.
Qed.

#[global] Instance additive_laws : @CurveLaws additive.
Proof.
  split.
  - intros s Hs. cbn [scalarMult basepoint additive]. rewrite Hs. eexists. split; [done|].
    by apply len_addBytes.
  - intros a b pa pb Ha Hb. cbn [scalarMult basepoint additive]. rewrite Ha, Hb. cbn [andb Z.eqb].
    intros [= <-] [= <-]. rewrite !len_addBytes by done. eexists. split; [done|].
    by rewrite addBytes_swap.
  - intros s p k. cbn [scalarMult additive]. destruct (andb _ _) eqn:E; [|done].
    apply andb_true_iff in E as [Hs%Z.eqb_eq Hp%Z.eqb_eq]. intros [= <-]. by apply len_addBytes.
Qed.
End X25519.

Module Identity.
Import Common.
Import (notations) X25519.
Local Open Scope go_scope.

Definition KeySize : Z := 512.
Definition RatchetSize : Z := 256.
Definition RatchetExpiry : Z := 2592000.
Definition TruncatedHashLength : Z := 128.
Definition NameHashLength : Z := 80.
Definition MaxRetainedRatchets : Z := 512.
Definition MaxKnownRatchets : Z := 2048.

Inductive identity_error :=
  | RandFailed
  | CurveFailed
  | NotExportable
  | NoPrivateKey
  | NoSigningKey
  | SignerFailed
  | CryptoRefused
  | TokenSize
  | TokenShort
  | RatchetEnforced
  | InvalidHMAC
  | KeyLength
  | DataShort
  | CipherFailed (e : Crypto.crypto_error).

(** Private halves are present on an own identity only.  The hash and the
    64-byte public key are caches of the two public halves. *)
Record Identity := mkIdentity {
  publicKey : bytes;
  verificationKey : bytes;
  privateKey : option bytes;
  signingSeed : option bytes;
  externalSigner : option (bytes → option bytes);
  ratchets : gmap bytes bytes;
  ratchetExpiry : gmap bytes Z
}.

Definition set_ratchets (r : gmap bytes bytes) (e : gmap bytes Z) (i : Identity) : Identity :=
  mkIdentity (publicKey i) (verificationKey i) (privateKey i) (signingSeed i) (externalSigner i) r e.

(** [copy] into a zeroed buffer of [n] bytes. *)
Definition fixed (n : nat) (l : bytes) : bytes := take n l ++ replicate (n - length l) x00.

Definition fullPublicKey (i : Identity) : bytes :=
  fixed 32 (publicKey i) ++ fixed 32 (verificationKey i).

Definition GetPublicKey (i : Identity) : bytes := fullPublicKey i.
Definition TruncatedHash (data : bytes) : bytes := take 16 (Sha256.Sum256 data).
Definition Hash (i : Identity) : bytes := TruncatedHash (fullPublicKey i).
Definition GetSalt (i : Identity) : bytes := Hash i.
Definition GetContext (_ : Identity) : bytes := [].
Definition GetRatchetID (ratchetPubBytes : bytes) : bytes := take 10 (Sha256.Sum256 ratchetPubBytes).

Definition publicKeyEqual (i : Identity) (key : bytes) : bool :=
  (len key =? KeySize `div` 8)
  && bool_decide (publicKey i = take 32 key) && bool_decide (verificationKey i = drop 32 key).

Definition FromPublicKey (key : bytes) : option Identity :=
  if negb (len key =? KeySize `div` 8) then None
  else Some (mkIdentity (take 32 key) (drop 32 key) None None None ∅ ∅).

Definition hasExportablePrivate (i : Identity) : bool :=
  match externalSigner i, privateKey i, signingSeed i with
  | None, Some k, Some s => (len k =? 32) && (len s =? 32)
  | _, _, _ => false
  end.

Definition hasDecryptPrivate (i : Identity) : bool :=
  match privateKey i with Some k => len k =? 32 | None => false end.

Definition GetPrivateKey (i : Identity) : outcome identity_error bytes :=
  match externalSigner i with
  | Some _ => Err NotExportable
  | None =>
      match privateKey i, signingSeed i with
      | Some k, Some s => if hasExportablePrivate i then Ok (k ++ s) else Err NoPrivateKey
      | _, _ => Err NoPrivateKey
      end
  end.

(** Errors of [cryptography] are returned as they are. *)
Definition crypt {A} (r : outcome Crypto.crypto_error A) : outcome identity_error A :=
  match r with Ok a => Ok a | Err e => Err (CipherFailed e) | Panic => Panic end.

(** [DeriveIdentityKeyMaterial]: HKDF-SHA256 of [golang.org/x/crypto/hkdf]
    read for 64 bytes. *)
Definition hkdf64 (secret salt info : bytes) : bytes :=
  let salt := if len salt =? 0 then Crypto.hkdfZeroSalt else salt in
  Crypto.hkdfExpand 2 0 (Hmac.mac salt secret) [] info.

Definition DeriveIdentityKeyMaterial (secret salt context : bytes) : bytes :=
  hkdf64 secret salt context.

Definition encryptWithHMACInfo : bytes :=
  String.list_byte_of_string "identity.EncryptWithHMAC.v1".

Definition ExpandEncryptWithHMACKeyMaterial (key32 : bytes) : bytes * bytes :=
  let out := hkdf64 key32 (replicate 32 x00) encryptWithHMACInfo in (take 32 out, drop 32 out).

Definition splitKey (key : bytes) : outcome identity_error (bytes * bytes) :=
  if len key =? 64 then Ok (take 32 key, drop 32 key)
  else if len key =? 32 then Ok (ExpandEncryptWithHMACKeyMaterial key)
  else Err KeyLength.

Definition EncryptWithHMAC (rand : option bytes) (plaintext key : bytes) : outcome identity_error bytes :=
  '(hmacKey, encryptionKey) ← splitKey key;
  ciphertext ← crypt (Crypto.implEncryptAES256CBC rand encryptionKey plaintext);
  Ok (ciphertext ++ Crypto.ComputeHMAC hmacKey ciphertext).

Definition DecryptWithHMAC (data key : bytes) : outcome identity_error bytes :=
  if len data <? 32 then Err DataShort
  else
    '(hmacKey, encryptionKey) ← splitKey key;
    let macStart := len data - 32 in
    ciphertext ← go_slice 0 macStart data;
    messageMAC ← go_slice macStart (len data) data;
    if negb (Crypto.ValidateHMAC hmacKey ciphertext messageMAC) then Err InvalidHMAC
    else crypt (Crypto.implDecryptAES256CBC encryptionKey ciphertext).

Section curve.
Context `{X25519.Curve} `{Ed25519.Scheme}.

Definition PublicKeyFromPrivate (priv : bytes) : outcome identity_error bytes :=
  match X25519.scalarMult priv X25519.basepoint with Some p => Ok p | None => Err CurveFailed end.
Definition DeriveSharedSecret (priv peer : bytes) : outcome identity_error bytes :=
  match X25519.scalarMult priv peer with Some k => Ok k | None => Err CurveFailed end.
Definition GenerateKeyPair (rand : option bytes) : outcome identity_error (bytes * bytes) :=
  match rand with
  | None => Err RandFailed
  | Some priv => pub ← PublicKeyFromPrivate priv; Ok (priv, pub)
  end.

Definition FromBytes (data : bytes) : outcome identity_error Identity :=
  if negb (len data =? 64) then Err KeyLength
  else
    let priv := take 32 data in
    let seed := drop 32 data in
    pub ← PublicKeyFromPrivate priv;
    Ok (mkIdentity pub (Ed25519.publicKey seed) (Some priv) (Some seed) None ∅ ∅).

Definition Sign (i : Identity) (data : bytes) : outcome identity_error bytes :=
  match externalSigner i with
  | Some signer => match signer data with Some s => Ok s | None => Err SignerFailed end
  | None =>
      match signingSeed i with
      | None => Err NoSigningKey
      | Some seed => Ok (Ed25519.sign seed data)
      end
  end.

Definition Verify (i : Identity) (data signature : bytes) : bool :=
  Ed25519.verify (verificationKey i) data signature.

(** [rand] is the ephemeral private key, [iv] the initialisation vector. *)
Definition Encrypt (rand iv : option bytes) (i : Identity) (plaintext ratchet : bytes)
    : outcome identity_error bytes :=
  '(ephemeralPrivKey, ephemeralPubKey) ← GenerateKeyPair rand;
  let targetKey := if 0 <? len ratchet then ratchet else publicKey i in
  sharedSecret ← DeriveSharedSecret ephemeralPrivKey targetKey;
  let key := DeriveIdentityKeyMaterial sharedSecret (GetSalt i) (GetContext i) in
  let hmacKey := take 32 key in
  let encryptionKey := drop 32 key in
  ciphertext ← crypt (Crypto.implEncryptAES256CBC iv encryptionKey plaintext);
  let mac := Crypto.ComputeHMAC hmacKey ciphertext in
  Ok (ephemeralPubKey ++ ciphertext ++ mac).

(** The derivation, MAC check and decryption shared by both key kinds. *)
Definition openWith (priv : bytes) (i : Identity) (peerPubBytes ciphertext mac : bytes)
    : outcome identity_error bytes :=
  sharedSecret ← DeriveSharedSecret priv peerPubBytes;
  let key := DeriveIdentityKeyMaterial sharedSecret (GetSalt i) (GetContext i) in
  if negb (Crypto.ValidateHMAC (take 32 key) ciphertext mac) then Err InvalidHMAC
  else crypt (Crypto.implDecryptAES256CBC (drop 32 key) ciphertext).

Definition tryRatchetDecryption (i : Identity) (peerPubBytes ciphertext mac ratchet : bytes)
    : outcome identity_error (bytes * bytes) :=
  ratchetPubBytes ← PublicKeyFromPrivate ratchet;
  let ratchetID := GetRatchetID ratchetPubBytes in
  plaintext ← openWith ratchet i peerPubBytes ciphertext mac;
  Ok (plaintext, ratchetID).

(** The loop over the ratchets, stopped by the first success. *)
Fixpoint tryRatchets (i : Identity) (peerPubBytes ciphertext mac : bytes) (rs : list bytes)
    : outcome identity_error (option (bytes * bytes)) :=
  match rs with
  | [] => Ok None
  | r :: rs =>
      match tryRatchetDecryption i peerPubBytes ciphertext mac r with
      | Ok d => Ok (Some d)
      | Err _ => tryRatchets i peerPubBytes ciphertext mac rs
      | Panic => Panic
      end
  end.

(** The plaintext with the id of the ratchet that opened it; [allow] is the
    verdict of [protect.AdmitCrypto]. *)
Definition Decrypt (allow : bool) (i : Identity) (ciphertextToken : bytes) (rs : list bytes)
    (enforceRatchets : bool) : outcome identity_error (bytes * option bytes) :=
  match privateKey i with
  | Some priv =>
      if negb (hasDecryptPrivate i) then Err NoPrivateKey
      else if negb allow then Err CryptoRefused
      else if len ciphertextToken <=? KeySize `div` 8 `div` 2 then Err TokenSize
      else if len ciphertextToken <? 32 + 32 + 32 then Err TokenShort
      else
        let n := len ciphertextToken in
        peerPubBytes ← go_slice 0 32 ciphertextToken;
        ciphertext ← go_slice 32 (n - 32) ciphertextToken;
        mac ← go_slice (n - 32) n ciphertextToken;
        found ← tryRatchets i peerPubBytes ciphertext mac rs;
        match found with
        | Some (plaintext, ratchetID) => Ok (plaintext, Some ratchetID)
        | None =>
            if enforceRatchets then Err RatchetEnforced
            else
              plaintext ← openWith priv i peerPubBytes ciphertext mac;
              Ok (plaintext, None)
        end
  | None => Err NoPrivateKey
  end.
End curve.

(** ** Identity-level ratchets *)

Section ratchet_ops.
Context `{X25519.Curve} `{Runtime}.

(** The search for the entry that expires first, among those before [oldestTime]. *)
Definition oldestRatchet (now : Z) (e : gmap bytes Z) : bytes :=
  (foldl (λ (acc : bytes * Z) (kv : bytes * Z), if kv.2 <? acc.2 then kv else acc)
     ([], now) (mapOrder e)).1.

(** [now] and [later] are the two clock readings, in seconds. *)
Definition RotateRatchet (rand : option bytes) (now later : Z) (i : Identity)
    : outcome identity_error (Identity * bytes) :=
  match rand with
  | None => Err RandFailed
  | Some newRatchet =>
      ratchetPub ← PublicKeyFromPrivate newRatchet;
      let ratchetID := GetRatchetID ratchetPub in
      let expiry := now + RatchetExpiry in
      let r := <[ratchetID := newRatchet]> (ratchets i) in
      let e := <[ratchetID := expiry]> (ratchetExpiry i) in
      if MaxRetainedRatchets <? Z.of_nat (size r) then
        let oldestID := oldestRatchet later e in
        Ok (set_ratchets (delete oldestID r) (delete oldestID e) i, newRatchet)
      else Ok (set_ratchets r e i, newRatchet)
  end.

Definition GetCurrentRatchetKey (i : Identity) : bytes :=
  (foldl (λ (acc : bytes * Z) (kv : bytes * Z),
      if acc.2 <? kv.2 then (default acc.1 (ratchets i !! kv.1), kv.2) else acc)
    ([], 0) (mapOrder (ratchetExpiry i))).1.

Definition expireRatchets (now : Z) (i : Identity) : Identity :=
  foldl (λ i kv, if kv.2 <=? now
      then set_ratchets (delete kv.1 (ratchets i)) (delete kv.1 (ratchetExpiry i)) i else i)
    i (mapOrder (ratchetExpiry i)).

Definition GetRatchets (now : Z) (i : Identity) : Identity * list bytes :=
  (expireRatchets now i,
   omap (λ kv, if now <? kv.2 then ratchets i !! kv.1 else None) (mapOrder (ratchetExpiry i))).

Definition CleanupExpiredRatchets (now : Z) (i : Identity) : Identity := expireRatchets now i.
End ratchet_ops.

(** ** Facts *)

Lemma fixed_exact n l : len l = Z.of_nat n → fixed n l = l.
Proof.
  intros Hl. unfold fixed, len in *. rewrite take_ge by lia.
  replace (n - length l)%nat with 0%nat by lia. by rewrite app_nil_r.
Qed.

Lemma len_hkdf64 secret salt info : len (hkdf64 secret salt info) = 64.
Proof. unfold hkdf64. by rewrite Crypto.len_hkdfExpand. Qed.

Lemma seal256 iv ek p :
  len ek = 32 → len iv = 16 →
  ∃ body, Crypto.implEncryptAES256CBC (Some iv) ek p = Ok body ∧ 32 <= len body
    ∧ Crypto.implDecryptAES256CBC ek body = Ok p.
Proof.
  intros Hk Hiv. destruct (Crypto.seal_open ek iv p Hiv) as (body & Hs & Hl & Ho).
  exists body. unfold Crypto.implEncryptAES256CBC, Crypto.implDecryptAES256CBC.
  rewrite Hk. cbn [negb Z.eqb]. done.
Qed.

Lemma splitKey_cases key :
  (∃ hk ek, splitKey key = Ok (hk, ek) ∧ len ek = 32) ∨ splitKey key = Err KeyLength.
Proof.
  unfold splitKey. destruct (Z.eqb_spec (len key) 64) as [Hk|];
    [|destruct (Z.eqb_spec (len key) 32) as [Hk|]; [|by right]]; left; eexists _, _; (split; [done|]).
  - rewrite len_drop. lia.
  - rewrite len_drop, len_hkdf64. lia.
Qed.

(** The message authenticated by a key pair. *)
Lemma mac_slices (body mac : bytes) :
  len mac = 32 →
  slice 0 (len (body ++ mac) - 32) (body ++ mac) = body
  ∧ slice (len (body ++ mac) - 32) (len (body ++ mac)) (body ++ mac) = mac.
Proof.
  intros Hm. rewrite len_app, Hm. split.
  - rewrite slice_0. apply take_app_mid. unfold len. lia.
  - apply slice_app_tail; lia.
Qed.

Section curve_facts.
Context `{X25519.CurveLaws} `{Ed25519.Scheme}.

(** What a private key opens of a message sealed to its public key. *)
Lemma openWith_Encrypt eph priv i iv p target epub :
  len eph = 32 → len priv = 32 → len iv = 16 →
  PublicKeyFromPrivate eph = Ok epub → PublicKeyFromPrivate priv = Ok target →
  ∃ body mac, len mac = 32 ∧ 32 <= len body ∧ len epub = 32
    ∧ (∀ ratchet, (if 0 <? len ratchet then ratchet else publicKey i) = target →
        Encrypt (Some eph) (Some iv) i p ratchet = Ok (epub ++ body ++ mac))
    ∧ openWith priv i epub body mac = Ok p.
Proof.
  unfold PublicKeyFromPrivate. intros He Hp Hiv Hepub Htarget.
  destruct (X25519.public_key eph He) as (pe & Hpe & Hlpe). rewrite Hpe in Hepub. injection Hepub as ->.
  destruct (X25519.public_key priv Hp) as (pt & Hpt & Hlpt). rewrite Hpt in Htarget. injection Htarget as ->.
  destruct (X25519.agreement eph priv _ _ He Hp Hpe Hpt) as (k & Hk1 & Hk2).
  set (key := DeriveIdentityKeyMaterial k (GetSalt i) (GetContext i)).
  destruct (seal256 iv (drop 32 key) p) as (body & Henc & Hlb & Hdec).
  { subst key. unfold DeriveIdentityKeyMaterial. rewrite len_drop, len_hkdf64. lia. } { done. }
  exists body, (Crypto.ComputeHMAC (take 32 key) body).
  split_and!; [apply Hmac.len_mac|done|done| |].
  - intros ratchet Hr. unfold Encrypt, GenerateKeyPair, PublicKeyFromPrivate. rewrite Hpe.
    cbn [mbind outcome_bind]. rewrite Hr. unfold DeriveSharedSecret. rewrite Hk1.
    cbn [mbind outcome_bind]. fold key. by rewrite Henc.
  - unfold openWith, DeriveSharedSecret. rewrite Hk2. cbn [mbind outcome_bind]. fold key.
    unfold Crypto.ValidateHMAC. rewrite bool_decide_eq_true_2 by done. cbn [negb]. by rewrite Hdec.
Qed.

(** The fields of a token. *)
Lemma token_slices (epub body mac : bytes) :
  len epub = 32 → len mac = 32 →
  let token := epub ++ body ++ mac in
  slice 0 32 token = epub ∧ slice 32 (len token - 32) token = body
  ∧ slice (len token - 32) (len token) token = mac.
Proof.
  intros He Hm token. subst token. split_and!.
  - rewrite slice_0. apply take_app_mid. unfold len in He. lia.
  - rewrite !len_app, He, Hm. replace (32 + (len body + 32) - 32) with (32 + len body) by lia.
    apply slice_app_mid; lia.
  - rewrite app_assoc. apply slice_app_tail; rewrite !len_app; lia.
Qed.

Definition peerOf (token : bytes) : bytes := slice 0 32 token.
Definition bodyOf (token : bytes) : bytes := slice 32 (len token - 32) token.
Definition macOf (token : bytes) : bytes := slice (len token - 32) (len token) token.

Lemma token_fields token : 64 <= len token → token = peerOf token ++ bodyOf token ++ macOf token.
Proof.
  intros Hl. unfold peerOf, bodyOf, macOf. rewrite slice_0, slice_to_end by lia. unfold slice.
  replace (drop (Z.to_nat (len token - 32)) token)
    with (drop (Z.to_nat (len token - 32 - 32)) (drop (Z.to_nat 32) token))
    by (rewrite drop_drop; f_equal; lia).
  by rewrite !take_drop.
Qed.

(** A ratchet opens a token when it authenticates and unpads it. *)
Definition opens (i : Identity) (token r : bytes) : Prop :=
  ∃ d, tryRatchetDecryption i (peerOf token) (bodyOf token) (macOf token) r = Ok d.

Lemma openWith_no_panic priv i peer body mac : openWith priv i peer body mac ≠ Panic.
Proof.
  unfold openWith, DeriveSharedSecret. destruct (X25519.scalarMult priv peer); [|done].
  cbn [mbind outcome_bind]. case_match; [done|]. unfold crypt, Crypto.implDecryptAES256CBC.
  case_match eqn:Hr; [done..|]. revert Hr. case_match; [done|]. intros Hr.
  by apply Crypto.openCBC_no_panic in Hr.
Qed.

Lemma tryRatchet_cases i peer body mac r :
  (∃ e, tryRatchetDecryption i peer body mac r = Err e)
  ∨ ∃ p rpub, PublicKeyFromPrivate r = Ok rpub ∧ openWith r i peer body mac = Ok p
      ∧ tryRatchetDecryption i peer body mac r = Ok (p, GetRatchetID rpub).
Proof.
  unfold tryRatchetDecryption, PublicKeyFromPrivate. pose proof (openWith_no_panic r i peer body mac).
  destruct (X25519.scalarMult r X25519.basepoint) as [rpub|]; cbn [mbind outcome_bind]; [|by left; eexists].
  destruct (openWith r i peer body mac) as [p|e|]; cbn [mbind outcome_bind]; [right|by left; eexists|done].
  by exists p, rpub.
Qed.

(** The loop finds the first ratchet that opens the token. *)
Lemma tryRatchets_spec i token rs :
  let r := tryRatchets i (peerOf token) (bodyOf token) (macOf token) rs in
  (r = Ok None ∧ Forall (λ x, ¬ opens i token x) rs)
  ∨ ∃ before x after p rpub, rs = before ++ x :: after ∧ Forall (λ x, ¬ opens i token x) before
      ∧ PublicKeyFromPrivate x = Ok rpub
      ∧ openWith x i (peerOf token) (bodyOf token) (macOf token) = Ok p
      ∧ r = Ok (Some (p, GetRatchetID rpub)).
Proof.
  induction rs as [|x rs IH]; cbn [tryRatchets]; [by left|].
  destruct (tryRatchet_cases i (peerOf token) (bodyOf token) (macOf token) x)
    as [(e & He)|(p & rpub & Hpub & Hopen & He)]; rewrite He.
  - assert (Hn : ¬ opens i token x) by (intros [d Hd]; congruence).
    destruct IH as [[-> Hall]|(before & y & after & p & rpub & -> & Hb & Hr)].
    + left. by repeat constructor.
    + right. exists (x :: before), y, after, p, rpub. split_and!; try done; [by constructor|apply Hr..].
  - right. by exists [], x, rs, p, rpub.
Qed.

(** [Decrypt] on a token of valid size. *)
Lemma Decrypt_eq i token rs enforce priv :
  privateKey i = Some priv → len priv = 32 → 96 <= len token →
  Decrypt true i token rs enforce =
  (found ← tryRatchets i (peerOf token) (bodyOf token) (macOf token) rs;
   match found with
   | Some (plaintext, ratchetID) => Ok (plaintext, Some ratchetID)
   | None =>
       if enforce then Err RatchetEnforced
       else plaintext ← openWith priv i (peerOf token) (bodyOf token) (macOf token);
            Ok (plaintext, None)
   end).
Proof.
  intros Hp Hl Ht. unfold Decrypt, hasDecryptPrivate. rewrite Hp, Hl. cbn [negb Z.eqb Pos.eqb].
  change (KeySize `div` 8 `div` 2) with 32. rewrite (proj2 (Z.leb_gt _ _)) by lia.
  rewrite (proj2 (Z.ltb_ge _ _)) by lia. rewrite !go_slice_Ok by lia. done.
Qed.

(** An own identity and what others know of it. *)
Lemma FromBytes_public priv seed :
  len priv = 32 → len seed = 32 → len (Ed25519.publicKey seed) = 32 →
  ∃ own pub, FromBytes (priv ++ seed) = Ok own ∧ FromPublicKey (GetPublicKey own) = Some pub
    ∧ privateKey own = Some priv ∧ PublicKeyFromPrivate priv = Ok (publicKey own)
    ∧ publicKey pub = publicKey own ∧ Hash pub = Hash own ∧ len (publicKey own) = 32
    ∧ verificationKey pub = Ed25519.publicKey seed ∧ signingSeed own = Some seed
    ∧ externalSigner own = None ∧ verificationKey own = Ed25519.publicKey seed.
Proof.
  intros Hp Hs Hv. destruct (X25519.public_key priv Hp) as (pk & Hpk & Hlpk).
  assert (Ht : take 32 (priv ++ seed) = priv) by (apply take_app_mid; unfold len in Hp; lia).
  assert (Hd : drop 32 (priv ++ seed) = seed) by (apply drop_app_length'; unfold len in Hp; lia).
  unfold FromBytes. rewrite len_app, Hp, Hs, Ht, Hd. cbn [negb Z.eqb]. unfold PublicKeyFromPrivate.
  rewrite Hpk. cbn [mbind outcome_bind].
  set (own := mkIdentity _ _ _ _ _ _ _). exists own.
  assert (Hfull : fullPublicKey own = pk ++ Ed25519.publicKey seed).
  { unfold fullPublicKey, own. cbn [publicKey verificationKey]. by rewrite !fixed_exact. }
  unfold FromPublicKey, GetPublicKey. rewrite Hfull, len_app, Hlpk, Hv.
  change (KeySize `div` 8) with 64. cbn [negb Z.eqb Z.add Pos.add Pos.eqb].
  assert (Ht' : take 32 (pk ++ Ed25519.publicKey seed) = pk) by (apply take_app_mid; unfold len in Hlpk; lia).
  assert (Hd' : drop 32 (pk ++ Ed25519.publicKey seed) = Ed25519.publicKey seed)
    by (apply drop_app_length'; unfold len in Hlpk; lia).
  rewrite Ht', Hd'. eexists. split_and!; try done.
Qed.
End curve_facts.

(** ** Encryption to an identity *)

Section sealed.
Context `{X25519.CurveLaws} `{Ed25519.SchemeLaws}.

(** A message sealed to the target key is opened by its private key. *)
Lemma sealed_opens priv0 seed eph iv p priv target :
  len priv0 = 32 → len seed = 32 → len eph = 32 → len iv = 16 → len priv = 32 →
  PublicKeyFromPrivate priv = Ok target → 
  ∃ own pub, FromBytes (priv0 ++ seed) = Ok own ∧ FromPublicKey (GetPublicKey own) = Some pub
    ∧ privateKey own = Some priv0 ∧ PublicKeyFromPrivate priv0 = Ok (publicKey own)
    ∧ publicKey pub = publicKey own ∧ len target = 32
    ∧ ∃ token, 96 <= len token ∧ openWith priv own (peerOf token) (bodyOf token) (macOf token) = Ok p
      ∧ ∀ ratchet, (if 0 <? len ratchet then ratchet else publicKey pub) = target →
          Encrypt (Some eph) (Some iv) pub p ratchet = Ok token.
Proof.
  intros Hp0 Hs He Hiv Hp Htarget.
  destruct (FromBytes_public priv0 seed Hp0 Hs (Ed25519.publicKey_len seed))
    as (own & pub & Hown & Hpub & Hpriv & Hpk & Hpk' & Hhash & Hlen & _).
  destruct (X25519.public_key eph He) as (epub & Hepub & _).
  assert (Hepub' : PublicKeyFromPrivate eph = Ok epub) by (unfold PublicKeyFromPrivate; by rewrite Hepub).
  destruct (openWith_Encrypt eph priv pub iv p target epub He Hp Hiv Hepub' Htarget)
    as (body & mac & Hmac & Hbody & Hle & Henc & Hopen).
  exists own, pub. split_and!; try done.
  { destruct (X25519.public_key priv Hp) as (pt & Hpt & Hlpt).
    unfold PublicKeyFromPrivate in Htarget. rewrite Hpt in Htarget. by injection Htarget as <-. }
  exists (epub ++ body ++ mac). unfold peerOf, bodyOf, macOf.
  destruct (token_slices epub body mac Hle Hmac) as (-> & -> & ->).
  split_and!; [rewrite !len_app; lia| |done].
  revert Hopen. unfold openWith, GetSalt. by rewrite Hhash.
Qed.

(** C25.  Encryption to an identity: whatever a peer that only knows the 64 public
    bytes seals, the owner opens.  Without a ratchet the identity key opens it,
    unless the owner enforces ratchets, which is an error; sealed to a ratchet of
    the owner's list it is opened by that ratchet, enforced or not, and reported
    under that ratchet's id (a ratchet tried earlier opening it as well would
    need the same message key to authenticate). *)
Theorem identity_roundtrip priv seed eph iv p :
  len priv = 32 → len seed = 32 → len eph = 32 → len iv = 16 →
  ∃ own pub, FromBytes (priv ++ seed) = Ok own ∧ FromPublicKey (GetPublicKey own) = Some pub
  ∧ (∃ token, Encrypt (Some eph) (Some iv) pub p [] = Ok token
      ∧ ∀ rs, Forall (λ r, ¬ opens own token r) rs →
          Decrypt true own token rs false = Ok (p, None)
          ∧ Decrypt true own token rs true = Err RatchetEnforced)
  ∧ ∀ r rpub before after enforce, len r = 32 → PublicKeyFromPrivate r = Ok rpub →
      ∃ token, Encrypt (Some eph) (Some iv) pub p rpub = Ok token
        ∧ (Forall (λ r, ¬ opens own token r) before →
            Decrypt true own token (before ++ r :: after) enforce = Ok (p, Some (GetRatchetID rpub))).
Proof.
  intros Hp Hs He Hiv. destruct (X25519.public_key priv Hp) as (pk & Hpk & _).
  assert (Hpk' : PublicKeyFromPrivate priv = Ok pk) by (unfold PublicKeyFromPrivate; by rewrite Hpk).
  destruct (sealed_opens priv seed eph iv p priv pk Hp Hs He Hiv Hp Hpk')
    as (own & pub & Hown & Hpub & Hpriv & Hpk2 & Hpk3 & _ & token & Hlt & Hopen & Henc).
  exists own, pub. split_and!; [done..| |].
  - exists token. split; [apply Henc; change (0 <? len []) with false; cbv iota; congruence|]. intros rs Hrs.
    assert (Hnone : tryRatchets own (peerOf token) (bodyOf token) (macOf token) rs = Ok None).
    { destruct (tryRatchets_spec own token rs) as [[-> _]|(b & x & a & q & rp & -> & _ & Hx & Ho & _)]; [done|].
      apply Forall_app in Hrs as [_ Hrs]. inversion Hrs as [|?? Hn _]; subst. destruct Hn.
      unfold opens, tryRatchetDecryption. rewrite Hx. cbn [mbind outcome_bind]. rewrite Ho. by eexists. }
    rewrite !(Decrypt_eq own token rs _ priv), Hnone by done. cbn [mbind outcome_bind].
    by rewrite Hopen.
  - intros r rpub before after enforce Hr Hrpub.
    destruct (sealed_opens priv seed eph iv p r rpub Hp Hs He Hiv Hr Hrpub)
      as (own' & pub' & Hown' & Hpub' & _ & _ & _ & Hlr & token' & Hlt' & Hopen' & Henc').
    rewrite Hown in Hown'. injection Hown' as <-. rewrite Hpub in Hpub'. injection Hpub' as <-.
    exists token'. split; [apply Henc'; by rewrite Hlr|]. intros Hb.
    rewrite (Decrypt_eq own token' _ _ priv) by done.
    assert (Hop : opens own token' r).
    { unfold opens, tryRatchetDecryption. rewrite Hrpub. cbn [mbind outcome_bind]. rewrite Hopen'. by eexists. }
    assert (Hfound : tryRatchets own (peerOf token') (bodyOf token') (macOf token') (before ++ r :: after)
              = Ok (Some (p, GetRatchetID rpub))).
    { clear -Hb Hrpub Hopen'. induction before as [|x before IH]; cbn [app tryRatchets].
      - unfold tryRatchetDecryption. rewrite Hrpub. cbn [mbind outcome_bind]. by rewrite Hopen'.
      - inversion Hb as [|?? Hn Hb']; subst.
        destruct (tryRatchet_cases own (peerOf token') (bodyOf token') (macOf token') x)
          as [(e & ->)|(q & rp & _ & _ & Hx)]; [by apply IH|].
        destruct Hn. by eexists. }
    by rewrite Hfound.
Qed.

End sealed.

Section authentic.
Context `{X25519.Curve}.

(** C26.  Authenticity of decryption: [Decrypt] never panics, and a plaintext
    comes only from a token that ends in the HMAC of its ciphertext under a key
    agreed between the token's ephemeral key and either one of the given ratchets,
    whose id is then reported, or, when ratchets are not enforced, the identity's
    own key. *)
Theorem decrypt_authentic allow i token rs enforce :
  Decrypt allow i token rs enforce ≠ Panic
  ∧ ∀ p rid, Decrypt allow i token rs enforce = Ok (p, rid) →
      allow = true
      ∧ ∃ priv shared, 
          ((∃ rpub, priv ∈ rs ∧ PublicKeyFromPrivate priv = Ok rpub ∧ rid = Some (GetRatchetID rpub))
           ∨ privateKey i = Some priv ∧ enforce = false ∧ rid = None)
          ∧ X25519.scalarMult priv (peerOf token) = Some shared
          ∧ let key := DeriveIdentityKeyMaterial shared (Hash i) [] in
            token = peerOf token ++ bodyOf token ++ Crypto.ComputeHMAC (take 32 key) (bodyOf token)
            ∧ Crypto.implDecryptAES256CBC (drop 32 key) (bodyOf token) = Ok p.
Proof.
  destruct (privateKey i) as [priv|] eqn:Hpriv; [|unfold Decrypt; by rewrite Hpriv].
  destruct (decide (len priv = 32 ∧ allow = true ∧ 96 <= len token)) as [(Hl & -> & Ht)|Hbad]; cycle 1.
  { assert (Herr : ∃ e, Decrypt allow i token rs enforce = Err e).
    { unfold Decrypt, hasDecryptPrivate. rewrite Hpriv.
      destruct (Z.eqb_spec (len priv) 32); [|by eexists]. destruct allow; [|by eexists].
      cbn [negb]. destruct (Z.leb_spec (len token) (KeySize `div` 8 `div` 2)); [by eexists|].
      destruct (Z.ltb_spec (len token) (32 + 32 + 32)); [by eexists|]. destruct Hbad. split_and!; [done..|lia]. }
    destruct Herr as [e ->]. done. }
  rewrite (Decrypt_eq i token rs enforce priv Hpriv Hl Ht).
  assert (Hopen : ∀ k p, openWith k i (peerOf token) (bodyOf token) (macOf token) = Ok p →
    ∃ shared, X25519.scalarMult k (peerOf token) = Some shared
      ∧ let key := DeriveIdentityKeyMaterial shared (Hash i) [] in
        token = peerOf token ++ bodyOf token ++ Crypto.ComputeHMAC (take 32 key) (bodyOf token)
        ∧ Crypto.implDecryptAES256CBC (drop 32 key) (bodyOf token) = Ok p).
  { intros k p. unfold openWith, DeriveSharedSecret. destruct (X25519.scalarMult k _) as [shared|]; [|done].
    cbn [mbind outcome_bind]. unfold Crypto.ValidateHMAC. case_bool_decide as Hm; [|done]. cbn [negb].
    unfold crypt. case_match eqn:Hd; [|done..]. intros [= ->]. exists shared. split_and!; [done| |done].
    unfold GetSalt, GetContext in Hm. rewrite <- Hm. apply token_fields. lia. }
  destruct (tryRatchets_spec i token rs) as [[-> _]|(b & x & a & q & rp & -> & _ & Hx & Ho & ->)];
    cbn [mbind outcome_bind].
  - destruct enforce; [done|]. pose proof (openWith_no_panic priv i (peerOf token) (bodyOf token) (macOf token)).
    destruct (openWith priv i _ _ _) as [p|e|] eqn:Ho; cbn [mbind outcome_bind]; [|done|done].
    split; [done|]. intros p' rid [= <- <-]. split; [done|].
    destruct (Hopen _ _ Ho) as (shared & Hsh & Hk). exists priv, shared. split_and!; [by right|done|apply Hk..].
  - split; [done|]. intros p' rid [= <- <-]. split; [done|].
    destruct (Hopen _ _ Ho) as (shared & Hsh & Hk). exists x, shared.
    split_and!; [left; exists rp; split_and!; [set_solver|done|done]|done|apply Hk..].
Qed.
End authentic.

Lemma identity_roundtrip_witness :
  let priv := replicate 32 Byte.x01 in
  let seed := replicate 32 Byte.x02 in
  let eph := replicate 32 Byte.x03 in
  let iv := replicate 16 Byte.x04 in
  ∃ own pub token,
    @FromBytes X25519.additive Ed25519.hashScheme (priv ++ seed) = Ok own
    ∧ @Encrypt X25519.additive (Some eph) (Some iv) pub [Byte.x68; Byte.x69] [] = Ok token
    ∧ @Decrypt X25519.additive true own token [] false = Ok ([Byte.x68; Byte.x69], None).
Proof.
  intros priv seed eph iv.
  destruct (@identity_roundtrip X25519.additive X25519.additive_laws Ed25519.hashScheme
              Ed25519.hashScheme_laws priv seed eph iv [Byte.x68; Byte.x69]) as (own & pub & Hown & _ & Hnr & _);
    [reflexivity..|].
  destruct Hnr as (token & Henc & Hdec). exists own, pub, token.
  split_and!; [exact Hown|exact Henc|]. apply (Hdec []). constructor.
Defined.

(** ** Retained ratchets *)

Section retained.
Context `{X25519.Curve} `{RuntimeLaws}.

Lemma oldest_none now e :
  map_Forall (λ _ exp, now <= exp) e → oldestRatchet now e = [].
Proof.
  intros He. unfold oldestRatchet.
  assert (Hl : Forall (λ kv : bytes * Z, now <= kv.2) (mapOrder e)).
  { rewrite (mapOrder_perm e). apply Forall_forall. intros [k v] Hin%list_elem_of_In.
    apply elem_of_map_to_list in Hin. by apply (He k v). }
  induction Hl as [|kv l Hkv _ IH]; [done|]. cbn [foldl]. by rewrite (proj2 (Z.ltb_ge _ _)).
Qed.

Lemma ratchetID_nonempty pub : GetRatchetID pub ≠ [].
Proof.
  unfold GetRatchetID. intros Hn. apply (f_equal len) in Hn.
  rewrite len_take, Sha256.len_Sum256 in Hn. done.
Qed.

(** The limit on retained identity ratchets is not enforced: the search for
    the ratchet to drop only considers those that expired before the call, so
    while none has, every rotation to a new ratchet id adds an entry, past
    [MaxRetainedRatchets] as well. *)
Theorem ratchet_limit_unenforced newRatchet now later i i' out pub :
  map_Forall (λ k exp, later <= exp ∧ k ≠ []) (ratchetExpiry i) →
  ratchets i !! [] = None →
  later <= now + RatchetExpiry →
  PublicKeyFromPrivate newRatchet = Ok pub → ratchets i !! GetRatchetID pub = None →
  RotateRatchet (Some newRatchet) now later i = Ok (i', out) →
  size (ratchets i') = S (size (ratchets i)) ∧ out = newRatchet
  ∧ ratchets i' !! GetRatchetID pub = Some newRatchet.
Proof.
  intros He Hnil Hlater Hpub Hnew. unfold RotateRatchet. rewrite Hpub. cbn [mbind outcome_bind].
  assert (Hne := ratchetID_nonempty pub).
  assert (Hold : oldestRatchet later (<[GetRatchetID pub := now + RatchetExpiry]> (ratchetExpiry i)) = []).
  { apply oldest_none, map_Forall_insert_2; [done|]. intros k v Hk. by apply (He k v). }
  rewrite Hold. case_match; intros [= <- <-]; cbn [ratchets set_ratchets].
  - rewrite map_size_delete_None, map_size_insert_None, lookup_delete_ne by
      (rewrite ?lookup_insert_ne; done). by rewrite lookup_insert_eq.
  - rewrite map_size_insert_None by done. by rewrite lookup_insert_eq.
Qed.
End retained.

#[local] Existing Instance testRuntime.
#[local] Existing Instance X25519.additive.

(** An identity that already retains the limit, none of it expired. *)
Definition full_identity : Identity :=
  let ids := (λ k, [z2b (k `div` 256); z2b k]) <$> seqZ 0 512 in
  mkIdentity [] [] None None None (list_to_map ((λ id, (id, [Byte.x01])) <$> ids))
    (list_to_map ((λ id, (id, 2000)) <$> ids)).

Lemma ratchet_limit_unenforced_witness :
  let fresh := replicate 32 Byte.x05 in
  ∃ i' out, RotateRatchet (Some fresh) 1000 1000 full_identity = Ok (i', out)
    ∧ size (ratchets i') = 513%nat.
Proof.
  intros fresh. set (r := RotateRatchet (Some fresh) 1000 1000 full_identity).
  assert (Hok : (match r with Ok _ => true | _ => false end) = true) by (vm_compute; reflexivity).
  destruct r as [[i' out]|e|] eqn:Hr; [|discriminate Hok..].
  exists i', out. split; [reflexivity|].
  assert (Hsize : size (ratchets full_identity) = 512%nat) by (vm_compute; reflexivity).
  destruct (ratchet_limit_unenforced fresh 1000 1000
              full_identity i' out (X25519.addBytes fresh (replicate 32 Byte.x09))) as [Hs _];
    [apply (bool_decide_unpack _); vm_compute; exact I|vm_compute; reflexivity|vm_compute; discriminate
    |vm_compute; reflexivity|vm_compute; reflexivity|exact Hr|].
  rewrite Hs, Hsize. reflexivity.
Defined.
End Identity.
