(* ===== verification/Known.v ===== *)
(** * Known destinations and announced ratchets (package [identity])

    The process-wide tables that announces fill: the identity behind each
    destination hash, its usage record and background cleaning ([identity.go],
    [known_clean.go]), and the ratchet public key each destination announced
    ([known_ratchets.go]).  Every exported function holds the table's lock for
    its whole effect, so it is one step; [now] is its clock reading in
    nanoseconds and [unix] the same in seconds. *)

From S2P Require Import Prelude.
From S2P Require Import Common.
From S2P Require Import Crypto.
From S2P Require Import Identity.

Module Known.
Import Common.
Import Identity.
Local Open Scope go_scope.

Definition knownDestKey (destHash : bytes) : bytes := fixed 16 destHash.

Record knownDestEntry := mkEntry {
  pkt : bytes;
  ehash : bytes;
  rawKey : bytes;
  id : option Identity;
  app : bytes
}.

(** [lastUsed]: 0 never used, -1 retained, otherwise seconds. *)
Record knownDestMeta := mkMeta { rememberedAt : Z; lastUsed : Z }.
Record knownRatchetEntry := mkRatchet { rkey : bytes; received : Z }.

Record State := mkState {
  knownDestinations : gmap bytes knownDestEntry;
  knownDestMetaByKey : gmap bytes knownDestMeta;
  knownDestMaxEntries : Z;
  knownRatchets : gmap bytes knownRatchetEntry;
  privateRatchets : gmap bytes knownRatchetEntry
}.

Definition set_known (d : gmap bytes knownDestEntry) (m : gmap bytes knownDestMeta) (s : State) : State :=
  mkState d m (knownDestMaxEntries s) (knownRatchets s) (privateRatchets s).
Definition set_meta (m : gmap bytes knownDestMeta) (s : State) : State :=
  set_known (knownDestinations s) m s.
Definition set_knownRatchets (r : gmap bytes knownRatchetEntry) (s : State) : State :=
  mkState (knownDestinations s) (knownDestMetaByKey s) (knownDestMaxEntries s) r (privateRatchets s).

Definition unix (now : Z) : Z := now `div` Second.
Definition zeroMeta : knownDestMeta := mkMeta 0 0.

(** ** Known destinations *)

Definition setKnownDestMetaLocked (key : bytes) (remembered used now : Z)
    (m : gmap bytes knownDestMeta) : gmap bytes knownDestMeta :=
  <[key := mkMeta (if remembered <=? 0 then unix now else remembered) used]> m.

Section ops.
Context `{Runtime}.

(** The range loop stops after [excess] deletions. *)
Definition evictKnownDestinationsIfNeededLocked (s : State) : State :=
  let maxEntries := knownDestMaxEntries s in
  let n := Z.of_nat (size (knownDestinations s)) in
  if (maxEntries <=? 0) || (n <=? maxEntries) then s
  else
    let victims := take (Z.to_nat (n - maxEntries)) (mapOrder (knownDestinations s)) in
    foldl (λ s kv, set_known (delete kv.1 (knownDestinations s)) (delete kv.1 (knownDestMetaByKey s)) s)
      s victims.

Definition rememberKnown (now : Z) (packet destHash publicKey appData : bytes) (i : option Identity)
    (s : State) : State * bool :=
  let key := knownDestKey destHash in
  let touch s := set_meta (<[key := mkMeta (unix now)
      (lastUsed (default zeroMeta (knownDestMetaByKey s !! key)))]> (knownDestMetaByKey s)) s in
  let insert :=
    let i :=
      match i with
      | Some i => if publicKeyEqual i publicKey then Some i else FromPublicKey publicKey
      | None => FromPublicKey publicKey
      end in
    let prev := default zeroMeta (knownDestMetaByKey s !! key) in
    let used := if lastUsed prev <? 0 then -1 else 0 in
    (evictKnownDestinationsIfNeededLocked
       (set_known (<[key := mkEntry packet destHash key i appData]> (knownDestinations s))
          (setKnownDestMetaLocked key (unix now) used now (knownDestMetaByKey s)) s), true) in
  match knownDestinations s !! key with
  | Some existing =>
      match id existing with
      | Some eid =>
          if negb (publicKeyEqual eid publicKey) then (s, false)
          else if bool_decide (pkt existing = packet) && bool_decide (app existing = appData)
          then (touch s, true)
          else
            (touch (set_known (<[key := mkEntry packet (ehash existing) (rawKey existing) (id existing)
                                   appData]> (knownDestinations s)) (knownDestMetaByKey s) s), true)
      | None => insert
      end
  | None => insert
  end.

Definition Remember (now : Z) (packet destHash publicKey appData : bytes) (s : State) : State * bool :=
  rememberKnown now packet destHash publicKey appData None s.
Definition RememberIdentity (now : Z) (packet destHash publicKey appData : bytes) (i : option Identity)
    (s : State) : State * bool :=
  rememberKnown now packet destHash publicKey appData i s.

Definition KnownIdentityMatching (destHash publicKey : bytes) (s : State) : option Identity :=
  match knownDestinations s !! knownDestKey destHash with
  | Some e =>
      match id e with
      | Some i => if publicKeyEqual i publicKey then Some i else None
      | None => None
      end
  | None => None
  end.

Definition TouchKnownDestination (now : Z) (destHash : bytes) (s : State) : State :=
  if len destHash =? 0 then s
  else
    let key := knownDestKey destHash in
    match knownDestMetaByKey s !! key with
    | Some meta =>
        if lastUsed meta <? 0 then s
        else set_meta (<[key := mkMeta (rememberedAt meta) (unix now)]> (knownDestMetaByKey s)) s
    | None =>
        match knownDestinations s !! key with
        | None => s
        | Some _ => set_meta (<[key := mkMeta (unix now) (unix now)]> (knownDestMetaByKey s)) s
        end
    end.

Definition Recall (now : Z) (hash : bytes) (s : State) : State * option Identity :=
  match knownDestinations s !! knownDestKey hash with
  | Some e =>
      match id e with
      | Some i => (TouchKnownDestination now hash s, Some i)
      | None => (s, None)
      end
  | None => (s, None)
  end.

Definition RetainKnownDestination (now : Z) (destHash : bytes) (s : State) : State :=
  if len destHash =? 0 then s
  else
    let key := knownDestKey destHash in
    match knownDestinations s !! key with
    | None => s
    | Some _ =>
        let meta := default zeroMeta (knownDestMetaByKey s !! key) in
        let remembered := if rememberedAt meta =? 0 then unix now else rememberedAt meta in
        set_meta (<[key := mkMeta remembered (-1)]> (knownDestMetaByKey s)) s
    end.

Definition SetKnownDestinationsMaxEntries (maxEntries : Z) (s : State) : State :=
  mkState (knownDestinations s) (knownDestMetaByKey s) (if maxEntries <? 0 then 0 else maxEntries)
    (knownRatchets s) (privateRatchets s).

Definition UnusedDestinationLinger : Z := 6 * 60 * Second.
Definition DestinationTimeout : Z := 7 * 24 * 3600 * Second.

(** The verdict on one entry, in the first pass and again under the lock. *)
Definition aged (now : Z) (meta : knownDestMeta) : bool :=
  if lastUsed meta =? 0 then UnusedDestinationLinger <? now - rememberedAt meta * Second
  else (DestinationTimeout * 5) `div` 4 `div` Second <? unix now - lastUsed meta.

Definition staleForClean (hasPath : bytes → bool) (now : Z) (s : State) (key : bytes) : bool :=
  let meta := default (mkMeta (unix now) 0) (knownDestMetaByKey s !! key) in
  negb (lastUsed meta <? 0) && negb (hasPath key) && aged now meta.

Definition stillStaleForCleanLocked (hasPath : bytes → bool) (now : Z) (s : State) (key : bytes) : bool :=
  match knownDestMetaByKey s !! key with
  | None => false
  | Some meta =>
      bool_decide (is_Some (knownDestinations s !! key))
      && negb (lastUsed meta <? 0) && negb (hasPath key) && aged now meta
  end.

(** ** Announced ratchets *)

(** The range loop skips [keep] and stops after [excess] deletions. *)
Definition evictKnownRatchetsLocked (keep : bytes) (r : gmap bytes knownRatchetEntry)
    : gmap bytes knownRatchetEntry :=
  let n := Z.of_nat (size r) in
  if n <=? MaxKnownRatchets then r
  else
    let victims := take (Z.to_nat (n - MaxKnownRatchets))
                     (filter (λ kv, kv.1 ≠ keep) (mapOrder r)) in
    foldl (λ r kv, delete kv.1 r) r victims.

Definition RememberRatchet (now : Z) (destHash ratchet : bytes) (s : State) : State :=
  if (len destHash =? 0) || negb (len ratchet =? RatchetSize `div` 8) then s
  else
    let key := knownDestKey destHash in
    let put := set_knownRatchets
      (evictKnownRatchetsLocked key (<[key := mkRatchet ratchet (unix now)]> (knownRatchets s))) s in
    match knownRatchets s !! key with
    | Some existing => if bool_decide (rkey existing = ratchet) then s else put
    | None => put
    end.

(** [CopyRatchet] into a 32-byte buffer, the body of [GetRatchet]. *)
Definition GetRatchet (now : Z) (destHash : bytes) (s : State) : State * option bytes :=
  if len destHash =? 0 then (s, None)
  else
    let key := knownDestKey destHash in
    match knownRatchets s !! key with
    | Some e =>
        if (unix now <? received e + RatchetExpiry) && (len (rkey e) =? RatchetSize `div` 8)
        then (s, Some (rkey e))
        else (set_knownRatchets (delete key (knownRatchets s)) s, None)
    | None => (s, None)
    end.

Definition CleanKnownRatchets (now : Z) (s : State) : State :=
  set_knownRatchets
    (foldl (λ r kv, if received kv.2 + RatchetExpiry <=? unix now then delete kv.1 r else r)
       (knownRatchets s) (mapOrder (knownRatchets s))) s.

(** The pass over a snapshot of the keys, then the deletions, then the ratchets. *)
Definition CleanKnownDestinations (hasPath : bytes → bool) (now : Z) (s : State) : State :=
  let keys := (mapOrder (knownDestinations s)).*1 in
  let stale := filter (λ k, staleForClean hasPath now s k = true) keys in
  CleanKnownRatchets now
    (foldl (λ s key, if stillStaleForCleanLocked hasPath now s key
        then set_known (delete key (knownDestinations s)) (delete key (knownDestMetaByKey s)) s else s)
      s stale).
End ops.

(** ** Invariant and pinning *)

Section facts.
Context `{RuntimeLaws}.

(** Everything that changes the tables. *)
Inductive step : State → State → Prop :=
  | step_remember now p d k a i s : step s (rememberKnown now p d k a i s).1
  | step_recall now h s : step s (Recall now h s).1
  | step_touch now d s : step s (TouchKnownDestination now d s)
  | step_retain now d s : step s (RetainKnownDestination now d s)
  | step_clean hp now s : step s (CleanKnownDestinations hp now s)
  | step_ratchet now d r s : step s (RememberRatchet now d r s)
  | step_getRatchet now d s : step s (GetRatchet now d s).1
  | step_cleanRatchets now s : step s (CleanKnownRatchets now s).

Record known_ok (s : State) : Prop := {
  ok_meta : dom (knownDestMetaByKey s) = dom (knownDestinations s);
  ok_cap : 0 < knownDestMaxEntries s → Z.of_nat (size (knownDestinations s)) <= knownDestMaxEntries s;
  ok_ratchets : Z.of_nat (size (knownRatchets s)) <= MaxKnownRatchets
}.

(** An entry that survives keeps its identity. *)
Definition pinned (s s' : State) : Prop :=
  ∀ k e e', knownDestinations s !! k = Some e → knownDestinations s' !! k = Some e' →
    id e ≠ None → id e' = id e.

(** The same tables but for the listed fields. *)
Lemma drop_list_facts {A} (l : list (bytes * A)) (P : State → bytes → bool) s :
  let s' := foldl (λ s kv, if P s kv.1
      then set_known (delete kv.1 (knownDestinations s)) (delete kv.1 (knownDestMetaByKey s)) s else s) s l in
  dom (knownDestMetaByKey s) = dom (knownDestinations s) →
  dom (knownDestMetaByKey s') = dom (knownDestinations s')
  ∧ knownDestinations s' ⊆ knownDestinations s
  ∧ knownDestMaxEntries s' = knownDestMaxEntries s ∧ knownRatchets s' = knownRatchets s.
Proof.
  revert s. induction l as [|kv l IH]; intros s s' Hd; [done|]. subst s'. cbn [foldl].
  case_match; [|by apply IH].
  destruct (IH (set_known (delete kv.1 (knownDestinations s)) (delete kv.1 (knownDestMetaByKey s)) s))
    as (H1' & H2 & H3 & H4); [cbn; by rewrite !dom_delete_L, Hd|].
  split_and!; [done| |done|done]. etrans; [exact H2|]. apply delete_subseteq.
Qed.

(** A prefix of a traversal deletes as many entries as it is long. *)
Lemma delete_prefix_size {V} (m : gmap bytes V) (P : bytes * V → Prop) `{!∀ x, Decision (P x)} n :
  (n <= length (filter P (mapOrder m)))%nat →
  Z.of_nat (size (foldl (λ m kv, delete kv.1 m) m (take n (filter P (mapOrder m))))) = Z.of_nat (size m) - Z.of_nat n.
Proof.
  intros Hn. rewrite foldl_delete_size.
  - unfold len. rewrite length_take. lia.
  - rewrite fmap_take. eapply sublist_NoDup; [|apply sublist_take].
    rewrite (mapOrder_perm m). apply NoDup_fmap_fst; [|apply list.NoDup_filter, NoDup_map_to_list].
    intros k v v' [_ Hv]%list_elem_of_filter [_ Hv']%list_elem_of_filter.
    apply elem_of_map_to_list in Hv, Hv'. congruence.
  - intros k ([k' v] & -> & Hin)%list_elem_of_fmap. apply elem_of_take in Hin as (j & Hj & _).
    apply list_elem_of_lookup_2, list_elem_of_filter in Hj as [_ Hj].
    rewrite (mapOrder_perm m), elem_of_map_to_list in Hj. by exists v.
Qed.

Lemma evict_projects {A} (l : list (bytes * A)) s :
  knownDestinations (foldl (λ s kv, set_known (delete kv.1 (knownDestinations s))
      (delete kv.1 (knownDestMetaByKey s)) s) s l)
  = foldl (λ m kv, delete kv.1 m) (knownDestinations s) l.
Proof. revert s. induction l as [|kv l IH]; intros s; [done|]. cbn [foldl]. by rewrite IH. Qed.

Lemma evict_known_ok s :
  dom (knownDestMetaByKey s) = dom (knownDestinations s) →
  Z.of_nat (size (knownRatchets s)) <= MaxKnownRatchets →
  known_ok (evictKnownDestinationsIfNeededLocked s)
  ∧ knownDestinations (evictKnownDestinationsIfNeededLocked s) ⊆ knownDestinations s.
Proof.
  intros Hd Hr. unfold evictKnownDestinationsIfNeededLocked.
  set (n := Z.of_nat (size (knownDestinations s))). case_match eqn:Hc.
  { split; [|done]. constructor; [done| |done]. intros Hpos.
    apply orb_true_iff in Hc as [Hc|Hc]; apply Z.leb_le in Hc; [lia|done]. }
  apply orb_false_iff in Hc as [Hc1%Z.leb_gt Hc2%Z.leb_gt].
  set (victims := take _ _).
  destruct (drop_list_facts victims (λ _ _, true) s Hd) as (H1' & H2 & H3 & H4). cbn [andb] in *.
  split; [|exact H2]. constructor; [done| |by rewrite H4]. intros _.
  rewrite H3, evict_projects. subst victims.
  pose proof (delete_prefix_size (knownDestinations s) (λ _, True) (Z.to_nat (n - knownDestMaxEntries s))) as Hs.
  rewrite filter_id in Hs by (by apply Forall_true). rewrite Hs; [lia|].
  rewrite (mapOrder_perm (knownDestinations s)), length_map_to_list. lia.
Qed.

#[local] Instance entry_known_dec s key :
  Decision (∃ e eid, knownDestinations s !! key = Some e ∧ id e = Some eid).
Proof.
  destruct (knownDestinations s !! key) as [e|]; [destruct (id e) as [eid|] eqn:Hid|].
  - left. by exists e, eid.
  - right. naive_solver.
  - right. naive_solver.
Defined.

(** Updating the usage record of a known destination. *)
Lemma set_meta_ok key m s :
  known_ok s → key ∈ dom (knownDestinations s) → known_ok (set_meta (<[key := m]> (knownDestMetaByKey s)) s).
Proof.
  intros [Hd Hc Hr] Hk. constructor; cbn; [|done|done].
  rewrite dom_insert_L, Hd. set_solver.
Qed.

Lemma meta_known s key m : known_ok s → knownDestMetaByKey s !! key = Some m → key ∈ dom (knownDestinations s).
Proof. intros [Hd _ _] Hm. rewrite <- Hd. by apply elem_of_dom_2 in Hm. Qed.

Lemma pinned_refl s s' : knownDestinations s' ⊆ knownDestinations s → pinned s s'.
Proof.
  intros Hs k e e' He He' _. assert (Hw : knownDestinations s !! k = Some e') by (by eapply lookup_weaken).
  congruence.
Qed.

Lemma subset_ok s s' :
  known_ok s → knownDestinations s' ⊆ knownDestinations s →
  dom (knownDestMetaByKey s') = dom (knownDestinations s') →
  knownDestMaxEntries s' = knownDestMaxEntries s →
  Z.of_nat (size (knownRatchets s')) <= MaxKnownRatchets → known_ok s'.
Proof.
  intros [_ Hc _] Hsub Hd Hm Hr. constructor; [done| |done]. rewrite Hm. intros Hpos.
  specialize (Hc Hpos). apply map_subseteq_size in Hsub. lia.
Qed.

(** What an announce does to the table. *)
Lemma remember_cases now p d k a i s :
  known_ok s →
  let r := rememberKnown now p d k a i s in
  known_ok r.1 ∧ pinned s r.1
  ∧ (r.2 = false ↔ ∃ e eid, knownDestinations s !! knownDestKey d = Some e ∧ id e = Some eid
       ∧ publicKeyEqual eid k = false)
  ∧ (r.2 = false → r.1 = s).
Proof.
  intros Hok. pose proof Hok as [Hd Hc Hr]. unfold rememberKnown. set (key := knownDestKey d).
  (* a first sighting *)
  assert (Hins : ∀ e m, (∀ e0, knownDestinations s !! key = Some e0 → id e0 = None) →
    let s' := evictKnownDestinationsIfNeededLocked
       (set_known (<[key := e]> (knownDestinations s)) (<[key := m]> (knownDestMetaByKey s)) s) in
    known_ok s' ∧ pinned s s').
  { intros e m Hfresh s'.
    destruct (evict_known_ok (set_known (<[key := e]> (knownDestinations s))
      (<[key := m]> (knownDestMetaByKey s)) s)) as [Hok' Hsub]; [cbn; by rewrite !dom_insert_L, Hd|done|].
    split; [done|]. intros k' e0 e' He0 He' Hid.
    assert (Hw := lookup_weaken _ _ _ _ He' Hsub). cbn in Hw.
    destruct (decide (k' = key)) as [->|Hne]; [by destruct Hid; apply Hfresh|].
    rewrite lookup_insert_ne in Hw by done. congruence. }
  destruct (decide (∃ e eid, knownDestinations s !! key = Some e ∧ id e = Some eid)) as [Hex|Hnone]; cycle 1.
  { assert (Hf : ∀ e0, knownDestinations s !! key = Some e0 → id e0 = None).
    { intros e0 He0. destruct (id e0) as [eid|] eqn:Hid; [|done]. destruct Hnone. by exists e0, eid. }
    destruct (knownDestinations s !! key) as [e|] eqn:He; [rewrite (Hf e eq_refl)|]; cbn [fst snd];
      (split_and!; [by apply Hins|by apply Hins|clear Hins; naive_solver|done]). }
  (* a known identity *)
  clear Hins. destruct Hex as (e & eid & He & Hid). rewrite He, Hid.
  assert (Hiff : ∀ b : bool, (b = false ↔ ∃ e0 eid0, Some e = Some e0 ∧ id e0 = Some eid0 ∧ publicKeyEqual eid0 k = false)
    ↔ b = publicKeyEqual eid k).
  { intros b. destruct (publicKeyEqual eid k) eqn:Hpk; destruct b; split; try done.
    - intros _. split; [done|]. intros (e0 & eid0 & [= <-] & Hid0 & Hk). congruence.
    - intros [Hb _]. destruct (Hb eq_refl) as (e0 & eid0 & [= <-] & Hid0 & Hk). congruence.
    - intros [_ Hb]. discriminate Hb. by exists e, eid.
    - intros _. split; [|done]. intros _. by exists e, eid. }
  assert (Hkey : key ∈ dom (knownDestinations s)) by (by apply elem_of_dom_2 in He).
  destruct (publicKeyEqual eid k) eqn:Hpk; cbn [negb].
  - case_match; cbn [fst snd].
    + split_and!; [by apply set_meta_ok|by apply pinned_refl|by apply Hiff|done].
    + set (s1 := set_known (<[key := _]> (knownDestinations s)) _ s).
      assert (Hs1 : known_ok s1).
      { constructor; cbn; [rewrite dom_insert_L, Hd; set_solver|by rewrite map_size_insert_Some|done]. }
      split_and!; [apply set_meta_ok; [done|cbn; rewrite dom_insert_L; set_solver]| |by apply Hiff|done].
      intros k' e0 e' He0 He' _. cbn in He'. destruct (decide (key = k')) as [<-|Hne].
      * rewrite lookup_insert_eq in He'. simplify_eq. done.
      * rewrite lookup_insert_ne in He' by done. congruence.
  - split_and!; [done|by apply pinned_refl|by apply Hiff|done].
Qed.

Lemma ratchet_evict_size key r :
  (∃ e, r !! key = Some e) → Z.of_nat (size r) <= MaxKnownRatchets + 1 →
  Z.of_nat (size (evictKnownRatchetsLocked key r)) <= MaxKnownRatchets.
Proof.
  intros [e He] Hs. unfold evictKnownRatchetsLocked.
  destruct (Z.leb_spec (Z.of_nat (size r)) MaxKnownRatchets) as [|Hgt]; [done|].
  rewrite delete_prefix_size; [lia|].
  rewrite (mapOrder_perm r), <- (map_to_list_delete r key e He), filter_cons_False by naive_solver.
  rewrite filter_id, length_map_to_list.
  - rewrite map_size_delete_Some by (by eexists). unfold MaxKnownRatchets in *. lia.
  - apply Forall_forall. intros [k v] Hin%list_elem_of_In. apply elem_of_map_to_list in Hin.
    by apply lookup_delete_Some in Hin as [? _].
Qed.

Lemma touch_ok now d s :
  known_ok s → known_ok (TouchKnownDestination now d s)
    ∧ knownDestinations (TouchKnownDestination now d s) = knownDestinations s.
Proof.
  intros Hok. unfold TouchKnownDestination. case_match; [done|].
  destruct (knownDestMetaByKey s !! knownDestKey d) as [m|] eqn:Hm.
  - case_match; [done|]. split; [|done]. apply set_meta_ok; [done|]. by eapply meta_known.
  - destruct (knownDestinations s !! knownDestKey d) as [e|] eqn:He; [|done].
    split; [|done]. apply set_meta_ok; [done|]. by apply elem_of_dom_2 in He.
Qed.

Lemma ratchets_ok r s :
  known_ok s → Z.of_nat (size r) <= MaxKnownRatchets → known_ok (set_knownRatchets r s).
Proof. intros [Hd Hc _] Hr. by constructor. Qed.

Lemma clean_ratchets_ok now s : known_ok s → known_ok (CleanKnownRatchets now s).
Proof.
  intros Hok. apply ratchets_ok; [done|]. destruct Hok as [_ _ Hr].
  generalize (mapOrder (knownRatchets s)). intros l. revert Hr. generalize (knownRatchets s).
  induction l as [|kv l IH]; intros r Hr; [done|]. cbn [foldl]. apply IH. case_match; [|done].
  pose proof (map_subseteq_size (delete kv.1 r) r (delete_subseteq r kv.1)). lia.
Qed.

Lemma clean_ok hp now s :
  known_ok s → known_ok (CleanKnownDestinations hp now s) ∧ pinned s (CleanKnownDestinations hp now s).
Proof.
  intros Hok. unfold CleanKnownDestinations. set (stale := filter _ _).
  destruct (drop_list_facts ((λ k, (k, tt)) <$> stale) (λ s k, stillStaleForCleanLocked hp now s k) s (ok_meta _ Hok))
    as (H1' & H2 & H3 & H4). rewrite foldl_fmap in H1', H2, H3, H4. cbn [fst] in *.
  set (s' := foldl _ s stale) in *. split; [|by apply pinned_refl].
  apply clean_ratchets_ok. eapply subset_ok; [exact Hok|done..|]. rewrite H4. apply Hok.
Qed.

Lemma step_ok s s' : known_ok s → step s s' → known_ok s' ∧ pinned s s'.
Proof.
  intros Hok Hstep. destruct Hstep as [now p d k a i s|now h s|now d s|now d s|hp now s|now d r s|now d s|now s].
  - by destruct (remember_cases now p d k a i s Hok) as (? & ? & _).
  - unfold Recall. repeat case_match; try (split; [done|by apply pinned_refl]). cbn [fst].
    destruct (touch_ok now h s Hok) as [? Heq]. split; [done|apply pinned_refl; by rewrite Heq].
  - destruct (touch_ok now d s Hok) as [? Heq]. split; [done|apply pinned_refl; by rewrite Heq].
  - unfold RetainKnownDestination. case_match; [split; [done|by apply pinned_refl]|].
    destruct (knownDestinations s !! knownDestKey d) as [e|] eqn:He; (split; [|by apply pinned_refl]); [|done].
    apply set_meta_ok; [done|]. by apply elem_of_dom_2 in He.
  - by apply clean_ok.
  - split; [|apply pinned_refl; unfold RememberRatchet; by repeat case_match].
    unfold RememberRatchet. case_match; [done|].
    assert (Hput : known_ok (set_knownRatchets (evictKnownRatchetsLocked (knownDestKey d)
        (<[knownDestKey d := mkRatchet r (unix now)]> (knownRatchets s))) s)).
    { apply ratchets_ok; [done|]. destruct Hok as [_ _ Hr]. apply ratchet_evict_size.
      - eexists. apply lookup_insert_eq.
      - rewrite map_size_insert. case_match; cbn; lia. }
    by repeat case_match.
  - split; [|apply pinned_refl; unfold GetRatchet; by repeat case_match].
    unfold GetRatchet. repeat case_match; try done. cbn [fst]. apply ratchets_ok; [done|].
    destruct Hok as [_ _ Hr].
    pose proof (map_subseteq_size _ _ (delete_subseteq (knownRatchets s) (knownDestKey d))). lia.
  - split; [by apply clean_ratchets_ok|by apply pinned_refl].
Qed.

(** An announce without a conflicting key is recorded, room permitting. *)
Lemma remember_known now p d k a i s :
  len k = 64 →
  (∀ e eid, knownDestinations s !! knownDestKey d = Some e → id e = Some eid → publicKeyEqual eid k = true) →
  has_room (knownDestKey d) (knownDestinations s) (knownDestMaxEntries s) →
  (rememberKnown now p d k a i s).2 = true
  ∧ (∃ eid, KnownIdentityMatching d k (rememberKnown now p d k a i s).1 = Some eid ∧ publicKeyEqual eid k = true)
  ∧ knownRatchets (rememberKnown now p d k a i s).1 = knownRatchets s.
Proof.
  intros Hk Hconf Hroom. set (key := knownDestKey d) in *.
  assert (Hins : ∀ e m, (∃ eid, id e = Some eid ∧ publicKeyEqual eid k = true) →
    let s' := evictKnownDestinationsIfNeededLocked
      (set_known (<[key := e]> (knownDestinations s)) m s) in
    (∃ eid, KnownIdentityMatching d k s' = Some eid ∧ publicKeyEqual eid k = true)
    ∧ knownRatchets s' = knownRatchets s).
  { intros e m (eid & He & Heq). unfold evictKnownDestinationsIfNeededLocked. cbn [knownDestMaxEntries set_known knownDestinations].
    assert (Hle : (knownDestMaxEntries s <=? 0)
      || (Z.of_nat (size (<[key := e]> (knownDestinations s))) <=? knownDestMaxEntries s) = true).
    { rewrite orb_true_iff, !Z.leb_le. by apply has_room_insert. }
    rewrite Hle. split; [|done]. exists eid. unfold KnownIdentityMatching. cbn [knownDestinations set_known].
    fold key. by rewrite lookup_insert_eq, He, Heq. }
  assert (Hid : ∃ eid, (match i with
      | Some i => if publicKeyEqual i k then Some i else FromPublicKey k
      | None => FromPublicKey k end) = Some eid ∧ publicKeyEqual eid k = true).
  { assert (Hf : ∃ eid, FromPublicKey k = Some eid ∧ publicKeyEqual eid k = true).
    { unfold FromPublicKey. change (KeySize `div` 8) with 64. rewrite Hk. cbn [negb Z.eqb Pos.eqb].
      eexists. split; [done|]. unfold publicKeyEqual. cbn [publicKey verificationKey].
      change (KeySize `div` 8) with 64. by rewrite Hk, !bool_decide_eq_true_2. }
    destruct i as [i|]; [|done]. destruct (publicKeyEqual i k) eqn:He; [by exists i|done]. }
  unfold rememberKnown. fold key.
  destruct (knownDestinations s !! key) as [e|] eqn:He; [destruct (id e) as [eid|] eqn:Heid|].
  - rewrite (Hconf e eid eq_refl Heid). cbn [negb].
    destruct (bool_decide (pkt e = p) && bool_decide (app e = a)); cbn [fst snd]; (split; [done|]); (split; [|done]);
      exists eid; (split; [|by apply (Hconf e)]); unfold KnownIdentityMatching; cbn [knownDestinations set_meta set_known]; fold key.
    + by rewrite He, Heid, (Hconf e eid).
    + rewrite lookup_insert_eq. cbn [id]. by rewrite (Hconf e eid).
  - split; [done|]. by apply Hins.
  - split; [done|]. by apply Hins.
Qed.

Lemma remember_ratchet_matching now d r d' k s :
  KnownIdentityMatching d' k (RememberRatchet now d r s) = KnownIdentityMatching d' k s.
Proof. unfold RememberRatchet. by repeat case_match. Qed.

Lemma evict_ratchets_keep key r : evictKnownRatchetsLocked key r !! key = r !! key.
Proof.
  unfold evictKnownRatchetsLocked. case_match; [done|]. rewrite foldl_delete_lookup.
  rewrite decide_False; [done|]. intros ([k e] & -> & Hin)%list_elem_of_fmap.
  apply elem_of_take in Hin as (j & Hj & _). apply list_elem_of_lookup_2, list_elem_of_filter in Hj as [Hne _].
  by apply Hne.
Qed.

(** The announced ratchet is the one used, unless it is the one already known
    and that has expired: a repeated ratchet keeps its first date. *)
Lemma remember_get_ratchet now d r s :
  d ≠ [] → len r = 32 →
  (∀ e, knownRatchets s !! knownDestKey d = Some e → rkey e = r → unix now < received e + RatchetExpiry) →
  (GetRatchet now d (RememberRatchet now d r s)).2 = Some r.
Proof.
  intros Hd Hr Hold. assert (Hdl : (len d =? 0) = false).
  { apply Z.eqb_neq. intros Hz. by apply len_0_nil in Hz. }
  assert (Hput : (GetRatchet now d (set_knownRatchets (evictKnownRatchetsLocked (knownDestKey d)
    (<[knownDestKey d := mkRatchet r (unix now)]> (knownRatchets s))) s)).2 = Some r).
  { unfold GetRatchet. rewrite Hdl. cbn [knownRatchets set_knownRatchets].
    rewrite evict_ratchets_keep, lookup_insert_eq. cbn [received rkey]. rewrite Hr.
    by rewrite (proj2 (Z.ltb_lt _ _)) by (unfold RatchetExpiry; lia). }
  unfold RememberRatchet. rewrite Hdl, Hr. cbn [orb negb Z.eqb Pos.eqb].
  change (RatchetSize `div` 8) with 32. cbn [negb Z.eqb Pos.eqb].
  destruct (knownRatchets s !! knownDestKey d) as [e|] eqn:He; [|exact Hput].
  destruct (decide (rkey e = r)) as [Hk|Hk]; [rewrite bool_decide_eq_true_2 by done|by rewrite bool_decide_eq_false_2].
  unfold GetRatchet. rewrite Hdl, He, Hk, Hr, (proj2 (Z.ltb_lt _ _)) by (by apply Hold). done.
Qed.

(** C27.  Known destinations are pinned and bounded: from an empty table, after any
    sequence of announces, recalls, touches, retains, cleanings and ratchet
    updates, usage records exist exactly for the known destinations, the tables
    respect their caps, and a further step never replaces the identity of a
    destination that stays known.  An announce is refused exactly when the
    destination is known under a different public key, and then changes nothing. *)
Theorem known_destinations_pinned maxEntries s :
  rtc step (mkState ∅ ∅ maxEntries ∅ ∅) s →
  known_ok s
  ∧ (∀ s', step s s' → pinned s s')
  ∧ ∀ now p d k a i,
      ((rememberKnown now p d k a i s).2 = false ↔
         ∃ e eid, knownDestinations s !! knownDestKey d = Some e ∧ id e = Some eid
           ∧ publicKeyEqual eid k = false)
      ∧ ((rememberKnown now p d k a i s).2 = false → (rememberKnown now p d k a i s).1 = s).
Proof.
  intros Hrun.
  assert (H0' : known_ok (mkState ∅ ∅ maxEntries ∅ ∅)).
  { constructor; cbn; [by rewrite !dom_empty_L|rewrite map_size_empty; lia|rewrite map_size_empty; done]. }
  assert (Hok : known_ok s).
  { remember (mkState ∅ ∅ maxEntries ∅ ∅) as s0 eqn:Hs0. clear Hs0.
    induction Hrun as [s|s s1 s2 Hs _ IH]; [done|]. apply IH. by apply (step_ok s s1). }
  split_and!; [done|intros s' Hs; by apply (step_ok s s')|].
  intros now p d k a i. by destruct (remember_cases now p d k a i s Hok) as (_ & _ & ? & ?).
Qed.
End facts.

#[local] Existing Instance testRuntime.

Lemma known_destinations_pinned_witness :
  let k1 := replicate 64 Byte.x01 in
  let k2 := replicate 64 Byte.x02 in
  let s := (rememberKnown 5 [Byte.x10] [Byte.xaa] k1 [] None (mkState ∅ ∅ 4 ∅ ∅)).1 in
  known_ok s ∧ rememberKnown 6 [Byte.x11] [Byte.xaa] k2 [] None s = (s, false).
Proof.
  intros k1 k2 s.
  destruct (known_destinations_pinned 4 s) as (Hok & _ & Hr).
  { eapply rtc_l; [apply (step_remember 5 [Byte.x10] [Byte.xaa] k1 [] None)|apply rtc_refl]. }
  split; [exact Hok|]. destruct (Hr 6 [Byte.x11] [Byte.xaa] k2 [] None) as [_ Hs].
  assert (Hf : (rememberKnown 6 [Byte.x11] [Byte.xaa] k2 [] None s).2 = false) by (vm_compute; reflexivity).
  specialize (Hs Hf). destruct (rememberKnown 6 [Byte.x11] [Byte.xaa] k2 [] None s) as [s' b].
  cbn in Hs, Hf. by subst.
Defined.
End Known.
