(* ===== verification/AnnounceWire.v ===== *)
(** * Package [announce]: building and checking announces

    What an announce is, independently of any parser ([parts], [encode],
    [authentic]); the sender's side ([announce.go]: [New], [CreatePacket]); and
    the package's own receiver ([HandleAnnounce]).  The transport's receiver is
    in [AnnounceHandler.v]. *)

From S2P Require Import Prelude.
From S2P Require Import Sha256.
From S2P Require Import Crypto.
From S2P Require Import Common.
From S2P Require Import Identity.
From S2P Require Import Known.

Module AnnounceWire.
Local Open Scope go_scope.

Definition NameHashSize : Z := 10.
Definition RatchetSize : Z := 32.
Definition SignatureSize : Z := 64.
Definition PacketMTU : Z := 500.
Definition MaxHops : Z := 128.
Definition MinAnnouncePacketSizeNoRatchet : Z := 167.
Definition MinHeaderType1Size : Z := 19.
Definition MinHeaderType2Size : Z := 35.
Definition HeaderTypeMask : byte := x40.
Definition HeaderContextFlagMask : byte := x20.
Definition HeaderPacketTypeMask : byte := x03.
Definition PacketTypeAnnounce : byte := x01.

(** ** What an announce is *)

(** The fields in wire order.  [ifac] and [transport] are empty or a byte and an
    address; [ratchet] is empty or a public key. *)
Record parts := mkParts {
  flags : byte;
  hops : byte;
  ifac : bytes;
  transport : bytes;
  dest : bytes;
  context : byte;
  pub : bytes;
  name : bytes;
  random : bytes;
  ratchet : bytes;
  signature : bytes;
  app : bytes
}.

Definition payload (p : parts) : bytes :=
  pub p ++ name p ++ random p ++ ratchet p ++ signature p ++ app p.

(** Everything from the destination hash on, which no relay changes. *)
Definition message (p : parts) : bytes := dest p ++ context p :: payload p.

Definition encode (p : parts) : bytes :=
  flags p :: hops p :: ifac p ++ transport p ++ message p.

Definition has (mask b : byte) : bool := negb (bool_decide (b &&& mask = x00)).

Definition well_formed (p : parts) : Prop :=
  len (ifac p) = (if has x80 (flags p) then 1 else 0)
  ∧ len (transport p) = (if has HeaderTypeMask (flags p) then 16 else 0)
  ∧ len (dest p) = 16 ∧ len (pub p) = 64 ∧ len (name p) = 10 ∧ len (random p) = 10
  ∧ len (ratchet p) = (if has HeaderContextFlagMask (flags p) then 32 else 0)
  ∧ len (signature p) = 64.

Definition signedData (p : parts) : bytes :=
  dest p ++ pub p ++ name p ++ random p ++ ratchet p ++ app p.

Definition identityHash (key : bytes) : bytes := take 16 (Sha256.Sum256 key).

(** The destination hash commits to the name and the key. *)
Definition destinationHashOf (nameHash key : bytes) : bytes :=
  take 16 (Sha256.Sum256 (nameHash ++ identityHash key)).

Definition authentic `{Ed25519.Scheme} (p : parts) : Prop :=
  Ed25519.verify (drop 32 (pub p)) (signedData p) (signature p) = true
  ∧ dest p = destinationHashOf (name p) (pub p).

(** ** The sender *)

Inductive announce_error :=
  | HashRequired
  | NameRequired
  | SignFailed (e : Identity.identity_error)
  | ExceedsMTU (n : Z)
  | InvalidLength
  | NotAnnounce
  | TooManyHops
  | HeaderTooShort
  | DataTooShort
  | InvalidKey
  | InvalidSignature
  | HashMismatch
  | KeyMismatch.

Record Announce := mkAnnounce {
  destinationHash : bytes;
  destinationName : bytes;
  identity : Identity.Identity;
  appData : bytes;
  ahops : byte;
  pathResponse : bool;
  ratchetPub : bytes
}.

Definition DestinationHash (id : Identity.Identity) (destName : bytes) : bytes :=
  take 16 (Sha256.Sum256 (take 10 (Sha256.Sum256 destName) ++ Identity.Hash id)).

Definition CreateHeader (ifacFlag headerType contextFlag propType destType packetType hops : byte) : bytes :=
  [ifacFlag ||| (headerType <<< 6) ||| (contextFlag <<< 5) ||| (propType <<< 4) ||| (destType <<< 2)
     ||| packetType; hops].

Definition SetRatchetPublic (key : bytes) (a : Announce) : Announce :=
  mkAnnounce (destinationHash a) (destinationName a) (identity a) (appData a) (ahops a) (pathResponse a)
    (if len key =? RatchetSize then key else []).

Section sender.
Context `{Ed25519.Scheme}.

(** The signature taken here is stored but not put on the wire. *)
Definition New (id : Identity.Identity) (hash destName data : bytes) (response : bool)
    : outcome announce_error Announce :=
  if len hash =? 0 then Err HashRequired
  else if len destName =? 0 then Err NameRequired
  else
    match Identity.Sign id (hash ++ data) with
    | Ok _ => Ok (mkAnnounce hash destName id data x00 response [])
    | Err e => Err (SignFailed e)
    | Panic => Panic
    end.

(** A failed read leaves the five random bytes zero. *)
Definition randomHash (rand : option bytes) (unix : Z) : bytes :=
  Identity.fixed 5 (default [] rand) ++ drop 3 (be_encode 8 unix).

Definition CreatePacket (rand : option bytes) (unix : Z) (a : Announce) : outcome announce_error bytes :=
  let destHash := if 16 <? len (destinationHash a) then take 16 (destinationHash a) else destinationHash a in
  let pubKey := Identity.GetPublicKey (identity a) in
  let nameHash10 := take 10 (Sha256.Sum256 (destinationName a)) in
  let rh := randomHash rand unix in
  let ratchetData := if len (ratchetPub a) =? RatchetSize then ratchetPub a else [] in
  let contextFlag := if 0 <? len ratchetData then x01 else x00 in
  let header := CreateHeader x00 x00 contextFlag x00 x00 PacketTypeAnnounce (ahops a) in
  let contextByte := if pathResponse a then x0b else x00 in
  let validationData := destHash ++ pubKey ++ nameHash10 ++ rh ++ ratchetData ++ appData a in
  match Identity.Sign (identity a) validationData with
  | Err e => Err (SignFailed e)
  | Panic => Panic
  | Ok signature =>
      let packet := header ++ destHash ++ [contextByte] ++ pubKey ++ nameHash10 ++ rh ++ ratchetData
                      ++ signature ++ appData a in
      if PacketMTU <? len packet then Err (ExceedsMTU (len packet)) else Ok packet
  end.
End sender.

(** ** The package's receiver *)

(** The fields of a payload of at least 148 bytes, read in order; both receivers
    use this layout. *)
Record fields := mkFields {
  f_pub : bytes;
  f_name : bytes;
  f_random : bytes;
  f_ratchet : bytes;
  f_signature : bytes;
  f_app : bytes
}.

Definition payloadFields {E} (hasRatchet : bool) (tooShort : E) (pd : bytes) : outcome E fields :=
  pubKey ← go_slice 0 64 pd;
  nameHash ← go_slice 64 74 pd;
  rh ← go_slice 74 84 pd;
  ratchetData ← (if hasRatchet then
                   if len pd <? 84 + RatchetSize + SignatureSize then Err tooShort
                   else go_slice 84 116 pd
                 else Ok []);
  let pos := 84 + len ratchetData in
  sig ← go_slice pos (pos + 64) pd;
  app ← go_slice (pos + 64) (len pd) pd;
  Ok (mkFields pubKey nameHash rh ratchetData sig app).

(** What the handlers are called with. *)
Record notification := mkNotification {
  n_dest : bytes;
  n_identity : Identity.Identity;
  n_app : bytes;
  n_hops : byte
}.

Section receiver.
Context `{Ed25519.Scheme} `{Common.Runtime}.

(** The part of [HandleAnnounce] before the signature check. *)
Definition parseAnnounce (data : bytes) : outcome announce_error (byte * bytes * fields) :=
  check (negb (len data <? MinAnnouncePacketSizeNoRatchet)) InvalidLength;;
  h0 ← go_index 0 data;
  check (bool_decide (h0 &&& HeaderPacketTypeMask = PacketTypeAnnounce)) NotAnnounce;;
  hopCount ← go_index 1 data;
  check (b2z hopCount <? MaxHops) TooManyHops;;
  let hasRatchet := has HeaderContextFlagMask h0 in
  '(destHash, packetData) ←
    (if has HeaderTypeMask h0 then
       check (negb (len data <? MinHeaderType2Size)) HeaderTooShort;;
       d ← go_slice 18 34 data; r ← go_slice 35 (len data) data; Ok (d, r)
     else
       check (negb (len data <? MinHeaderType1Size)) HeaderTooShort;;
       d ← go_slice 2 18 data; r ← go_slice 19 (len data) data; Ok (d, r));
  let minPayload := 64 + 10 + 10 + 64 + (if hasRatchet then RatchetSize else 0) in
  check (negb (len packetData <? minPayload)) DataTooShort;;
  f ← payloadFields hasRatchet DataTooShort packetData;
  Ok (hopCount, destHash, f).

Definition HandleAnnounce (data : bytes) (s : Known.State)
    : Known.State * outcome announce_error notification :=
  match parseAnnounce data with
  | Err e => (s, Err e)
  | Panic => (s, Panic)
  | Ok (hopCount, destHash, f) =>
      match Identity.FromPublicKey (f_pub f) with
      | None => (s, Err InvalidKey)
      | Some id =>
          let signed := destHash ++ f_pub f ++ f_name f ++ f_random f ++ f_ratchet f ++ f_app f in
          if negb (Identity.Verify id signed (f_signature f)) then (s, Err InvalidSignature)
          else if negb (bool_decide
                 (destHash = take 16 (Sha256.Sum256 (f_name f ++ Identity.Hash id))))
          then (s, Err HashMismatch)
          else
            let '(s, ok) := Known.Remember Common.now data destHash (f_pub f) (f_app f) s in
            if negb ok then (s, Err KeyMismatch)
            else
              let s := if len (f_ratchet f) =? RatchetSize
                       then Known.RememberRatchet Common.now destHash (f_ratchet f) s else s in
              (s, Ok (mkNotification destHash id (f_app f) hopCount))
      end
  end.
End receiver.

(** ** Facts *)

Lemma has_false mask b : has mask b = false ↔ b &&& mask = x00.
Proof. unfold has. rewrite negb_false_iff. apply bool_decide_eq_true. Qed.

Definition fields_of (p : parts) : fields :=
  mkFields (pub p) (name p) (random p) (ratchet p) (signature p) (app p).

Definition field_lengths (r : bool) (f : fields) : Prop :=
  len (f_pub f) = 64 ∧ len (f_name f) = 10 ∧ len (f_random f) = 10
  ∧ len (f_ratchet f) = (if r then 32 else 0) ∧ len (f_signature f) = 64.

Definition concat (f : fields) : bytes :=
  f_pub f ++ f_name f ++ f_random f ++ f_ratchet f ++ f_signature f ++ f_app f.

(** The fields of a concatenation are the pieces. *)
Lemma payloadFields_concat {E} r (e : E) f :
  field_lengths r f → payloadFields r e (concat f) = Ok f.
Proof.
  destruct f as [pk nm rd rt sg ap]. intros (H1 & H2 & H3 & H4 & H5). cbn [f_pub f_name f_random f_ratchet f_signature] in *.
  unfold payloadFields, concat, RatchetSize, SignatureSize. cbn [f_pub f_name f_random f_ratchet f_signature f_app].
  set (pd := pk ++ nm ++ rd ++ rt ++ sg ++ ap).
  assert (Hl : len pd = 148 + len rt + len ap) by (subst pd; rewrite !len_app; lia).
  pose proof (len_nonneg ap). pose proof (len_nonneg rt).
  assert (E1 : slice 0 64 pd = pk) by (rewrite slice_0; apply take_app_mid; unfold len in H1; lia).
  assert (E2 : slice 64 74 pd = nm) by (apply slice_app_mid; lia).
  assert (E3 : slice 74 84 pd = rd).
  { subst pd. rewrite (app_assoc pk). apply slice_app_mid; rewrite !len_app; lia. }
  assert (E4 : slice 84 (84 + len rt) pd = rt).
  { subst pd. rewrite (app_assoc pk), (app_assoc (pk ++ nm)). apply slice_app_mid; rewrite !len_app; lia. }
  assert (E5 : slice (84 + len rt) (84 + len rt + 64) pd = sg).
  { subst pd. rewrite (app_assoc pk), (app_assoc (pk ++ nm)), (app_assoc ((pk ++ nm) ++ rd)).
    apply slice_app_mid; rewrite !len_app; lia. }
  assert (E6 : slice (84 + len rt + 64) (len pd) pd = ap).
  { rewrite Hl. subst pd. rewrite (app_assoc pk), (app_assoc (pk ++ nm)), (app_assoc ((pk ++ nm) ++ rd)),
      (app_assoc (((pk ++ nm) ++ rd) ++ rt)). apply slice_app_tail; rewrite !len_app; lia. }
  rewrite !go_slice_Ok by lia. cbn [mbind outcome_bind]. destruct r.
  - rewrite (proj2 (Z.ltb_ge _ _)) by lia. rewrite ?go_slice_Ok by lia. cbn [mbind outcome_bind].
    rewrite H4 in E4. change (84 + 32) with 116 in E4. rewrite E4.
    rewrite !go_slice_Ok by lia. cbn [mbind outcome_bind]. by rewrite E1, E2, E3, E5, E6.
  - apply len_0_nil in H4 as ->. cbn [mbind outcome_bind]. rewrite !go_slice_Ok by lia.
    cbn [mbind outcome_bind]. by rewrite E1, E2, E3, E5, E6.
Qed.

(** Every payload long enough is such a concatenation. *)
Lemma split_payload (r : bool) pd :
  148 + (if r then 32 else 0) <= len pd → ∃ f, pd = concat f ∧ field_lengths r f.
Proof.
  intros Hl. set (k := if r then 32%nat else 0%nat).
  exists (mkFields (take 64 pd) (take 10 (drop 64 pd)) (take 10 (drop 74 pd)) (take k (drop 84 pd))
            (take 64 (drop (84 + k) pd)) (drop (148 + k) pd)).
  unfold concat, field_lengths. cbn [f_pub f_name f_random f_ratchet f_signature f_app].
  assert (Hk : Z.of_nat k = if r then 32 else 0) by (subst k; by destruct r).
  split.
  - rewrite <- (take_drop 64 pd) at 1. f_equal.
    rewrite <- (take_drop 10 (drop 64 pd)) at 1. f_equal. rewrite drop_drop.
    rewrite <- (take_drop 10 (drop (64 + 10) pd)) at 1. f_equal. rewrite drop_drop.
    rewrite <- (take_drop k (drop (64 + 10 + 10) pd)) at 1. f_equal. rewrite drop_drop.
    rewrite <- (take_drop 64 (drop (64 + 10 + 10 + k) pd)) at 1. f_equal. rewrite drop_drop.
    f_equal. lia.
  - rewrite !len_take, !len_drop. split_and!; destruct r; lia.
Qed.

Lemma payloadFields_short {E} (e : E) pd :
  148 <= len pd → len pd < 180 → payloadFields true e pd = Err e.
Proof.
  intros H1 H2. unfold payloadFields, RatchetSize, SignatureSize. rewrite !go_slice_Ok by lia.
  cbn [mbind outcome_bind]. by rewrite (proj2 (Z.ltb_lt _ _)).
Qed.

Section created.
Context `{X25519.CurveLaws} `{Ed25519.SchemeLaws}.

(** An own identity signs under the key it publishes. *)
Lemma own_identity priv seed :
  len priv = 32 → len seed = 32 →
  ∃ own, Identity.FromBytes (priv ++ seed) = Ok own ∧ len (Identity.GetPublicKey own) = 64
    ∧ drop 32 (Identity.GetPublicKey own) = Ed25519.publicKey seed
    ∧ ∀ m, Identity.Sign own m = Ok (Ed25519.sign seed m).
Proof.
  intros Hp Hs. destruct (Identity.FromBytes_public priv seed Hp Hs (Ed25519.publicKey_len seed))
    as (own & k & Hown & Hpub & _ & _ & _ & _ & _ & Hvk & Hseed & Hext & _).
  exists own. revert Hpub. unfold Identity.FromPublicKey.
  destruct (Z.eqb_spec (len (Identity.GetPublicKey own)) (Identity.KeySize `div` 8)) as [Hl|]; [|done].
  cbn [negb]. intros [= <-]. split_and!; [done|done|done|]. intros m. unfold Identity.Sign.
  by rewrite Hext, Hseed.
Qed.

Lemma len_randomHash rand unix : len (randomHash rand unix) = 10.
Proof.
  unfold randomHash, Identity.fixed. rewrite !len_app, len_take, len_replicate, len_drop, len_be_encode.
  unfold len. lia.
Qed.

(** C24.  Announcing round trip: an identity that announces its own destination
    produces, whenever the packet fits the MTU of 500 bytes, an announce that is
    well formed and authentic, carries its public key, application data, ratchet
    and context, and commits to the destination; otherwise it fails with the
    packet's size. *)
Theorem created_announce_authentic priv seed destName data response rand unix ratchetKey :
  len priv = 32 → len seed = 32 → 0 < len destName → ratchetKey = [] ∨ len ratchetKey = 32 →
  ∃ own a, Identity.FromBytes (priv ++ seed) = Ok own
    ∧ New own (DestinationHash own destName) destName data response = Ok a
    ∧ let size := 167 + len ratchetKey + len data in
      let made := CreatePacket rand unix (SetRatchetPublic ratchetKey a) in
      (500 < size → made = Err (ExceedsMTU size))
      ∧ (size <= 500 → ∃ p, made = Ok (encode p) ∧ well_formed p ∧ authentic p
          ∧ pub p = Identity.GetPublicKey own ∧ dest p = DestinationHash own destName
          ∧ app p = data ∧ ratchet p = ratchetKey ∧ hops p = x00 ∧ transport p = [] ∧ ifac p = []
          ∧ context p = (if response then x0b else x00)).
Proof.
  intros Hp Hs Hn Hr. destruct (own_identity priv seed Hp Hs) as (own & Hown & Hpl & Hpd & Hsign).
  assert (Hdl : len (DestinationHash own destName) = 16).
  { unfold DestinationHash. rewrite len_take, Sha256.len_Sum256. done. }
  exists own. unfold New. rewrite Hdl, (proj2 (Z.eqb_neq (len destName) 0)) by lia. rewrite Hsign. cbn [Z.eqb].
  eexists. split; [done|]. split; [done|]. cbv zeta. set (size := 167 + len ratchetKey + len data).
  assert (Hrk : (if len ratchetKey =? RatchetSize then ratchetKey else []) = ratchetKey).
  { unfold RatchetSize. destruct Hr as [->|Hr]; [done|]. by rewrite Hr. }
  unfold CreatePacket, SetRatchetPublic. cbn [destinationHash destinationName identity appData ahops pathResponse ratchetPub].
  rewrite !Hrk, Hdl, Hsign. cbn [Z.ltb Z.compare Pos.compare Pos.compare_cont].
  set (nh := take 10 (Sha256.Sum256 destName)). set (rh := randomHash rand unix).
  set (pk := Identity.GetPublicKey own) in *. set (dh := DestinationHash own destName) in *.
  set (sig := Ed25519.sign seed _).
  set (cf := if 0 <? len ratchetKey then x01 else x00).
  set (p := mkParts ((cf <<< 5) ||| x01) x00 [] [] dh (if response then x0b else x00) pk nh rh ratchetKey sig data).
  assert (Hnl : len nh = 10) by (subst nh; rewrite len_take, Sha256.len_Sum256; done).
  assert (Hrl : len rh = 10) by apply len_randomHash.
  assert (Hsl : len sig = 64) by apply Ed25519.sign_len.
  assert (Henc : CreateHeader x00 x00 cf x00 x00 PacketTypeAnnounce x00 ++ dh ++
    [if response then x0b else x00] ++ pk ++ nh ++ rh ++ ratchetKey ++ sig ++ data = encode p).
  { unfold encode, message, payload, CreateHeader. subst p cf. cbn [flags hops ifac transport dest context pub name random ratchet signature app].
    by destruct (0 <? len ratchetKey). }
  rewrite Henc. assert (Hlen : len (encode p) = size).
  { rewrite <- Henc. unfold CreateHeader. rewrite !len_app, !len_cons, !len_nil. subst size. lia. }
  assert (Hwf : well_formed p).
  { unfold well_formed. subst p cf. cbn [flags hops ifac transport dest pub name random ratchet signature].
    destruct Hr as [->|Hr]; [by split_and!|]. rewrite Hr. by split_and!. }
  assert (Hauth : authentic p).
  { unfold authentic, signedData. subst p. cbn [dest pub name random ratchet signature app].
    rewrite Hpd. split; [apply Ed25519.verify_sign|]. subst dh pk nh.
    unfold DestinationHash, destinationHashOf, identityHash, Identity.Hash, Identity.TruncatedHash. reflexivity. }
  rewrite Hlen. unfold PacketMTU. split.
  - intros Hbig. by rewrite (proj2 (Z.ltb_lt _ _)).
  - intros Hsmall. rewrite (proj2 (Z.ltb_ge _ _)) by done. exists p.
    split_and!; [reflexivity|exact Hwf|exact Hauth|reflexivity..].
Qed.
End created.

Lemma created_announce_authentic_witness :
  ∃ own a p,
    @Identity.FromBytes X25519.additive Ed25519.hashScheme (replicate 32 Byte.x01 ++ replicate 32 Byte.x02) = Ok own
    ∧ @CreatePacket Ed25519.hashScheme (Some [Byte.x05]) 1700000000 a = Ok (encode p)
    ∧ well_formed p ∧ @authentic Ed25519.hashScheme p ∧ app p = [Byte.x68; Byte.x69].
Proof.
  destruct (@created_announce_authentic X25519.additive X25519.additive_laws Ed25519.hashScheme
    Ed25519.hashScheme_laws (replicate 32 Byte.x01) (replicate 32 Byte.x02) [Byte.x61; Byte.x62]
    [Byte.x68; Byte.x69] false (Some [Byte.x05]) 1700000000 []) as (own & a & Hown & _ & _ & Hok);
    [reflexivity|reflexivity|reflexivity|left; reflexivity|].
  destruct Hok as (p & Hp & Hwf & Ha & _ & _ & Happ & _); [vm_compute; discriminate|].
  exists own, (SetRatchetPublic [] a), p. split_and!; assumption.
Defined.
End AnnounceWire.
