(* ===== verification/Rate.v ===== *)
(** * Announce rates (package [rate])

    The token bucket, the per-destination rebroadcast control and the ingress
    control of [rate.go].  The clock reading of each call is its argument
    [now], in nanoseconds; the zero [time.Time] is 0. *)

From S2P Require Import Prelude.
From S2P Require Import Float64.
From S2P Require Import Common.

Module Rate.
Import Common.
Local Open Scope go_scope.

(** [time.Duration.Seconds]. *)
Definition Seconds (d : Z) : Float64.f64 :=
  Float64.add (Float64.of_Z (Z.quot d Second))
    (Float64.div (Float64.of_Z (Z.rem d Second)) (Float64.of_Z Second)).

Lemma Seconds_nonneg d : 0 <= d → Float64.nonneg (Seconds d).
Proof.
  intros Hd. assert (0 <= Z.quot d Second) by (apply Z.quot_pos; [done|by unfold Second]).
  assert (0 <= Z.rem d Second) by (apply Z.rem_nonneg; [by unfold Second|done]).
  apply Float64.add_nonneg; [|apply Float64.div_nonneg]; by apply Float64.of_Z_nonneg.
Qed.

(** ** [Limiter] *)

Record Limiter := mkLimiter {
  rate : Float64.f64;
  capacity : Float64.f64;
  lastUpdate : Z;
  allowance : Float64.f64
}.

Definition NewLimiter (now : Z) (rate capacity : Float64.f64) : Limiter :=
  mkLimiter rate capacity now capacity.

Definition AllowanceMinThreshold : Float64.f64 := Float64.of_Z 1.
Definition AllowanceDecrement : Float64.f64 := Float64.of_Z 1.

Definition Allow (now : Z) (l : Limiter) : Limiter * bool :=
  let elapsed := now - lastUpdate l in
  let a := Float64.add (allowance l) (Float64.mul (Seconds elapsed) (rate l)) in
  let a := if Float64.ltb (capacity l) a then capacity l else a in
  if Float64.ltb a AllowanceMinThreshold then (mkLimiter (rate l) (capacity l) now a, false)
  else (mkLimiter (rate l) (capacity l) now (Float64.sub a AllowanceDecrement), true).

(** ** [AnnounceRateControl] *)

Record AnnounceRateControl := mkARC {
  rateTarget : Float64.f64;
  rateGrace : Z;
  ratePenalty : Float64.f64;
  announceHistory : gmap bytes (list Z)
}.

Definition NewAnnounceRateControl (target : Float64.f64) (grace : Z) (penalty : Float64.f64)
    : AnnounceRateControl := mkARC target grace penalty ∅.

Definition HistoryGraceThreshold : Z := 1.
Definition Day : Z := 24 * 3600 * Second.

Definition set_history (h : gmap bytes (list Z)) (arc : AnnounceRateControl) : AnnounceRateControl :=
  mkARC (rateTarget arc) (rateGrace arc) (ratePenalty arc) h.

(** A negative grace with an empty history indexes before the first entry. *)
Definition AllowAnnounceHash (now : Z) (destHash : bytes) (arc : AnnounceRateControl)
    : outcome Empty_set (AnnounceRateControl * bool) :=
  if Float64.leb (rateTarget arc) (Float64.of_Z 0) then Ok (arc, true)
  else
    let history := default [] (announceHistory arc !! destHash) in
    let cutoff := now - Day in
    let history := filter (λ t, cutoff < t) history in
    let allow := (set_history (<[destHash := history ++ [now]]> (announceHistory arc)) arc, true) in
    if len history <? rateGrace arc then Ok allow
    else
      lastAnnounce ← go_index (len history - 1) history;
      let waitTime :=
        if rateGrace arc + HistoryGraceThreshold <? len history
        then Float64.add (rateTarget arc) (ratePenalty arc) else rateTarget arc in
      Ok (if Float64.ltb (Seconds (now - lastAnnounce)) waitTime then (arc, false) else allow).

(** [Cleanup] of the entries older than a day. *)
Definition CleanupExpired (now : Z) (arc : AnnounceRateControl) : AnnounceRateControl :=
  let cutoff := now - Day in
  set_history
    (omap (λ history, match filter (λ t, cutoff < t) history with [] => None | f => Some f end)
       (announceHistory arc)) arc.

(** ** [IngressControl] *)

Record IngressControlConfig := mkICConfig {
  Enabled : bool;
  NewTime : Z;
  BurstFreqNew : Float64.f64;
  BurstFreq : Float64.f64;
  BurstHold : Z;
  BurstPenalty : Z;
  MaxHeldAnnounces : Z;
  HeldReleaseInterval : Z
}.

(** 3.5 and 12.0. *)
Definition NewIngressControlConfig : IngressControlConfig :=
  mkICConfig true (2 * 60 * 60 * Second) (Float64.div (Float64.of_Z 7) (Float64.of_Z 2))
    (Float64.of_Z 12) (60 * Second) (300 * Second) 256 (30 * Second).

Record IngressControl := mkIC {
  cfg : IngressControlConfig;
  spawnedAt : Z;
  arrivals : list Z;
  heldQueue : list (bytes * bytes);
  heldIndex : gmap bytes Z;
  burstActive : bool;
  burstActivatedAt : Z;
  burstCount : Z;
  burstClearedAt : Z;
  lastReleaseAt : Z
}.

Definition NewIngressControlWith (now : Z) (c : IngressControlConfig) : IngressControl :=
  let def := NewIngressControlConfig in
  let pos d d' := if d <=? 0 then d' else d in
  let posf d d' := if Float64.leb d (Float64.of_Z 0) then d' else d in
  mkIC (mkICConfig (Enabled c) (pos (NewTime c) (NewTime def))
          (posf (BurstFreqNew c) (BurstFreqNew def)) (posf (BurstFreq c) (BurstFreq def))
          (pos (BurstHold c) (BurstHold def)) (pos (BurstPenalty c) (BurstPenalty def))
          (pos (MaxHeldAnnounces c) (MaxHeldAnnounces def))
          (pos (HeldReleaseInterval c) (HeldReleaseInterval def)))
    now [] [] ∅ false 0 0 0 0.

Definition NewIngressControl (now : Z) (enabled : bool) : IngressControl :=
  let c := NewIngressControlConfig in
  NewIngressControlWith now
    (mkICConfig enabled (NewTime c) (BurstFreqNew c) (BurstFreq c) (BurstHold c) (BurstPenalty c)
       (MaxHeldAnnounces c) (HeldReleaseInterval c)).

Definition maxArrivalEntries : Z := 65536.
Definition burstSampleMinimum : Z := 8.
(** 0.01. *)
Definition MinElapsedSeconds : Float64.f64 := Float64.div (Float64.of_Z 1) (Float64.of_Z 100).

(** The loop skips the leading entries before the cutoff. *)
Fixpoint dropBefore (cutoff : Z) (l : list Z) : list Z :=
  match l with
  | [] => []
  | t :: l' => if t <? cutoff then dropBefore cutoff l' else l
  end.

Definition recordArrivalLocked (now : Z) (ic : IngressControl) : IngressControl :=
  let a := dropBefore (now - BurstHold (cfg ic)) (arrivals ic ++ [now]) in
  let a := if maxArrivalEntries <? len a then drop (Z.to_nat (len a - maxArrivalEntries)) a else a in
  mkIC (cfg ic) (spawnedAt ic) a (heldQueue ic) (heldIndex ic) (burstActive ic)
    (burstActivatedAt ic) (burstCount ic) (burstClearedAt ic) (lastReleaseAt ic).

Definition currentFrequencyLocked (now : Z) (ic : IngressControl) : Float64.f64 :=
  if len (arrivals ic) <? burstSampleMinimum then Float64.of_Z 0
  else
    match arrivals ic with
    | [] => Float64.of_Z 0
    | first :: _ =>
        let window := Seconds (now - first) in
        let window := if Float64.ltb window MinElapsedSeconds then MinElapsedSeconds else window in
        Float64.div (Float64.of_Z (len (arrivals ic) - 1)) window
    end.

(** The burst detector: the two branches on the frequency. *)
Definition trackBurst (now : Z) (ic : IngressControl) : IngressControl :=
  let threshold :=
    if now - spawnedAt ic <? NewTime (cfg ic) then BurstFreqNew (cfg ic) else BurstFreq (cfg ic) in
  let set active activated count cleared :=
    mkIC (cfg ic) (spawnedAt ic) (arrivals ic) (heldQueue ic) (heldIndex ic) active activated count
      cleared (lastReleaseAt ic) in
  if Float64.ltb threshold (currentFrequencyLocked now ic) then
    if negb (burstActive ic) then set true now (burstCount ic + 1) 0
    else set true (burstActivatedAt ic) (burstCount ic) 0
  else if burstActive ic then
    if burstClearedAt ic =? 0 then set true (burstActivatedAt ic) (burstCount ic) now
    else if BurstHold (cfg ic) <=? now - burstClearedAt ic
    then set false (burstActivatedAt ic) (burstCount ic) (burstClearedAt ic)
    else ic
  else ic.

Definition set_held (q : list (bytes * bytes)) (idx : gmap bytes Z) (released : Z)
    (ic : IngressControl) : IngressControl :=
  mkIC (cfg ic) (spawnedAt ic) (arrivals ic) q idx (burstActive ic) (burstActivatedAt ic)
    (burstCount ic) (burstClearedAt ic) released.

Definition ProcessAnnounceHash (now : Z) (announceHash announceData : bytes) (isNewDest : bool)
    (ic : IngressControl) : IngressControl * bool :=
  if negb (Enabled (cfg ic)) then (ic, true)
  else
    let ic := trackBurst now (recordArrivalLocked now ic) in
    if negb (burstActive ic) then (ic, true)
    else if negb isNewDest then (ic, true)
    else if bool_decide (is_Some (heldIndex ic !! announceHash)) then (ic, false)
    else if MaxHeldAnnounces (cfg ic) <=? len (heldQueue ic) then (ic, false)
    else (set_held (heldQueue ic ++ [(announceHash, announceData)])
            (<[announceHash := len (heldQueue ic)]> (heldIndex ic)) (lastReleaseAt ic) ic, false).

(** The rewrite of the positions of the remaining entries. *)
Fixpoint reindex (i : Z) (q : list (bytes * bytes)) (idx : gmap bytes Z) : gmap bytes Z :=
  match q with
  | [] => idx
  | h :: q => reindex (i + 1) q (<[h.1 := i]> idx)
  end.

Definition ReleaseHeldAnnounce (now : Z) (ic : IngressControl)
    : IngressControl * option (bytes * bytes) :=
  match heldQueue ic with
  | [] => (ic, None)
  | entry :: rest =>
      if burstActive ic then (ic, None)
      else if negb (burstClearedAt ic =? 0)
              && (now - burstClearedAt ic <? BurstHold (cfg ic) + BurstPenalty (cfg ic)) then (ic, None)
      else if negb (lastReleaseAt ic =? 0)
              && (now - lastReleaseAt ic <? HeldReleaseInterval (cfg ic)) then (ic, None)
      else (set_held rest (reindex 0 rest (delete entry.1 (heldIndex ic))) now ic, Some entry)
  end.

Definition HeldCount (ic : IngressControl) : Z := len (heldQueue ic).
Definition InBurst (ic : IngressControl) : bool := burstActive ic.

(** ** The hold queue *)

(** The index holds the position of every queued hash and nothing else. *)
Definition index_ok (q : list (bytes * bytes)) (idx : gmap bytes Z) : Prop :=
  ∀ h i, idx !! h = Some i ↔ 0 <= i ∧ ∃ d, q !! Z.to_nat i = Some (h, d).

(** What has been held and what has been released so far, in order. *)
Inductive run : IngressControl → list (bytes * bytes) → list (bytes * bytes) → Prop :=
  | run_new now c : run (NewIngressControlWith now c) [] []
  | run_pass now h d new ic ic' held released :
      run ic held released → ProcessAnnounceHash now h d new ic = (ic', true) →
      run ic' held released
  | run_drop now h d new ic ic' held released :
      run ic held released → ProcessAnnounceHash now h d new ic = (ic', false) →
      heldQueue ic' = heldQueue ic → run ic' held released
  | run_hold now h d new ic ic' held released :
      run ic held released → ProcessAnnounceHash now h d new ic = (ic', false) →
      heldQueue ic' ≠ heldQueue ic → run ic' (held ++ [(h, d)]) released
  | run_wait now ic ic' held released :
      run ic held released → ReleaseHeldAnnounce now ic = (ic', None) → run ic' held released
  | run_release now e ic ic' held released :
      run ic held released → ReleaseHeldAnnounce now ic = (ic', Some e) →
      run ic' held (released ++ [e]).

Lemma index_ok_append q idx h d :
  index_ok q idx → idx !! h = None → index_ok (q ++ [(h, d)]) (<[h := len q]> idx).
Proof.
  intros Hi Hn h' i. destruct (decide (h = h')) as [<-|Hne].
  - rewrite lookup_insert_eq. split.
    + intros [= <-]. split; [unfold len; lia|]. exists d. unfold len. rewrite Nat2Z.id.
      by rewrite list_lookup_middle.
    + intros (H0 & d' & Hl). destruct (decide (Z.to_nat i < length q)%nat) as [Hlt|Hge].
      * rewrite lookup_app_l in Hl by done.
        assert (idx !! h = Some i) as Heq by (apply Hi; eauto). congruence.
      * assert (Z.to_nat i = length q) as Hq.
        { apply lookup_lt_Some in Hl. rewrite length_app in Hl. cbn in Hl. lia. }
        f_equal. unfold len. lia.
  - rewrite lookup_insert_ne by done. rewrite (Hi h' i).
    split; intros (H0 & d' & Hl); (split; [done|]); exists d'.
    + by apply lookup_app_l_Some.
    + apply lookup_app_Some in Hl as [Hl|[Hge Hl]]; [done|].
      apply list_lookup_singleton_Some in Hl as [_ [= -> _]]. done.
Qed.

Lemma index_ok_NoDup q idx : index_ok q idx → NoDup q.*1.
Proof.
  intros Hi. apply NoDup_alt. intros i j h Hx Hy. rewrite list_lookup_fmap in Hx, Hy.
  destruct (q !! i) as [[h1 d1]|] eqn:H1; [|done]. destruct (q !! j) as [[h2 d2]|] eqn:H2; [|done].
  cbn in Hx, Hy. simplify_eq.
  assert (idx !! h = Some (Z.of_nat i)) as E1 by (apply Hi; rewrite Nat2Z.id; split; [lia|eauto]).
  assert (idx !! h = Some (Z.of_nat j)) as E2 by (apply Hi; rewrite Nat2Z.id; split; [lia|eauto]).
  rewrite E1 in E2. injection E2. lia.
Qed.

Lemma index_ok_None q idx h : index_ok q idx → idx !! h = None ↔ h ∉ q.*1.
Proof.
  intros Hi. split.
  - intros Hn ([h' d] & -> & [n Hl]%list_elem_of_lookup)%list_elem_of_fmap. cbn in Hn.
    assert (idx !! h' = Some (Z.of_nat n)) as E by (apply Hi; rewrite Nat2Z.id; split; [lia|eauto]).
    congruence.
  - intros Hn. apply eq_None_not_Some. intros [i (_ & d & Hl)%Hi]. destruct Hn.
    apply list_elem_of_fmap. exists (h, d). split; [done|]. by eapply list_elem_of_lookup_2.
Qed.

Lemma reindex_lookup q i idx h :
  NoDup q.*1 →
  (h ∉ q.*1 → reindex i q idx !! h = idx !! h)
  ∧ (∀ n d, q !! n = Some (h, d) → reindex i q idx !! h = Some (i + Z.of_nat n)).
Proof.
  revert i idx. induction q as [|[h0 d0] q IH]; intros i idx; [done|].
  rewrite fmap_cons. cbn [fst reindex]. intros [Hh0 Hnd]%list.NoDup_cons.
  destruct (IH (i + 1) (<[h0 := i]> idx) Hnd) as [IH1 IH2]. split.
  - intros [Hne Hn]%not_elem_of_cons. rewrite IH1 by done. by rewrite lookup_insert_ne.
  - intros [|n] d Hl; cbn in Hl.
    + simplify_eq. rewrite IH1 by done. rewrite lookup_insert_eq. f_equal. lia.
    + rewrite (IH2 n d Hl). f_equal. lia.
Qed.

Lemma index_ok_release e rest idx :
  index_ok (e :: rest) idx → index_ok rest (reindex 0 rest (delete e.1 idx)).
Proof.
  intros Hi. pose proof (index_ok_NoDup _ _ Hi) as Hnd. rewrite fmap_cons in Hnd.
  apply list.NoDup_cons in Hnd as [He Hnd]. intros h i.
  destruct (reindex_lookup rest 0 (delete e.1 idx) h Hnd) as [R1 R2]. split.
  - intros Hl. destruct (decide (h ∈ rest.*1)) as [Hin|Hout].
    + apply list_elem_of_fmap in Hin as ([h' d] & -> & [n Hn]%list_elem_of_lookup). cbn in *.
      rewrite (R2 n d Hn) in Hl. injection Hl as <-. split; [lia|]. exists d.
      by replace (Z.to_nat (0 + Z.of_nat n)) with n by lia.
    + rewrite (R1 Hout) in Hl. apply lookup_delete_Some in Hl as [Hne Hl].
      assert (Hn : idx !! h = None) by (apply (index_ok_None _ _ _ Hi); set_solver). congruence.
  - intros (H0 & d & Hl). rewrite (R2 _ d Hl). f_equal. lia.
Qed.

Definition ingress_inv (ic : IngressControl) (held released : list (bytes * bytes)) : Prop :=
  held = released ++ heldQueue ic ∧ index_ok (heldQueue ic) (heldIndex ic)
  ∧ len (heldQueue ic) <= MaxHeldAnnounces (cfg ic).

(** The detector leaves the queue and the configuration alone. *)
Lemma trackBurst_frame now ic :
  let ic' := trackBurst now (recordArrivalLocked now ic) in
  cfg ic' = cfg ic ∧ heldQueue ic' = heldQueue ic ∧ heldIndex ic' = heldIndex ic.
Proof. unfold trackBurst, recordArrivalLocked. repeat case_match; done. Qed.

(** What a call of [ProcessAnnounceHash] does to the queue. *)
Lemma process_cases now h d new ic ic' pass held released :
  ingress_inv ic held released → ProcessAnnounceHash now h d new ic = (ic', pass) →
  cfg ic' = cfg ic
  ∧ (pass = true ↔ Enabled (cfg ic) = false ∨ burstActive ic' = false ∨ new = false)
  ∧ (heldQueue ic' = heldQueue ic ∧ heldIndex ic' = heldIndex ic
       ∧ (pass = false → h ∈ (heldQueue ic).*1 ∨ len (heldQueue ic) = MaxHeldAnnounces (cfg ic))
     ∨ pass = false ∧ h ∉ (heldQueue ic).*1 ∧ len (heldQueue ic) < MaxHeldAnnounces (cfg ic)
       ∧ heldQueue ic' = heldQueue ic ++ [(h, d)] ∧ index_ok (heldQueue ic') (heldIndex ic')).
Proof.
  intros (_ & Hi & Hmax). unfold ProcessAnnounceHash.
  destruct (Enabled (cfg ic)) eqn:Hen; cbn [negb]; [|intros [= <- <-]; naive_solver].
  destruct (trackBurst_frame now ic) as (Hc & Hq & Hx).
  set (ic1 := trackBurst now (recordArrivalLocked now ic)) in *. clearbody ic1.
  destruct (burstActive ic1) eqn:Hb; cbn [negb]; [|intros [= <- <-]; naive_solver].
  destruct new; cbn [negb]; [|intros [= <- <-]; naive_solver].
  rewrite Hq, Hx, Hc. case_bool_decide as Hdup; [|destruct (Z.leb_spec (MaxHeldAnnounces (cfg ic)) (len (heldQueue ic)))];
    intros [= <- <-]; (split; [done|]); (split; [cbn; naive_solver|]).
  - left. split_and!; [done..|]. intros _. left. apply dec_stable. intros Hn.
    apply (index_ok_None _ _ _ Hi) in Hn. rewrite Hn in Hdup. by destruct Hdup.
  - left. split_and!; [done..|]. intros _. right. lia.
  - right. apply eq_None_not_Some in Hdup. cbn [heldQueue heldIndex set_held].
    split_and!; [done|by apply (index_ok_None _ _ _ Hi)|done|done|by apply index_ok_append].
Qed.

Lemma run_inv ic held released : run ic held released → ingress_inv ic held released.
Proof.
  induction 1 as [now c|now h d new ic ic' held released _ IH Hp|now h d new ic ic' held released _ IH Hp Hq
    |now h d new ic ic' held released _ IH Hp Hq|now ic ic' held released _ IH Hr|now e ic ic' held released _ IH Hr].
  - split_and!; [done| |].
    + intros h i. cbn. rewrite lookup_empty. split; [done|]. by intros (_ & d & Hl).
    + cbn. unfold len. cbn. case_match eqn:Hc; [done|]. apply Z.leb_gt in Hc. lia.
  - destruct (process_cases _ _ _ _ _ _ _ _ _ IH Hp) as (Hc & _ & [(Hq & Hx & _)|[? _]]); [|done].
    unfold ingress_inv. by rewrite Hq, Hx, Hc.
  - destruct (process_cases _ _ _ _ _ _ _ _ _ IH Hp) as (Hc & _ & [(_ & Hx & _)|(_ & _ & _ & Hq' & _)]).
    + unfold ingress_inv. by rewrite Hq, Hx, Hc.
    + rewrite Hq in Hq'. apply (f_equal length) in Hq'. rewrite length_app in Hq'. cbn in Hq'. lia.
  - destruct (process_cases _ _ _ _ _ _ _ _ _ IH Hp) as (Hc & _ & [[? _]|(_ & _ & Hlt & Hq' & Hi)]); [done|].
    destruct IH as (-> & _ & _). split_and!; [by rewrite Hq', app_assoc|done|].
    rewrite Hq', Hc. unfold len in *. rewrite length_app. cbn. lia.
  - revert Hr. unfold ReleaseHeldAnnounce. repeat case_match; intros [= <-]; done.
  - destruct IH as (Hh & Hi & Hmax). revert Hr. unfold ReleaseHeldAnnounce.
    destruct (heldQueue ic) as [|e0 rest]; [done|]. repeat case_match; intros [= <- <-].
    split_and!; cbn [heldQueue heldIndex cfg set_held].
    + by rewrite Hh, <- app_assoc.
    + by apply index_ok_release.
    + unfold len in *. cbn in Hmax. lia.
Qed.

(** C28.  Ingress control holds announces in a bounded queue without duplicates
    and gives each back once, in arrival order and unchanged: what was held is
    what was released followed by the queue.  It holds or drops an announce only
    while enabled, in a burst and for an unknown destination, and drops it only
    when that announce is already queued or the queue is full.  During a burst
    no release succeeds, whatever the time, and releases never end the burst. *)
Theorem ingress_fifo ic held released :
  run ic held released →
  held = released ++ heldQueue ic
  ∧ NoDup (heldQueue ic).*1
  ∧ len (heldQueue ic) <= MaxHeldAnnounces (cfg ic)
  ∧ (∀ now h d new ic' pass, ProcessAnnounceHash now h d new ic = (ic', pass) →
      (pass = true ↔ Enabled (cfg ic) = false ∨ burstActive ic' = false ∨ new = false)
      ∧ (pass = false → heldQueue ic' = heldQueue ic ++ [(h, d)]
           ∨ heldQueue ic' = heldQueue ic
             ∧ (h ∈ (heldQueue ic).*1 ∨ len (heldQueue ic) = MaxHeldAnnounces (cfg ic))))
  ∧ (burstActive ic = true → ∀ now, ReleaseHeldAnnounce now ic = (ic, None)).
Proof.
  intros Hrun. pose proof (run_inv _ _ _ Hrun) as Hinv. pose proof Hinv as (Hh & Hi & Hmax).
  split_and!; [done|by eapply index_ok_NoDup|done| |].
  - intros now h d new ic' pass Hp.
    destruct (process_cases _ _ _ _ _ _ _ _ _ Hinv Hp) as (_ & Hpass & Hcase). split; [done|].
    intros Hf. destruct Hcase as [(Hq & _ & Hd)|(_ & _ & _ & Hq & _)]; [right|by left]. auto.
  - intros Hb now. unfold ReleaseHeldAnnounce. rewrite Hb. by destruct (heldQueue ic).
Qed.

Lemma run_offer now h d new ic held released :
  run ic held released → (ProcessAnnounceHash now h d new ic).2 = true →
  run (ProcessAnnounceHash now h d new ic).1 held released.
Proof.
  intros Hr Hp. destruct (ProcessAnnounceHash now h d new ic) as [ic' pass] eqn:He. cbn in *.
  subst pass. by eapply run_pass.
Qed.

(** Eight announces of unknown destinations in one instant: the eighth is held. *)
Definition offer (ic : IngressControl) (h : Byte.byte) : IngressControl :=
  (ProcessAnnounceHash 5 [h] [h; h] true ic).1.
Definition before_burst : IngressControl :=
  foldl offer (NewIngressControl 5 true)
    [Byte.x01; Byte.x02; Byte.x03; Byte.x04; Byte.x05; Byte.x06; Byte.x07].
Definition in_burst : IngressControl := offer before_burst Byte.x08.

Lemma before_burst_run : run before_burst [] [].
Proof.
  unfold before_burst, offer, NewIngressControl. cbn [foldl].
  do 7 (apply run_offer; [|vm_compute; reflexivity]). apply run_new.
Qed.

Lemma in_burst_run : run in_burst [([Byte.x08], [Byte.x08; Byte.x08])] [].
Proof.
  apply (run_hold 5 [Byte.x08] [Byte.x08; Byte.x08] true before_burst in_burst [] []).
  - apply before_burst_run.
  - vm_compute; reflexivity.
  - vm_compute; discriminate.
Qed.

Lemma ingress_fifo_witness :
  run in_burst [([Byte.x08], [Byte.x08; Byte.x08])] []
  ∧ heldQueue in_burst = [([Byte.x08], [Byte.x08; Byte.x08])]
  ∧ ReleaseHeldAnnounce (10 ^ 18) in_burst = (in_burst, None).
Proof.
  assert (Hact : burstActive in_burst = true) by (vm_compute; reflexivity).
  destruct (ingress_fifo in_burst _ _ in_burst_run) as (Hq & _ & _ & _ & Hb).
  rewrite app_nil_l in Hq. split_and!; [exact in_burst_run|symmetry; exact Hq|exact (Hb Hact _)].
Defined.
End Rate.
