(* ===== verification/Relay.v ===== *)
(** * The relay path (package [transport])

    The forwarding handlers of [relay.go] and [reverse.go]: packets addressed
    to this transport node, packets of shared-instance clients, bridged link
    requests, link traffic and receipt proofs.  A handler is a method on the
    part of [Transport] it reads and writes; what it transmits is appended to
    [sent].  In-place rewriting of the inbound buffer is explicit: after it,
    the slices of the packet are read from the new array. *)

From S2P Require Import Prelude.
From S2P Require Import Sha256.
From S2P Require Import Packet.
From S2P Require Import HeaderRewrite.
From S2P Require Import Float64.
From S2P Require Import Common.
From S2P Require Import RelayTables.

Module Relay.
Import Common.
Local Open Scope go_scope.

Abbreviation packet := Packet.packet.

Record Config := mkConfig { ConnectedToSharedInstance : bool; EnableTransport : bool }.

(** [linkTable] and [reverseTable] are pointers in the code; [None] is [nil].
    [sent] lists the calls of [Send], newest last. *)
Record Transport := mkTransport {
  config : option Config;
  transportIdentity : option bytes;
  transportIDCache : bytes;
  paths : gmap bytes Path;
  destinations : gset hash16;
  linkTable : option LinkTable.linkRelayTable;
  reverseTable : option ReverseTable.reverseTable;
  sent : list (iface * bytes)
}.

Definition set_cache (c : bytes) (t : Transport) : Transport :=
  mkTransport (config t) (transportIdentity t) c (paths t) (destinations t) (linkTable t)
    (reverseTable t) (sent t).
Definition set_linkTable (lt : option LinkTable.linkRelayTable) (t : Transport) : Transport :=
  mkTransport (config t) (transportIdentity t) (transportIDCache t) (paths t) (destinations t) lt
    (reverseTable t) (sent t).
Definition set_reverseTable (rt : option ReverseTable.reverseTable) (t : Transport) : Transport :=
  mkTransport (config t) (transportIdentity t) (transportIDCache t) (paths t) (destinations t)
    (linkTable t) rt (sent t).
Definition transmit (i : iface) (data : bytes) (t : Transport) : Transport :=
  mkTransport (config t) (transportIdentity t) (transportIDCache t) (paths t) (destinations t)
    (linkTable t) (reverseTable t) (sent t ++ [(i, data)]).

Definition MaxHops : Z := 128.
Definition LinkProofTimeoutPerHop : Z := 6 * Second.
Definition truncatedHashBytes : Z := 16.

(** Handlers return no error; a nil interface whose name is logged panics. *)
Abbreviation M := (goM Transport Empty_set).

Definition logName (i : NetworkInterface) : M () :=
  lift (match i with Some _ => Ok () | None => Panic end).

(** A slice bound or index violation inside a helper is a panic here. *)
Definition run {E A} (r : outcome E A) : M (option A) :=
  lift (match r with Ok a => Ok (Some a) | Err _ => Ok None | Panic => Panic end).

Definition transportEnabled (t : Transport) : bool :=
  match config t with
  | None => false
  | Some c => if ConnectedToSharedInstance c then false else EnableTransport c
  end.

Definition ourTransportID : M (option bytes) :=
  t ← mget;
  match transportIdentity t with
  | None => mret None
  | Some h =>
      (if len (transportIDCache t) =? 0 then modify (set_cache h) else mret ()) ;;
      t ← mget;
      mret (Some (transportIDCache t))
  end.

Section handlers.
Context `{Runtime}.

Definition mayRelayForSharedInstanceClient (t : Transport) (sourceIface : NetworkInterface)
    (related : list NetworkInterface) : bool :=
  if transportEnabled t then true
  else if isLocalClientInterface sourceIface then true
  else existsb isLocalClientInterface related.

(** The error values are only logged by the callers. *)
Definition sendOnInterface (i : NetworkInterface) (data : bytes) : M () :=
  match i with
  | None => mret ()
  | Some i =>
      if negb (IsEnabled i) then mret ()
      else if negb (AllowsOutgoing i) then mret ()
      else modify (transmit i data)
  end.

Definition truncate16 (h : bytes) : bytes :=
  if truncatedHashBytes <? len h then take 16 h else h.

(** [mem] is the inbound buffer at the time of the call, which [pkt.Raw]
    aliases: it is hashed when the packet's own hash is stale. *)
Definition recordReverseEntry (pkt : packet) (mem : bytes) (recvIface outIface : NetworkInterface)
    : M () :=
  t ← mget;
  match reverseTable t, recvIface, outIface with
  | Some rt, Some _, Some _ =>
      th ← run (Packet.TruncatedHash (Packet.set_Raw (buf_of mem) pkt)).2;
      let th := default [] th in
      if len th =? 0 then mret ()
      else modify (set_reverseTable
             (Some (ReverseTable.put th (ReverseTable.mkEntry recvIface outIface now) rt)))
  | _, _, _ => mret ()
  end.

Definition recordLinkRelay (raw : bytes) (recvIface : NetworkInterface) (path : Path)
    (takenHops : Z) : M () :=
  t ← mget;
  match linkTable t with
  | None => mret ()
  | Some lt =>
      match Packet.Unpack (Packet.packet_of_raw raw) with
      | (_, Err _) => mret ()
      | (_, Panic) => lift Panic
      | (fwd, Ok _) =>
          linkID ← run (Packet.LinkIDFromLinkRequest fwd);
          let linkID := default [] linkID in
          if len linkID =? 0 then mret ()
          else
            let remaining := Z.max (HopCount path) 1 in
            let timeout := now + (LinkProofTimeoutPerHop * remaining
                                  + ExtraLinkProofTimeout (Interface path)) in
            let entry := LinkTable.mkEntry (NextHop path) (Interface path) recvIface remaining
              takenHops (Packet.DestinationHash fwd) false timeout now linkID in
            modify (set_linkTable (Some (LinkTable.put linkID entry lt))) ;;
            logName recvIface ;;
            logName (Interface path)
      end
  end.

(** The bytes a payload slice reads after the buffer it points into changed:
    the payload is the tail of the frame. *)
Definition payloadView (pkt : packet) (mem : bytes) : bytes :=
  drop (length mem - length (Packet.Data pkt)) mem.

Definition ifaceMTU (i : NetworkInterface) : Z :=
  match i with Some i => GetMTU i | None => 0 end.

(** [true]: handled (forwarded or dropped); [false]: left to local delivery. *)
Definition forwardTransportPacket (pkt : packet) (raw : bytes) (sourceIface : NetworkInterface)
    : M bool :=
  if negb (bool_decide (Packet.HeaderType pkt = Packet.HeaderType2))
     || (len (default [] (Packet.TransportID pkt)) =? 0) then mret false
  else
    ourID ← ourTransportID;
    match ourID with
    | None => mret false
    | Some ourID =>
        if negb (bool_decide (default [] (Packet.TransportID pkt) = ourID)) then mret false
        else
          t ← mget;
          if negb (mayRelayForSharedInstanceClient t sourceIface []) then
            logName sourceIface ;; mret true
          else
            let destHash := truncate16 (Packet.DestinationHash pkt) in
            let destKey := hash16FromSlice destHash in
            let isLocal := bool_decide (destKey ∈ destinations t) in
            if isLocal then mret false
            else
              match paths t !! pathMapKey destHash with
              | Some path =>
                  if bool_decide (Interface path = None) then logName sourceIface ;; mret true
                  else if bool_decide (Interface path = sourceIface) then mret true
                  else
                    let fromLocal := isLocalClientInterface sourceIface in
                    let newHops := HeaderRewrite.linkRelayAccountedHops (Packet.Hops pkt) fromLocal in
                    if MaxHops <=? b2z newHops then mret true
                    else
                      let rewritten :=
                        if 1 <? HopCount path then
                          out ← HeaderRewrite.rebuildHeaderType2 raw newHops (NextHop path);
                          Ok (out, out)
                        else if HopCount path =? 1 then HeaderRewrite.stripHeaderType2 raw newHops
                        else let out := HeaderRewrite.rewriteHopsInPlace raw newHops in Ok (out, out)
                      in
                      rewritten ← run rewritten;
                      match rewritten with
                      | None => mret true
                      | Some (mem, out) =>
                          out ←
                            (if bool_decide (Packet.PacketType pkt = Packet.PacketTypeLinkReq) then
                               clamped ← run (HeaderRewrite.clampRelayedLinkRequestMTU out
                                 (payloadView pkt mem) (ifaceMTU sourceIface)
                                 (ifaceMTU (Interface path)));
                               let out := default out clamped in
                               recordLinkRelay out sourceIface path (b2z newHops) ;;
                               mret out
                             else if bool_decide (Packet.PacketType pkt = Packet.PacketTypeAnnounce)
                             then mret out
                             else
                               recordReverseEntry pkt mem sourceIface (Interface path) ;;
                               mret out);
                          sendOnInterface (Interface path) out ;;
                          mret true
                      end
              | None => logName sourceIface ;; mret true
              end
    end.

(** [wraps]: the next hop differs from the destination, so the frame gets a
    transport header. *)
Definition wraps (path : Path) (destHash : bytes) : bool :=
  (1 <? HopCount path) && negb (len (NextHop path) =? 0)
  && negb (bool_decide (NextHop path = destHash)).

Definition forwardLocalClientPacket (pkt : packet) (raw : bytes) (sourceIface : NetworkInterface)
    : M bool :=
  if negb (isLocalClientInterface sourceIface) then mret false
  else
    t ← mget;
    let destHash := truncate16 (Packet.DestinationHash pkt) in
    let destKey := hash16FromSlice destHash in
    let isLocal := bool_decide (destKey ∈ destinations t) in
    if isLocal then mret false
    else
      match paths t !! pathMapKey destHash with
      | None => mret false
      | Some path =>
          if bool_decide (Interface path = None) then mret false
          else if bool_decide (Interface path = sourceIface) then mret true
          else
            wireHops ← lift (go_index 1 raw);
            let newHops := HeaderRewrite.linkRelayAccountedHops wireHops true in
            if MaxHops <=? b2z newHops then mret true
            else
              let mem := HeaderRewrite.rewriteHopsInPlace raw newHops in
              out ← (if wraps path destHash
                     then run (HeaderRewrite.insertHeaderType2 mem newHops (NextHop path))
                     else mret (Some mem));
              match out with
              | None => mret true
              | Some out =>
                  (if bool_decide (Packet.PacketType pkt = Packet.PacketTypeAnnounce) then mret ()
                   else recordReverseEntry pkt mem sourceIface (Interface path)) ;;
                  sendOnInterface (Interface path) out ;;
                  mret true
              end
      end.

Definition relayBridgedLinkRequestHT1 (pkt : packet) (raw : bytes)
    (sourceIface : NetworkInterface) : M bool :=
  t ← mget;
  if negb (mayRelayForSharedInstanceClient t sourceIface []) then
    logName sourceIface ;; mret true
  else
    let destHash := truncate16 (Packet.DestinationHash pkt) in
    let destKey := hash16FromSlice destHash in
    let isLocal := bool_decide (destKey ∈ destinations t) in
    let noPath := (if isLocal then mret () else logName sourceIface) ;; mret false in
    if isLocal then noPath
    else
      match paths t !! pathMapKey destHash with
      | None => noPath
      | Some path =>
          if bool_decide (Interface path = None) then noPath
          else if bool_decide (Interface path = sourceIface) then mret true
          else
            let fromLocal := isLocalClientInterface sourceIface in
            let newHops := HeaderRewrite.linkRelayAccountedHops (Packet.Hops pkt) fromLocal in
            if MaxHops <=? b2z newHops then mret true
            else
              let mem := HeaderRewrite.rewriteHopsInPlace raw newHops in
              out ← (if wraps path destHash
                     then run (HeaderRewrite.insertHeaderType2 mem newHops (NextHop path))
                     else mret (Some mem));
              match out with
              | None => mret true
              | Some out =>
                  recordLinkRelay out sourceIface path (b2z newHops) ;;
                  lift (go_index 0 out) ;;
                  sendOnInterface (Interface path) out ;;
                  mret true
              end
      end.

Definition relayBridgedLinkRequest (pkt : packet) (raw : bytes) (sourceIface : NetworkInterface)
    : M bool :=
  if bool_decide (Packet.HeaderType pkt = Packet.HeaderType2) then
    stripped ← run (HeaderRewrite.stripHeaderType2 raw (Packet.Hops pkt));
    match stripped with
    | None => mret false
    | Some (_, stripped) =>
        match Packet.Unpack (Packet.packet_of_raw stripped) with
        | (_, Err _) => mret false
        | (_, Panic) => lift Panic
        | (pkt, Ok _) => relayBridgedLinkRequestHT1 pkt stripped sourceIface
        end
    end
  else relayBridgedLinkRequestHT1 pkt raw sourceIface.

Definition forwardLinkData (linkID raw : bytes) (sourceIface : NetworkInterface) : M bool :=
  t ← mget;
  match linkTable t with
  | None => mret false
  | Some lt =>
      if (len raw <? truncatedHashBytes + 2) || (len linkID =? 0) then mret false
      else
        let linkID := truncate16 linkID in
        match LinkTable.get linkID lt with
        | None => mret false
        | Some entry =>
            let nextHopIface := LinkTable.NextHopIface entry in
            let receivedIface := LinkTable.ReceivedIface entry in
            if negb (mayRelayForSharedInstanceClient t sourceIface [receivedIface; nextHopIface])
            then logName sourceIface ;; mret true
            else
              let fromLocal := isLocalClientInterface sourceIface in
              wireHops ← lift (go_index 1 raw);
              let accounted := HeaderRewrite.linkRelayAccountedHops wireHops fromLocal in
              let atRemaining := b2z accounted =? LinkTable.RemainingHops entry in
              let atTaken := b2z accounted =? LinkTable.TakenHops entry in
              let outIface :=
                if bool_decide (nextHopIface = receivedIface) then
                  if negb atRemaining && negb atTaken then None else Some nextHopIface
                else if bool_decide (sourceIface = nextHopIface) then
                  if negb atRemaining then None else Some receivedIface
                else if bool_decide (sourceIface = receivedIface) then
                  if negb atTaken then None else Some nextHopIface
                else None in
              match outIface with
              | None | Some None => mret true
              | Some (Some out) =>
                  if negb (IsEnabled out) then mret true
                  else
                    sendOnInterface (Some out) (HeaderRewrite.rewriteHopsOnly raw accounted) ;;
                    modify (λ t, set_linkTable (LinkTable.touch linkID <$> linkTable t) t) ;;
                    mret true
              end
        end
  end.

Definition forwardReverseProof (pkt : packet) (i : NetworkInterface) : M bool :=
  t ← mget;
  match reverseTable t with
  | None => mret false
  | Some rt =>
      let dest := truncate16 (Packet.DestinationHash pkt) in
      match ReverseTable.get dest rt with
      | None => mret false
      | Some entry =>
          let proofForLocalClient := isLocalClientInterface (ReverseTable.ReceivedIface entry) in
          if negb (transportEnabled t) && negb (isLocalClientInterface i)
             && negb proofForLocalClient then mret false
          else if negb (bool_decide (i = ReverseTable.OutboundIface entry)) then mret true
          else
            match ReverseTable.ReceivedIface entry with
            | None => mret true
            | Some back =>
                if negb (IsEnabled back) then mret true
                else
                  let '(rt, popped) := ReverseTable.pop dest rt in
                  modify (set_reverseTable (Some rt)) ;;
                  if negb (bool_decide (popped = Some entry)) then mret true
                  else
                    sendOnInterface (Some back)
                      (HeaderRewrite.rewriteHopsOnly (Packet.raw pkt) (Packet.Hops pkt)) ;;
                    mret true
            end
      end
  end.
End handlers.

(** ** The transit decision *)

Definition own (t : Transport) : option bytes :=
  (λ h, if len (transportIDCache t) =? 0 then h else transportIDCache t) <$> transportIdentity t.

Definition cached (t : Transport) : Transport :=
  match transportIdentity t with
  | Some h => if len (transportIDCache t) =? 0 then set_cache h t else t
  | None => t
  end.

Lemma ourTransportID_run t : ourTransportID t = (cached t, Ok (own t)).
Proof.
  unfold ourTransportID, cached, own. autorewrite with goM.
  destruct (transportIdentity t) as [h|]; [|done].
  destruct (len (transportIDCache t) =? 0) eqn:E; autorewrite with goM; cbn; by rewrite ?E.
Qed.

Lemma cached_fields t :
  config (cached t) = config t ∧ paths (cached t) = paths t
  ∧ destinations (cached t) = destinations t ∧ linkTable (cached t) = linkTable t
  ∧ reverseTable (cached t) = reverseTable t ∧ sent (cached t) = sent t.
Proof. unfold cached. destruct (transportIdentity t); [destruct (_ =? _)|]; done. Qed.

Section facts.
Context `{RuntimeLaws}.
Implicit Types (t : Transport) (p q : packet) (raw : bytes) (s i : iface) (path : Path).

Definition accountedHops (p : packet) (s : iface) : byte :=
  HeaderRewrite.linkRelayAccountedHops (Packet.Hops p) (isLocalClientInterface (Some s)).

(** The conditions under which a packet is relayed along [path] out of [i]. *)
Record eligible t p s path i : Prop := {
  el_type : Packet.HeaderType p = Packet.HeaderType2;
  el_ours : Packet.TransportID p = own t;
  el_some : own t ≠ None;
  el_relay : mayRelayForSharedInstanceClient t (Some s) [] = true;
  el_remote : hash16FromSlice (Packet.DestinationHash p) ∉ destinations t;
  el_path : paths t !! pathMapKey (Packet.DestinationHash p) = Some path;
  el_iface : Interface path = Some i;
  el_other : i ≠ s;
  el_hops : b2z (accountedHops p s) < MaxHops
}.

(** What follows the decision. *)
Definition rewriteFor (path : Path) raw (hops : byte) : outcome HeaderRewrite.rewrite_error (bytes * bytes) :=
  if 1 <? HopCount path then
    out ← HeaderRewrite.rebuildHeaderType2 raw hops (NextHop path); Ok (out, out)
  else if HopCount path =? 1 then HeaderRewrite.stripHeaderType2 raw hops
  else let out := HeaderRewrite.rewriteHopsInPlace raw hops in Ok (out, out).

Definition recordAndSend p s path (hops : byte) (mem out : bytes) : M bool :=
  out ←
    (if bool_decide (Packet.PacketType p = Packet.PacketTypeLinkReq) then
       clamped ← run (HeaderRewrite.clampRelayedLinkRequestMTU out
         (payloadView p mem) (ifaceMTU (Some s)) (ifaceMTU (Interface path)));
       let out := default out clamped in
       recordLinkRelay out (Some s) path (b2z hops) ;; mret out
     else if bool_decide (Packet.PacketType p = Packet.PacketTypeAnnounce) then mret out
     else recordReverseEntry p mem (Some s) (Interface path) ;; mret out);
  sendOnInterface (Interface path) out ;;
  mret true.

Lemma parse_dest raw p : HeaderRewrite.parse raw = Some p → len (Packet.DestinationHash p) = 16.
Proof.
  intros (f & h & tid & dh & ctx & data & _ & Hok & _ & ->)%HeaderRewrite.parse_Some.
  apply HeaderRewrite.frame_ok_spec in Hok as (? & _). done.
Qed.

Lemma parse_tid raw p :
  HeaderRewrite.parse raw = Some p → Packet.HeaderType p = Packet.HeaderType2 →
  ∃ tid, Packet.TransportID p = Some tid ∧ len tid = 16.
Proof.
  intros (f & h & tid & dh & ctx & data & _ & Hok & _ & ->)%HeaderRewrite.parse_Some HT.
  destruct (HeaderRewrite.unpacked_header f h tid dh ctx data raw) as (E1 & _ & E3 & _).
  rewrite E1 in HT. rewrite E3, decide_True by done. exists tid. split; [done|].
  apply HeaderRewrite.frame_ok_spec in Hok as (_ & _ & [[_ ?]|[HT' _]]); [done|].
  by rewrite HT' in HT.
Qed.

Lemma truncate16_id (h : bytes) : len h = 16 → truncate16 h = h.
Proof. intros Hh. unfold truncate16, truncatedHashBytes. by rewrite Hh. Qed.

(** The three rewritings as one shape: new flags, hops and transport id before
    the unchanged rest, and what is left of the array behind it. *)
Record rewritten (path : Path) (f : byte) (tid dh : bytes) (raw : bytes)
    (f' hops : byte) (tid' st : bytes) : Prop := {
  rw_ok : Packet.frame_ok f' hops tid' dh = true;
  rw_hash : f' &&& Packet.HashableFlagsMask = f &&& Packet.HashableFlagsMask;
  rw_dest : (f' &&& Packet.HeaderMaskDestinationType) >>> 2
            = (f &&& Packet.HeaderMaskDestinationType) >>> 2;
  rw_type : f' &&& Packet.HeaderMaskPacketType = f &&& Packet.HeaderMaskPacketType;
  rw_len : len tid' <= len tid;
  rw_multi : 1 < HopCount path →
    tid' = NextHop path ∧ Packet.headerTypeOf f' = Packet.HeaderType2;
  rw_last : HopCount path = 1 →
    Packet.headerTypeOf f' = Packet.HeaderType1 ∧ st = HeaderRewrite.stale raw;
  rw_inplace : HopCount path ≠ 1 → st = []
}.

Lemma rewriteFor_frame path f h tid dh ctx data hops :
  Packet.frame_ok f h tid dh = true → Packet.headerTypeOf f = Packet.HeaderType2 →
  b2z hops < 128 →
  let raw := Packet.frame f h tid dh ctx data in
  (1 < HopCount path ∧ len (NextHop path) ≠ 16 ∧ ∃ e, rewriteFor path raw hops = Err e)
  ∨ (1 < HopCount path → len (NextHop path) = 16)
    ∧ ∃ f' tid' st, rewritten path f tid dh raw f' hops tid' st
    ∧ rewriteFor path raw hops
      = Ok (Packet.frame f' hops tid' dh ctx data ++ st, Packet.frame f' hops tid' dh ctx data).
Proof.
  intros Hok HT Hh raw. pose proof Hok as (Hd & _ & Ht)%HeaderRewrite.frame_ok_spec.
  destruct Ht as [[_ Ht]|[HT' _]]; [|by rewrite HT in HT'].
  assert (Hlen : 18 <= len raw).
  { subst raw. rewrite HeaderRewrite.len_frame. pose proof (len_nonneg data). lia. }
  unfold rewriteFor. destruct (Z.ltb_spec 1 (HopCount path)).
  - destruct (decide (len (NextHop path) = 16)) as [Hn|Hn].
    + right. split; [done|]. exists f, (NextHop path), []. subst raw.
      rewrite HeaderRewrite.rebuild_frame, app_nil_r by done. split; [|done].
      constructor; try done; try (rewrite ?len_nil; lia); apply HeaderRewrite.frame_ok_spec; naive_solver.
    + left. split_and!; [done..|]. unfold HeaderRewrite.rebuildHeaderType2, Packet.TruncatedHashLength.
      rewrite (proj2 (Z.leb_le _ _)), (proj2 (Z.eqb_neq _ _)) by (done || lia). by eexists.
  - right. split; [lia|]. destruct (Z.eqb_spec (HopCount path) 1).
    + exists (HeaderRewrite.strip_flags f), [], (HeaderRewrite.stale raw).
      subst raw. rewrite HeaderRewrite.strip_frame by done. split; [|done].
      destruct (HeaderRewrite.strip_flags_type f) as (? & ? & ? & ? & _).
      constructor; try done; try (rewrite ?len_nil; lia); apply HeaderRewrite.frame_ok_spec; naive_solver.
    + exists f, tid, []. rewrite app_nil_r.
      subst raw. destruct (HeaderRewrite.rewriteHops_frame f h tid dh ctx data hops) as [-> _].
      split; [|done]. constructor; try done; try (rewrite ?len_nil; lia); apply HeaderRewrite.frame_ok_spec; naive_solver.
Qed.

(** The next hop fits the header when one has to be written. *)
Definition hop_fits path : Prop := 1 < HopCount path → len (NextHop path) = 16.

Definition dropped raw p s t : Prop :=
  (∃ b, forwardTransportPacket p raw (Some s) t = (cached t, Ok b)
      ∨ forwardTransportPacket p raw (Some s) t = (t, Ok b))
  ∧ ∀ path i, eligible t p s path i → ¬ hop_fits path.

Definition relayed raw p s t : Prop :=
  ∃ path i mem out, eligible t p s path i ∧ hop_fits path
    ∧ rewriteFor path raw (accountedHops p s) = Ok (mem, out)
    ∧ forwardTransportPacket p raw (Some s) t
      = recordAndSend p s path (accountedHops p s) mem out (cached t).

Ltac drop_case := left; split; [eauto|]; intros ?path ?i []; simplify_eq; congruence || lia.

(** A packet is either relayed by [recordAndSend], or nothing is recorded and
    nothing is sent. *)
Lemma forward_cases raw p s t :
  HeaderRewrite.parse raw = Some p → dropped raw p s t ∨ relayed raw p s t.
Proof.
  intros Hp. pose proof (parse_dest _ _ Hp) as Hd. unfold dropped, relayed, forwardTransportPacket.
  destruct (decide (Packet.HeaderType p = Packet.HeaderType2)) as [HT|HT].
  2:{ rewrite bool_decide_eq_false_2 by done. drop_case. }
  destruct (parse_tid _ _ Hp HT) as (tid & Htid & Hl).
  rewrite bool_decide_eq_true_2, Htid by done. cbn [negb orb].
  change (default [] (Some tid)) with tid.
  rewrite (proj2 (Z.eqb_neq (len tid) 0)) by lia. cbn [negb orb].
  erewrite run_bind_ok by apply ourTransportID_run.
  destruct (own t) as [us|] eqn:Hown; [|drop_case].
  destruct (decide (tid = us)) as [->|Hne].
  2:{ rewrite bool_decide_eq_false_2 by done. drop_case. }
  rewrite bool_decide_eq_true_2 by done. cbn [negb]. autorewrite with goM.
  destruct (cached_fields t) as (Hc & Hps & Hds & _).
  assert (Hm : mayRelayForSharedInstanceClient (cached t) (Some s) []
             = mayRelayForSharedInstanceClient t (Some s) []).
  { unfold mayRelayForSharedInstanceClient, transportEnabled. by rewrite Hc. }
  rewrite Hm, Hps, Hds, !truncate16_id by done.
  destruct (mayRelayForSharedInstanceClient t (Some s) []) eqn:Hmay; [|drop_case].
  cbn [negb].
  destruct (decide (hash16FromSlice (Packet.DestinationHash p) ∈ destinations t)) as [Hin|Hin].
  { rewrite bool_decide_eq_true_2 by done. drop_case. }
  rewrite bool_decide_eq_false_2 by done.
  destruct (paths t !! _) as [path|] eqn:Hpath; [|drop_case].
  destruct (Interface path) as [i|] eqn:Hi; [|rewrite bool_decide_eq_true_2 by done; drop_case].
  rewrite (bool_decide_eq_false_2 (Some i = None)) by done.
  destruct (decide (i = s)) as [->|Hne].
  { rewrite bool_decide_eq_true_2 by done. drop_case. }
  rewrite bool_decide_eq_false_2 by congruence. fold (accountedHops p s).
  destruct (Z.leb_spec MaxHops (b2z (accountedHops p s))) as [|Hhops]; [drop_case|].
  fold (rewriteFor path raw (accountedHops p s)). unfold MaxHops in Hhops.
  apply HeaderRewrite.parse_Some in Hp as (f & h & tid & dh & ctx & data & -> & Hok & _ & Hpk).
  assert (HT' : Packet.headerTypeOf f = Packet.HeaderType2) by (rewrite Hpk in HT; exact HT).
  destruct (rewriteFor_frame path f h tid dh ctx data _ Hok HT' Hhops)
    as [(Hc1 & Hn & e & He)|(Hn & f' & tid' & st & _ & He)]; rewrite He.
  - left. split; [eauto|]. intros path' i' []. simplify_eq. unfold hop_fits. intuition.
  - right. eexists path, i, _, _. split_and!; [by constructor; rewrite ?Htid, ?Hown|done..|].
    unfold recordAndSend. by rewrite Hi.
Qed.

(** ** Recording and sending *)

Definition delivered i (data : bytes) t : Transport :=
  if IsEnabled i && AllowsOutgoing i then transmit i data t else t.

Lemma send_run i data t : sendOnInterface (Some i) data t = (delivered i data t, Ok ()).
Proof. unfold sendOnInterface, delivered. by destruct (IsEnabled i), (AllowsOutgoing i). Qed.

Lemma set_linkTable_id t lt : linkTable t = lt → set_linkTable lt t = t.
Proof. by intros <-; destruct t. Qed.
Lemma set_reverseTable_id t rt : reverseTable t = rt → set_reverseTable rt t = t.
Proof. by intros <-; destruct t. Qed.

Definition reverseEntry s i : ReverseTable.ReverseEntry :=
  ReverseTable.mkEntry (Some s) (Some i) now.

Lemma recordReverseEntry_run p mem s i t :
  Packet.hashValid p = true → len (Packet.PacketHash p) = 32 →
  recordReverseEntry p mem (Some s) (Some i) t
    = (set_reverseTable
         (ReverseTable.put (take 16 (Packet.PacketHash p)) (reverseEntry s i) <$> reverseTable t) t,
       Ok ()).
Proof.
  intros Hv Hl. unfold recordReverseEntry. autorewrite with goM.
  destruct (reverseTable t) as [rt|] eqn:Hrt; [|by cbn; rewrite set_reverseTable_id].
  replace (Packet.TruncatedHash (Packet.set_Raw (buf_of mem) p)).2
    with (Ok (E:=Packet.packet_error) (take 16 (Packet.PacketHash p))).
  2:{ unfold Packet.TruncatedHash, Packet.GetHash. autorewrite with goM.
      Packet.packet_simpl. rewrite Hv. autorewrite with goM. Packet.packet_simpl.
      rewrite Hl. done. }
  unfold run. autorewrite with goM. change (default [] (Some ?l)) with l.
  rewrite (proj2 (Z.eqb_neq _ _)); [done|]. rewrite len_take. unfold len in *. lia.
Qed.

(** The entry made for a relayed link request. *)
Definition relayEntry s path i (dest linkID : bytes) (taken : Z) : LinkTable.LinkRelayEntry :=
  LinkTable.mkEntry (NextHop path) (Some i) (Some s) (Z.max (HopCount path) 1) taken dest false
    (now + (LinkProofTimeoutPerHop * Z.max (HopCount path) 1 + ExtraLinkProofTimeout (Some i)))
    now linkID.

Lemma recordLinkRelay_run out q s path i taken linkID t :
  HeaderRewrite.parse out = Some q → Packet.LinkIDFromLinkRequest q = Ok linkID → len linkID = 16 →
  Interface path = Some i →
  recordLinkRelay out (Some s) path taken t
    = (set_linkTable (LinkTable.put linkID
         (relayEntry s path i (Packet.DestinationHash q) linkID taken) <$> linkTable t) t, Ok ()).
Proof.
  intros Hp Hid Hl Hi. unfold recordLinkRelay. autorewrite with goM.
  destruct (linkTable t) as [lt|] eqn:Hlt; [|by cbn; rewrite set_linkTable_id].
  unfold HeaderRewrite.parse in Hp.
  destruct (Packet.Unpack (Packet.packet_of_raw out)) as [q' [u|e|]]; [|done..].
  injection Hp as ->. rewrite Hid. unfold run. autorewrite with goM.
  change (default [] (Some ?l)) with l. rewrite (proj2 (Z.eqb_neq _ _)) by lia.
  rewrite Hi. autorewrite with goM. unfold logName. by autorewrite with goM.
Qed.

Lemma linkID_length l : len (Packet.identity_TruncatedHash l) = 16.
Proof.
  unfold Packet.identity_TruncatedHash. rewrite len_take, Sha256.len_Sum256. done.
Qed.

(** ** The payload slice after rewriting *)

Lemma payloadView_length p mem :
  (length (Packet.Data p) <= length mem)%nat → len (payloadView p mem) = len (Packet.Data p).
Proof. intros. unfold payloadView. rewrite len_drop. unfold len. lia. Qed.

Lemma frame_tail f h tid dh ctx data n :
  (n <= length data)%nat →
  drop (length (Packet.frame f h tid dh ctx data) - n) (Packet.frame f h tid dh ctx data)
    = drop (length data - n) data.
Proof.
  intros Hn. set (hd := [f; h] ++ tid ++ dh ++ [ctx]).
  assert (Hr : Packet.frame f h tid dh ctx data = hd ++ data)
    by (subst hd; unfold Packet.frame; by rewrite <- !app_assoc).
  rewrite Hr, length_app, drop_app_ge by lia. f_equal. lia.
Qed.

(** For a 67-byte link request the signalling is read correctly through the
    slice also when the frame was moved: it lies in the part of the array the
    move leaves in place. *)
Lemma view_mtu p f h tid dh ctx keys sig f' hops tid' st path :
  len keys = 64 → len sig = 3 → len tid = 16 → len dh = 16 →
  Packet.Data p = keys ++ sig →
  rewritten path f tid dh (Packet.frame f h tid dh ctx (keys ++ sig)) f' hops tid' st →
  HeaderRewrite.mtuFromLRData
    (payloadView p (Packet.frame f' hops tid' dh ctx (keys ++ sig) ++ st))
  = HeaderRewrite.mtuFromLRData (keys ++ sig).
Proof.
  intros Hk Hs Ht Hd Hdata Hrw. set (data := keys ++ sig) in *.
  assert (Hld : length data = 67%nat) by (subst data; rewrite length_app; unfold len in *; lia).
  unfold payloadView. rewrite Hdata. fold data.
  destruct (decide (HopCount path = 1)) as [Hc|Hc].
  2:{ rewrite (rw_inplace _ _ _ _ _ _ _ _ _ Hrw Hc), app_nil_r, frame_tail, Nat.sub_diag by lia. done. }
  destruct (rw_last _ _ _ _ _ _ _ _ _ Hrw Hc) as [HT ->].
  assert (Htid : tid' = []).
  { pose proof (rw_ok _ _ _ _ _ _ _ _ _ Hrw) as (_ & _ & [[HT2 _]|[_ ?]])%HeaderRewrite.frame_ok_spec;
      [by rewrite HT in HT2|done]. }
  subst tid'. set (out := Packet.frame f' hops [] dh ctx data).
  assert (Hout : length out = 86%nat).
  { apply Nat2Z.inj. change (Z.of_nat (length out)) with (len out). subst out.
    rewrite HeaderRewrite.len_frame. change (len []) with 0. unfold len in *. lia. }
  assert (Hst : HeaderRewrite.stale (Packet.frame f h tid dh ctx data) = drop 51 keys ++ sig).
  { unfold HeaderRewrite.stale. rewrite frame_tail by lia. rewrite Hld. subst data.
    change (67 - 16)%nat with 51%nat. rewrite drop_app_le by (unfold len in *; lia). done. }
  rewrite Hst, length_app, Hout, Hld, length_app, length_drop.
  replace (86 + (length keys - 51 + length sig) - 67)%nat with 35%nat by (unfold len in *; lia).
  rewrite drop_app_le, app_assoc by lia.
  destruct sig as [|b0 [|b1 [|b2 [|]]]]; try (exfalso; len_lia).
  subst data. rewrite !HeaderRewrite.mtuFromLRData_sig; [done|done|].
  rewrite len_app, !len_drop. unfold len in *. rewrite Hout. lia.
Qed.

(** ** Transit packets *)

(** The frame sent along [path] for [p], as its receiver reads it. *)
Record on_path path p (hops : byte) q : Prop := {
  op_type : Packet.PacketType q = Packet.PacketType p;
  op_dtype : Packet.DestinationType q = Packet.DestinationType p;
  op_dest : Packet.DestinationHash q = Packet.DestinationHash p;
  op_ctx : Packet.Context q = Packet.Context p;
  op_hops : Packet.Hops q = hops;
  op_multi : 1 < HopCount path → Packet.HeaderType q = Packet.HeaderType2
               ∧ Packet.TransportID q = Some (NextHop path);
  op_last : HopCount path = 1 → Packet.HeaderType q = Packet.HeaderType1
}.

Lemma on_path_frame path f h tid dh ctx data raw f' hops tid' st data' :
  rewritten path f tid dh raw f' hops tid' st →
  len (Packet.frame f' hops tid' dh ctx data') <= Packet.MaxInboundPacketSize →
  let p := Packet.unpacked f h tid dh ctx data (Packet.packet_of_raw raw) in
  ∃ q, HeaderRewrite.parse (Packet.frame f' hops tid' dh ctx data') = Some q
    ∧ on_path path p hops q ∧ Packet.Data q = data'
    ∧ Packet.LinkIDFromLinkRequest q
      = Ok (Packet.identity_TruncatedHash (HeaderRewrite.link_preimage f dh ctx data')).
Proof.
  intros Hrw Hm p. eexists. split; [apply HeaderRewrite.parse_frame; [apply Hrw|done]|].
  destruct (HeaderRewrite.unpacked_header f' hops tid' dh ctx data'
              (Packet.frame f' hops tid' dh ctx data')) as (E1 & E2 & E3 & _).
  split; [|split; [done|]].
  - constructor; [apply Hrw|apply Hrw|done|done|done| |].
    + intros Hc. destruct (rw_multi _ _ _ _ _ _ _ _ _ Hrw Hc) as [-> HT].
      rewrite E1, E3, HT. by rewrite decide_True.
    + intros Hc. rewrite E1. by apply (rw_last _ _ _ _ _ _ _ _ _ Hrw).
  - rewrite HeaderRewrite.link_id_frame by apply Hrw. unfold HeaderRewrite.link_preimage.
    by rewrite (rw_hash _ _ _ _ _ _ _ _ _ Hrw).
Qed.

(** What the node keeps of a relayed packet. *)
Definition transit_state p s path i (linkID : bytes) t : Transport :=
  if decide (Packet.PacketType p = Packet.PacketTypeLinkReq) then
    set_linkTable (LinkTable.put linkID
      (relayEntry s path i (Packet.DestinationHash p) linkID (b2z (accountedHops p s)))
      <$> linkTable t) (cached t)
  else if decide (Packet.PacketType p = Packet.PacketTypeAnnounce) then cached t
  else set_reverseTable
    (ReverseTable.put (take 16 (Packet.PacketHash p)) (reverseEntry s i) <$> reverseTable t) (cached t).

Lemma transit_state_sent p s path i linkID t : sent (transit_state p s path i linkID t) = sent t.
Proof.
  destruct (cached_fields t) as (_ & _ & _ & _ & _ & <-).
  unfold transit_state. by repeat case_decide.
Qed.

(** The payload of a relayed link request: untouched beyond the MTU. *)
Definition relayed_lr_payload p q s i : Prop :=
  take 64 (Packet.Data q) = take 64 (Packet.Data p)
  ∧ ∀ keys sig, Packet.Data p = keys ++ sig → len keys = 64 → len sig = 3 →
    ∃ m mode sig', HeaderRewrite.mtuFromLRData (Packet.Data p) = Ok (m, mode, true)
      ∧ Packet.Data q = keys ++ sig'
      ∧ (m = 0 → sig' = sig)
      ∧ (0 < m → 0 < ifaceMTU (Some i) → HeaderRewrite.mtuFromLRData (Packet.Data q)
           = Ok (Z.min m (HeaderRewrite.mtu_limit (ifaceMTU (Some s)) (ifaceMTU (Some i))), mode, true))
      ∧ (0 < m → ifaceMTU (Some i) <= 0 → sig' = []).

(** The clamp of the rewritten frame, through the payload slice. *)
Lemma clamp_rewritten p f h tid dh ctx data f' hops tid' st path ph nh :
  Packet.Data p = data → len tid = 16 → len dh = 16 →
  rewritten path f tid dh (Packet.frame f h tid dh ctx data) f' hops tid' st →
  let out := Packet.frame f' hops tid' dh ctx data in
  ∃ data', HeaderRewrite.clampRelayedLinkRequestMTU out (payloadView p (out ++ st)) ph nh
             = Ok (Packet.frame f' hops tid' dh ctx data')
    ∧ take 64 data' = take 64 data ∧ len data' <= len data
    ∧ ∀ keys sig, data = keys ++ sig → len keys = 64 → len sig = 3 →
      ∃ m mode sig', HeaderRewrite.mtuFromLRData data = Ok (m, mode, true) ∧ data' = keys ++ sig'
        ∧ (m = 0 → sig' = sig)
        ∧ (0 < m → 0 < nh → HeaderRewrite.mtuFromLRData data'
             = Ok (Z.min m (HeaderRewrite.mtu_limit ph nh), mode, true))
        ∧ (0 < m → nh <= 0 → sig' = []).
Proof.
  intros Hdata Ht Hd Hrw out.
  assert (Hlen : (length data <= length (out ++ st))%nat).
  { subst out. unfold Packet.frame. rewrite !length_app. cbn. lia. }
  assert (Hv : len (payloadView p (out ++ st)) = len data) by (by rewrite payloadView_length, Hdata by (rewrite Hdata; done)).
  destruct (HeaderRewrite.clamp_general f' hops tid' dh ctx data _ ph nh Hv) as (data' & Hc & H64 & Hl).
  exists data'. split_and!; [done..|]. intros keys sig -> Hk Hs. subst out.
  rewrite (HeaderRewrite.clamp_view _ _ (keys ++ sig)) in Hc; [|done|by apply (view_mtu p f h tid dh ctx keys sig f' hops tid' st path)].
  destruct (HeaderRewrite.clamp_frame f' hops tid' dh ctx keys sig ph nh Hk Hs)
    as (m & mode & sig' & Hm & _ & Hc' & _ & H1 & H2 & H3).
  rewrite Hc in Hc'. injection Hc' as Hc'. unfold Packet.frame in Hc'.
  simplify_list_eq. by exists m, mode, sig'.
Qed.

Lemma relayed_run raw p s t :
  HeaderRewrite.parse raw = Some p → relayed raw p s t →
  ∃ path i out q linkID, eligible t p s path i ∧ hop_fits path
    ∧ forwardTransportPacket p raw (Some s) t
      = (delivered i out (transit_state p s path i linkID t), Ok true)
    ∧ HeaderRewrite.parse out = Some q ∧ on_path path p (accountedHops p s) q
    ∧ Packet.LinkIDFromLinkRequest p = Ok linkID ∧ Packet.LinkIDFromLinkRequest q = Ok linkID
    ∧ (Packet.PacketType p ≠ Packet.PacketTypeLinkReq → HeaderRewrite.same_message q p)
    ∧ (Packet.PacketType p = Packet.PacketTypeLinkReq → relayed_lr_payload p q s i).
Proof.
  intros Hp (path & i & mem & out & Hel & Hfit & Hrf & Hrun).
  pose proof Hel as [HT _ _ _ _ _ Hi _ Hhops]. unfold MaxHops in Hhops.
  apply HeaderRewrite.parse_Some in Hp as (f & h & tid & dh & ctx & data & -> & Hok & Hm & Hpk).
  assert (HT' : Packet.headerTypeOf f = Packet.HeaderType2) by (rewrite Hpk in HT; exact HT).
  pose proof Hok as (Hd & _ & [[_ Ht]|[HT1 _]])%HeaderRewrite.frame_ok_spec; [|by rewrite HT1 in HT'].
  destruct (rewriteFor_frame path f h tid dh ctx data _ Hok HT' Hhops)
    as [(_ & _ & e & He)|(_ & f' & tid' & st & Hrw & He)]; rewrite He in Hrf; [done|].
  set (hops := accountedHops p s) in *.
  assert (mem = Packet.frame f' hops tid' dh ctx data ++ st
          ∧ out = Packet.frame f' hops tid' dh ctx data) as [-> ->] by (split; congruence).
  assert (Hdata : Packet.Data p = data) by (by rewrite Hpk).
  assert (Hlid : Packet.LinkIDFromLinkRequest p
      = Ok (Packet.identity_TruncatedHash (HeaderRewrite.link_preimage f dh ctx data)))
    by (rewrite Hpk; by apply HeaderRewrite.link_id_frame).
  rewrite HeaderRewrite.len_frame in Hm. pose proof (rw_len _ _ _ _ _ _ _ _ _ Hrw).
  unfold recordAndSend in Hrun. rewrite Hi in Hrun. unfold transit_state. exists path, i.
  destruct (decide (Packet.PacketType p = Packet.PacketTypeLinkReq)) as [HLR|HLR].
  - rewrite (bool_decide_eq_true_2 _ HLR) in Hrun.
    destruct (clamp_rewritten p f h tid dh ctx data f' hops tid' st path (ifaceMTU (Some s))
      (ifaceMTU (Some i)) Hdata Ht Hd Hrw) as (data' & Hc & H64 & Hl & Hmtu).
    destruct (on_path_frame path f h tid dh ctx data _ f' hops tid' st data' Hrw)
      as (q & Hq & Hon & Hqd & Hqid); [rewrite HeaderRewrite.len_frame; lia|].
    assert (Hpre : HeaderRewrite.link_preimage f dh ctx data'
                 = HeaderRewrite.link_preimage f dh ctx data)
      by (unfold HeaderRewrite.link_preimage; by rewrite H64).
    rewrite Hpre in Hqid. eexists _, q, _. split_and!; [done|done| |done|by rewrite Hpk|done|done|done|].
    + rewrite Hrun, Hc. unfold run. autorewrite with goM. change (default _ (Some ?l)) with l.
      erewrite run_bind_ok by (eapply recordLinkRelay_run; [done|done|apply linkID_length|done]).
      autorewrite with goM. erewrite run_bind_ok by apply send_run.
      destruct (cached_fields t) as (_ & _ & _ & -> & _).
      rewrite (op_dest _ _ _ _ Hon), <- Hpk. done.
    + intros _. unfold relayed_lr_payload. rewrite Hqd, Hdata. done.
  - rewrite (bool_decide_eq_false_2 _ HLR) in Hrun.
    destruct (on_path_frame path f h tid dh ctx data _ f' hops tid' st data Hrw)
      as (q & Hq & Hon & Hqd & Hqid); [rewrite HeaderRewrite.len_frame; lia|].
    exists (Packet.frame f' hops tid' dh ctx data), q. eexists.
    split_and!; [done|done| |done|by rewrite Hpk|done|done| |done].
    + rewrite Hrun. destruct (decide (Packet.PacketType p = Packet.PacketTypeAnnounce)) as [HA|HA].
      * rewrite (bool_decide_eq_true_2 _ HA). autorewrite with goM. by erewrite run_bind_ok by apply send_run.
      * rewrite (bool_decide_eq_false_2 _ HA).
        erewrite run_bind_ok; [|erewrite run_bind_ok; [done|apply recordReverseEntry_run]].
        -- autorewrite with goM. erewrite run_bind_ok by apply send_run.
           by destruct (cached_fields t) as (_ & _ & _ & _ & -> & _).
        -- by rewrite Hpk.
        -- rewrite Hpk. apply Sha256.len_Sum256.
    + intros _. rewrite Hpk. rewrite HeaderRewrite.parse_frame in Hq.
      * injection Hq as <-. apply HeaderRewrite.relayed_same_message; [done|apply Hrw..].
      * apply Hrw.
      * rewrite HeaderRewrite.len_frame. lia.
Qed.

Lemma sent_delivered i out t :
  sent (delivered i out t)
    = if IsEnabled i && AllowsOutgoing i then sent t ++ [(i, out)] else sent t.
Proof. unfold delivered. by destruct (_ && _). Qed.

(** C35.  Transit is safe for every packet the parser accepts and every node
    state: no panic, at most one transmission, and one only for a packet that
    names this node as transport and whose destination is not local; it leaves
    on the interface of the destination's path, never on the one it came from,
    with the hop count raised and below 128, addressed to the path's next hop
    (or without transport header on the last hop), and it is the same message. *)
Theorem transit_safe raw p s t t' r :
  HeaderRewrite.parse raw = Some p →
  forwardTransportPacket p raw (Some s) t = (t', r) →
  r ≠ Panic
  ∧ (sent t' = sent t
     ∨ ∃ path i out q, r = Ok true ∧ sent t' = sent t ++ [(i, out)]
         ∧ eligible t p s path i
         ∧ HeaderRewrite.parse out = Some q ∧ on_path path p (accountedHops p s) q
         ∧ Packet.LinkIDFromLinkRequest q = Packet.LinkIDFromLinkRequest p
         ∧ (Packet.PacketType p ≠ Packet.PacketTypeLinkReq → HeaderRewrite.same_message q p)).
Proof.
  intros Hp Hrun. destruct (cached_fields t) as (_ & _ & _ & _ & _ & Hcs).
  destruct (forward_cases raw p s t Hp) as [[(b & [Hb|Hb]) _]|Hr];
    [rewrite Hb in Hrun; injection Hrun as <- <-; eauto..|].
  destruct (relayed_run raw p s t Hp Hr)
    as (path & i & out & q & lid & Hel & _ & Hf & Hq & Hon & Hl1 & Hl2 & Hsame & _).
  rewrite Hf in Hrun. injection Hrun as <- <-. split; [done|].
  rewrite sent_delivered, transit_state_sent. destruct (_ && _); [right|by left].
  exists path, i, out, q. split_and!; congruence || done.
Qed.

Lemma eligible_unique t p s path i path' i' :
  eligible t p s path i → eligible t p s path' i' → path = path' ∧ i = i'.
Proof. intros [] []. split; congruence. Qed.

(** C36.  Transit works: a packet for this node's transport id with a usable path
    is transmitted on the path's interface and the return state is recorded: a
    link request in the link table under the id its responder will prove, with
    its MTU signalling reduced to what the two interfaces carry; any other
    packet but an announce in the reverse table under its hash. *)
Theorem transit_forwards raw p s t path i :
  HeaderRewrite.parse raw = Some p → eligible t p s path i → hop_fits path →
  IsEnabled i = true → AllowsOutgoing i = true →
  ∃ t' out q linkID, forwardTransportPacket p raw (Some s) t = (t', Ok true)
    ∧ sent t' = sent t ++ [(i, out)]
    ∧ HeaderRewrite.parse out = Some q ∧ on_path path p (accountedHops p s) q
    ∧ Packet.LinkIDFromLinkRequest q = Ok linkID
    ∧ t' = transmit i out (transit_state p s path i linkID t)
    ∧ (Packet.PacketType p ≠ Packet.PacketTypeLinkReq → HeaderRewrite.same_message q p)
    ∧ (Packet.PacketType p = Packet.PacketTypeLinkReq → relayed_lr_payload p q s i).
Proof.
  intros Hp Hel Hfit He Ho.
  destruct (forward_cases raw p s t Hp) as [[_ Hno]|Hr]; [by destruct (Hno _ _ Hel)|].
  destruct (relayed_run raw p s t Hp Hr)
    as (path' & i' & out & q & lid & Hel' & _ & Hf & Hq & Hon & Hl1 & Hl2 & Hsame & Hlr).
  destruct (eligible_unique _ _ _ _ _ _ _ Hel Hel') as [<- <-].
  eexists _, out, q, lid. split_and!; [exact Hf|..]; try done.
  - by rewrite sent_delivered, transit_state_sent, He, Ho.
  - unfold delivered. by rewrite He, Ho.
Qed.

(** ** Link traffic *)

Lemma hops_rewritten raw p (hops : byte) :
  HeaderRewrite.parse raw = Some p →
  18 <= len raw ∧ go_index (E:=Empty_set) 1 raw = Ok (Packet.Hops p)
  ∧ (b2z hops < 128 → ∃ q, HeaderRewrite.parse (HeaderRewrite.rewriteHopsOnly raw hops) = Some q
       ∧ HeaderRewrite.same_message q p ∧ Packet.Hops q = hops).
Proof.
  intros (f & h & tid & dh & ctx & data & -> & Hok & Hm & ->)%HeaderRewrite.parse_Some.
  pose proof Hok as (Hd & _ & Ht)%HeaderRewrite.frame_ok_spec. rewrite HeaderRewrite.len_frame in *.
  pose proof (len_nonneg data). pose proof (len_nonneg tid). split_and!; [lia|done|]. intros Hh.
  destruct (HeaderRewrite.rewriteHops_frame f h tid dh ctx data hops) as [_ ->].
  destruct (HeaderRewrite.relayed f h tid dh ctx data f hops tid) as (q & Hq & Hs & _ & Hhq & _);
    [done|apply HeaderRewrite.frame_ok_spec; naive_solver|done..|rewrite HeaderRewrite.len_frame; lia|].
  by exists q.
Qed.

(** C37.  Link traffic passes only between the two interfaces of the link and
    only at the recorded distance: a packet for a relayed link goes out on the
    other interface with its hop count raised, exactly when it arrives from the
    next hop at [RemainingHops] or from the initiator's side at [TakenHops];
    from anywhere else, or at another distance, nothing is sent; the table
    keeps its entries.  The node relays for the interfaces, and the one the packet
    goes out on is enabled and allows outgoing packets. *)
Theorem link_data_two_way raw p j s i e lt t :
  HeaderRewrite.parse raw = Some p → linkTable t = Some lt →
  LinkTable.get (Packet.DestinationHash p) lt = Some e →
  LinkTable.NextHopIface e = Some i → LinkTable.ReceivedIface e = Some s → i ≠ s →
  mayRelayForSharedInstanceClient t (Some j) [Some s; Some i] = true →
  let accounted := accountedHops p j in
  let go o := bool_decide (IsEnabled o = true) && bool_decide (AllowsOutgoing o = true) in
  ∃ t' out, forwardLinkData (Packet.DestinationHash p) raw (Some j) t = (t', Ok true)
    ∧ out = HeaderRewrite.rewriteHopsOnly raw accounted
    ∧ sent t' = sent t ++
        (if bool_decide (j = i ∧ b2z accounted = LinkTable.RemainingHops e) && go s then [(s, out)]
         else if bool_decide (j = s ∧ b2z accounted = LinkTable.TakenHops e) && go i then [(i, out)]
         else [])
    ∧ (b2z accounted < 128 → ∃ q, HeaderRewrite.parse out = Some q ∧ HeaderRewrite.same_message q p
         ∧ Packet.Hops q = accounted)
    ∧ ∃ lt', linkTable t' = Some lt' ∧ dom lt' = dom lt.
Proof.
  intros Hp Hlt He Hi Hs Hne Hmay accounted go.
  pose proof (parse_dest _ _ Hp) as Hd.
  destruct (hops_rewritten raw p accounted Hp) as (Hlen & Hwire & Hq).
  unfold forwardLinkData. autorewrite with goM. rewrite Hlt.
  rewrite (proj2 (Z.ltb_ge _ _)), (proj2 (Z.eqb_neq _ _)) by (unfold truncatedHashBytes; lia).
  cbn [orb]. rewrite truncate16_id, He by done. cbv zeta beta iota. rewrite Hi, Hs, Hmay. cbn [negb].
  rewrite Hwire. autorewrite with goM. fold (accountedHops p j). fold accounted.
  rewrite bool_decide_eq_false_2 by congruence.
  assert (Hdone : ∀ o, ∃ t', (if negb (IsEnabled o) then mret true
      else sendOnInterface (Some o) (HeaderRewrite.rewriteHopsOnly raw accounted) ;;
           modify (λ t, set_linkTable (LinkTable.touch (Packet.DestinationHash p) <$> linkTable t) t) ;;
           mret true) t = (t', Ok true)
      ∧ sent t' = sent t ++ (if go o then [(o, HeaderRewrite.rewriteHopsOnly raw accounted)] else [])
      ∧ ∃ lt', linkTable t' = Some lt' ∧ dom lt' = dom lt).
  { intros o. subst go. cbn beta. destruct (IsEnabled o) eqn:Ho; cbn [negb].
    - erewrite run_bind_ok by apply send_run. autorewrite with goM.
      eexists. split; [done|]. unfold delivered. rewrite Ho.
      destruct (AllowsOutgoing o) eqn:Ha; cbn; rewrite ?app_nil_r, Hlt; (split; [done|]);
        eexists; (split; [done|apply LinkTable.dom_touch]).
    - exists t. cbn. rewrite app_nil_r. eauto. }
  assert (Hnone : ∃ t', mret (M:=M) true t = (t', Ok true) ∧ sent t' = sent t ++ []
      ∧ ∃ lt', linkTable t' = Some lt' ∧ dom lt' = dom lt).
  { exists t. rewrite app_nil_r. eauto. }
  destruct (decide (j = i)) as [->|Hji]; [|destruct (decide (j = s)) as [->|Hjs]].
  - rewrite (bool_decide_eq_true_2 (Some i = Some i)) by done.
    rewrite (bool_decide_eq_false_2 (i = s ∧ _)) by tauto. cbn [andb].
    destruct (Z.eqb_spec (b2z accounted) (LinkTable.RemainingHops e)) as [Hh|Hh]; cbn [negb].
    + rewrite bool_decide_eq_true_2 by done. destruct (Hdone s) as (t' & H1 & H2 & H3). exists t'. eauto 10.
    + rewrite bool_decide_eq_false_2 by tauto. destruct Hnone as (t' & H1 & H2 & H3). exists t'. eauto 10.
  - rewrite (bool_decide_eq_false_2 (Some s = Some i)) by congruence.
    rewrite (bool_decide_eq_true_2 (Some s = Some s)) by done.
    rewrite (bool_decide_eq_false_2 (s = i ∧ _)) by tauto. cbn [andb].
    destruct (Z.eqb_spec (b2z accounted) (LinkTable.TakenHops e)) as [Hh|Hh]; cbn [negb].
    + rewrite bool_decide_eq_true_2 by done. destruct (Hdone i) as (t' & H1 & H2 & H3). exists t'. eauto 10.
    + rewrite bool_decide_eq_false_2 by tauto. destruct Hnone as (t' & H1 & H2 & H3). exists t'. eauto 10.
  - rewrite (bool_decide_eq_false_2 (Some j = Some i)) by congruence.
    rewrite (bool_decide_eq_false_2 (Some j = Some s)) by congruence.
    rewrite (bool_decide_eq_false_2 (j = i ∧ _)), (bool_decide_eq_false_2 (j = s ∧ _)) by tauto.
    destruct Hnone as (t' & H1 & H2 & H3). exists t'. eauto 10.
Qed.

(** ** Receipt proofs *)

Lemma rewriteHops_same raw p :
  HeaderRewrite.parse raw = Some p →
  HeaderRewrite.rewriteHopsOnly (Packet.raw p) (Packet.Hops p) = raw.
Proof.
  intros (f & h & tid & dh & ctx & data & -> & Hok & Hm & ->)%HeaderRewrite.parse_Some.
  assert (Hr : ∀ r, Packet.raw (Packet.unpacked f h tid dh ctx data (Packet.packet_of_raw r)) = r)
    by apply Packet.raw_packet_of_raw.
  rewrite Hr. by destruct (HeaderRewrite.rewriteHops_frame f h tid dh ctx data h) as [_ Hh].
Qed.

(** A proof travels back once: after a packet from [s] was transported out of
    [i], the first proof for its hash that arrives on [i] is sent to [s]
    unchanged, and no later proof for it is forwarded, whatever its origin; a
    proof on any other interface is absorbed without using up the entry. *)
Theorem reverse_proof_single_use raw p s i rt t :
  HeaderRewrite.parse raw = Some p →
  reverseTable t = Some (ReverseTable.put (Packet.DestinationHash p) (reverseEntry s i) rt) →
  transportEnabled t = true → IsEnabled s = true → AllowsOutgoing s = true →
  (∃ t', forwardReverseProof p (Some i) t = (t', Ok true)
     ∧ sent t' = sent t ++ [(s, raw)]
     ∧ ∀ p' j, Packet.DestinationHash p' = Packet.DestinationHash p →
         forwardReverseProof p' j t' = (t', Ok false))
  ∧ (∀ j, j ≠ Some i → forwardReverseProof p j t = (t, Ok true)).
Proof.
  intros Hp Hrt Hen He Ho. pose proof (parse_dest _ _ Hp) as Hd.
  set (rt' := ReverseTable.put _ _ _) in Hrt.
  assert (Hget : ReverseTable.get (Packet.DestinationHash p) rt' = Some (reverseEntry s i))
    by (apply ReverseTable.get_put; lia).
  destruct (ReverseTable.get_pop (Packet.DestinationHash p) rt') as [Hgone Hpop].
  split.
  - unfold forwardReverseProof at 1. autorewrite with goM.
    rewrite Hrt, truncate16_id, Hget, Hen by done. cbv zeta beta iota.
    cbn [negb andb ReverseTable.ReceivedIface ReverseTable.OutboundIface reverseEntry].
    rewrite bool_decide_eq_true_2, He by done. cbn [negb].
    destruct (ReverseTable.pop (Packet.DestinationHash p) rt') as [rt2 popped].
    cbn [fst snd] in Hgone, Hpop. subst popped. autorewrite with goM.
    rewrite Hget, bool_decide_eq_true_2 by done. cbn [negb].
    erewrite run_bind_ok by apply send_run. eexists. split; [done|].
    unfold delivered. rewrite He, Ho. cbn [andb]. split; [by cbn; rewrite (rewriteHops_same raw)|].
    intros p' j Hd'. unfold forwardReverseProof. autorewrite with goM. cbn [reverseTable transmit set_reverseTable].
    rewrite Hd', truncate16_id, Hgone by done. done.
  - intros j Hj. unfold forwardReverseProof. autorewrite with goM.
    rewrite Hrt, truncate16_id, Hget, Hen by done. cbv zeta beta iota.
    cbn [negb andb ReverseTable.ReceivedIface ReverseTable.OutboundIface reverseEntry].
    by rewrite bool_decide_eq_false_2.
Qed.
End facts.

(** ** Examples *)

Definition sample_path : Path :=
  mkPath (Some 2%positive) (rev Packet.sample_tid) 2 0 2 [] 1000000.

Definition sample_node : Transport :=
  mkTransport (Some (mkConfig false true)) (Some Packet.sample_tid) []
    {[pathMapKey Packet.sample_hash := sample_path]} ∅ (Some ∅) (Some ∅) [].

Definition sample_pkt : packet :=
  Packet.unpacked x50 x02 Packet.sample_tid Packet.sample_hash x00 [x61; x62; x63]
    (Packet.packet_of_raw HeaderRewrite.sample_ht2).

#[local] Existing Instance testRuntime.

Lemma sample_parse : HeaderRewrite.parse HeaderRewrite.sample_ht2 = Some sample_pkt.
Proof. vm_compute. reflexivity. Qed.

Lemma sample_eligible : eligible sample_node sample_pkt 1%positive sample_path 2%positive.
Proof. constructor; by vm_compute. Qed.

Lemma transit_safe_witness :
  let '(t', r) := forwardTransportPacket sample_pkt HeaderRewrite.sample_ht2 (Some 1%positive) sample_node in
  length (sent t') = 1%nat ∧ r ≠ Panic.
Proof.
  destruct (forwardTransportPacket _ _ _ _) as [t' r] eqn:E.
  split; [|by apply (transit_safe HeaderRewrite.sample_ht2 sample_pkt 1%positive sample_node t' r sample_parse E)].
  apply (f_equal (λ x, length (sent x.1))) in E. cbn [fst] in E. rewrite <- E. vm_compute. reflexivity.
Defined.

Lemma transit_forwards_witness :
  ∃ t' out, forwardTransportPacket sample_pkt HeaderRewrite.sample_ht2 (Some 1%positive) sample_node
    = (t', Ok true) ∧ sent t' = [(2%positive, out)].
Proof.
  destruct (transit_forwards HeaderRewrite.sample_ht2 sample_pkt 1%positive sample_node sample_path 2%positive)
    as (t' & out & q & linkID & H1 & H2 & _);
    [apply sample_parse|apply sample_eligible|by intros _|reflexivity|reflexivity|].
  exists t', out. split; [exact H1|exact H2].
Defined.

Definition sample_entry : LinkTable.LinkRelayEntry :=
  LinkTable.mkEntry (rev Packet.sample_tid) (Some 2%positive) (Some 1%positive) 2 3
    Packet.sample_hash true 0 0 Packet.sample_hash.

Definition sample_links : LinkTable.linkRelayTable :=
  {[hash16FromSlice Packet.sample_hash := sample_entry]}.

Lemma link_data_two_way_witness :
  ∃ t' out, forwardLinkData Packet.sample_hash HeaderRewrite.sample_ht2 (Some 1%positive)
    (set_linkTable (Some sample_links) sample_node) = (t', Ok true)
  ∧ sent t' = [(2%positive, out)].
Proof.
  destruct (link_data_two_way HeaderRewrite.sample_ht2 sample_pkt 1%positive 1%positive 2%positive sample_entry sample_links
    (set_linkTable (Some sample_links) sample_node)) as (t' & out & H1 & _ & H2 & _);
    [apply sample_parse|reflexivity|by vm_compute|reflexivity|reflexivity|discriminate|reflexivity|].
  exists t', out. split; [exact H1|]. rewrite H2. vm_compute. reflexivity.
Defined.

Lemma reverse_proof_single_use_witness :
  ∃ t', forwardReverseProof sample_pkt (Some 2%positive)
    (set_reverseTable (Some (ReverseTable.put Packet.sample_hash (reverseEntry 1%positive 2%positive) ∅)) sample_node)
    = (t', Ok true) ∧ sent t' = [(1%positive, HeaderRewrite.sample_ht2)].
Proof.
  destruct (reverse_proof_single_use HeaderRewrite.sample_ht2 sample_pkt 1%positive 2%positive ∅
    (set_reverseTable (Some (ReverseTable.put Packet.sample_hash (reverseEntry 1%positive 2%positive) ∅)) sample_node))
    as [(t' & H1 & H2 & _) _];
    [apply sample_parse|reflexivity|reflexivity|reflexivity|reflexivity|].
  exists t'. split; [exact H1|exact H2].
Defined.
End Relay.
