(* ===== verification/AnnounceHandler.v ===== *)
(** * Receiving announces (package [transport])

    The announce handler of [transport.go] with everything it calls: the header
    and payload parser, the duplicate filter, signature and destination checks,
    the known-destination and path tables, the announce cache, tunnels, answers
    to waiting local clients ([announce_table.go]), ingress control, and the
    queue of delayed rebroadcasts with its forwarding rules
    ([announce_mode.go]).  What leaves the node, what its announce handlers
    are told and what it counts in the statistics of interfaces and of the
    health registry is the list [events]. *)

From S2P Require Import Prelude.
From S2P Require Import Sha256.
From S2P Require Import Packet.
From S2P Require Import Crypto.
From S2P Require Import HeaderRewrite.
From S2P Require Import Float64.
From S2P Require Import Common.
From S2P Require Import PathTable.
From S2P Require Import Identity.
From S2P Require Import Known.
From S2P Require Import AnnounceWire.
From S2P Require Import Rate.
From S2P Require Import RelayTables.
From S2P Require Import Relay.

Module AnnounceHandler.
Import Common.
Local Open Scope go_scope.

Abbreviation packet := Packet.packet.

Inductive handler_error :=
  | TooSmallForHeader
  | TooSmall (n : Z)
  | PayloadTooSmall
  | RatchetTooSmall
  | InvalidIdentity
  | CryptoRefused
  | InvalidSignature
  | HashMismatch
  | KeyMismatch.

Record tunnelPathEntry := mkTunnelPath {
  receivedFrom : bytes;
  t_hops : Z;
  t_expires : Z;
  packetHash : bytes
}.

Record tunnelEntry := mkTunnel {
  t_iface : NetworkInterface;
  t_paths : gmap bytes tunnelPathEntry;
  tunnel_expires : Z
}.

(** [ref] is the address of the entry, which the table compares. *)
Record PathAnnounceEntry := mkAnnounceEntry {
  ref : Z;
  CreatedAt : Z;
  RetransmitTimeout : Z;
  Retries : Z;
  ReceivedFrom : NetworkInterface;
  AnnounceHops : byte;
  pkt : packet;
  LocalRebroadcasts : Z;
  BlockRebroadcasts : bool;
  AttachedInterface : NetworkInterface
}.

Record delayedAnnounceJob := mkJob {
  due : Z;
  jdata : bytes;
  jdest : hash16;
  jdst : bytes;
  jfrom : NetworkInterface
}.

(** The announce counters of the health registry. *)
Inductive healthKind :=
  | KindAnnounceOK
  | KindAnnounceMalformed
  | KindAnnounceDestType
  | KindAnnounceDup
  | KindAnnounceSigFail
  | KindAnnounceBlackholed
  | KindAnnounceKeyMismatch
  | KindAnnounceMaxHops
  | KindAnnounceHeld
  | KindAnnounceSuppressed.

(** What the handler does outside the node's own tables, in order: packets given
    to an interface or to its announce queue ([Counted] is [NoteAnnounceSent]),
    notifications of the application, and the statistics: an interface told of an
    announce received, sent or in violation of the protocol, and the counters of
    the health registry. *)
Inductive event :=
  | Sent (i : iface) (data : bytes)
  | Queued (i : iface) (data dest : bytes) (hops : byte)
  | Counted (i : iface) (n : Z)
  | SentAnnounce (i : iface) (n : Z)
  | ReceivedAnnounce (i : iface) (n : Z)
  | ProtocolViolation (i : iface)
  | HealthInc (name : string) (k : healthKind)
  | Notified (n : AnnounceWire.notification) (isPathResponse : bool).

(** The part of [Transport] that announces touch.  Interface states are kept by
    name. *)
Record Node := mkNode {
  config : option Relay.Config;
  transportIdentity : option bytes;
  transportIDCache : bytes;
  destinations : gset hash16;
  table : PathTable.Table;
  known : Known.State;
  tunnels : gmap bytes tunnelEntry;
  ingress : gmap string Rate.IngressControl;
  egress : gmap string Rate.AnnounceRateControl;
  announceRate : Rate.Limiter;
  pendingLocalPathReqs : gmap hash16 iface;
  announceTable : gmap hash16 PathAnnounceEntry;
  heldAnnounces : gmap hash16 PathAnnounceEntry;
  nextEntry : Z;
  pendingAnnounceJobs : list delayedAnnounceJob;
  events : list event
}.

Definition set_transportIDCache (v : bytes) (n : Node) : Node :=
  mkNode (config n) (transportIdentity n) v (destinations n) (table n) (known n) (tunnels n)
    (ingress n) (egress n) (announceRate n) (pendingLocalPathReqs n) (announceTable n)
    (heldAnnounces n) (nextEntry n) (pendingAnnounceJobs n) (events n).
Definition set_table (v : PathTable.Table) (n : Node) : Node :=
  mkNode (config n) (transportIdentity n) (transportIDCache n) (destinations n) v (known n)
    (tunnels n) (ingress n) (egress n) (announceRate n) (pendingLocalPathReqs n) (announceTable n)
    (heldAnnounces n) (nextEntry n) (pendingAnnounceJobs n) (events n).
Definition set_known (v : Known.State) (n : Node) : Node :=
  mkNode (config n) (transportIdentity n) (transportIDCache n) (destinations n) (table n) v
    (tunnels n) (ingress n) (egress n) (announceRate n) (pendingLocalPathReqs n) (announceTable n)
    (heldAnnounces n) (nextEntry n) (pendingAnnounceJobs n) (events n).
Definition set_tunnels (v : gmap bytes tunnelEntry) (n : Node) : Node :=
  mkNode (config n) (transportIdentity n) (transportIDCache n) (destinations n) (table n) (known
    n) v (ingress n) (egress n) (announceRate n) (pendingLocalPathReqs n) (announceTable n)
    (heldAnnounces n) (nextEntry n) (pendingAnnounceJobs n) (events n).
Definition set_ingress (v : gmap string Rate.IngressControl) (n : Node) : Node :=
  mkNode (config n) (transportIdentity n) (transportIDCache n) (destinations n) (table n) (known
    n) (tunnels n) v (egress n) (announceRate n) (pendingLocalPathReqs n) (announceTable n)
    (heldAnnounces n) (nextEntry n) (pendingAnnounceJobs n) (events n).
Definition set_egress (v : gmap string Rate.AnnounceRateControl) (n : Node) : Node :=
  mkNode (config n) (transportIdentity n) (transportIDCache n) (destinations n) (table n) (known
    n) (tunnels n) (ingress n) v (announceRate n) (pendingLocalPathReqs n) (announceTable n)
    (heldAnnounces n) (nextEntry n) (pendingAnnounceJobs n) (events n).
Definition set_announceRate (v : Rate.Limiter) (n : Node) : Node :=
  mkNode (config n) (transportIdentity n) (transportIDCache n) (destinations n) (table n) (known
    n) (tunnels n) (ingress n) (egress n) v (pendingLocalPathReqs n) (announceTable n)
    (heldAnnounces n) (nextEntry n) (pendingAnnounceJobs n) (events n).
Definition set_pendingLocalPathReqs (v : gmap hash16 iface) (n : Node) : Node :=
  mkNode (config n) (transportIdentity n) (transportIDCache n) (destinations n) (table n) (known
    n) (tunnels n) (ingress n) (egress n) (announceRate n) v (announceTable n) (heldAnnounces n)
    (nextEntry n) (pendingAnnounceJobs n) (events n).
Definition set_nextEntry (v : Z) (n : Node) : Node :=
  mkNode (config n) (transportIdentity n) (transportIDCache n) (destinations n) (table n) (known
    n) (tunnels n) (ingress n) (egress n) (announceRate n) (pendingLocalPathReqs n) (announceTable
    n) (heldAnnounces n) v (pendingAnnounceJobs n) (events n).
Definition set_pendingAnnounceJobs (v : list delayedAnnounceJob) (n : Node) : Node :=
  mkNode (config n) (transportIdentity n) (transportIDCache n) (destinations n) (table n) (known
    n) (tunnels n) (ingress n) (egress n) (announceRate n) (pendingLocalPathReqs n) (announceTable
    n) (heldAnnounces n) (nextEntry n) v (events n).
Definition set_events (v : list event) (n : Node) : Node :=
  mkNode (config n) (transportIdentity n) (transportIDCache n) (destinations n) (table n) (known
    n) (tunnels n) (ingress n) (egress n) (announceRate n) (pendingLocalPathReqs n) (announceTable
    n) (heldAnnounces n) (nextEntry n) (pendingAnnounceJobs n) v.
Definition set_announces (a h : gmap hash16 PathAnnounceEntry) (n : Node) : Node :=
  mkNode (config n) (transportIdentity n) (transportIDCache n) (destinations n) (table n) (known
    n) (tunnels n) (ingress n) (egress n) (announceRate n) (pendingLocalPathReqs n) a h (nextEntry
    n) (pendingAnnounceJobs n) (events n).


Definition emit (e : event) (n : Node) : Node := set_events (events n ++ [e]) n.

Definition nameOf `{Runtime} (i : NetworkInterface) : string :=
  match i with Some i => GetName i | None => ""%string end.

Definition announceReject `{Runtime} (i : NetworkInterface) (k : healthKind) (n : Node) : Node :=
  emit (HealthInc (nameOf i) k) n.

Definition ifaceProtocolViolation (i : NetworkInterface) (n : Node) : Node :=
  match i with Some i => emit (ProtocolViolation i) n | None => n end.

(** A verified announce is counted before its destination hash is checked. *)
Definition noteReceived `{Runtime} (i : NetworkInterface) (size : Z) (n : Node) : Node :=
  match i with
  | Some i => emit (HealthInc (GetName i) KindAnnounceOK) (emit (ReceivedAnnounce i size) n)
  | None => n
  end.

(** The relay's view of the node, whose handlers are in [Relay.v]. *)
Definition relayView (n : Node) : Relay.Transport :=
  Relay.mkTransport (config n) (transportIdentity n) (transportIDCache n)
    (PathTable.paths (table n)) (destinations n) None None [].

Definition transportEnabled (n : Node) : bool := Relay.transportEnabled (relayView n).

Definition ourTransportID (n : Node) : Node * option bytes :=
  match transportIdentity n with
  | None => (n, None)
  | Some h =>
      let n := if len (transportIDCache n) =? 0 then set_transportIDCache h n else n in
      (n, Some (transportIDCache n))
  end.

(** What the handler observes beyond [Runtime]: optional methods of interfaces
    ([None] where an interface has no announce queue or tunnel), the verdicts of
    the protection engine and the blackhole table, and the random delay before a
    rebroadcast. *)
Class AnnounceRuntime := {
  GetBandwidthAvailable : iface → bool;
  ShouldQueueAnnounce : iface → option bool;
  AnnouncesFromInternal : iface → bool;
  AnnouncesToInternal : iface → bool;
  TunnelID : iface → option bytes;
  AdmitCrypto : string → bool;
  Blackholed : bytes → bool;
  pathfinderRebroadcastDelay : Z;
  retransmitDelay : Z
}.

Definition DestTypeGroup : byte := x01.
Definition DestTypePlain : byte := x02.
Definition MaxHops : Z := 128.
Definition PathfinderR : Z := 1.
Definition LocalRebroadcastsMax : Z := 2.
Definition PathRequestGrace : Z := 400000000.
Definition tunnelTimeout : Z := 8 * 3600 * Second.
Definition MaxPendingAnnounceForwards : Z := 256.
Definition maxPendingLocalPathReqs : Z := 2048.

(** ** Parsing *)

Record header := mkHeader {
  hopCount : byte;
  headerType : byte;
  contextFlag : byte;
  propType : byte;
  destType : byte;
  packetType : byte;
  startIdx : Z;
  addrSize : Z
}.

(** [None] for a PLAIN or GROUP announce, which is dropped without an error. *)
Definition announceHeader (data : bytes) : outcome handler_error (option header) :=
  check (negb (len data <? 2)) TooSmallForHeader;;
  headerByte1 ← go_index 0 data;
  hops ← go_index 1 data;
  let ifacFlag := (headerByte1 &&& x80) >>> 7 in
  let headerType := (headerByte1 &&& x40) >>> 6 in
  let contextFlag := (headerByte1 &&& x20) >>> 5 in
  let propType := (headerByte1 &&& x10) >>> 4 in
  let destType := (headerByte1 &&& x0c) >>> 2 in
  let packetType := headerByte1 &&& x03 in
  if bool_decide (destType = DestTypePlain) || bool_decide (destType = DestTypeGroup) then Ok None
  else
    let startIdx := if bool_decide (ifacFlag = x01) then 3 else 2 in
    let addrSize := if bool_decide (headerType = x01) then 32 else 16 in
    let minSize := startIdx + addrSize + 1 in
    check (negb (len data <? minSize)) (TooSmall (len data));;
    Ok (Some (mkHeader hops headerType contextFlag propType destType packetType startIdx addrSize)).

Record body := mkBody {
  destinationHash : bytes;
  context : byte;
  payload : bytes;
  source : bytes
}.

Definition announceBody (h : header) (data : bytes) : outcome handler_error body :=
  let s := startIdx h in
  if bool_decide (headerType h = x00) then
    destinationHash ← go_slice s (s + 16) data;
    context ← go_index (s + 16) data;
    payload ← go_slice (s + 17) (len data) data;
    Ok (mkBody destinationHash context payload destinationHash)
  else
    source ← go_slice s (s + 16) data;
    destinationHash ← go_slice (s + 16) (s + 32) data;
    context ← go_index (s + 32) data;
    payload ← go_slice (s + 33) (len data) data;
    Ok (mkBody destinationHash context payload source).

Definition announceFields (h : header) (b : body) : outcome handler_error AnnounceWire.fields :=
  check (negb (len (payload b) <? 64 + 10 + 10 + 64)) PayloadTooSmall;;
  AnnounceWire.payloadFields (bool_decide (contextFlag h = x01)) RatchetTooSmall (payload b).

(** ** Forwarding rules *)

Section ops.
Context `{Runtime} `{AnnounceRuntime} `{Ed25519.Scheme}.

Definition isLocalDestination (destHash : bytes) (n : Node) : bool :=
  if len destHash =? 0 then false else bool_decide (hash16FromSlice destHash ∈ destinations n).

Definition nextHopNetworkInterface (destHash : bytes) (n : Node) : NetworkInterface :=
  let name := PathTable.NextHopInterface destHash (table n) in
  if bool_decide (name = ""%string) then None else PathTable.interfaces (table n) !! name.

Definition modeOf (i : NetworkInterface) : option InterfaceMode := GetMode <$> i.

Definition shouldForwardAnnounceOn (destHash : bytes) (outIface fromIface : NetworkInterface)
    (n : Node) : bool :=
  match outIface with
  | None => false
  | Some out =>
      let local := isLocalDestination destHash n in
      let go (from : NetworkInterface) : bool :=
        if negb local && bool_decide (is_Some from) && negb (AnnouncesFromInternal out)
           && bool_decide (modeOf from = Some IFModeInternal) then false
        else
          match GetMode out with
          | IFModeAccessPoint => false
          | IFModeInternal =>
              if negb local then
                match from with
                | None => false
                | Some f =>
                    if AnnouncesToInternal f then true
                    else negb (bool_decide (GetMode f = IFModeBoundary))
                end
              else true
          | IFModeRoaming =>
              if negb local && bool_decide (is_Some from) then
                negb (bool_decide (modeOf from = Some IFModeRoaming)
                      || bool_decide (modeOf from = Some IFModeBoundary))
              else true
          | IFModeBoundary =>
              if negb local && bool_decide (is_Some from)
                 && bool_decide (modeOf from = Some IFModeRoaming) then false
              else true
          | _ => true
          end in
      match fromIface with
      | None =>
          if negb local then
            match nextHopNetworkInterface destHash n with
            | None => false
            | Some nh => go (Some nh)
            end
          else go None
      | Some f => go (Some f)
      end
  end.

(** A disabled or receive-only interface returns an error the callers only log. *)
Definition sendOnInterface (i : iface) (data : bytes) (n : Node) : Node * bool :=
  if negb (IsEnabled i) then (n, false)
  else if negb (AllowsOutgoing i) then (n, false)
  else (emit (Sent i data) n, true).

Definition wireHops (data : bytes) : byte := default x00 (data !! 1%nat).

(** The end of [transmitOrQueueAnnounce]: send, and count what was sent. *)
Definition sendAnnounce (out : iface) (data : bytes) (n : Node) : Node :=
  let '(n, ok) := sendOnInterface out data n in
  if ok : bool then emit (SentAnnounce out (len data)) n else n.

Definition transmitOrQueueAnnounce (out : iface) (data dest : bytes) (n : Node) : Node :=
  let hops := wireHops data in
  if 0 <? b2z hops then
    match ShouldQueueAnnounce out with
    | Some true => emit (Queued out data dest hops) n
    | Some false => sendAnnounce out data (emit (Counted out (len data)) n)
    | None => if GetBandwidthAvailable out then sendAnnounce out data n else n
    end
  else sendAnnounce out data n.

Definition registered (n : Node) : list (string * iface) := mapOrder (PathTable.interfaces (table n)).

Definition setHops (hops : byte) (data : bytes) : bytes := <[1%nat := hops]> data.

Definition forwardAnnounceToLocalClients (data destHash : bytes) (fromIface : NetworkInterface)
    (hops : byte) (n : Node) : Node :=
  if len data <? 2 then n
  else
    foldl (λ n e,
        let out := e.2 in
        if bool_decide (Some out = fromIface) || negb (IsEnabled out)
           || negb (isLocalClientInterface (Some out)) then n
        else if negb (shouldForwardAnnounceOn destHash (Some out) fromIface n) then n
        else transmitOrQueueAnnounce out (setHops hops data) destHash n)
      n (registered n).

(** A failed wrap forwards the announce as it is. *)
Definition wrapAnnounce (data : bytes) (tid : option bytes) : bytes :=
  match tid with
  | None => data
  | Some tid =>
      if (len tid =? 16) && (2 <? len data) then
        let b0 := default x00 (data !! 0%nat) in
        let headerType := (b0 &&& x40) >>> 6 in
        let r :=
          if bool_decide (headerType = Packet.HeaderType2)
          then HeaderRewrite.rebuildHeaderType2 data (wireHops data) tid
          else HeaderRewrite.insertHeaderType2 data (wireHops data) tid in
        match r with
        | Ok wrapped =>
            match wrapped with
            | w0 :: rest => (w0 &&& xef) :: rest
            | [] => []
            end
        | _ => data
        end
      else data
  end.

Definition forwardAnnouncePacket (data : bytes) (dest : hash16) (destHash : bytes)
    (fromIface : NetworkInterface) (n : Node) : outcome Empty_set Node :=
  let '(n, tid) := ourTransportID n in
  let wrapped := wrapAnnounce data tid in
  foldl (λ m e,
      n ← m;
      let '(name, out) := e in
      if bool_decide (Some out = fromIface) || negb (IsEnabled out)
         || isLocalClientInterface (Some out) then Ok n
      else if negb (shouldForwardAnnounceOn destHash (Some out) fromIface n) then Ok n
      else
        match egress n !! name with
        | Some arc =>
            '(arc, allow) ← Rate.AllowAnnounceHash now dest.1 arc;
            let n := set_egress (<[name := arc]> (egress n)) n in
            Ok (if allow : bool then transmitOrQueueAnnounce out wrapped destHash n else n)
        | None => Ok (transmitOrQueueAnnounce out wrapped destHash n)
        end)
    (Ok n) (registered n).

Definition scheduleAnnounceForward (data : bytes) (dest : hash16) (destHash : bytes)
    (from : NetworkInterface) (hops : byte) (n : Node) : Node :=
  if len data =? 0 then n
  else if MaxPendingAnnounceForwards <=? len (pendingAnnounceJobs n) then n
  else
    let fwd := if 2 <=? len data then setHops hops data else data in
    set_pendingAnnounceJobs
      (pendingAnnounceJobs n
       ++ [mkJob (now + pathfinderRebroadcastDelay) fwd dest (Identity.fixed 16 destHash) from]) n.

Definition processDelayedAnnounceJobs (n : Node) : outcome Empty_set Node :=
  let live := filter (λ e, len (jdata e) ≠ 0) (pendingAnnounceJobs n) in
  let ready := filter (λ e, due e <= now) live in
  let keep := filter (λ e, now < due e) live in
  foldl (λ m job, n ← m; forwardAnnouncePacket (jdata job) (jdest job) (jdst job) (jfrom job) n)
    (Ok (set_pendingAnnounceJobs keep n)) ready.

(** ** The announce cache and path responses *)

Definition announcePacket (ht pt tt ctx cf hops dt : byte) (dest data : bytes) (tid : option bytes)
    : packet :=
  Packet.Packet ht pt tt ctx cf hops dt dest tid data (buf_of []) false false false false [] false [].

Definition cacheAnnouncePacket (destHash : bytes) (p : packet) (t : PathTable.Table) : PathTable.Table :=
  if negb (len destHash =? 16) || (len (Packet.Data p) =? 0) then t
  else
    let key := hash16FromSlice destHash in
    let put e := PathTable.set_paths (PathTable.paths t) (PathTable.pathStates t)
                   (<[key := e]> (PathTable.announcePacketCache t)) t in
    let cached := announcePacket (Packet.HeaderType p) (Packet.PacketType p) (Packet.TransportType p)
      (Packet.Context p) (Packet.ContextFlag p) (Packet.Hops p) (Packet.DestinationType p)
      destHash (Packet.Data p) None in
    let insert := PathTable.evictAnnouncePacketCacheUnlocked (put (PathTable.mkCached cached now)) in
    match PathTable.announcePacketCache t !! key with
    | Some existing =>
        let q := PathTable.pkt existing in
        if bool_decide (Packet.Data q = Packet.Data p) && bool_decide (Packet.Hops q = Packet.Hops p)
           && bool_decide (Packet.ContextFlag q = Packet.ContextFlag p)
        then put (PathTable.mkCached q now)
        else insert
    | None => insert
    end.

Definition buildPathResponseWire (e : PathAnnounceEntry) (n : Node) : option bytes :=
  match transportIdentity n with
  | None => None
  | Some tid =>
      if len (Packet.Data (pkt e)) =? 0 then None
      else
        let destHash := Packet.DestinationHash (pkt e) in
        if negb (len destHash =? 16) then None
        else
          let ctx := if BlockRebroadcasts e then Packet.ContextPathResponse else Packet.ContextNone in
          let out := announcePacket Packet.HeaderType2 Packet.PacketTypeAnnounce
            Packet.PropagationTransport ctx (Packet.ContextFlag (pkt e)) (AnnounceHops e)
            Packet.DestinationSingle destHash (Packet.Data (pkt e)) (Some tid) in
          match Packet.Pack out with
          | (p, Ok _) => Some (content (Packet.Raw p))
          | _ => None
          end
  end.

Definition emitAnnounceTableEntry (key : hash16) (e : PathAnnounceEntry) (n : Node) : Node :=
  match AttachedInterface e with
  | None => n
  | Some i =>
      if negb (IsEnabled i) then set_announces (delete key (announceTable n)) (heldAnnounces n) n
      else
        match buildPathResponseWire e n with
        | None => n
        | Some raw =>
            let '(n, ok) := sendOnInterface i raw n in
            if negb ok then n
            else
              match heldAnnounces n !! key with
              | Some held =>
                  set_announces (<[key := held]> (announceTable n)) (delete key (heldAnnounces n)) n
              | None =>
                  match announceTable n !! key with
                  | Some cur =>
                      if (ref cur =? ref e) && BlockRebroadcasts e
                      then set_announces (delete key (announceTable n)) (heldAnnounces n) n
                      else n
                  | None => n
                  end
              end
        end
  end.

(** A copy of a packet with two fields replaced. *)
Definition with_dest_data (dest data : bytes) (p : packet) : packet :=
  Packet.Packet (Packet.HeaderType p) (Packet.PacketType p) (Packet.TransportType p) (Packet.Context p)
    (Packet.ContextFlag p) (Packet.Hops p) (Packet.DestinationType p) dest (Packet.TransportID p) data
    (Packet.Raw p) (Packet.Packed p) (Packet.Sent p) (Packet.CreateReceipt p) (Packet.FromPacked p)
    (Packet.PacketHash p) (Packet.hashValid p) (Packet.Addresses p).

(** The packet answered from: the cached one, else the queued entry's. *)
Definition responseSource (destHash : bytes) (n : Node) : option packet :=
  let key := hash16FromSlice destHash in
  let fromEntry :=
    match announceTable n !! key with
    | None => None
    | Some e =>
        let p := pkt e in
        let raw := content (Packet.Raw p) in
        if (len (Packet.Data p) =? 0) && (0 <? len raw) then
          match Packet.Unpack p with
          | (cp, Ok _) => Some cp
          | (cp, _) => Some (with_dest_data destHash raw cp)
          end
        else Some p
    end in
  let src :=
    match PathTable.announcePacketCache (table n) !! key with
    | Some ca =>
        if 0 <? len (Packet.Data (PathTable.pkt ca)) then Some (PathTable.pkt ca) else fromEntry
    | None => fromEntry
    end in
  match src with
  | None => None
  | Some p =>
      if len (Packet.Data p) =? 0 then None
      else if len (Packet.DestinationHash p) =? 0
      then Some (with_dest_data destHash (Packet.Data p) p)
      else Some p
  end.

Definition queuePathResponseAnnounce (destHash : bytes) (path : Path) (attached : NetworkInterface)
    (isFromLocalClient : bool) (n : Node) : Node * bool :=
  match attached with
  | None => (n, false)
  | Some _ =>
      if negb (len destHash =? 16) then (n, false)
      else
        match responseSource destHash n with
        | None => (n, false)
        | Some src =>
            let key := hash16FromSlice destHash in
            let timeout := if isFromLocalClient then now else now + PathRequestGrace in
            let entry := mkAnnounceEntry (nextEntry n) now timeout PathfinderR (Interface path)
              (z2b (HopCount path)) src 0 true attached in
            let n := set_nextEntry (nextEntry n + 1) n in
            let insert held :=
              let n := set_announces (<[key := entry]> (announceTable n)) held n in
              (if isFromLocalClient then emitAnnounceTableEntry key entry n else n, true) in
            match announceTable n !! key with
            | Some prev =>
                match AttachedInterface prev with
                | Some _ =>
                    if BlockRebroadcasts prev && bool_decide (AttachedInterface prev = attached)
                    then (n, true)
                    else insert (<[key := prev]> (heldAnnounces n))
                | None => insert (heldAnnounces n)
                end
            | None => insert (heldAnnounces n)
            end
        end
  end.

Definition notePendingLocalPathRequest (destHash : bytes) (i : NetworkInterface) (n : Node) : Node :=
  match i with
  | None => n
  | Some i =>
      if negb (len destHash =? 16) then n
      else if maxPendingLocalPathReqs <=? Z.of_nat (size (pendingLocalPathReqs n)) then n
      else set_pendingLocalPathReqs (<[hash16FromSlice destHash := i]> (pendingLocalPathReqs n)) n
  end.

Definition answerPendingLocalPathRequest (destHash : bytes) (hops : byte) (n : Node) : Node :=
  if negb (len destHash =? 16) then n
  else
    let key := hash16FromSlice destHash in
    match pendingLocalPathReqs n !! key with
    | None => n
    | Some i =>
        let n := set_pendingLocalPathReqs (delete key (pendingLocalPathReqs n)) n in
        match PathTable.announcePacketCache (table n) !! key with
        | None => n
        | Some _ =>
            let path :=
              match PathTable.paths (table n) !! pathMapKey destHash with
              | None => mkPath (Some i) [] 0 0 (b2z hops) [] 0
              | Some p =>
                  if 0 <? b2z hops
                  then mkPath (Interface p) (NextHop p) (Hops p) (LastUpdated p) (b2z hops)
                         (RandomBlobs p) (Expires p)
                  else p
              end in
            (queuePathResponseAnnounce destHash path (Some i) true n).1
        end
    end.

(** The sweep of the announce table; entries due are emitted after it. *)
Definition processAnnounceTable (n : Node) : Node :=
  let finished e := (0 <? Retries e) && (LocalRebroadcastsMax <=? Retries e) || (PathfinderR <? Retries e) in
  let entries := mapOrder (announceTable n) in
  let '(tbl, dueItems) :=
    foldl (λ (acc : gmap hash16 PathAnnounceEntry * list (hash16 * PathAnnounceEntry)) ke,
        let '(tbl, dueItems) := acc in
        let '(key, e) := ke in
        if finished e then (delete key tbl, dueItems)
        else if now <? RetransmitTimeout e then acc
        else
          let e := mkAnnounceEntry (ref e) (CreatedAt e) (now + retransmitDelay) (Retries e + 1)
            (ReceivedFrom e) (AnnounceHops e) (pkt e) (LocalRebroadcasts e) (BlockRebroadcasts e)
            (AttachedInterface e) in
          (<[key := e]> tbl, dueItems ++ [(key, e)]))
      (announceTable n, []) entries in
  foldl (λ n ke, emitAnnounceTableEntry ke.1 ke.2 n) (set_announces tbl (heldAnnounces n) n) dueItems.

(** ** Tunnels *)

Definition associateTunnelPath (tid destHash from packetHash : bytes) (hops : Z) (n : Node) : Node :=
  if negb (len tid =? 32) then n
  else
    match tunnels n !! tid with
    | None => n
    | Some entry =>
        let path := mkTunnelPath from hops (now + tunnelTimeout) packetHash in
        set_tunnels (<[tid := mkTunnel (t_iface entry)
            (<[Identity.fixed 16 destHash := path]> (t_paths entry)) (now + tunnelTimeout)]> (tunnels n)) n
    end.

(** ** The handler *)

Definition seenRecently (h : bytes) (n : Node) : bool :=
  match PathTable.seenAnnounces (table n) !! h with
  | Some last => now - last <? PathTable.SeenAnnounceTTL
  | None => false
  end.

Definition unclaimAnnounce (h : bytes) (n : Node) : Node :=
  set_table (PathTable.set_seen (delete h (PathTable.seenAnnounces (table n))) (table n)) n.

(** The path update of an accepted announce from [i]. *)
Definition learnPath (i : iface) (destHash nextHop random announceHash : bytes) (hops : Z) (n : Node)
    : Node :=
  let t := table n in
  let key := pathMapKey destHash in
  let existing := PathTable.paths t !! key in
  let cur := match existing with Some p => Interface p | None => None end in
  let shouldAdd := PathTable.shouldUpdateAnnouncePath existing
    (PathTable.mkInput (bool_decide (is_Some existing)) hops random now
       (PathTable.pathingAffinity (Some i) t) (PathTable.pathingAffinity cur t)
       (bool_decide (existing = None) || bool_decide (is_Some cur)))
    (bool_decide (PathTable.pathStates t !! key = Some PathTable.StateUnresponsive)) in
  if shouldAdd then
    let n := set_table (PathTable.updatePathUnlocked destHash nextHop (GetName i) hops random now t) n in
    match TunnelID i with
    | Some tid => if len tid =? 32 then associateTunnelPath tid destHash nextHop announceHash hops n else n
    | None => n
    end
  else n.

(** From the claim of the dedup slot on. *)
Definition acceptAnnounce (data : bytes) (i : NetworkInterface) (h : header) (b : body)
    (f : AnnounceWire.fields) (id : Identity.Identity) (announceHash : bytes) (n : Node)
    : Node * outcome handler_error () :=
  let dest := destinationHash b in
  let n := set_table (PathTable.rememberSeenAnnounceUnlocked announceHash now (table n)) n in
  let '(k, ok) := Known.RememberIdentity now data dest (AnnounceWire.f_pub f) (AnnounceWire.f_app f)
                    (Some id) (known n) in
  let n := set_known k n in
  if negb ok then (unclaimAnnounce announceHash (announceReject i KindAnnounceKeyMismatch n), Err KeyMismatch)
  else
    let n :=
      if len (AnnounceWire.f_ratchet f) =? 32
      then set_known (Known.RememberRatchet now dest (AnnounceWire.f_ratchet f) (known n)) n else n in
    let n := set_table (cacheAnnouncePacket dest
      (announcePacket (headerType h) (packetType h) (propType h) (context b) (contextFlag h) (hopCount h)
         (destType h) dest (payload b) None) (table n)) n in
    let '(n, isNewDest) :=
      match i with
      | None => (n, false)
      | Some _ => let '(t, has) := PathTable.HasPath dest (table n) in (set_table t n, negb has)
      end in
    let announceHops :=
      if isLocalClientInterface i then b2z (hopCount h) else b2z (hopCount h) + 1 in
    if MaxHops <? announceHops
    then (unclaimAnnounce announceHash (announceReject i KindAnnounceMaxHops n), Ok ())
    else
      let isPathResponse := bool_decide (context b = Packet.ContextPathResponse) in
      let n :=
        match i with
        | None => n
        | Some i =>
            answerPendingLocalPathRequest dest (z2b announceHops)
              (learnPath i dest (source b) (AnnounceWire.f_random f) announceHash announceHops n)
        end in
      let n := emit (Notified (AnnounceWire.mkNotification dest id (AnnounceWire.f_app f)
                                 (z2b announceHops)) isPathResponse) n in
      let '(n, pass) :=
        match i with
        | None => (n, true)
        | Some i =>
            match ingress n !! GetName i with
            | None => (n, true)
            | Some ic =>
                let '(ic, pass) := Rate.ProcessAnnounceHash now announceHash data isNewDest ic in
                (set_ingress (<[GetName i := ic]> (ingress n)) n, pass)
            end
        end in
      if negb pass
      then (unclaimAnnounce announceHash (announceReject i KindAnnounceHeld n), Ok ())
      else
        let n := forwardAnnounceToLocalClients data dest i (z2b announceHops) n in
        let schedule := scheduleAnnounceForward data (hash16FromSlice dest) dest i (z2b announceHops) in
        if negb (transportEnabled n) then
          (if isLocalClientInterface i && negb isPathResponse then schedule n else n, Ok ())
        else if isPathResponse then (n, Ok ())
        else
          let '(l, allow) := Rate.Allow now (announceRate n) in
          let n := set_announceRate l n in
          if negb allow then (announceReject i KindAnnounceSuppressed n, Ok ()) else (schedule n, Ok ()).

Definition handleAnnouncePacket (data : bytes) (i : NetworkInterface) (n : Node)
    : Node * outcome handler_error () :=
  match announceHeader data with
  | Err e => (announceReject i KindAnnounceMalformed n, Err e)
  | Panic => (n, Panic)
  | Ok None => (announceReject i KindAnnounceDestType (ifaceProtocolViolation i n), Ok ())
  | Ok (Some h) =>
      match go_slice (E:=handler_error) (startIdx h + addrSize h - 16) (len data) data with
      | Ok covered =>
          let announceHash := Sha256.Sum256 covered in
          if seenRecently announceHash n then (announceReject i KindAnnounceDup n, Ok ())
          else
            match b ← announceBody h data; f ← announceFields h b; Ok (b, f) with
            | Err e => (announceReject i KindAnnounceMalformed n, Err e)
            | Panic => (n, Panic)
            | Ok (b, f) =>
                let dest := destinationHash b in
                let pubKey := AnnounceWire.f_pub f in
                let id :=
                  match Known.KnownIdentityMatching dest pubKey (known n) with
                  | Some id => Some id
                  | None => Identity.FromPublicKey pubKey
                  end in
                match id with
                | None => (announceReject i KindAnnounceMalformed n, Err InvalidIdentity)
                | Some id =>
                    let signData := dest ++ pubKey ++ AnnounceWire.f_name f ++ AnnounceWire.f_random f
                                      ++ AnnounceWire.f_ratchet f ++ AnnounceWire.f_app f in
                    if negb (AdmitCrypto (nameOf i)) then (n, Err CryptoRefused)
                    else if negb (Identity.Verify id signData (AnnounceWire.f_signature f))
                    then (announceReject i KindAnnounceSigFail n, Err InvalidSignature)
                    else if Blackholed (Identity.Hash id)
                    then (announceReject i KindAnnounceBlackholed n, Ok ())
                    else
                      let n := noteReceived i (len data) n in
                      if negb (bool_decide (dest = take 16 (Sha256.Sum256
                                (AnnounceWire.f_name f ++ Identity.Hash id))))
                      then (announceReject i KindAnnounceMalformed n, Err HashMismatch)
                      else if seenRecently announceHash n then (announceReject i KindAnnounceDup n, Ok ())
                      else acceptAnnounce data i h b f id announceHash n
                end
            end
      | _ => (n, Panic)
      end
  end.

End ops.

(** ** Parsing and encoding *)

Module W := AnnounceWire.

Definition kind (p : W.parts) : byte := (W.flags p &&& x0c) >>> 2.

Definition hdr (p : W.parts) : header :=
  mkHeader (W.hops p) ((W.flags p &&& x40) >>> 6) ((W.flags p &&& x20) >>> 5) ((W.flags p &&& x10) >>> 4)
    (kind p) (W.flags p &&& x03) (2 + len (W.ifac p)) (16 + len (W.transport p)).

Definition body_of (p : W.parts) : body :=
  mkBody (W.dest p) (W.context p) (W.payload p)
    (if W.has W.HeaderTypeMask (W.flags p) then W.transport p else W.dest p).

(** SINGLE and LINK destinations; the others are not announced. *)
Definition announceable (p : W.parts) : Prop := kind p ≠ DestTypePlain ∧ kind p ≠ DestTypeGroup.

Lemma bit_ifac b : bool_decide ((b &&& x80) >>> 7 = x01) = W.has x80 b.
Proof. byte_cases b. Qed.
Lemma bit_type b : bool_decide ((b &&& x40) >>> 6 = x01) = W.has W.HeaderTypeMask b.
Proof. byte_cases b. Qed.
Lemma bit_type0 b : bool_decide ((b &&& x40) >>> 6 = x00) = negb (W.has W.HeaderTypeMask b).
Proof. byte_cases b. Qed.
Lemma bit_ratchet b : bool_decide ((b &&& x20) >>> 5 = x01) = W.has W.HeaderContextFlagMask b.
Proof. byte_cases b. Qed.

Lemma len_message p :
  W.well_formed p → len (W.message p) = 165 + len (W.ratchet p) + len (W.app p).
Proof.
  intros (_ & _ & Hd & Hp & Hn & Hr & _ & Hs). unfold W.message, W.payload.
  rewrite !len_app, len_cons, !len_app. lia.
Qed.

(** Header sizes of a well-formed announce. *)
Lemma len_encode p : len (W.encode p) = 2 + len (W.ifac p) + len (W.transport p) + len (W.message p).
Proof. unfold W.encode. rewrite !len_cons, !len_app. lia. Qed.

Lemma covered_encode p :
  W.well_formed p →
  slice (startIdx (hdr p) + addrSize (hdr p) - 16) (len (W.encode p)) (W.encode p) = W.message p.
Proof.
  intros _. cbn [startIdx addrSize hdr].
  change (W.encode p) with ([W.flags p; W.hops p] ++ W.ifac p ++ W.transport p ++ W.message p).
  rewrite !app_assoc. apply slice_app_tail; rewrite !len_app; change (len [_; _]) with 2; lia.
Qed.

Lemma announceHeader_encode p :
  W.well_formed p → announceable p → announceHeader (W.encode p) = Ok (Some (hdr p)).
Proof.
  intros Hwf [Hk1 Hk2]. pose proof (len_message p Hwf) as Hm. pose proof (len_encode p) as He.
  pose proof (len_nonneg (W.ifac p)). pose proof (len_nonneg (W.transport p)).
  pose proof (len_nonneg (W.ratchet p)). pose proof (len_nonneg (W.app p)).
  destruct Hwf as (Hi & Ht & _). unfold announceHeader. rewrite (proj2 (Z.ltb_ge _ _)) by lia.
  cbn [negb check mbind outcome_bind].
  rewrite (go_index_Some 0 _ (W.flags p)), (go_index_Some 1 _ (W.hops p)) by done.
  cbn [mbind outcome_bind]. fold (kind p).
  rewrite !bool_decide_eq_false_2 by done. cbn [orb]. rewrite bit_ifac, bit_type.
  assert (E1 : (if W.has x80 (W.flags p) then 3 else 2) = 2 + len (W.ifac p)) by (rewrite Hi; by destruct (W.has x80 _)).
  assert (E2 : (if W.has W.HeaderTypeMask (W.flags p) then 32 else 16) = 16 + len (W.transport p))
    by (rewrite Ht; by destruct (W.has W.HeaderTypeMask (W.flags p))).
  rewrite E1, E2, (proj2 (Z.ltb_ge _ _)) by lia. cbn [negb check mbind outcome_bind]. done.
Qed.

Lemma announceBody_encode p :
  W.well_formed p → announceBody (hdr p) (W.encode p) = Ok (body_of p).
Proof.
  intros Hwf. pose proof (len_message p Hwf) as Hm. pose proof (len_encode p) as He.
  pose proof (len_nonneg (W.ifac p)). pose proof (len_nonneg (W.transport p)).
  pose proof (len_nonneg (W.ratchet p)). pose proof (len_nonneg (W.app p)).
  destruct Hwf as (Hi & Ht & Hd & _). unfold announceBody. cbn [startIdx headerType hdr]. rewrite bit_type0.
  set (s := 2 + len (W.ifac p)).
  set (pre := [W.flags p; W.hops p] ++ W.ifac p).
  assert (Hpre : len pre = s) by (subst pre s; by rewrite len_app).
  assert (Hshape : W.encode p = pre ++ W.transport p ++ W.dest p ++ W.context p :: W.payload p).
  { unfold W.encode, W.message. subst pre. by rewrite <- app_assoc. }
  assert (Hmsg : len (W.message p) = 17 + len (W.payload p)) by (unfold W.message; rewrite len_app, len_cons; lia).
  assert (Hpl := len_nonneg (W.payload p)).
  assert (Hctx : ∀ k, k = s + len (W.transport p) + 16 → W.encode p !! Z.to_nat k = Some (W.context p)).
  { intros k ->. rewrite Hshape, !app_assoc. apply lookup_app_mid. rewrite !length_app. unfold len in *. lia. }
  assert (Hpay : ∀ k, k = s + len (W.transport p) + 17 → slice k (len (W.encode p)) (W.encode p) = W.payload p).
  { intros k ->. rewrite Hshape. change (W.context p :: W.payload p) with ([W.context p] ++ W.payload p).
    rewrite !app_assoc. apply slice_app_tail; rewrite !len_app; change (len [_]) with 1; lia. }
  assert (Hdest : ∀ k, k = s + len (W.transport p) → slice k (k + 16) (W.encode p) = W.dest p).
  { intros k ->. rewrite Hshape, app_assoc. apply slice_app_mid; rewrite len_app; lia. }
  unfold body_of. destruct (W.has W.HeaderTypeMask (W.flags p)); cbn [negb].
  - rewrite !go_slice_Ok by lia. rewrite (go_index_Some _ _ (W.context p)) by (lia || (apply Hctx; lia)).
    cbn [mbind outcome_bind]. rewrite Hpay by lia.
    replace (s + 32) with (s + 16 + 16) by lia. rewrite Hdest by lia.
    do 2 f_equal. rewrite Hshape. apply slice_app_mid; lia.
  - rewrite !go_slice_Ok by lia. rewrite (go_index_Some _ _ (W.context p)) by (lia || (apply Hctx; lia)).
    cbn [mbind outcome_bind]. rewrite Hpay by lia. by rewrite Hdest by lia.
Qed.

Lemma announceFields_encode p :
  W.well_formed p → announceFields (hdr p) (body_of p) = Ok (W.fields_of p).
Proof.
  intros Hwf. pose proof (len_message p Hwf) as Hm.
  assert (Hpl : len (W.payload p) = 148 + len (W.ratchet p) + len (W.app p)).
  { destruct Hwf as (_ & _ & Hd & _). unfold W.message in Hm. rewrite len_app, len_cons in Hm. lia. }
  pose proof (len_nonneg (W.ratchet p)). pose proof (len_nonneg (W.app p)).
  unfold announceFields. cbn [payload body_of contextFlag hdr]. rewrite (proj2 (Z.ltb_ge _ _)) by lia.
  cbn [negb check mbind outcome_bind]. rewrite bit_ratchet.
  apply (W.payloadFields_concat _ _ (W.fields_of p)). destruct Hwf as (_ & _ & _ & Hp & Hn & Hr & Hra & Hs).
  by split_and!.
Qed.

(** What an accepted header says about the bytes. *)
Lemma announceHeader_inv data h :
  announceHeader data = Ok (Some h) →
  ∃ b0 b1 rest, data = b0 :: b1 :: rest
    ∧ headerType h = (b0 &&& x40) >>> 6 ∧ contextFlag h = (b0 &&& x20) >>> 5
    ∧ startIdx h = (if W.has x80 b0 then 3 else 2)
    ∧ addrSize h = (if W.has W.HeaderTypeMask b0 then 32 else 16)
    ∧ startIdx h + addrSize h + 1 <= len data
    ∧ (b0 &&& x0c) >>> 2 ≠ DestTypePlain ∧ (b0 &&& x0c) >>> 2 ≠ DestTypeGroup.
Proof.
  unfold announceHeader. destruct (Z.ltb_spec (len data) 2) as [|Hl]; [done|]. cbn [negb check mbind outcome_bind].
  destruct data as [|b0 [|b1 rest]]; [done|done|].
  rewrite (go_index_Some 0 _ b0), (go_index_Some 1 _ b1) by done. cbn [mbind outcome_bind].
  rewrite bit_ifac, bit_type.
  destruct (decide ((b0 &&& x0c) >>> 2 = DestTypePlain)) as [Hp|Hp]; [by rewrite bool_decide_eq_true_2|].
  destruct (decide ((b0 &&& x0c) >>> 2 = DestTypeGroup)) as [Hg|Hg];
    [by rewrite orb_true_r || rewrite (bool_decide_eq_true_2 _ Hg), orb_true_r|].
  rewrite !bool_decide_eq_false_2 by done. cbn [orb].
  destruct (negb (len (b0 :: b1 :: rest) <? _)) eqn:Hc; cbn [check mbind outcome_bind]; [|done].
  apply negb_true_iff, Z.ltb_ge in Hc.
  intros [= <-]. exists b0, b1, rest. by split_and!.
Qed.

Lemma announceBody_payload data h b :
  addrSize h = (if bool_decide (headerType h = x00) then 16 else 32) →
  announceBody h data = Ok b → payload b = slice (startIdx h + addrSize h + 1) (len data) data.
Proof.
  intros Ha. unfold announceBody. rewrite Ha. case_bool_decide.
  - destruct (go_slice (startIdx h) (startIdx h + 16) data) as [d|e|]; cbn [mbind outcome_bind]; [|done..].
    destruct (go_index (startIdx h + 16) data) as [c|e|]; cbn [mbind outcome_bind]; [|done..].
    destruct (go_slice (startIdx h + 17) (len data) data) as [pl|e|] eqn:Hp; cbn [mbind outcome_bind]; [|done..].
    intros [= <-]. apply go_slice_Ok_inv in Hp as [-> _]. cbn. f_equal. lia.
  - destruct (go_slice (startIdx h) (startIdx h + 16) data) as [d|e|]; cbn [mbind outcome_bind]; [|done..].
    destruct (go_slice (startIdx h + 16) (startIdx h + 32) data) as [d'|e|]; cbn [mbind outcome_bind]; [|done..].
    destruct (go_index (startIdx h + 32) data) as [c|e|]; cbn [mbind outcome_bind]; [|done..].
    destruct (go_slice (startIdx h + 33) (len data) data) as [pl|e|] eqn:Hp; cbn [mbind outcome_bind]; [|done..].
    intros [= <-]. apply go_slice_Ok_inv in Hp as [-> _]. cbn. f_equal. lia.
Qed.

Lemma announceFields_len h b f :
  announceFields h b = Ok f →
  148 + (if bool_decide (contextFlag h = x01) then 32 else 0) <= len (payload b).
Proof.
  unfold announceFields. destruct (Z.ltb_spec (len (payload b)) (64 + 10 + 10 + 64)) as [|Hl]; [done|].
  cbn [negb check mbind outcome_bind]. case_bool_decide; [|lia]. intros Hf.
  destruct (Z.lt_ge_cases (len (payload b)) 180) as [Hs|]; [|lia].
  rewrite W.payloadFields_short in Hf by lia. done.
Qed.

(** A parsed announce is the encoding of its parts. *)
Lemma parsed data h b f :
  announceHeader data = Ok (Some h) → announceBody h data = Ok b → announceFields h b = Ok f →
  ∃ p, data = W.encode p ∧ W.well_formed p ∧ announceable p
    ∧ h = hdr p ∧ b = body_of p ∧ f = W.fields_of p.
Proof.
  intros Hh Hb Hf.
  destruct (announceHeader_inv data h Hh) as (b0 & b1 & rest & -> & Hht & Hcf & Hs & Ha & Hl & Hk1 & Hk2).
  assert (Ha' : addrSize h = if bool_decide (headerType h = x00) then 16 else 32).
  { rewrite Ha, Hht, bit_type0. by destruct (W.has W.HeaderTypeMask b0). }
  pose proof (announceBody_payload _ _ _ Ha' Hb) as Hpl. pose proof (announceFields_len _ _ _ Hf) as Hfl.
  rewrite Hcf, bit_ratchet in Hfl.
  destruct (W.split_payload _ _ Hfl) as (f' & Hconcat & Hlens).
  set (s := if W.has x80 b0 then 1%nat else 0%nat).
  set (a := if W.has W.HeaderTypeMask b0 then 16%nat else 0%nat).
  assert (Hsn : startIdx h = 2 + Z.of_nat s) by (rewrite Hs; subst s; by destruct (W.has x80 b0)).
  assert (Han : addrSize h = 16 + Z.of_nat a) by (rewrite Ha; subst a; by destruct (W.has W.HeaderTypeMask b0)).
  rewrite !len_cons in Hl.
  rewrite slice_to_end in Hpl by (rewrite !len_cons; lia).
  replace (Z.to_nat (startIdx h + addrSize h + 1)) with (S (S (s + a + 16 + 1))) in Hpl by lia. cbn [drop] in Hpl.
  destruct (drop (s + a + 16) rest) as [|c pl] eqn:Hdrop.
  { apply (f_equal len) in Hdrop. rewrite len_drop in Hdrop. change (len []) with 0 in Hdrop. lia. }
  rewrite <- drop_drop, Hdrop in Hpl. cbn [drop] in Hpl. rewrite drop_0 in Hpl.
  set (p := W.mkParts b0 b1 (take s rest) (take a (drop s rest)) (take 16 (drop (s + a) rest)) c
     (W.f_pub f') (W.f_name f') (W.f_random f') (W.f_ratchet f') (W.f_signature f') (W.f_app f')).
  assert (Henc : b0 :: b1 :: rest = W.encode p).
  { unfold W.encode, W.message, W.payload. subst p. cbn [W.flags W.hops W.ifac W.transport W.dest W.context
      W.pub W.name W.random W.ratchet W.signature W.app]. do 2 f_equal. fold (W.concat f').
    rewrite <- Hconcat, Hpl, <- Hdrop.
    rewrite <- (take_drop s rest) at 1. f_equal. rewrite <- (take_drop a (drop s rest)) at 1. f_equal.
    rewrite drop_drop. rewrite <- (take_drop 16 (drop (s + a) rest)) at 1. by rewrite drop_drop. }
  assert (Hwf : W.well_formed p).
  { destruct Hlens as (L1 & L2 & L3 & L4 & L5). unfold W.well_formed. subst p.
    cbn [W.flags W.hops W.ifac W.transport W.dest W.pub W.name W.random W.ratchet W.signature].
    rewrite !len_take, !len_drop. split_and!; try done; subst s a;
      destruct (W.has x80 b0), (W.has W.HeaderTypeMask b0); lia. }
  assert (Hkind : announceable p) by done.
  exists p. rewrite Henc in *. split_and!; [done..| | |].
  - rewrite announceHeader_encode in Hh by done. by injection Hh.
  - rewrite announceHeader_encode in Hh by done. injection Hh as <-.
    rewrite announceBody_encode in Hb by done. by injection Hb.
  - rewrite announceHeader_encode in Hh by done. injection Hh as <-.
    rewrite announceBody_encode in Hb by done. injection Hb as <-.
    rewrite announceFields_encode in Hf by done. by injection Hf.
Qed.

(** ** Only authentic announces have an effect *)

Section facts.
Context `{RuntimeLaws} `{AnnounceRuntime} `{Ed25519.Scheme}.

(** An identity with the announced key. *)
Lemma id_of_key id key :
  Identity.publicKeyEqual id key = true →
  Identity.verificationKey id = drop 32 key ∧ Identity.Hash id = W.identityHash key ∧ len key = 64.
Proof.
  unfold Identity.publicKeyEqual. rewrite !andb_true_iff, !bool_decide_eq_true, Z.eqb_eq.
  change (Identity.KeySize `div` 8) with 64. intros [[Hl Hp] Hv]. split_and!; [done| |done].
  unfold Identity.Hash, Identity.TruncatedHash, Identity.fullPublicKey, W.identityHash.
  rewrite Hp, Hv, !Identity.fixed_exact by (rewrite ?len_take, ?len_drop; lia). by rewrite take_drop.
Qed.

Lemma FromPublicKey_key key id :
  Identity.FromPublicKey key = Some id → Identity.publicKeyEqual id key = true.
Proof.
  unfold Identity.FromPublicKey, Identity.publicKeyEqual.
  destruct (Z.eqb_spec (len key) (Identity.KeySize `div` 8)) as [Hl|]; [|done]. cbn [negb]. intros [= <-].
  cbn [Identity.publicKey Identity.verificationKey]. by rewrite !bool_decide_eq_true_2.
Qed.

Definition announcer (dest key : bytes) (n : Node) : option Identity.Identity :=
  match Known.KnownIdentityMatching dest key (known n) with
  | Some id => Some id
  | None => Identity.FromPublicKey key
  end.

Lemma announcer_key dest key n id :
  announcer dest key n = Some id → Identity.publicKeyEqual id key = true.
Proof.
  unfold announcer, Known.KnownIdentityMatching.
  destruct (Known.knownDestinations (known n) !! _) as [e|]; [|apply FromPublicKey_key].
  destruct (Known.id e) as [i|]; [|apply FromPublicKey_key].
  destruct (Identity.publicKeyEqual i key) eqn:Hk; [by intros [= <-]|apply FromPublicKey_key].
Qed.

Lemma announcer_some dest key n : len key = 64 → ∃ id, announcer dest key n = Some id.
Proof.
  intros Hl. unfold announcer. destruct (Known.KnownIdentityMatching _ _ _) as [id|]; [by exists id|].
  unfold Identity.FromPublicKey. rewrite Hl. by eexists.
Qed.

(** The handler on an encoded announce, check by check. *)
Lemma handle_encode p i n id :
  W.well_formed p → announceable p → announcer (W.dest p) (W.pub p) n = Some id →
  handleAnnouncePacket (W.encode p) i n =
  (if seenRecently (Sha256.Sum256 (W.message p)) n then (announceReject i KindAnnounceDup n, Ok ())
   else if negb (AdmitCrypto (nameOf i)) then (n, Err CryptoRefused)
   else if negb (Ed25519.verify (drop 32 (W.pub p)) (W.signedData p) (W.signature p))
   then (announceReject i KindAnnounceSigFail n, Err InvalidSignature)
   else if Blackholed (W.identityHash (W.pub p)) then (announceReject i KindAnnounceBlackholed n, Ok ())
   else
     let n := noteReceived i (len (W.encode p)) n in
     if negb (bool_decide (W.dest p = W.destinationHashOf (W.name p) (W.pub p)))
     then (announceReject i KindAnnounceMalformed n, Err HashMismatch)
     else acceptAnnounce (W.encode p) i (hdr p) (body_of p) (W.fields_of p) id (Sha256.Sum256 (W.message p)) n).
Proof.
  intros Hwf Hk Hid. unfold handleAnnouncePacket. rewrite announceHeader_encode by done. cbv iota beta.
  pose proof (len_encode p) as He. pose proof (len_nonneg (W.ifac p)). pose proof (len_nonneg (W.transport p)).
  pose proof (len_nonneg (W.message p)).
  rewrite go_slice_Ok by (cbn [startIdx addrSize hdr]; lia). cbv iota beta.
  rewrite covered_encode by done. cbv zeta.
  destruct (seenRecently (Sha256.Sum256 (W.message p)) n) eqn:Hseen; [done|].
  rewrite announceBody_encode by done. cbn [mbind outcome_bind]. rewrite announceFields_encode by done.
  cbn [mbind outcome_bind]. cbn [destinationHash body_of W.f_pub W.f_name W.f_random W.f_ratchet W.f_signature
    W.f_app W.fields_of]. fold (announcer (W.dest p) (W.pub p) n). rewrite Hid.
  destruct (id_of_key id (W.pub p) (announcer_key _ _ _ _ Hid)) as (Hv & Hh & _).
  unfold Identity.Verify. rewrite Hv, Hh.
  fold (W.signedData p). fold (W.destinationHashOf (W.name p) (W.pub p)). cbv zeta.
  assert (Hseen' : seenRecently (Sha256.Sum256 (W.message p)) (noteReceived i (len (W.encode p)) n) = false)
    by (by destruct i). by rewrite Hseen'.
Qed.

(** The parser reports every violated bound; it never slices out of range. *)
Lemma announceHeader_no_panic data : announceHeader data ≠ Panic.
Proof.
  unfold announceHeader. destruct (Z.ltb_spec (len data) 2) as [|Hl]; [done|]. cbn [negb check mbind outcome_bind].
  destruct data as [|b0 [|b1 rest]]; [unfold len in Hl; cbn in Hl; lia..|].
  rewrite (go_index_Some 0 _ b0), (go_index_Some 1 _ b1) by done. cbn [mbind outcome_bind].
  destruct (bool_decide _ || bool_decide _); [done|].
  by destruct (negb (len (b0 :: b1 :: rest) <? _)).
Qed.

Lemma announceBody_Ok data h : announceHeader data = Ok (Some h) → ∃ b, announceBody h data = Ok b.
Proof.
  intros Hh. destruct (announceHeader_inv data h Hh) as (b0 & b1 & rest & -> & Hht & _ & Hs & Ha & Hl & _).
  unfold announceBody. rewrite Hht, bit_type0.
  destruct (W.has W.HeaderTypeMask b0); cbn [negb]; rewrite Ha in Hl;
    assert (0 <= startIdx h) by (rewrite Hs; case_match; lia).
  - rewrite !go_slice_Ok by lia. cbn [mbind outcome_bind].
    edestruct (@go_index_Ok _ handler_error (startIdx h + 32) (b0 :: b1 :: rest)) as (c & -> & _); [lia|]. by eexists.
  - rewrite !go_slice_Ok by lia. cbn [mbind outcome_bind].
    edestruct (@go_index_Ok _ handler_error (startIdx h + 16) (b0 :: b1 :: rest)) as (c & -> & _); [lia|]. by eexists.
Qed.

Lemma announceFields_cases h b : (∃ e, announceFields h b = Err e) ∨ ∃ f, announceFields h b = Ok f.
Proof.
  unfold announceFields. destruct (Z.ltb_spec (len (payload b)) (64 + 10 + 10 + 64)) as [|Hl]; [left; by eexists|].
  cbn [negb check mbind outcome_bind]. destruct (bool_decide (contextFlag h = x01)).
  - destruct (Z.lt_ge_cases (len (payload b)) 180); [left; rewrite W.payloadFields_short by lia; by eexists|].
    destruct (W.split_payload true (payload b)) as (f & -> & Hf); [lia|]. right. exists f. by apply W.payloadFields_concat.
  - destruct (W.split_payload false (payload b)) as (f & -> & Hf); [lia|]. right. exists f. by apply W.payloadFields_concat.
Qed.

(** A refusal: at most the statistics change, and an interface is told of an
    announce received only when [b]. *)
Definition statistic (b : Prop) (e : event) : Prop :=
  match e with
  | HealthInc _ _ | ProtocolViolation _ => True
  | ReceivedAnnounce _ _ => b
  | _ => False
  end.

Definition onlyStatistics (b : Prop) (n n' : Node) : Prop :=
  ∃ st, n' = set_events (events n ++ st) n ∧ Forall (statistic b) st.

Lemma onlyStatistics_refl b n : onlyStatistics b n n.
Proof. exists []. split; [rewrite app_nil_r; by destruct n|done]. Qed.

Lemma onlyStatistics_emit b e n n' : statistic b e → onlyStatistics b n n' → onlyStatistics b n (emit e n').
Proof.
  intros He (st & -> & Hst). exists (st ++ [e]). split; [unfold emit; cbn [events set_events]; by rewrite app_assoc|].
  apply Forall_app. by split; [|constructor].
Qed.

Lemma onlyStatistics_reject b i k n n' : onlyStatistics b n n' → onlyStatistics b n (announceReject i k n').
Proof. by apply onlyStatistics_emit. Qed.

Lemma onlyStatistics_violation b i n : onlyStatistics b n (ifaceProtocolViolation i n).
Proof. destruct i; [|apply onlyStatistics_refl]. apply onlyStatistics_emit, onlyStatistics_refl. done. Qed.

Lemma onlyStatistics_received (b : Prop) i k n : b → onlyStatistics b n (noteReceived i k n).
Proof.
  intros Hb. destruct i; [|apply onlyStatistics_refl].
  do 2 (apply onlyStatistics_emit; [done|]). apply onlyStatistics_refl.
Qed.

#[local] Hint Resolve onlyStatistics_refl onlyStatistics_reject onlyStatistics_violation
  onlyStatistics_received : core.

(** Anything else than an encoded announce is dropped or refused. *)
Lemma handle_other data i n :
  (onlyStatistics False n (handleAnnouncePacket data i n).1 ∧ (handleAnnouncePacket data i n).2 ≠ Panic)
  ∨ ∃ p, data = W.encode p ∧ W.well_formed p ∧ announceable p.
Proof.
  unfold handleAnnouncePacket. pose proof (announceHeader_no_panic data).
  destruct (announceHeader data) as [[h|]|e|] eqn:Hh; [|left; cbn [fst snd]; by auto..|done].
  destruct (announceHeader_inv data h Hh) as (b0 & b1 & rest & _ & _ & _ & Hs & Ha & Hl & _).
  rewrite go_slice_Ok by (revert Hs Ha; repeat case_match; lia). cbv iota beta zeta.
  destruct (seenRecently _ n); [left; cbn [fst snd]; by auto|]. destruct (announceBody_Ok data h Hh) as [b Hb]. rewrite Hb. cbn [mbind outcome_bind].
  destruct (announceFields_cases h b) as [[e Hf]|[f Hf]]; rewrite Hf; cbn [mbind outcome_bind];
    [left; cbn [fst snd]; by auto|].
  right. destruct (parsed data h b f Hh Hb Hf) as (p & -> & Hwf & Hk & _). by exists p.
Qed.

Lemma acceptAnnounce_no_panic data i h b f id hash n : (acceptAnnounce data i h b f id hash n).2 ≠ Panic.
Proof.
  unfold acceptAnnounce. destruct (Known.RememberIdentity _ _ _ _ _ _ _) as [k [|]]; cbn [negb]; [|done].
  destruct (match i with None => _ | Some _ => _ end) as [n1 new]. destruct (MaxHops <? _); [done|].
  destruct (match i with None => (_, true) | Some _ => _ end) as [n2 [|]]; cbn [negb]; [|done].
  destruct (transportEnabled _); cbn [negb]; [|done]. destruct (bool_decide _); [done|].
  by destruct (Rate.Allow _ _) as [l [|]].
Qed.

(** C21.  Nothing but an authentic announce has an effect: whatever bytes arrive,
    the handler does not panic, and unless they are a well-formed announce of a
    SINGLE or LINK destination whose signature verifies under the key it carries
    and whose destination hash commits to that key and name, from an identity
    that is not blackholed, admitted by the protection engine and not seen within
    the last hour, every table, queue and rate control of the node stays as it
    was and nothing is sent, queued or told to the application: at most health
    counters and violation counts grow, and an interface counts an announce as
    received only when the signature verified. *)
Theorem announce_authentic data i n :
  (handleAnnouncePacket data i n).2 ≠ Panic
  ∧ ((∃ p, data = W.encode p ∧ W.well_formed p ∧ announceable p ∧ W.authentic p
       ∧ AdmitCrypto (nameOf i) = true ∧ Blackholed (W.identityHash (W.pub p)) = false
       ∧ seenRecently (Sha256.Sum256 (W.message p)) n = false)
     ∨ onlyStatistics
         (∃ p, data = W.encode p ∧ W.well_formed p
            ∧ Ed25519.verify (drop 32 (W.pub p)) (W.signedData p) (W.signature p) = true)
         n (handleAnnouncePacket data i n).1).
Proof.
  destruct (handle_other data i n) as [[Hsame Hnp]|(p & -> & Hwf & Hk)].
  { split; [done|]. right. destruct Hsame as (st & He & Hst). exists st. split; [done|].
    eapply list.Forall_impl; [exact Hst|]. by intros []. }
  assert (Hpl : len (W.pub p) = 64) by apply Hwf.
  destruct (announcer_some (W.dest p) (W.pub p) n Hpl) as [id Hid]. rewrite (handle_encode p i n id) by done.
  destruct (seenRecently _ n) eqn:Hseen; [split; [done|right; cbn [negb fst]; by auto]|]. destruct (AdmitCrypto _) eqn:Hadm; [|split; [done|right; cbn [negb fst]; by auto]]. cbn [negb].
  destruct (Ed25519.verify _ _ _) eqn:Hver; [|split; [done|right; cbn [negb fst]; by auto]]. cbn [negb]. destruct (Blackholed _) eqn:Hbl; [split; [done|right; cbn [negb fst]; by auto]|].
  destruct (decide (W.dest p = W.destinationHashOf (W.name p) (W.pub p))) as [Hd|Hd]; cycle 1.
  { rewrite bool_decide_eq_false_2 by done. cbn [negb fst snd]. split; [done|]. right. eauto 6. }
  rewrite bool_decide_eq_true_2 by done. cbn [negb]. split; [apply acceptAnnounce_no_panic|].
  left. exists p. by split_and!.
Qed.

(** ** An accepted announce is learned *)

(** Steps that leave the path table and the known destinations alone. *)
Definition same_tables (n n' : Node) : Prop := table n' = table n ∧ known n' = known n.

#[local] Instance same_tables_preorder : PreOrder same_tables.
Proof. split; [done|]. intros a b c [] []. split; congruence. Qed.

(** Events are only added. *)
Definition grows (n n' : Node) : Prop := same_tables n n' ∧ events n `prefix_of` events n'.

#[local] Instance grows_preorder : PreOrder grows.
Proof. split; [done|]. intros a b c [? ?] [? ?]. split; [by etrans|by etrans]. Qed.

Lemma grows_emit e n : grows n (emit e n).
Proof. split; [done|]. by eexists. Qed.

Lemma emit_in e n : e ∈ events (emit e n).
Proof. unfold emit. cbn [events set_events]. apply elem_of_app. right. by apply list_elem_of_singleton. Qed.

Lemma grows_send i data n : grows n (sendOnInterface i data n).1.
Proof. unfold sendOnInterface. repeat case_match; try done. apply grows_emit. Qed.

Lemma grows_sendAnnounce out data n : grows n (sendAnnounce out data n).
Proof.
  unfold sendAnnounce. pose proof (grows_send out data n) as Hs. destruct (sendOnInterface out data n) as [n1 []].
  - etrans; [exact Hs|apply grows_emit].
  - exact Hs.
Qed.

Lemma grows_transmit out data dest n : grows n (transmitOrQueueAnnounce out data dest n).
Proof.
  unfold transmitOrQueueAnnounce. repeat case_match; try done; try apply grows_emit; try apply grows_sendAnnounce.
  etrans; [apply grows_emit|apply grows_sendAnnounce].
Qed.

Lemma grows_local data dest i hops n : grows n (forwardAnnounceToLocalClients data dest i hops n).
Proof.
  unfold forwardAnnounceToLocalClients. case_match; [done|]. generalize (registered n). intros l.
  revert n. induction l as [|e l IH]; intros n; [done|]. cbn [foldl]. etrans; [|apply IH].
  repeat case_match; try done. apply grows_transmit.
Qed.

Lemma grows_schedule data d dest i hops n : grows n (scheduleAnnounceForward data d dest i hops n).
Proof. unfold scheduleAnnounceForward. repeat case_match; done. Qed.

Lemma grows_emitEntry key e n : grows n (emitAnnounceTableEntry key e n).
Proof.
  unfold emitAnnounceTableEntry. destruct (AttachedInterface e) as [i|]; [|done]. case_match; [done|].
  destruct (buildPathResponseWire e n) as [raw|]; [|done]. pose proof (grows_send i raw n) as Hs.
  destruct (sendOnInterface i raw n) as [n1 ok]. cbn [fst] in Hs. repeat case_match; exact Hs.
Qed.

Lemma grows_queue dest path i local n : grows n (queuePathResponseAnnounce dest path i local n).1.
Proof.
  unfold queuePathResponseAnnounce. destruct i as [i|]; [|done]. case_match; [done|].
  destruct (responseSource dest n) as [src|]; [|done].
  assert (Hins : ∀ e held, let n1 := set_announces (<[hash16FromSlice dest := e]> (announceTable n)) held
      (set_nextEntry (nextEntry n + 1) n) in
    grows n (if local then emitAnnounceTableEntry (hash16FromSlice dest) e n1 else n1)).
  { intros e held n1. destruct local; [|done]. etrans; [|apply grows_emitEntry]. done. }
  repeat case_match; cbn [fst]; try done; apply Hins.
Qed.

Lemma grows_answer dest hops n : grows n (answerPendingLocalPathRequest dest hops n).
Proof.
  unfold answerPendingLocalPathRequest. case_match; [done|].
  destruct (pendingLocalPathReqs n !! _) as [i|]; [|done].
  destruct (PathTable.announcePacketCache _ !! _); [|done].
  etrans; [|apply grows_queue]. done.
Qed.

(** What the handler keeps after the path update: the duplicate filter's slot may
    be released again. *)
Definition later (n n' : Node) : Prop :=
  PathTable.paths (table n') = PathTable.paths (table n) ∧ known n' = known n
  ∧ events n `prefix_of` events n'.

#[local] Instance later_preorder : PreOrder later.
Proof. split; [done|]. intros a b c (? & ? & ?) (? & ? & ?). split_and!; [congruence..|by etrans]. Qed.

Lemma grows_later n n' : grows n n' → later n n'.
Proof. intros [[Ht Hk] He]. split_and!; [by rewrite Ht|done|done]. Qed.

Lemma later_unclaim h n : later n (unclaimAnnounce h n).
Proof. done. Qed.

(** The end of [acceptAnnounce], from the notification on. *)
Lemma accept_tail data i h b f id hash n n0 new :
  MaxHops <? (if isLocalClientInterface (Some i) then b2z (hopCount h) else b2z (hopCount h) + 1) = false →
  let hops := if isLocalClientInterface (Some i) then b2z (hopCount h) else b2z (hopCount h) + 1 in
  let dest := destinationHash b in
  let n1 := set_table (PathTable.rememberSeenAnnounceUnlocked hash now (table n)) n in
  ∀ k, Known.RememberIdentity now data dest (W.f_pub f) (W.f_app f) (Some id) (known n1) = (k, true) →
  let n2 := set_known k n1 in
  let n3 := if len (W.f_ratchet f) =? 32
            then set_known (Known.RememberRatchet now dest (W.f_ratchet f) (known n2)) n2 else n2 in
  let n4 := set_table (cacheAnnouncePacket dest
      (announcePacket (headerType h) (packetType h) (propType h) (context b) (contextFlag h) (hopCount h)
         (destType h) dest (payload b) None) (table n3)) n3 in
  PathTable.HasPath dest (table n4) = (n0, new) →
  let n5 := learnPath i dest (source b) (W.f_random f) hash hops (set_table n0 n4) in
  ∃ n', acceptAnnounce data (Some i) h b f id hash n = (n', Ok ()) ∧ later n5 n'
    ∧ Notified (W.mkNotification dest id (W.f_app f) (z2b hops))
        (bool_decide (context b = Packet.ContextPathResponse)) ∈ events n'.
Proof.
  intros Hmax hops dest n1 k Hk n2 n3 n4 Hhas n5. unfold acceptAnnounce. fold dest n1. rewrite Hk. cbn [negb].
  fold n2. fold n3. fold n4. rewrite Hhas, Hmax. fold hops. fold n5.
  set (n6 := answerPendingLocalPathRequest dest (z2b hops) n5).
  set (ev := Notified _ _). set (n7 := emit ev n6).
  assert (H7 : later n5 n7 ∧ ev ∈ events n7).
  { split; [|apply emit_in]. etrans; [apply grows_later, grows_answer|apply grows_later, grows_emit]. }
  clearbody n7. clear n6.
  assert (Hdone : ∀ n', later n7 n' → later n5 n' ∧ ev ∈ events n').
  { intros n' Hl. destruct H7 as [H5 He]. split; [by etrans|]. destruct Hl as (_ & _ & [x ->]). set_solver. }
  assert (Hfin : ∀ n8 : Node, later n7 n8 → ∃ n',
    (let n := forwardAnnounceToLocalClients data dest (Some i) (z2b hops) n8 in
     let schedule := scheduleAnnounceForward data (hash16FromSlice dest) dest (Some i) (z2b hops) in
     if negb (transportEnabled n) then
       (if isLocalClientInterface (Some i) && negb (bool_decide (context b = Packet.ContextPathResponse))
        then schedule n else n, Ok ())
     else if bool_decide (context b = Packet.ContextPathResponse) then (n, Ok ())
     else
       let '(l, allow) := Rate.Allow now (announceRate n) in
       let n := set_announceRate l n in
       if negb allow then (announceReject (Some i) KindAnnounceSuppressed n, Ok ())
       else (schedule n, Ok ())) = (n', Ok (E:=handler_error) ()) ∧ later n7 n').
  { intros n8 Hl8. cbv zeta. set (n9 := forwardAnnounceToLocalClients data dest (Some i) (z2b hops) n8).
    assert (Hl9 : later n7 n9) by (etrans; [exact Hl8|apply grows_later, grows_local]). clearbody n9.
    assert (Hs : ∀ m, later n7 m →
      later n7 (scheduleAnnounceForward data (hash16FromSlice dest) dest (Some i) (z2b hops) m)).
    { intros m Hm. etrans; [exact Hm|apply grows_later, grows_schedule]. }
    destruct (negb (transportEnabled n9)); 
      [eexists; split; [reflexivity|]; destruct (isLocalClientInterface (Some i) && _); [by apply Hs|done]|].
    destruct (bool_decide (context b = Packet.ContextPathResponse)); [exists n9; split; [reflexivity|exact Hl9]|]. destruct (Rate.Allow now (announceRate n9)) as [l [|]]; cbn [negb].
    - eexists. split; [done|]. apply Hs. done.
    - eexists. split; [done|]. etrans; [exact Hl9|]. apply grows_later, (grows_emit _ (set_announceRate l n9)). }
  destruct (ingress n7 !! GetName i) as [ic|].
  - destruct (Rate.ProcessAnnounceHash now hash data (negb new) ic) as [ic' [|]]; cbn [negb].
    + destruct (Hfin (set_ingress (<[GetName i := ic']> (ingress n7)) n7)) as (n' & He & Hl); [done|].
      exists n'. split; [exact He|by apply Hdone].
    + eexists. split; [done|]. apply Hdone. split_and!; [done|done|by eexists].
  - destruct (Hfin n7) as (n' & He & Hl); [done|]. exists n'. split; [exact He|by apply Hdone].
Qed.

#[local] Existing Instance PathTable.same_paths_preorder.

Lemma cache_frame dest q t : PathTable.same_paths t (cacheAnnouncePacket dest q t).
Proof.
  unfold cacheAnnouncePacket. destruct (negb _ || _); [done|]. cbv zeta.
  destruct (PathTable.announcePacketCache t !! _); [destruct (_ && _)|]; [done|..];
    (etrans; [|apply PathTable.evict_cache_frame]); done.
Qed.

(** The path after the announce, by whether it is preferred to the live one. *)
Definition pathAfter (i : iface) (dest nh random : bytes) (hops : Z) (t : PathTable.Table) : option Path :=
  let live := PathTable.livePath dest now t in
  if PathTable.prefers i dest hops random t
  then Some (mkPath (Some i) nh hops now hops (PathTable.blobsAfter live random)
               (now + PathTable.pathLifetimeFor (Some i)))
  else live.

Lemma learn_path i dest nh random hash hops n t :
  PathTable.interfaces t !! GetName i = Some i → len random = 10 →
  has_room (pathMapKey dest) (PathTable.paths t) (PathTable.EffectiveMaxInMemoryPaths (PathTable.config t)) →
  let n' := learnPath i dest nh random hash hops (set_table (PathTable.HasPath dest t).1 n) in
  PathTable.paths (table n') !! pathMapKey dest = pathAfter i dest nh random hops t ∧ known n' = known n.
Proof.
  intros Hi Hr Hroom n'. subst n'. unfold learnPath. cbn [table set_table].
  destruct (PathTable.hasPath_spec dest t) as (Hp & Hc & Hif & Hpen & Hsame & Hroom').
  set (t1 := (PathTable.HasPath dest t).1) in *.
  assert (Haff : ∀ j, PathTable.pathingAffinity j t1 = PathTable.pathingAffinity j t).
  { intros j. unfold PathTable.pathingAffinity, PathTable.ifacePathPenalty. by rewrite Hpen. }
  rewrite !Haff, Hp. unfold pathAfter.
  match goal with |- context [if ?b then _ else _] => replace b with (PathTable.prefers i dest hops random t) end; cycle 1.
  { unfold PathTable.prefers. cbv zeta. destruct (PathTable.livePath dest now t) eqn:Hl; [|done].
    unfold PathTable.PathIsUnresponsive. by rewrite (Hsame ltac:(done)). }
  destruct (PathTable.prefers i dest hops random t); [|done].
  assert (Hup : PathTable.paths (PathTable.updatePathUnlocked dest nh (GetName i) hops random now t1) !! pathMapKey dest
    = Some (mkPath (Some i) nh hops now hops (PathTable.blobsAfter (PathTable.livePath dest now t) random)
        (now + PathTable.pathLifetimeFor (Some i)))).
  { rewrite <- Hp. apply PathTable.update_path; [by rewrite Hif|done|rewrite Hc; by apply Hroom']. }
  destruct (TunnelID i) as [tid|]; [|done]. destruct (len tid =? 32); [|done].
  unfold associateTunnelPath. destruct (negb _); [done|]. by destruct (tunnels _ !! tid).
Qed.

(** The hop count an interface's announces are recorded with. *)
Definition hopsFrom (i : iface) (p : W.parts) : Z :=
  if isLocalClientInterface (Some i) then b2z (W.hops p) else b2z (W.hops p) + 1.

(** What the node must offer: the interface is registered, the path and the
    destination can be stored without exceeding a cap, and no other key is known
    for the destination. *)
Record receptive (i : iface) (p : W.parts) (n : Node) : Prop := {
  rc_iface : PathTable.interfaces (table n) !! GetName i = Some i;
  rc_room : has_room (pathMapKey (W.dest p)) (PathTable.paths (table n))
    (PathTable.EffectiveMaxInMemoryPaths (PathTable.config (table n)));
  rc_key : ∀ e eid, Known.knownDestinations (known n) !! Known.knownDestKey (W.dest p) = Some e →
    Known.id e = Some eid → Identity.publicKeyEqual eid (W.pub p) = true;
  rc_known : has_room (Known.knownDestKey (W.dest p)) (Known.knownDestinations (known n))
    (Known.knownDestMaxEntries (known n))
}.

Lemma same_paths_after i dest nh random hops t t' :
  PathTable.same_paths t t' → pathAfter i dest nh random hops t' = pathAfter i dest nh random hops t.
Proof.
  intros (Hp & _ & _ & Hst & Hpen). unfold pathAfter, PathTable.prefers, PathTable.livePath,
    PathTable.PathIsUnresponsive, PathTable.pathingAffinity, PathTable.ifacePathPenalty. by rewrite Hp, Hst, Hpen.
Qed.

(** [acceptAnnounce] on an announce the node is receptive to. *)
Lemma accept_learned p i n id hash :
  W.well_formed p → Identity.publicKeyEqual id (W.pub p) = true → hopsFrom i p <= MaxHops → receptive i p n →
  ∃ n', acceptAnnounce (W.encode p) (Some i) (hdr p) (body_of p) (W.fields_of p) id hash n = (n', Ok ())
    ∧ PathTable.paths (table n') !! pathMapKey (W.dest p)
      = pathAfter i (W.dest p) (source (body_of p)) (W.random p) (hopsFrom i p) (table n)
    ∧ (let k := (Known.rememberKnown now (W.encode p) (W.dest p) (W.pub p) (W.app p) (Some id) (known n)).1 in
       known n' = if len (W.ratchet p) =? 32 then Known.RememberRatchet now (W.dest p) (W.ratchet p) k else k)
    ∧ Notified (W.mkNotification (W.dest p) id (W.app p) (z2b (hopsFrom i p)))
        (bool_decide (W.context p = Packet.ContextPathResponse)) ∈ events n'.
Proof.
  intros (_ & _ & Hdl & Hpl & _ & Hrl & Hratl & _) Hidk Hmax [Hi Hroom Hkey Hkn].
  destruct (Known.remember_known now (W.encode p) (W.dest p) (W.pub p) (W.app p) (Some id) (known n))
    as (Hok & _ & _); [done..|].
  destruct (Known.rememberKnown now (W.encode p) (W.dest p) (W.pub p) (W.app p) (Some id) (known n))
    as [k b] eqn:Hrem. cbn [fst snd] in *. subst b.
  set (q := announcePacket (headerType (hdr p)) (packetType (hdr p)) (propType (hdr p)) (context (body_of p))
    (contextFlag (hdr p)) (hopCount (hdr p)) (destType (hdr p)) (W.dest p) (payload (body_of p)) None).
  set (t2 := cacheAnnouncePacket (W.dest p) q (PathTable.rememberSeenAnnounceUnlocked hash now (table n))).
  assert (Hsame : PathTable.same_paths (table n) t2)
    by (etrans; [apply PathTable.remember_seen_frame|apply cache_frame]).
  destruct (PathTable.HasPath (W.dest p) t2) as [t3 has] eqn:Hhas.
  destruct (accept_tail (W.encode p) i (hdr p) (body_of p) (W.fields_of p) id hash n t3 has) with (k := k)
    as (n' & Hacc & (Hpaths & Hkn' & _) & Hev).
  { apply Z.ltb_ge. exact Hmax. }
  { exact Hrem. }
  { cbn [W.f_ratchet W.fields_of destinationHash body_of]. rewrite <- Hhas. by destruct (len (W.ratchet p) =? 32). }
  cbn [W.f_ratchet W.fields_of destinationHash body_of W.f_random] in Hpaths, Hkn', Hev.
  change (if isLocalClientInterface (Some i) then b2z (hopCount (hdr p)) else b2z (hopCount (hdr p)) + 1)
    with (hopsFrom i p) in Hpaths, Hkn', Hev.
  match type of Hkn' with context [set_table t3 ?m] => set (m0 := m) in Hpaths, Hkn' end.
  assert (Hmk : known m0 = if len (W.ratchet p) =? 32
    then Known.RememberRatchet now (W.dest p) (W.ratchet p) k else k).
  { subst m0. by destruct (len (W.ratchet p) =? 32). }
  clearbody m0. replace t3 with (PathTable.HasPath (W.dest p) t2).1 in Hpaths, Hkn' by (by rewrite Hhas).
  pose proof Hsame as (Hs1 & Hs2 & Hs3 & _).
  destruct (learn_path i (W.dest p) (source (body_of p)) (W.random p) hash (hopsFrom i p) m0 t2) as [Hl1 Hl2];
    [by rewrite Hs3|done|by rewrite Hs1, Hs2|].
  exists n'. split; [exact Hacc|]. split; [by rewrite Hpaths, Hl1, (same_paths_after _ _ _ _ _ _ _ Hsame)|].
  split; [cbv zeta; rewrite <- Hmk, <- Hl2; exact Hkn'|exact Hev].
Qed.

(** C22.  An authentic announce is learned: take a node that admits the announce,
    has not seen it within the last hour, knows no other key for the
    destination, and can store a path and a destination within its caps.  An
    announce of at most 128 hops that it hears on a registered interface is
    handled without error.  The path to the destination is then the announced
    one (the interface, next hop, hop count and random blob of the packet, fresh
    as of now) whenever there was no live path or the path rules prefer the
    announce to it, and otherwise the live path as it was; the destination is
    known under the announced key, the application has been told, and the
    announced ratchet is used to encrypt to the destination, unless it is the
    ratchet already known and that had expired. *)
Theorem announce_learned p i n :
  W.well_formed p → announceable p → W.authentic p →
  AdmitCrypto (GetName i) = true → Blackholed (W.identityHash (W.pub p)) = false →
  seenRecently (Sha256.Sum256 (W.message p)) n = false →
  hopsFrom i p <= MaxHops → receptive i p n →
  ∃ n', handleAnnouncePacket (W.encode p) (Some i) n = (n', Ok ())
    ∧ (let live := PathTable.livePath (W.dest p) now (table n) in
       PathTable.paths (table n') !! pathMapKey (W.dest p)
       = if PathTable.prefers i (W.dest p) (hopsFrom i p) (W.random p) (table n)
         then Some (mkPath (Some i) (source (body_of p)) (hopsFrom i p) now (hopsFrom i p)
                      (PathTable.blobsAfter live (W.random p)) (now + PathTable.pathLifetimeFor (Some i)))
         else live)
    ∧ (PathTable.livePath (W.dest p) now (table n) = None →
       PathTable.prefers i (W.dest p) (hopsFrom i p) (W.random p) (table n) = true)
    ∧ (∃ id, Known.KnownIdentityMatching (W.dest p) (W.pub p) (known n') = Some id
         ∧ Identity.publicKeyEqual id (W.pub p) = true)
    ∧ (W.ratchet p ≠ [] →
       (∀ e, Known.knownRatchets (known n) !! Known.knownDestKey (W.dest p) = Some e →
          Known.rkey e = W.ratchet p → Known.unix now < Known.received e + Identity.RatchetExpiry) →
       (Known.GetRatchet now (W.dest p) (known n')).2 = Some (W.ratchet p))
    ∧ (∃ id, Identity.publicKeyEqual id (W.pub p) = true
         ∧ Notified (W.mkNotification (W.dest p) id (W.app p) (z2b (hopsFrom i p)))
             (bool_decide (W.context p = Packet.ContextPathResponse)) ∈ events n').
Proof.
  intros Hwf Hk [Hver Hd] Hadm Hbl Hseen Hmax Hrc. pose proof Hrc as [_ _ Hkey Hkn].
  pose proof Hwf as (_ & _ & Hdl & Hpl & _ & Hrl & Hratl & _).
  destruct (announcer_some (W.dest p) (W.pub p) n Hpl) as [id Hid].
  pose proof (announcer_key _ _ _ _ Hid) as Hidk.
  destruct (Known.remember_known now (W.encode p) (W.dest p) (W.pub p) (W.app p) (Some id) (known n))
    as (_ & Hmatch & Hkr); [done..|].
  destruct (accept_learned p i (noteReceived (Some i) (len (W.encode p)) n) id (Sha256.Sum256 (W.message p)))
    as (n' & Hacc & Hpath & Hknown & Hev); [done..|by destruct Hrc; constructor|].
  exists n'. rewrite (handle_encode p (Some i) n id) by done. change (nameOf (Some i)) with (GetName i).
  rewrite Hseen, Hadm, Hver, Hbl, bool_decide_eq_true_2 by done. cbn [negb].
  split; [exact Hacc|]. split; [exact Hpath|]. cbv zeta in Hknown. rewrite Hknown.
  change (known (noteReceived _ _ n)) with (known n). split_and!.
  - intros Hnone. unfold PathTable.prefers. by rewrite Hnone.
  - destruct Hmatch as (eid & Hm & He). exists eid. split; [|done].
    destruct (len (W.ratchet p) =? 32); [|done]. by rewrite Known.remember_ratchet_matching.
  - intros Hne Hold. assert (Hl : len (W.ratchet p) = 32).
    { destruct (W.has _ _); [done|]. by apply len_0_nil in Hratl. }
    rewrite Hl. cbn [Z.eqb Pos.eqb]. apply Known.remember_get_ratchet; [|done|by rewrite Hkr].
    intros Hnil. rewrite Hnil in Hdl. done.
  - by exists id.
Qed.

(** ** Rebroadcast *)

(** The announce a transport node passes on: addressed by its own id. *)
Definition relayFlags (f : byte) : byte :=
  (if W.has W.HeaderTypeMask f then f else HeaderRewrite.insert_flags f) &&& xef.
Definition relayed (tid : bytes) (p : W.parts) : W.parts :=
  W.mkParts (relayFlags (W.flags p)) (W.hops p) [] tid (W.dest p) (W.context p) (W.pub p) (W.name p)
    (W.random p) (W.ratchet p) (W.signature p) (W.app p).

Lemma relayFlags_bits f :
  W.has x80 f = false →
  W.has x80 (relayFlags f) = false ∧ W.has W.HeaderTypeMask (relayFlags f) = true
  ∧ W.has W.HeaderContextFlagMask (relayFlags f) = W.has W.HeaderContextFlagMask f.
Proof. byte_cases f. Qed.

Lemma wrap_encode p tid :
  W.well_formed p → W.has x80 (W.flags p) = false → len tid = 16 →
  wrapAnnounce (W.encode p) (Some tid) = W.encode (relayed tid p) ∧ W.well_formed (relayed tid p).
Proof.
  intros (Hi & Ht & Hd & Hp & Hn & Hr & Hrat & Hs) Hif Htid. rewrite Hif in Hi. apply len_0_nil in Hi.
  destruct (relayFlags_bits (W.flags p) Hif) as (Hf1 & Hf2 & Hf3). split; cycle 1.
  { unfold W.well_formed. cbn [relayed W.flags W.ifac W.transport W.dest W.pub W.name W.random W.ratchet W.signature].
    rewrite Hf1, Hf2, Hf3. by split_and!. }
  unfold wrapAnnounce. rewrite Htid. cbn [Z.eqb Pos.eqb andb].
  assert (Hfr : W.encode p = Packet.frame (W.flags p) (W.hops p) (W.transport p) (W.dest p) (W.context p) (W.payload p)).
  { unfold W.encode, W.message, Packet.frame. by rewrite Hi. }
  assert (Hl : (2 <? len (W.encode p)) = true).
  { apply Z.ltb_lt. rewrite len_encode. pose proof (len_nonneg (W.transport p)). pose proof (len_nonneg (W.ifac p)).
    unfold W.message. rewrite len_app, Hd. pose proof (len_nonneg (W.context p :: W.payload p)). lia. }
  rewrite Hl, Hfr.
  change (default x00 (Packet.frame (W.flags p) (W.hops p) (W.transport p) (W.dest p) (W.context p) (W.payload p) !! 0%nat))
    with (W.flags p).
  change (wireHops (Packet.frame (W.flags p) (W.hops p) (W.transport p) (W.dest p) (W.context p) (W.payload p)))
    with (W.hops p).
  change Packet.HeaderType2 with x01. rewrite (bit_type (W.flags p)).
  unfold W.encode, relayed, relayFlags. cbn [W.flags W.hops W.ifac W.transport].
  destruct (W.has W.HeaderTypeMask (W.flags p)) eqn:Hht.
  - rewrite HeaderRewrite.rebuild_frame by done. reflexivity.
  - apply len_0_nil in Ht. rewrite Ht, HeaderRewrite.insert_frame by done. reflexivity.
Qed.

Section forward.
Variables (data destHash : bytes) (dest : hash16) (from : NetworkInterface).

Definition forwardStep (m : outcome Empty_set Node) (e : string * iface) : outcome Empty_set Node :=
  n ← m;
  let '(name, out) := e in
  if bool_decide (Some out = from) || negb (IsEnabled out) || isLocalClientInterface (Some out) then Ok n
  else if negb (shouldForwardAnnounceOn destHash (Some out) from n) then Ok n
  else
    match egress n !! name with
    | Some arc =>
        '(arc, allow) ← Rate.AllowAnnounceHash now dest.1 arc;
        let n := set_egress (<[name := arc]> (egress n)) n in
        Ok (if allow : bool then transmitOrQueueAnnounce out data destHash n else n)
    | None => Ok (transmitOrQueueAnnounce out data destHash n)
    end.

(** The interfaces that are offered the announce. *)
Definition offered (n : Node) (out : iface) : Prop :=
  Some out ≠ from ∧ IsEnabled out = true ∧ isLocalClientInterface (Some out) = false
  ∧ shouldForwardAnnounceOn destHash (Some out) from n = true.

(** An egress rate control always has a positive grace ([buildIfaceState]). *)
Definition graced (n : Node) : Prop := ∀ name arc, egress n !! name = Some arc → 0 < Rate.rateGrace arc.

(** The interface's rate control, where it has one, lets the announce pass. *)
Definition permitted (n : Node) (name : string) : Prop :=
  ∀ arc, egress n !! name = Some arc → ∃ arc', Rate.AllowAnnounceHash now dest.1 arc = Ok (arc', true).

(** What a step leaves alone. *)
Definition forwards (n n' : Node) : Prop :=
  table n' = table n ∧ destinations n' = destinations n ∧ (graced n → graced n').

#[local] Instance forwards_preorder : PreOrder forwards.
Proof. split; [done|]. intros a b c (? & ? & ?) (? & ? & ?). split_and!; [congruence..|auto]. Qed.

Lemma offered_frame n n' out : forwards n n' → offered n' out ↔ offered n out.
Proof.
  intros (Ht & Hd & _). unfold offered, shouldForwardAnnounceOn, nextHopNetworkInterface, isLocalDestination.
  by rewrite Ht, Hd.
Qed.

Definition wireEvent (e : event) (out : iface) (w : bytes) : Prop :=
  e = Sent out w ∨ ∃ d h, e = Queued out w d h.

(** What becomes of a packet handed to an interface: its announce queue takes an
    announce with hops it wants to hold back; any other announce is sent, where
    the interface allows outgoing packets and has bandwidth. *)
Definition handedOver (out : iface) (new : list event) : Prop :=
  (0 < b2z (wireHops data) → ShouldQueueAnnounce out = Some true →
     Queued out data destHash (wireHops data) ∈ new)
  ∧ (AllowsOutgoing out = true →
     b2z (wireHops data) = 0 ∨ ShouldQueueAnnounce out = Some false
       ∨ ShouldQueueAnnounce out = None ∧ GetBandwidthAvailable out = true →
     Sent out data ∈ new).

Lemma sendAnnounce_events out n :
  IsEnabled out = true →
  ∃ new, sendAnnounce out data n = set_events (events n ++ new) n
    ∧ (∀ e o w, e ∈ new → wireEvent e o w → o = out ∧ w = data)
    ∧ (AllowsOutgoing out = true → Sent out data ∈ new).
Proof.
  intros Hen. unfold sendAnnounce, sendOnInterface. rewrite Hen. cbn [negb].
  destruct (AllowsOutgoing out); cbn [negb].
  - exists [Sent out data; SentAnnounce out (len data)]. split_and!.
    + unfold emit. cbn [events set_events]. by rewrite <- app_assoc.
    + intros e o w [->|[->|[]%not_elem_of_nil]%elem_of_cons]%elem_of_cons [He|(? & ? & He)]; by simplify_eq.
    + intros _. by left.
  - exists []. split_and!; [rewrite app_nil_r; by destruct n| |done]. intros e o w []%not_elem_of_nil.
Qed.

Lemma transmit_events out n :
  IsEnabled out = true →
  ∃ new, transmitOrQueueAnnounce out data destHash n = set_events (events n ++ new) n
    ∧ (∀ e o w, e ∈ new → wireEvent e o w → o = out ∧ w = data)
    ∧ handedOver out new.
Proof.
  intros Hen. destruct (sendAnnounce_events out n Hen) as (snt & Hs & Hsw & Hsd).
  unfold transmitOrQueueAnnounce, handedOver. destruct (Z.ltb_spec 0 (b2z (wireHops data))) as [Hh|Hh]; cycle 1.
  { exists snt. split_and!; [done|done|lia|auto]. }
  destruct (ShouldQueueAnnounce out) as [[|]|].
  - exists [Queued out data destHash (wireHops data)]. split_and!; [done| |by left|].
    + intros e o w ->%list_elem_of_singleton [He|(? & ? & He)]; by simplify_eq.
    + intros _ [Hz|[Hz|[Hz _]]]; [lia|done..].
  - destruct (sendAnnounce_events out (emit (Counted out (len data)) n) Hen) as (snt' & -> & Hsw' & Hsd').
    exists (Counted out (len data) :: snt'). split_and!; [|  |done|intros Ho _; right; by apply Hsd'].
    + unfold emit. cbn [events set_events]. by rewrite <- app_assoc.
    + intros e o w [->|Hin]%elem_of_cons Hw; [|by apply (Hsw' e)]. by destruct Hw as [|(? & ? & ?)].
  - destruct (GetBandwidthAvailable out); [exists snt; split_and!; [done|done|done|auto]|].
    exists []. split_and!; [rewrite app_nil_r; by destruct n| |done|].
    + intros e o w []%not_elem_of_nil.
    + intros _ [Hz|[Hz|[_ Hz]]]; [lia|done..].
Qed.

Lemma allow_graced arc :
  0 < Rate.rateGrace arc →
  ∃ arc' ok, Rate.AllowAnnounceHash now dest.1 arc = Ok (arc', ok) ∧ Rate.rateGrace arc' = Rate.rateGrace arc.
Proof.
  intros Hg. unfold Rate.AllowAnnounceHash. destruct (Float64.leb _ _); [by eexists _, _|].
  set (hist := filter _ _). clearbody hist. destruct (Z.ltb_spec (len hist) (Rate.rateGrace arc)); [by eexists _, _|].
  edestruct (@go_index_Ok _ Empty_set (len hist - 1) hist) as (x & -> & _); [lia|]. cbn [mbind outcome_bind].
  destruct (Float64.ltb _ _); by eexists _, _.
Qed.

(** The steps of an interface under [name]: what is sent is sent on it, because it
    is offered and permitted, and then it is handed over. *)
Definition stepEvents (n : Node) (name : string) (out : iface) (new : list event) : Prop :=
  (∀ e o w, e ∈ new → wireEvent e o w → o = out ∧ w = data ∧ offered n out ∧ permitted n name)
  ∧ (offered n out → permitted n name → handedOver out new).

Lemma stepEvents_none n name out : (¬ offered n out ∨ ¬ permitted n name) → stepEvents n name out [].
Proof. intros Hno. split; [intros e o w []%not_elem_of_nil|]. intros. by destruct Hno. Qed.

Lemma forward_step name out n :
  graced n →
  ∃ n' new, forwardStep (Ok n) (name, out) = Ok n' ∧ events n' = events n ++ new ∧ forwards n n'
    ∧ (∀ name', name' ≠ name → egress n' !! name' = egress n !! name') ∧ stepEvents n name out new.
Proof.
  intros Hg. unfold forwardStep. cbn [mbind outcome_bind].
  destruct (bool_decide (Some out = from) || negb (IsEnabled out) || isLocalClientInterface (Some out)) eqn:Hel.
  { exists n, []. split_and!; [done|by rewrite app_nil_r|done|done|]. apply stepEvents_none. left.
    intros (Hf & He & Hl & _). revert Hel. rewrite He, Hl, bool_decide_eq_false_2 by done. done. }
  apply orb_false_iff in Hel as [[Hfrom%bool_decide_eq_false Hen%negb_false_iff]%orb_false_iff Hloc].
  destruct (shouldForwardAnnounceOn destHash (Some out) from n) eqn:Hfwd; cbn [negb]; cycle 1.
  { exists n, []. split_and!; [done|by rewrite app_nil_r|done|done|]. apply stepEvents_none. left.
    intros (_ & _ & _ & Hc). congruence. }
  assert (Hoff : offered n out) by done.
  destruct (egress n !! name) as [arc|] eqn:Harc; cycle 1.
  { destruct (transmit_events out n Hen) as (new & -> & Hw & Hh). eexists _, new. split_and!; [done..|].
    assert (permitted n name) by (intros arc; by rewrite Harc). split; [|done].
    intros e o w Hin Hev. by destruct (Hw e o w Hin Hev). }
  destruct (allow_graced arc (Hg _ _ Harc)) as (arc' & ok & Hal & Hga). rewrite Hal. cbn [mbind outcome_bind].
  set (n1 := set_egress (<[name := arc']> (egress n)) n).
  assert (Hf : forwards n n1).
  { split_and!; [done..|]. intros _ name' a. cbn [egress set_egress n1]. rewrite lookup_insert_Some.
    intros [[_ <-]|[_ Ha]]; [|by apply (Hg name')]. rewrite Hga. by apply (Hg name). }
  assert (Heg : ∀ name', name' ≠ name → egress n1 !! name' = egress n !! name')
    by (intros; by apply lookup_insert_ne).
  destruct ok.
  - destruct (transmit_events out n1 Hen) as (new & -> & Hw & Hh). eexists _, new. split_and!; [done|done|exact Hf|exact Heg|].
    assert (permitted n name) by (intros a; rewrite Harc; intros [= <-]; by exists arc'). split; [|done].
    intros e o w Hin Hev. by destruct (Hw e o w Hin Hev).
  - exists n1, []. split_and!; [done|by rewrite app_nil_r|done|done|]. apply stepEvents_none. right.
    intros Hp. destruct (Hp arc Harc) as [a Ha]. congruence.
Qed.

Lemma forward_all l n :
  graced n → NoDup l.*1 →
  ∃ n' new, foldl forwardStep (Ok n) l = Ok n' ∧ events n' = events n ++ new
    ∧ (∀ e o w, e ∈ new → wireEvent e o w →
         w = data ∧ ∃ name, (name, o) ∈ l ∧ offered n o ∧ permitted n name)
    ∧ (∀ name out, (name, out) ∈ l → offered n out → permitted n name → handedOver out new).
Proof.
  revert n. induction l as [|[name out] l IH]; intros n Hg Hnd.
  { exists n, []. split_and!; [done|by rewrite app_nil_r| |].
    - intros e o w []%not_elem_of_nil.
    - intros nm o []%not_elem_of_nil. }
  rewrite fmap_cons in Hnd. apply list.NoDup_cons in Hnd as [Hnin Hnd]. cbn [fst] in Hnin.
  cbn [foldl]. destruct (forward_step name out n Hg) as (n1 & new1 & Hs1 & He1 & Hf1 & Heg1 & Hsnd1 & Hc1). rewrite Hs1.
  destruct (IH n1 (proj2 (proj2 Hf1) Hg) Hnd) as (n' & new & Hs & He & Hsnd & Hc).
  assert (Hperm : ∀ nm o, (nm, o) ∈ l → permitted n1 nm ↔ permitted n nm).
  { intros nm o Hin. unfold permitted. rewrite Heg1; [done|]. intros ->. apply Hnin.
    by apply (list_elem_of_fmap_2 fst l (name, o)). }
  exists n', (new1 ++ new). split_and!; [done|by rewrite He, He1, app_assoc| |].
  - intros e o w [Hin|Hin]%elem_of_app Hw.
    + destruct (Hsnd1 e o w Hin Hw) as (-> & -> & Ho & Hp). split; [done|]. exists name. split_and!; [by left|done..].
    + destruct (Hsnd e o w Hin Hw) as (-> & nm & Ho & Hoff & Hp). split; [done|]. exists nm.
      split_and!; [by right|by apply (offered_frame n n1)|by apply (Hperm nm o)].
  - intros nm o [[= -> ->]|Hin]%elem_of_cons Hoff Hp.
    + destruct (Hc1 Hoff Hp) as [Hq Hs2]. split; intros; apply elem_of_app; left; auto.
    + destruct (Hc nm o Hin) as [Hq Hs2]; [by apply (offered_frame n n1)|by apply (Hperm nm o)|].
      split; intros; apply elem_of_app; right; auto.
Qed.
End forward.

(** C23.  A relayed announce stays authentic: rebroadcasting a well-formed announce,
    without an access code, from a transport node puts the same destination, key, ratchet, signature and hop
    count under the node's own transport id; the result is again well formed,
    and authentic when the received one was.  It goes only to enabled registered
    interfaces other than the one it came from, never to local clients, as the
    interface modes and the interface's rate control allow; and every such
    interface gets it: one whose announce queue holds announces back queues it,
    every other one that allows outgoing packets is sent it (one without an
    announce queue if it has bandwidth, or if the announce has no hops yet). *)
Theorem announce_rebroadcast p dest from n tid :
  W.well_formed p → W.has x80 (W.flags p) = false → (ourTransportID n).2 = Some tid → len tid = 16 → graced n →
  let w := W.encode (relayed tid p) in
  W.well_formed (relayed tid p) ∧ W.message (relayed tid p) = W.message p ∧ W.hops (relayed tid p) = W.hops p
  ∧ (W.authentic p → W.authentic (relayed tid p))
  ∧ ∃ n' new, forwardAnnouncePacket (W.encode p) dest (W.dest p) from n = Ok n' ∧ events n' = events n ++ new
    ∧ (∀ e out w', e ∈ new → wireEvent e out w' →
         w' = w ∧ ∃ name, PathTable.interfaces (table n) !! name = Some out
                  ∧ offered (W.dest p) from n out ∧ permitted dest n name)
    ∧ (∀ name out, PathTable.interfaces (table n) !! name = Some out →
         offered (W.dest p) from n out → permitted dest n name →
         (0 < b2z (W.hops p) → ShouldQueueAnnounce out = Some true →
            Queued out w (W.dest p) (W.hops p) ∈ new)
         ∧ (AllowsOutgoing out = true →
            b2z (W.hops p) = 0 ∨ ShouldQueueAnnounce out = Some false
              ∨ ShouldQueueAnnounce out = None ∧ GetBandwidthAvailable out = true →
            Sent out w ∈ new)).
Proof.
  intros Hwf Hif Htid Hlen Hg w. destruct (wrap_encode p tid Hwf Hif Hlen) as [Hwrap Hwf'].
  split_and!; [done|done|done|by intros [? ?]|].
  unfold forwardAnnouncePacket. destruct (ourTransportID n) as [n0 tid0] eqn:Ho. cbn [snd] in Htid. subst tid0.
  rewrite Hwrap.
  assert (Hn0 : forwards n n0 ∧ events n0 = events n ∧ egress n0 = egress n).
  { revert Ho. unfold ourTransportID. destruct (transportIdentity n); [|done].
    destruct (_ =? 0); intros [= <- _]; done. }
  destruct Hn0 as (Hf0 & He0 & Heg0).
  assert (Hperm : ∀ name, permitted dest n0 name ↔ permitted dest n name) by (intros; unfold permitted; by rewrite Heg0).
  assert (Hreg : ∀ name out, (name, out) ∈ registered n0 ↔ PathTable.interfaces (table n) !! name = Some out).
  { intros name out. unfold registered. by rewrite (mapOrder_perm _), elem_of_map_to_list, (proj1 Hf0). }
  destruct (forward_all w (W.dest p) dest from (registered n0) n0) as (n' & new & Hs & He & Hsnd & Hc).
  { by apply Hf0. }
  { unfold registered. rewrite (mapOrder_perm _). apply NoDup_fst_map_to_list. }
  exists n', new. split_and!; [exact Hs|by rewrite He, He0| |].
  - intros e out w' Hin Hw. destruct (Hsnd e out w' Hin Hw) as (-> & name & Hr & Hoff & Hp). split; [done|].
    exists name. split_and!; [by apply Hreg|by apply (offered_frame (W.dest p) from n n0)|by apply Hperm].
  - intros name out Hr Hoff Hp. apply (Hc name); [by apply Hreg|by apply (offered_frame (W.dest p) from n n0)|].
    by apply Hperm.
Qed.
End facts.

(** *** A concrete node *)

(** Every interface has bandwidth, nothing is queued, tunnelled or blackholed. *)
#[local] Instance openRuntime : AnnounceRuntime := {|
  GetBandwidthAvailable := λ _, true;
  ShouldQueueAnnounce := λ _, None;
  AnnouncesFromInternal := λ _, true;
  AnnouncesToInternal := λ _, true;
  TunnelID := λ _, None;
  AdmitCrypto := λ _, true;
  Blackholed := λ _, false;
  pathfinderRebroadcastDelay := 0;
  retransmitDelay := 0
|}.
#[local] Existing Instance testRuntime.
#[local] Existing Instance Ed25519.hashScheme.

Definition freshNode : Node :=
  mkNode (Some (Relay.mkConfig false true)) None [] ∅
    (PathTable.mkTable None {[ GetName 1%positive := 1%positive ]} ∅ ∅ ∅ ∅ ∅ ∅ ∅)
    (Known.mkState ∅ ∅ 0 ∅ ∅) ∅ ∅ ∅ (Rate.NewLimiter 0 (Float64.of_Z 10) (Float64.of_Z 10)) ∅ ∅ ∅ 0 [] [].

(** A SINGLE destination's announce with a ratchet, two hops away. *)
Definition sampleAnnounce : W.parts :=
  let key := replicate 32 x01 ++ Ed25519.publicKey (replicate 32 x02) in
  let dest := W.destinationHashOf (replicate 10 x03) key in
  let unsigned := W.mkParts x21 x02 [] [] dest x00 key (replicate 10 x03) (replicate 10 x04)
                    (replicate 32 x05) [] [x68; x69] in
  W.mkParts x21 x02 [] [] dest x00 key (replicate 10 x03) (replicate 10 x04)
    (replicate 32 x05) (Ed25519.sign (replicate 32 x02) (W.signedData unsigned)) [x68; x69].

Lemma announce_learned_witness :
  ∃ n', handleAnnouncePacket (W.encode sampleAnnounce) (Some 1%positive) freshNode = (n', Ok ())
    ∧ (∃ path, PathTable.paths (table n') !! pathMapKey (W.dest sampleAnnounce) = Some path ∧ Hops path = 3)
    ∧ (Known.GetRatchet 1000 (W.dest sampleAnnounce) (known n')).2 = Some (replicate 32 x05).
Proof.
  destruct (announce_learned sampleAnnounce 1%positive freshNode) as (n' & Hok & Hpath & _ & _ & Hr & _).
  - split_and!; vm_compute; reflexivity.
  - split; vm_compute; discriminate.
  - split; vm_compute; reflexivity.
  - reflexivity.
  - reflexivity.
  - vm_compute; reflexivity.
  - vm_compute; discriminate.
  - constructor; [vm_compute; reflexivity|right; left; vm_compute; reflexivity| |left; vm_compute; discriminate].
    intros e eid He. exfalso. revert He. vm_compute. discriminate.
  - exists n'. split_and!; [exact Hok| |apply Hr; [vm_compute; discriminate|intros e He; exfalso; revert He; vm_compute; discriminate]].
    eexists. split; [exact Hpath|vm_compute; reflexivity].
Defined.

(** Two interfaces and an identity of its own. *)
Definition relayNode : Node :=
  mkNode (Some (Relay.mkConfig false true)) (Some (replicate 16 x0a)) [] ∅
    (PathTable.mkTable None (<[GetName 2%positive := 2%positive]> {[GetName 1%positive := 1%positive]})
       ∅ ∅ ∅ ∅ ∅ ∅ ∅)
    (Known.mkState ∅ ∅ 0 ∅ ∅) ∅ ∅ ∅ (Rate.NewLimiter 0 (Float64.of_Z 10) (Float64.of_Z 10)) ∅ ∅ ∅ 0 [] [].

Lemma announce_rebroadcast_witness :
  ∃ n', forwardAnnouncePacket (W.encode sampleAnnounce) (hash16FromSlice (W.dest sampleAnnounce))
          (W.dest sampleAnnounce) (Some 1%positive) relayNode = Ok n'
    ∧ Sent 2%positive (W.encode (relayed (replicate 16 x0a) sampleAnnounce)) ∈ events n'
    ∧ W.authentic (relayed (replicate 16 x0a) sampleAnnounce).
Proof.
  destruct (announce_rebroadcast sampleAnnounce (hash16FromSlice (W.dest sampleAnnounce)) (Some 1%positive)
    relayNode (replicate 16 x0a)) as (_ & _ & _ & Ha & n' & new & Hok & He & _ & Hc).
  - split_and!; vm_compute; reflexivity.
  - vm_compute; reflexivity.
  - vm_compute; reflexivity.
  - reflexivity.
  - intros name arc Hn. exfalso. revert Hn. cbn [egress relayNode]. rewrite lookup_empty. discriminate.
  - exists n'. split_and!; [exact Hok| |apply Ha; split; vm_compute; reflexivity].
    rewrite He. apply elem_of_app. right. destruct (Hc (GetName 2%positive) 2%positive) as [_ Hsent].
    + vm_compute. reflexivity.
    + split_and!; [discriminate|vm_compute; reflexivity..].
    + intros arc Harc. exfalso. revert Harc. cbn [egress relayNode]. rewrite lookup_empty. discriminate.
    + apply Hsent; [reflexivity|]. right. right. split; reflexivity.
Defined.
End AnnounceHandler.
