(* ===== verification/Channel.v ===== *)
(** * Channels

    [pkg/channel/channel.go]: messages over a link with sequence numbers, a send
    window that follows the round-trip time, retransmission, and in-order
    delivery.  The link is an [outlet] whose answers are parameters; what the
    channel asks of it is recorded in [calls].  User message types are the type
    parameter [A], their constructors and [Unpack] methods the [factories]. *)

From Stdlib Require Import Sorted.
From S2P Require Import Prelude.
From S2P Require Import Float64.

Module Channel.
Local Open Scope go_scope.

Definition SystemMessageTypeMin : Z := 0xf000.
Definition WindowInitial : Z := 2.
Definition WindowMinSlow : Z := 2.
Definition WindowMinMedium : Z := 5.
Definition WindowMinFast : Z := 16.
Definition WindowMaxSlow : Z := 5.
Definition WindowMaxMedium : Z := 12.
Definition WindowMaxFast : Z := 48.
Definition WindowMax : Z := WindowMaxFast.
Definition WindowFlexibility : Z := 4.
Definition RTTFast : Float64.f64 := Float64.ratio 18 100.
Definition RTTMedium : Float64.f64 := Float64.ratio 75 100.
Definition RTTSlow : Float64.f64 := Float64.ratio 145 100.
Definition SeqMax : Z := 65535.
Definition SeqModulus : Z := SeqMax + 1.
Definition FastRateThreshold : Z := 10.
Definition RTTMinThreshold : Float64.f64 := Float64.ratio 25 1000.
Definition TimeoutRingMultiplier : Float64.f64 := Float64.ratio 25 10.
Definition TimeoutRingOffset : Float64.f64 := Float64.ratio 15 10.
Definition ChannelHeaderSize : Z := 6.
Definition DefaultMaxTries : Z := 5.
Definition DefaultOutletMDU : Z := 500.

Inductive channel_error :=
  | LinkNotReady
  | TooBig
  | NilConstructor
  | SystemReserved (t : Z)
  | NotSystem (t : Z)
  | BodyTooLarge (n : Z)
  | PacketTooShort
  | PacketIncomplete
  | MessageError.

(** ** Data *)

(** What the channel asks of its link, newest last. *)
Inductive call :=
  | Transmit (raw : bytes)
  | Resend (packet : Z)
  | SetPacketTimeout (packet : Z) (timeout : Z)
  | SetPacketDelivered (packet : Z)
  | DropPacketReceipt (packet : Z).

(** The link as the channel sees it: its status, round-trip time, [GetMDU] where
    it has that method, the packet [Send] transmits ([None] when it produces none)
    and whether [Resend] succeeds. *)
Record outlet := mkOutlet {
  GetStatus : byte;
  GetRTT : Float64.f64;
  GetMDU : option Z;
  transmit : bytes → option Z;
  resend : Z → bool
}.

Record Envelope := mkEnvelope {
  Sequence : Z;
  Raw : bytes;
  Packet_ : Z;
  Tries : Z;
  Timestamp : Z
}.

(** A message on its way out: [GetType] and the result of [Pack]. *)
Record outMessage := mkOut { GetType : Z; Pack : outcome channel_error bytes }.

Section channel.
Context {A : Type}.

Inductive message :=
  | GenericMessage (type : Z) (data : bytes) (seq : Z)
  | User (a : A).

Record Channel := mkChannel {
  txRing : list Envelope;
  rxRing : list (Z * message);
  window : Z;
  windowMax : Z;
  windowMin : Z;
  windowFlexibility : Z;
  fastRateRounds : Z;
  mediumRateRounds : Z;
  nextSequence : Z;
  nextRxSequence : Z;
  maxTries : Z;
  messageHandlers : list (Z * option (message → bool));
  nextHandlerID : Z;
  factories : gmap Z (bytes → option A);
  readySignals : Z;
  calls : list call
}.

Definition set_tx (r : list Envelope) (c : Channel) : Channel :=
  mkChannel r (rxRing c) (window c) (windowMax c) (windowMin c) (windowFlexibility c) (fastRateRounds c)
    (mediumRateRounds c) (nextSequence c) (nextRxSequence c) (maxTries c) (messageHandlers c)
    (nextHandlerID c) (factories c) (readySignals c) (calls c).
Definition set_rx (r : list (Z * message)) (next : Z) (c : Channel) : Channel :=
  mkChannel (txRing c) r (window c) (windowMax c) (windowMin c) (windowFlexibility c) (fastRateRounds c)
    (mediumRateRounds c) (nextSequence c) next (maxTries c) (messageHandlers c)
    (nextHandlerID c) (factories c) (readySignals c) (calls c).
Definition set_window (w wmax wmin fast medium : Z) (c : Channel) : Channel :=
  mkChannel (txRing c) (rxRing c) w wmax wmin (windowFlexibility c) fast medium (nextSequence c)
    (nextRxSequence c) (maxTries c) (messageHandlers c) (nextHandlerID c) (factories c) (readySignals c)
    (calls c).
Definition set_nextSequence (n : Z) (c : Channel) : Channel :=
  mkChannel (txRing c) (rxRing c) (window c) (windowMax c) (windowMin c) (windowFlexibility c)
    (fastRateRounds c) (mediumRateRounds c) n (nextRxSequence c) (maxTries c) (messageHandlers c)
    (nextHandlerID c) (factories c) (readySignals c) (calls c).
Definition set_handlers (h : list (Z * option (message → bool))) (next : Z) (c : Channel) : Channel :=
  mkChannel (txRing c) (rxRing c) (window c) (windowMax c) (windowMin c) (windowFlexibility c)
    (fastRateRounds c) (mediumRateRounds c) (nextSequence c) (nextRxSequence c) (maxTries c) h next
    (factories c) (readySignals c) (calls c).
Definition set_factories (f : gmap Z (bytes → option A)) (c : Channel) : Channel :=
  mkChannel (txRing c) (rxRing c) (window c) (windowMax c) (windowMin c) (windowFlexibility c)
    (fastRateRounds c) (mediumRateRounds c) (nextSequence c) (nextRxSequence c) (maxTries c)
    (messageHandlers c) (nextHandlerID c) f (readySignals c) (calls c).
Definition ask (k : call) (c : Channel) : Channel :=
  mkChannel (txRing c) (rxRing c) (window c) (windowMax c) (windowMin c) (windowFlexibility c)
    (fastRateRounds c) (mediumRateRounds c) (nextSequence c) (nextRxSequence c) (maxTries c)
    (messageHandlers c) (nextHandlerID c) (factories c) (readySignals c) (calls c ++ [k]).

(** Closing and replacing the channel the waiters block on. *)
Definition signalReadyLocked (c : Channel) : Channel :=
  mkChannel (txRing c) (rxRing c) (window c) (windowMax c) (windowMin c) (windowFlexibility c)
    (fastRateRounds c) (mediumRateRounds c) (nextSequence c) (nextRxSequence c) (maxTries c)
    (messageHandlers c) (nextHandlerID c) (factories c) (readySignals c + 1) (calls c).

(** ** Construction and registration *)

Definition NewChannel (link : option outlet) : Channel :=
  let c := mkChannel [] [] WindowInitial WindowMaxSlow WindowMinSlow WindowFlexibility 0 0 0 0
             DefaultMaxTries [] 0 ∅ 0 [] in
  match link with
  | Some o =>
      if Float64.ltb RTTSlow (GetRTT o)
      then mkChannel [] [] 1 1 1 1 0 0 0 0 DefaultMaxTries [] 0 ∅ 0 []
      else c
  | None => c
  end.

Definition bindMessageFactory (msgType : Z) (ctor : option (bytes → option A)) (system : bool) (c : Channel)
    : Channel * outcome channel_error () :=
  match ctor with
  | None => (c, Err NilConstructor)
  | Some f =>
      if (SystemMessageTypeMin <=? msgType) && negb system then (c, Err (SystemReserved msgType))
      else if (msgType <? SystemMessageTypeMin) && system then (c, Err (NotSystem msgType))
      else (set_factories (<[msgType := f]> (factories c)) c, Ok ())
  end.

Definition AddMessageHandler (h : option (message → bool)) (c : Channel) : Channel * Z :=
  (set_handlers (messageHandlers c ++ [(nextHandlerID c, h)]) (nextHandlerID c + 1) c, nextHandlerID c).

(** The first entry with this id is removed. *)
Fixpoint removeHandler (id : Z) (l : list (Z * option (message → bool)))
    : list (Z * option (message → bool)) :=
  match l with
  | [] => []
  | e :: l => if e.1 =? id then l else e :: removeHandler id l
  end.
Definition RemoveMessageHandler (id : Z) (c : Channel) : Channel :=
  set_handlers (removeHandler id (messageHandlers c)) (nextHandlerID c) c.

(** ** Sending *)

Definition outletReady (status : byte) : bool :=
  bool_decide (status = x01) || bool_decide (status = x02).

Definition IsReadyToSend (link : option outlet) (c : Channel) : bool :=
  match link with
  | None => false
  | Some o => outletReady (GetStatus o) && (len (txRing c) <? window c)
  end.

Definition outletMDU (link : option outlet) : Z :=
  match link with
  | Some o => match GetMDU o with Some n => if 0 <? n then n else DefaultOutletMDU | None => DefaultOutletMDU end
  | None => DefaultOutletMDU
  end.

Definition MDU (link : option outlet) : Z := Z.max (Z.min (outletMDU link - ChannelHeaderSize) 0xffff) 1.

Definition packEnvelope (msgType sequence : Z) (body : bytes) : outcome channel_error bytes :=
  if 0xffff <? len body then Err (BodyTooLarge (len body))
  else Ok (put_be_u16 msgType ++ put_be_u16 sequence ++ put_be_u16 (len body) ++ body).

(** [pow(1.5, tries-1) * max(rtt*2.5, 0.025) * (txRingLen + 1.5)]. *)
Definition packetTimeoutSeconds (tries : Z) (rtt : Float64.f64) (txRingLen : Z) : Float64.f64 :=
  let tries := if tries <? 1 then 1 else tries in
  let txRingLen := if txRingLen <? 0 then 0 else txRingLen in
  Float64.mul
    (Float64.mul (Float64.ratio (3 ^ (tries - 1)) (2 ^ (tries - 1)))
       (Float64.max (Float64.mul rtt TimeoutRingMultiplier) RTTMinThreshold))
    (Float64.add (Float64.of_Z txRingLen) TimeoutRingOffset).

Definition packetTimeoutLocked (link : option outlet) (tries : Z) (c : Channel) : Z :=
  let rtt := match link with Some o => GetRTT o | None => Float64.of_Z 0 end in
  Float64.to_int64 (Float64.mul (packetTimeoutSeconds tries rtt (len (txRing c))) (Float64.of_Z 1000000000)).

Definition Send (link : option outlet) (now : Z) (msg : outMessage) (c : Channel)
    : Channel * outcome channel_error () :=
  if negb (IsReadyToSend link c) then (c, Err LinkNotReady)
  else
    match link, Pack msg with
    | None, _ => (c, Panic)
    | _, Err e => (c, Err e)
    | _, Panic => (c, Panic)
    | Some o, Ok body =>
        let reserved := nextSequence c in
        match packEnvelope (GetType msg) reserved body with
        | Err e => (c, Err e)
        | Panic => (c, Panic)
        | Ok raw =>
            if outletMDU link <? len raw then (c, Err TooBig)
            else
              let c := set_nextSequence ((reserved + 1) `mod` SeqModulus) c in
              let c := ask (Transmit raw) c in
              match transmit o raw with
              | None => (set_nextSequence reserved c, Err LinkNotReady)
              | Some packet =>
                  let c := set_tx (txRing c ++ [mkEnvelope reserved raw packet 1 now]) c in
                  let timeout := packetTimeoutLocked link 1 c in
                  (ask (SetPacketDelivered packet) (ask (SetPacketTimeout packet timeout) c), Ok ())
              end
        end
    end.

(** ** The window *)

Definition adjustWindowOnDeliveredLocked (rtt : Float64.f64) (c : Channel) : Channel :=
  let w := if window c <? windowMax c then window c + 1 else window c in
  let c := set_window w (windowMax c) (windowMin c) (fastRateRounds c) (mediumRateRounds c) c in
  if Float64.eqb rtt (Float64.of_Z 0) then c
  else if Float64.ltb RTTFast rtt then
    if Float64.ltb RTTMedium rtt then set_window w (windowMax c) (windowMin c) 0 0 c
    else
      let rounds := mediumRateRounds c + 1 in
      if (windowMax c <? WindowMaxMedium) && (rounds =? FastRateThreshold)
      then set_window w WindowMaxMedium WindowMinMedium 0 rounds c
      else set_window w (windowMax c) (windowMin c) 0 rounds c
  else
    let rounds := fastRateRounds c + 1 in
    if (windowMax c <? WindowMaxFast) && (rounds =? FastRateThreshold)
    then set_window w WindowMaxFast WindowMinFast rounds (mediumRateRounds c) c
    else set_window w (windowMax c) (windowMin c) rounds (mediumRateRounds c) c.

Definition shrinkWindowOnTimeoutLocked (c : Channel) : Channel :=
  let w := if windowMin c <? window c then window c - 1 else window c in
  let wmax := if windowMin c + windowFlexibility c <? windowMax c then windowMax c - 1 else windowMax c in
  set_window w wmax (windowMin c) (fastRateRounds c) (mediumRateRounds c) c.

(** The ring around the first envelope of a packet. *)
Fixpoint findEnvelope (packet : Z) (r : list Envelope) : option (list Envelope * Envelope * list Envelope) :=
  match r with
  | [] => None
  | e :: r =>
      if Packet_ e =? packet then Some ([], e, r)
      else match findEnvelope packet r with Some (l, x, r) => Some (e :: l, x, r) | None => None end
  end.

Definition handleTimeout (link : option outlet) (packet : Z) (c : Channel) : Channel :=
  match findEnvelope packet (txRing c) with
  | None => c
  | Some (l, env, r) =>
      let c := shrinkWindowOnTimeoutLocked c in
      let drop c := signalReadyLocked (ask (DropPacketReceipt packet) (set_tx (l ++ r) c)) in
      if maxTries c <=? Tries env then drop c
      else
        let tries := Tries env + 1 in
        let c := set_tx (l ++ mkEnvelope (Sequence env) (Raw env) (Packet_ env) tries (Timestamp env) :: r) c in
        let c := ask (Resend packet) c in
        if match link with Some o => resend o packet | None => false end
        then ask (SetPacketTimeout packet (packetTimeoutLocked link tries c)) c
        else drop c
  end.

Definition handleDelivered (link : option outlet) (packet : Z) (c : Channel) : Channel :=
  let rtt := match link with Some o => GetRTT o | None => Float64.of_Z 0 end in
  match findEnvelope packet (txRing c) with
  | None => c
  | Some (l, _, r) => signalReadyLocked (adjustWindowOnDeliveredLocked rtt (set_tx (l ++ r) c))
  end.

(** ** Receiving *)

Definition staleRXSequence (seq next : Z) : bool :=
  if next <=? seq then false
  else
    let windowOverflow := u16 ((next + WindowMax) `mod` SeqModulus) in
    if windowOverflow <? next then windowOverflow <? seq else true.

Definition farAheadRXSequence (seq next : Z) : bool := next + WindowMax <? seq.

(** The scan of the ring: [None] for a duplicate. *)
Fixpoint emplaceRX (next : Z) (env : Z * message) (ring : list (Z * message)) : option (list (Z * message)) :=
  match ring with
  | [] => Some [env]
  | existing :: rest =>
      if env.1 =? existing.1 then None
      else if (env.1 <? existing.1) && (next - env.1 <=? SeqMax `div` 2) then Some (env :: existing :: rest)
      else cons existing <$> emplaceRX next env rest
  end.

Fixpoint takeRX (seq : Z) (ring : list (Z * message)) : option (message * list (Z * message)) :=
  match ring with
  | [] => None
  | e :: rest =>
      if e.1 =? seq then Some (e.2, rest)
      else match takeRX seq rest with Some (m, rest) => Some (m, e :: rest) | None => None end
  end.

(** The drain loop; every iteration removes an entry, so [length ring + 1] rounds
    are enough. *)
Fixpoint drainRX (fuel : nat) (next : Z) (ring : list (Z * message)) (out : list message)
    : list message * Z * list (Z * message) :=
  match fuel with
  | O => (out, next, ring)
  | S fuel =>
      match takeRX next ring with
      | None => (out, next, ring)
      | Some (m, rest) => drainRX fuel ((next + 1) `mod` SeqModulus) rest (out ++ [m])
      end
  end.
Definition drainRXLocked (c : Channel) : Channel * list message :=
  let '(out, next, ring) := drainRX (S (length (rxRing c))) (nextRxSequence c) (rxRing c) [] in
  (set_rx ring next c, out).

(** The handlers are called in order until one returns true. *)
Fixpoint offer (handlers : list (Z * option (message → bool))) (m : message) : list (Z * message) :=
  match handlers with
  | [] => []
  | (_, None) :: hs => offer hs m
  | (id, Some h) :: hs => (id, m) :: if h m then [] else offer hs m
  end.

Definition construct (c : Channel) (msgType sequence : Z) (msgData : bytes) : outcome channel_error message :=
  match factories c !! msgType with
  | Some ctor => match ctor msgData with Some a => Ok (User a) | None => Err MessageError end
  | None => Ok (GenericMessage msgType msgData sequence)
  end.

Definition parseEnvelope (data : bytes) : outcome channel_error (Z * Z * bytes) :=
  check (negb (len data <? ChannelHeaderSize)) PacketTooShort;;
  t ← go_slice 0 2 data; s ← go_slice 2 4 data; l ← go_slice 4 6 data;
  let length := be_u16 l in
  check (negb (len data <? ChannelHeaderSize + length)) PacketIncomplete;;
  msgData ← go_slice ChannelHeaderSize (ChannelHeaderSize + length) data;
  Ok (be_u16 t, be_u16 s, msgData).

(** The delivered messages; the handlers' calls are those of [offer] for each. *)
Definition HandleInbound (data : bytes) (c : Channel) : Channel * outcome channel_error (list message) :=
  match parseEnvelope data with
  | Err e => (c, Err e)
  | Panic => (c, Panic)
  | Ok (msgType, sequence, msgData) =>
      if staleRXSequence sequence (nextRxSequence c) || farAheadRXSequence sequence (nextRxSequence c)
      then (c, Ok [])
      else
        match construct c msgType sequence msgData with
        | Err e => (c, Err e)
        | Panic => (c, Panic)
        | Ok msg =>
            match emplaceRX (nextRxSequence c) (sequence, msg) (rxRing c) with
            | None => (c, Ok [])
            | Some ring =>
                let '(c, delivered) := drainRXLocked (set_rx ring (nextRxSequence c) c) in
                (c, Ok delivered)
            end
        end
  end.

Definition handlerCalls (c : Channel) (delivered : list message) : list (Z * message) :=
  delivered ≫= offer (messageHandlers c).

Definition Close (c : Channel) : Channel :=
  let c' := foldl (λ c e, ask (DropPacketReceipt (Packet_ e)) c) c (txRing c) in
  signalReadyLocked (set_rx [] (nextRxSequence c') (set_tx [] c')).
End channel.
Arguments message : clear implicits.
Arguments Channel : clear implicits.

(** ** Envelopes *)

Lemma be_u16_put_all z : 0 <= z < 65536 → be_u16 (put_be_u16 z) = z.
Proof. intros Hz. rewrite <- (app_nil_r (put_be_u16 z)). by apply be_u16_put. Qed.

Lemma len_put_be_u16 z : len (put_be_u16 z) = 2.
Proof. unfold put_be_u16. by rewrite len_be_encode. Qed.

Lemma parse_packed t s body raw :
  0 <= t < 65536 → 0 <= s < 65536 → packEnvelope t s body = Ok raw →
  parseEnvelope raw = Ok (t, s, body) ∧ len raw = 6 + len body.
Proof.
  intros Ht Hs. unfold packEnvelope. destruct (Z.ltb_spec 0xffff (len body)) as [|Hb]; [done|]. intros Hraw.
  assert (raw = put_be_u16 t ++ put_be_u16 s ++ put_be_u16 (len body) ++ body) as -> by congruence. clear Hraw.
  pose proof (len_nonneg body) as Hn.
  set (a := put_be_u16 t). set (b := put_be_u16 s). set (l := put_be_u16 (len body)).
  assert (Hl : len (a ++ b ++ l ++ body) = 6 + len body).
  { rewrite !len_app. subst a b l. rewrite !len_put_be_u16. lia. }
  split; [|exact Hl].
  assert (La : len a = 2 ∧ len b = 2 ∧ len l = 2) by (subst a b l; by rewrite !len_put_be_u16).
  destruct La as (La & Lb & Ll).
  unfold parseEnvelope, ChannelHeaderSize. rewrite Hl, (proj2 (Z.ltb_ge _ _)) by lia.
  cbn [negb check mbind outcome_bind]. rewrite !go_slice_Ok by (rewrite ?Hl; lia). cbn [mbind outcome_bind].
  assert (E1 : slice 0 2 (a ++ b ++ l ++ body) = a) by (by apply (slice_app_mid [] a)).
  assert (E2 : slice 2 4 (a ++ b ++ l ++ body) = b) by (by apply (slice_app_mid a b); lia).
  assert (E3 : slice 4 6 (a ++ b ++ l ++ body) = l).
  { rewrite (app_assoc a b). apply (slice_app_mid (a ++ b) l); rewrite ?len_app; lia. }
  rewrite E1, E2, E3. subst a b l. rewrite !be_u16_put_all by lia.
  rewrite (proj2 (Z.ltb_ge _ _)) by lia. cbn [negb check mbind outcome_bind].
  rewrite go_slice_Ok by (rewrite ?Hl; lia). cbn [mbind outcome_bind]. do 2 f_equal.
  rewrite !app_assoc. apply slice_app_tail; rewrite ?len_app, ?len_put_be_u16; lia.
Qed.

(** The receive window is the 49 sequence numbers from the expected one on,
    modulo 65536. *)
Lemma window_modular seq next :
  0 <= seq < 65536 → 0 <= next < 65536 →
  staleRXSequence seq next || farAheadRXSequence seq next = negb ((seq - next) `mod` 65536 <=? WindowMax).
Proof.
  intros Hs Hn. unfold staleRXSequence, farAheadRXSequence, u16, SeqModulus, SeqMax, WindowMax, WindowMaxFast.
  rewrite Z.mod_mod by done. change (65535 + 1) with 65536.
  assert (Hd : (seq - next) `mod` 65536 = if next <=? seq then seq - next else seq - next + 65536).
  { destruct (Z.leb_spec next seq); [by apply Z.mod_small; lia|].
    rewrite <- (Z_mod_plus_full _ 1), Z.mod_small; lia. }
  assert (Ho : (next + 48) `mod` 65536 = if next + 48 <? 65536 then next + 48 else next + 48 - 65536).
  { destruct (Z.ltb_spec (next + 48) 65536); [by apply Z.mod_small; lia|].
    rewrite <- (Z_mod_plus_full _ (-1)), Z.mod_small; lia. }
  rewrite Hd, Ho. clear Hd Ho. repeat case_match; lia.
Qed.

(** ** The reorder ring *)

Section ring.
Context {A : Type}.
Implicit Types (ring : list (Z * message A)) (c : Channel A).

Lemma takeRX_None seq ring : takeRX seq ring = None ↔ seq ∉ ring.*1.
Proof.
  induction ring as [|[s m] ring IH]; cbn [takeRX fmap list_fmap fst]; [split; [intros _; apply not_elem_of_nil|done]|].
  rewrite not_elem_of_cons. destruct (Z.eqb_spec s seq) as [->|Hne]; [naive_solver|].
  destruct (takeRX seq ring) as [[m' r]|]; naive_solver.
Qed.

Lemma takeRX_Some seq ring m rest :
  takeRX seq ring = Some (m, rest) → (length ring = S (length rest))%nat ∧ ring ≡ₚ (seq, m) :: rest.
Proof.
  revert rest. induction ring as [|[s x] ring IH]; intros rest; cbn [takeRX fst snd]; [done|].
  destruct (Z.eqb_spec s seq) as [->|Hne]; [intros [= -> ->]; done|].
  destruct (takeRX seq ring) as [[m' r]|]; [|done]. intros [= -> <-]. destruct (IH r eq_refl) as [Hl Hp].
  split; [cbn; lia|]. rewrite Hp. by constructor.
Qed.

(** Enough fuel: the loop stops because the expected number is missing. *)
Lemma drainRX_done fuel next ring out :
  (length ring < fuel)%nat →
  let '(_, next', ring') := drainRX fuel next ring out in next' ∉ ring'.*1.
Proof.
  revert next ring out. induction fuel as [|fuel IH]; intros next ring out Hf; [lia|]. cbn [drainRX].
  destruct (takeRX next ring) as [[m rest]|] eqn:Ht; [|by apply takeRX_None].
  apply takeRX_Some in Ht as [Hl _]. apply IH. lia.
Qed.

Abbreviation increasing := (StronglySorted Z.lt).

Lemma emplace_sorted next s m ring :
  increasing (ring.*1) → next <= s →
  match emplaceRX next (s, m) ring with
  | None => s ∈ ring.*1
  | Some ring' => s ∉ ring.*1 ∧ increasing (ring'.*1) ∧ ring' ≡ₚ (s, m) :: ring
  end.
Proof.
  intros Hs Hn. assert (Hd : (next - s <=? SeqMax `div` 2) = true).
  { apply Z.leb_le. unfold SeqMax. change (65535 `div` 2) with 32767. lia. }
  induction ring as [|[s' m'] ring IH]; cbn [emplaceRX fmap list_fmap fst] in *.
  { split_and!; [apply not_elem_of_nil|repeat constructor|done]. }
  apply StronglySorted_inv in Hs as [Hs Hall]. rewrite Hd.
  destruct (Z.eqb_spec s s') as [->|Hne]; [by left|].
  destruct (Z.ltb_spec s s') as [Hlt|Hge]; cbn [andb].
  - split_and!; [|constructor; [by constructor|]|done].
    + apply not_elem_of_cons. split; [done|]. intros Hin. rewrite Forall_forall in Hall.
      specialize (Hall s). rewrite <- list_elem_of_In in Hall. specialize (Hall Hin). lia.
    + constructor; [done|]. apply (Forall_weaken _ _ _ Hall). intros x Hx; cbn in *; lia.
  - specialize (IH Hs). destruct (emplaceRX next (s, m) ring) as [ring'|] eqn:He; cbn [fmap option_fmap option_map].
    + destruct IH as (Hnin & Hs' & Hp). split_and!.
      * apply not_elem_of_cons. done.
      * cbn [fmap list_fmap fst]. constructor; [done|]. rewrite Hp. cbn. constructor; [lia|done].
      * rewrite Hp. by constructor.
    + by right.
Qed.

(** A sorted ring of later messages is drained in order. *)
Lemma drain_sorted (M : Z → message A) fuel next ring out :
  (length ring < fuel)%nat → 0 <= next → increasing (ring.*1) →
  Forall (λ e, next <= e.1 < SeqMax ∧ e.2 = M e.1) ring →
  ∃ next' ring', drainRX fuel next ring out = (out ++ (M <$> seqZ next (next' - next)), next', ring')
    ∧ next <= next' ∧ increasing (ring'.*1) ∧ Forall (λ e, next' < e.1) ring' ∧ ring' ⊆ ring
    ∧ (next ∈ ring.*1 → next < next')
    ∧ (next' = next ∨ next' - 1 ∈ ring.*1).
Proof.
  revert next ring out. induction fuel as [|fuel IH]; intros next ring out Hf H0 Hs Hall; [lia|].
  cbn [drainRX]. destruct ring as [|[s m] ring].
  { exists next, []. cbn [takeRX]. rewrite Z.sub_diag. cbn. rewrite app_nil_r.
    split_and!; [done|lia|constructor|constructor|done| |by left]. intros Hin. by apply not_elem_of_nil in Hin. }
  cbn [takeRX fst snd fmap list_fmap] in *. apply StronglySorted_inv in Hs as [Hs Hgt].
  apply list.Forall_cons in Hall as [[Hr Hm] Hall]. cbn [fst snd] in *.
  destruct (Z.eqb_spec s next) as [->|Hne].
  - assert (Hmod : (next + 1) `mod` SeqModulus = next + 1) by (apply Z.mod_small; unfold SeqModulus, SeqMax in *; lia).
    rewrite Hmod. destruct (IH (next + 1) ring (out ++ [m])) as (n' & r' & He & Hle & Hs' & Hf' & Hsub & _ & Hlast).
    + cbn in Hf. lia.
    + lia.
    + done.
    + rewrite Forall_forall in Hgt |- *. rewrite Forall_forall in Hall. intros e Hin. specialize (Hall e Hin).
      specialize (Hgt e.1 (in_map fst _ _ Hin)). naive_solver lia.
    + exists n', r'. rewrite He. split_and!; [|lia|done|done| |lia|].
      * rewrite (seqZ_cons next) by lia. cbn [fmap list_fmap]. rewrite <- Hm, <- app_assoc. cbn [app].
        replace (Z.succ next) with (next + 1) by lia. replace (Z.pred (n' - next)) with (n' - (next + 1)) by lia. done.
      * intros e Hin. right. by apply Hsub.
      * destruct Hlast as [->|Hin]; right; [|by right].
        replace (next + 1 - 1) with next by lia. by left.
  - assert (Hnone : takeRX next ring = None).
    { apply takeRX_None. intros Hin. rewrite Forall_forall in Hgt. specialize (Hgt next).
      rewrite <- list_elem_of_In in Hgt. specialize (Hgt Hin). lia. }
    rewrite Hnone. exists next, ((s, m) :: ring). rewrite Z.sub_diag. cbn [seqZ]. cbn [fmap list_fmap]. rewrite app_nil_r.
    split_and!; [done|lia|by constructor| |done| |by left].
    + constructor; [cbn; lia|]. rewrite Forall_forall in Hgt |- *. intros e Hin.
      specialize (Hgt e.1 (in_map fst _ _ Hin)). lia.
    + intros [?|Hin]%elem_of_cons; [by subst|]. apply takeRX_None in Hnone. done.
Qed.
End ring.

(** ** The receiving side *)

Section receiver.
Context {A : Type}.

(** The messages delivered for a sequence of inbound packets; a packet that is
    refused delivers none. *)
Fixpoint rx_run (packets : list bytes) (c : Channel A) : Channel A * list (message A) :=
  match packets with
  | [] => (c, [])
  | p :: ps =>
      let '(c, r) := HandleInbound p c in
      let '(c, out) := rx_run ps c in
      (c, match r with Ok ms => ms | _ => [] end ++ out)
  end.

Lemma rx_run_app ps qs c :
  rx_run (ps ++ qs) c
  = let '(c1, out1) := rx_run ps c in let '(c2, out2) := rx_run qs c1 in (c2, out1 ++ out2).
Proof.
  revert c. induction ps as [|p ps IH]; intros c; cbn [app rx_run]; [by destruct (rx_run qs c)|].
  destruct (HandleInbound p c) as [c1 r]. rewrite IH. destruct (rx_run ps c1) as [c2 out2].
  destruct (rx_run qs c2) as [c3 out3]. by rewrite app_assoc.
Qed.

(** A stream of [n] messages, numbered from 0 without wrapping. *)
Variables (n : Z) (T : Z → Z) (B : Z → bytes) (W : Z → bytes) (M : Z → message A).
Hypothesis fits : n + WindowMax < 65536.
Hypothesis packed : ∀ i, 0 <= i < n → 0 <= T i < 65536 ∧ packEnvelope (T i) i (B i) = Ok (W i).

Record rx_inv (k : Z) (c : Channel A) : Prop := {
  rx_next : nextRxSequence c = k;
  rx_range : 0 <= k <= n;
  rx_sorted : StronglySorted Z.lt ((rxRing c).*1);
  rx_ring : Forall (λ e, (k < e.1 <= k + WindowMax ∧ e.1 < n) ∧ e.2 = M e.1) (rxRing c);
  rx_construct : ∀ i, 0 <= i < n → construct c (T i) i (B i) = Ok (M i)
}.

Lemma rx_step k c i :
  rx_inv k c → 0 <= i < n →
  ∃ k' c', HandleInbound (W i) c = (c', Ok (M <$> seqZ k (k' - k))) ∧ rx_inv k' c' ∧ k <= k' ∧ (i = k → k < k').
Proof.
  intros [Hnext Hk Hsort Hring Hcons] Hi. unfold WindowMax, WindowMaxFast in *.
  destruct (packed i Hi) as [HT HW]. destruct (parse_packed (T i) i (B i) (W i)) as [Hp _]; [lia..|done|].
  unfold HandleInbound. rewrite Hp, Hnext, window_modular by lia.
  assert (Hstay : rx_inv k c) by (by constructor).
  assert (Hout : ∀ r : outcome channel_error (list (message A)), r = Ok [] → i ≠ k →
    ∃ k' c', (c, r) = (c', Ok (M <$> seqZ k (k' - k))) ∧ rx_inv k' c' ∧ k <= k' ∧ (i = k → k < k')).
  { intros r -> Hne. exists k, c. rewrite Z.sub_diag. split_and!; [done|done|lia|done]. }
  destruct (Z.leb_spec ((i - k) `mod` 65536) WindowMax) as [Hwin|Hwin]; cbn [negb]; cycle 1.
  { apply Hout; [done|]. intros ->. rewrite Z.sub_diag in Hwin. done. }
  assert (Hik : k <= i <= k + 48).
  { unfold WindowMax, WindowMaxFast in Hwin. destruct (Z.le_gt_cases k i); [rewrite Z.mod_small in Hwin; lia|].
    rewrite <- (Z_mod_plus_full _ 1), Z.mod_small in Hwin; lia. }
  rewrite (Hcons i Hi). pose proof (emplace_sorted k i (M i) (rxRing c) Hsort (proj1 Hik)) as Hem.
  destruct (emplaceRX k (i, M i) (rxRing c)) as [ring|]; cycle 1.
  { apply Hout; [done|]. intros ->. apply list_elem_of_fmap in Hem as ([s m] & -> & Hin).
    rewrite Forall_forall in Hring. specialize (Hring (s, m) (proj1 (list_elem_of_In _ _) Hin)). cbn in Hring. lia. }
  destruct Hem as (Hnin & Hs & Hperm). unfold drainRXLocked. cbn [rxRing nextRxSequence set_rx].
  destruct (drain_sorted M (S (length ring)) k ring []) as (k' & ring' & He & Hle & Hs' & Hgt & Hsub & Hin & Hlast).
  - lia.
  - lia.
  - done.
  - rewrite Hperm. apply list.Forall_cons. split; [cbn; unfold SeqMax; split; [lia|done]|].
    apply (Forall_weaken _ _ _ Hring). intros [s m] Hsm; cbn in *. unfold SeqMax. destruct Hsm; split; [lia|done].
  - rewrite He. eexists k', _. split; [reflexivity|]. split_and!; [|lia|].
    + assert (Hk' : k' <= n).
      { destruct Hlast as [->|Hl]; [lia|]. rewrite Hperm in Hl. apply elem_of_cons in Hl as [Hl|Hl]; [cbn in Hl; lia|].
        apply list_elem_of_fmap in Hl as ([s m] & Heq & Hl). rewrite Forall_forall in Hring.
        specialize (Hring (s, m) (proj1 (list_elem_of_In _ _) Hl)). cbn in *. lia. }
      constructor; cbn [nextRxSequence rxRing set_rx]; [done|lia|done| |done].
      rewrite Forall_forall in Hgt |- *. intros [s m] Hin'. specialize (Hgt _ Hin'). apply list_elem_of_In, Hsub in Hin'.
      rewrite Hperm in Hin'. cbn in Hgt. unfold WindowMax, WindowMaxFast.
      apply elem_of_cons in Hin' as [[= -> ->]|Hin']; [cbn; split; [lia|done]|].
      rewrite Forall_forall in Hring. specialize (Hring (s, m) (proj1 (list_elem_of_In _ _) Hin')).
      cbn in *. destruct Hring; split; [lia|done].
    + intros ->. apply Hin. rewrite Hperm. cbn. by left.
Qed.

Lemma rx_stream k c arrivals :
  rx_inv k c → Forall (λ i, 0 <= i < n) arrivals →
  ∃ k', (rx_run (W <$> arrivals) c).2 = (M <$> seqZ k (k' - k)) ∧ rx_inv k' (rx_run (W <$> arrivals) c).1 ∧ k <= k'.
Proof.
  revert k c. induction arrivals as [|i arrivals IH]; intros k c Hinv Hall; cbn [fmap list_fmap rx_run].
  { exists k. rewrite Z.sub_diag. split_and!; [done|done|lia]. }
  apply list.Forall_cons in Hall as [Hi Hall]. destruct (rx_step k c i Hinv Hi) as (k1 & c1 & -> & Hinv1 & Hle1 & _).
  destruct (IH k1 c1 Hinv1 Hall) as (k' & Hout & Hinv' & Hle'). fold (fmap W arrivals).
  destruct (rx_run (W <$> arrivals) c1) as [c2 out]. cbn [fst snd] in *. exists k'. split_and!; [|done|lia].
  rewrite Hout, <- fmap_app. f_equal. replace k1 with (k + (k1 - k)) at 2 by lia.
  replace (k' - k) with ((k1 - k) + (k' - k1)) by lia. symmetry. apply seqZ_app; lia.
Qed.
End receiver.

(** ** The sending side *)

Section sender.
Context {A : Type}.

(** What happens to a sender: calls of [Send], timeouts and deliveries of the link. *)
Inductive tx_op :=
  | OpSend (link : option outlet) (now : Z) (msg : outMessage)
  | OpTimeout (link : option outlet) (packet : Z)
  | OpDelivered (link : option outlet) (packet : Z).

(** The envelope of the next message, when it is sent. *)
Definition envelopeOf (msg : outMessage) (c : Channel A) : outcome channel_error bytes :=
  body ← Pack msg; packEnvelope (GetType msg) (nextSequence c) body.

(** The messages accepted by [Send], with their envelopes. *)
Fixpoint tx_run (ops : list tx_op) (c : Channel A) : Channel A * list (outMessage * bytes) :=
  match ops with
  | [] => (c, [])
  | OpSend link now msg :: ops =>
      let '(c', r) := Send link now msg c in
      let '(c'', sent) := tx_run ops c' in
      match r, envelopeOf msg c with
      | Ok _, Ok raw => (c'', (msg, raw) :: sent)
      | _, _ => (c'', sent)
      end
  | OpTimeout link p :: ops => tx_run ops (handleTimeout link p c)
  | OpDelivered link p :: ops => tx_run ops (handleDelivered link p c)
  end.

(** Message types are 16-bit integers, and [Pack] returns. *)
Definition typed (op : tx_op) : Prop :=
  match op with OpSend _ _ msg => 0 <= GetType msg < 65536 ∧ Pack msg ≠ Panic | _ => True end.

(** The send window and the retransmission queue stay within their limits. *)
Record tx_inv (c : Channel A) : Prop := {
  tx_window : 1 <= window c <= windowMax c;
  tx_max : windowMax c <= WindowMax;
  tx_min : 1 <= windowMin c;
  tx_tries : maxTries c = DefaultMaxTries;
  tx_ring : len (txRing c) <= WindowMax;
  tx_flex : 1 <= windowFlexibility c;
  tx_envs : Forall (λ e, 1 <= Tries e <= DefaultMaxTries) (txRing c);
  tx_seq : 0 <= nextSequence c < 65536
}.

Lemma findEnvelope_split p (r l : list Envelope) e r' :
  findEnvelope p r = Some (l, e, r') → r = l ++ e :: r' ∧ Packet_ e = p.
Proof.
  revert l. induction r as [|x r IH]; intros l; cbn [findEnvelope]; [done|].
  destruct (Z.eqb_spec (Packet_ x) p) as [He|Hne]; [intros [= <- <- <-]; done|].
  destruct (findEnvelope p r) as [[[l' x'] r'']|]; [|done]. intros [= <- <- <-].
  destruct (IH l' eq_refl) as [-> ?]. done.
Qed.

Lemma findEnvelope_here (l : list Envelope) e r :
  Packet_ e ∉ Packet_ <$> l → findEnvelope (Packet_ e) (l ++ e :: r) = Some (l, e, r).
Proof.
  induction l as [|x l IH]; cbn; intros Hl; [by rewrite Z.eqb_refl|].
  apply not_elem_of_cons in Hl as [Hne Hl]. by rewrite (proj2 (Z.eqb_neq _ _)), (IH Hl) by done.
Qed.

Lemma findEnvelope_absent p (r : list Envelope) : p ∉ Packet_ <$> r → findEnvelope p r = None.
Proof.
  induction r as [|x r IH]; cbn; intros Hr; [done|]. apply not_elem_of_cons in Hr as [Hne Hr].
  by rewrite (proj2 (Z.eqb_neq _ _)), (IH Hr) by done.
Qed.

(** [Send] on every branch: an accepted message takes the next number and joins the
    ring; a refused one leaves ring, window and numbering as they were. *)
Lemma send_cases link now msg (c c' : Channel A) r :
  Send link now msg c = (c', r) → Pack msg ≠ Panic →
  windowMin c' = windowMin c ∧ windowMax c' = windowMax c ∧ window c' = window c
  ∧ maxTries c' = maxTries c ∧ windowFlexibility c' = windowFlexibility c
  ∧ ((∃ e, r = Err e) ∧ txRing c' = txRing c ∧ nextSequence c' = nextSequence c
     ∨ r = Ok () ∧ len (txRing c) < window c ∧ nextSequence c' = (nextSequence c + 1) `mod` SeqModulus
       ∧ ∃ body raw packet, Pack msg = Ok body ∧ envelopeOf msg c = Ok raw
         ∧ packEnvelope (GetType msg) (nextSequence c) body = Ok raw
         ∧ txRing c' = txRing c ++ [mkEnvelope (nextSequence c) raw packet 1 now]).
Proof.
  unfold Send, IsReadyToSend, envelopeOf. intros Hs Hp.
  assert (Herr : ∀ e, (c, Err e) = (c', r) →
    windowMin c' = windowMin c ∧ windowMax c' = windowMax c ∧ window c' = window c
    ∧ maxTries c' = maxTries c ∧ windowFlexibility c' = windowFlexibility c
    ∧ (∃ e, r = Err e) ∧ txRing c' = txRing c ∧ nextSequence c' = nextSequence c).
  { intros e [= <- <-]. split_and!; try done. by exists e. }
  destruct link as [o|]; cbn [negb] in Hs; [|naive_solver].
  destruct (outletReady (GetStatus o) && _) eqn:Hready; cbn [negb] in Hs; [|naive_solver].
  apply andb_true_iff in Hready as [_ Hroom%Z.ltb_lt].
  destruct (Pack msg) as [body|e|] eqn:Hpack; [|naive_solver|done]. cbn [mbind outcome_bind].
  destruct (packEnvelope (GetType msg) (nextSequence c) body) as [raw|e|] eqn:Henv; [|naive_solver|].
  2:{ unfold packEnvelope in Henv. by destruct (_ <? _). }
  destruct (outletMDU (Some o) <? len raw); [naive_solver|].
  destruct (transmit o raw) as [packet|]; injection Hs as <- <-; cbn.
  - split_and!; try done. right. split_and!; try done. by exists body, raw, packet.
  - split_and!; try done. left. split_and!; try done. by eexists.
Qed.

Lemma send_inv link now msg (c c' : Channel A) r :
  Send link now msg c = (c', r) → Pack msg ≠ Panic → tx_inv c → tx_inv c'.
Proof.
  intros Hs Hp [Hw Hmax Hmin Htr Hring Hfl Henvs Hseq].
  destruct (send_cases link now msg c c' r Hs Hp) as (Emin & Emax & Ew & Etr & Efl & Hcase).
  destruct Hcase as [(_ & Etx & Eseq)|(_ & Hroom & Eseq & body & raw & packet & _ & _ & _ & Etx)];
    constructor; rewrite ?Emin, ?Emax, ?Ew, ?Etr, ?Efl, ?Etx, ?Eseq; try done.
  - rewrite len_app, len_cons, len_nil. lia.
  - apply Forall_app. split; [done|]. constructor; [cbn; unfold DefaultMaxTries; lia|constructor].
  - apply Z.mod_pos_bound. done.
Qed.

Lemma shrink_inv (c : Channel A) : tx_inv c → tx_inv (shrinkWindowOnTimeoutLocked c).
Proof.
  intros [Hw Hmax Hmin Htr Hring Hfl Henvs Hseq]. unfold shrinkWindowOnTimeoutLocked.
  destruct (Z.ltb_spec (windowMin c) (window c)), (Z.ltb_spec (windowMin c + windowFlexibility c) (windowMax c));
    constructor; cbn; try done; lia.
Qed.

Lemma adjust_inv rtt (c : Channel A) : tx_inv c → tx_inv (adjustWindowOnDeliveredLocked rtt c).
Proof.
  intros [Hw Hmax Hmin Htr Hring Hfl Henvs Hseq]. unfold adjustWindowOnDeliveredLocked.
  set (w := if window c <? windowMax c then window c + 1 else window c).
  assert (Hw' : 1 <= w <= windowMax c) by (subst w; destruct (Z.ltb_spec (window c) (windowMax c)); lia).
  clearbody w. cbn [set_window windowMax windowMin fastRateRounds mediumRateRounds].
  unfold WindowMaxMedium, WindowMaxFast, WindowMinMedium, WindowMinFast, WindowMax, WindowMaxFast in *.
  destruct (Float64.eqb _ _); [constructor; cbn; done|]. destruct (Float64.ltb RTTFast rtt).
  - destruct (Float64.ltb RTTMedium rtt); [constructor; cbn; done|].
    destruct (Z.ltb_spec (windowMax c) 12); cbn [andb]; [destruct (_ =? _)|]; constructor; cbn; try done; lia.
  - destruct (Z.ltb_spec (windowMax c) 48); cbn [andb]; [destruct (_ =? _)|]; constructor; cbn; try done; lia.
Qed.

(** Rings with fewer envelopes, or the same ones with another try counted. *)
Lemma ring_inv (c c' : Channel A) ring :
  tx_inv c → txRing c' = ring → len ring <= len (txRing c) →
  Forall (λ e, 1 <= Tries e <= DefaultMaxTries) ring →
  (window c', windowMax c', windowMin c', maxTries c', windowFlexibility c', nextSequence c')
    = (window c, windowMax c, windowMin c, maxTries c, windowFlexibility c, nextSequence c) →
  tx_inv c'.
Proof.
  intros [Hw Hmax Hmin Htr Hring Hfl Henvs Hseq] Hr Hl Hf [= E1 E2 E3 E4 E5 E6].
  constructor; rewrite ?E1, ?E2, ?E3, ?E4, ?E5, ?E6, ?Hr; try done. lia.
Qed.

Lemma delivered_inv link p (c : Channel A) :
  tx_inv c → tx_inv (handleDelivered link p c) ∧ nextSequence (handleDelivered link p c) = nextSequence c.
Proof.
  intros Hc. unfold handleDelivered. set (rtt := match link with Some o => _ | None => _ end). clearbody rtt.
  destruct (findEnvelope p (txRing c)) as [[[l e] r]|] eqn:He; [|done].
  apply findEnvelope_split in He as [Hr _].
  assert (Hd : tx_inv (set_tx (l ++ r) c)).
  { apply (ring_inv c _ (l ++ r)); [done|done| | |done].
    - rewrite Hr, !len_app, len_cons. lia.
    - pose proof (tx_envs c Hc) as Hf. rewrite Hr in Hf. apply Forall_app in Hf as [Hl Hf].
      apply list.Forall_cons in Hf as [_ Hf]. by apply Forall_app. }
  split.
  - apply adjust_inv with (rtt := rtt) in Hd. destruct Hd. by constructor.
  - cbn. unfold adjustWindowOnDeliveredLocked. by repeat case_match.
Qed.

Lemma timeout_inv link p (c : Channel A) :
  tx_inv c → tx_inv (handleTimeout link p c) ∧ nextSequence (handleTimeout link p c) = nextSequence c.
Proof.
  intros Hc. unfold handleTimeout.
  destruct (findEnvelope p (txRing c)) as [[[l e] r]|] eqn:He; [|done].
  apply findEnvelope_split in He as [Hr _]. apply shrink_inv in Hc as Hc1.
  set (c1 := shrinkWindowOnTimeoutLocked c) in *.
  assert (E1 : txRing c1 = txRing c ∧ nextSequence c1 = nextSequence c) by done. destruct E1 as [E1 E2].
  pose proof (tx_envs c Hc) as Hf. rewrite Hr in Hf. apply Forall_app in Hf as [Hl Hf].
  apply list.Forall_cons in Hf as [Ht Hf]. pose proof (tx_tries c1 Hc1) as Htr. clearbody c1.
  assert (Hdrop : ∀ c2 : Channel A, txRing c2 = l ++ r →
    (window c2, windowMax c2, windowMin c2, maxTries c2, windowFlexibility c2, nextSequence c2)
    = (window c1, windowMax c1, windowMin c1, maxTries c1, windowFlexibility c1, nextSequence c1) →
    tx_inv c2 ∧ nextSequence c2 = nextSequence c).
  { intros c2 Htx Hfields. split; [|injection Hfields; congruence].
    apply (ring_inv c1 _ (l ++ r)); [done|done| |by apply Forall_app|done].
    rewrite E1, Hr, !len_app, len_cons. lia. }
  destruct (Z.leb_spec (maxTries c1) (Tries e)) as [Hmax|Hmax]; [by apply Hdrop|].
  destruct (match link with Some o => _ | None => _ end); [|by apply Hdrop].
  split; [|done].
  eapply (ring_inv c1); [done|reflexivity| | |done]; cbn [txRing ask set_tx].
  - rewrite E1, Hr, !len_app, !len_cons. lia.
  - apply Forall_app. split; [done|]. constructor; [cbn; lia|done].
Qed.

Lemma NewChannel_inv link : tx_inv (NewChannel link : Channel A).
Proof.
  assert (H : ∀ c : Channel A, 1 <= window c <= windowMax c → windowMax c <= 48 → 1 <= windowMin c →
    maxTries c = 5 → txRing c = [] → 1 <= windowFlexibility c → nextSequence c = 0 → tx_inv c).
  { intros c ???? Htx ? Hs. constructor; rewrite ?Htx, ?Hs; unfold len; cbn; try done. }
  unfold NewChannel. destruct link as [o|]; [destruct (Float64.ltb _ _)|]; apply H; cbn; try done; lia.
Qed.

(** The accepted messages carry consecutive numbers. *)
Lemma tx_run_spec ops (c : Channel A) :
  tx_inv c → Forall typed ops →
  tx_inv (tx_run ops c).1
  ∧ ∀ i msg raw, (tx_run ops c).2 !! i = Some (msg, raw) → 0 <= GetType msg < 65536
    ∧ ∃ body, Pack msg = Ok body
        ∧ packEnvelope (GetType msg) ((nextSequence c + Z.of_nat i) `mod` 65536) body = Ok raw.
Proof.
  revert c. induction ops as [|op ops IH]; intros c Hc Hty; [done|].
  apply list.Forall_cons in Hty as [Hop Hty]. destruct op as [link now msg|link p|link p]; cbn [tx_run].
  - destruct Hop as [Htype Hnp]. destruct (Send link now msg c) as [c1 r] eqn:Hs.
    pose proof (send_inv _ _ _ _ _ _ Hs Hnp Hc) as Hc1.
    destruct (send_cases link now msg c c1 r Hs Hnp) as (_ & _ & _ & _ & _ & Hcase).
    specialize (IH c1 Hc1 Hty). destruct (tx_run ops c1) as [c2 sent]. cbn [fst snd] in IH. destruct IH as [Hc2 IH].
    destruct Hcase as [([e ->] & _ & Eseq)|(-> & _ & Eseq & body & raw & packet & Hb & Henv & Hraw & _)].
    + cbn [fst snd]. rewrite Eseq in IH. done.
    + rewrite Henv. cbn [fst snd]. split; [done|]. intros [|i] msg' raw' Hl; cbn in Hl.
      * injection Hl as <- <-. split; [done|]. exists body. split; [done|].
        rewrite Z.add_0_r, Z.mod_small by apply Hc. done.
      * destruct (IH i msg' raw' Hl) as [Ht (b & Hb' & Hr)]. split; [done|]. exists b. split; [done|].
        rewrite <- Hr, Eseq. unfold SeqModulus, SeqMax. change (65535 + 1) with 65536.
        rewrite Z.add_mod_idemp_l by done. do 2 f_equal. lia.
  - destruct (timeout_inv link p c Hc) as [Hc1 Eseq]. rewrite <- Eseq. by apply IH.
  - destruct (delivered_inv link p c Hc) as [Hc1 Eseq]. rewrite <- Eseq. by apply IH.
Qed.
End sender.


(** ** Properties *)

Section properties.
Context {A : Type}.

(** More fuel than entries changes nothing. *)
Lemma drainRX_fuel f1 f2 next (ring : list (Z * message A)) out :
  (length ring < f1)%nat → (length ring < f2)%nat → drainRX f1 next ring out = drainRX f2 next ring out.
Proof.
  revert f2 next ring out. induction f1 as [|f1 IH]; intros [|f2] next ring out H1 H2; [lia..|]. cbn [drainRX].
  destruct (takeRX next ring) as [[m rest]|] eqn:Ht; [|done]. apply takeRX_Some in Ht as [Hl _]. apply IH; lia.
Qed.

Lemma drainRX_perm f next (ring : list (Z * message A)) out :
  let '(out', _, ring') := drainRX f next ring out in out ++ ring.*2 ≡ₚ out' ++ ring'.*2.
Proof.
  revert next ring out. induction f as [|f IH]; intros next ring out; cbn [drainRX]; [done|].
  destruct (takeRX next ring) as [[m rest]|] eqn:Ht; [|done]. apply takeRX_Some in Ht as [_ Hperm].
  specialize (IH ((next + 1) `mod` SeqModulus) rest (out ++ [m])). destruct (drainRX _ _ _ _) as [[o n'] r'].
  rewrite <- IH, Hperm. cbn. by rewrite <- app_assoc.
Qed.

(** C39.  The drain loop of the receiver terminates on every ring, sorted or not:
    the rounds [drainRXLocked] allows are enough (more give the same result), it
    stops only when the expected sequence number is not in the ring, and what it
    delivered and what it kept together are the ring it started from. *)
Theorem drain_terminates (c : Channel A) fuel :
  let '(c', out) := drainRXLocked c in
  ((length (rxRing c) < fuel)%nat →
   drainRX fuel (nextRxSequence c) (rxRing c) [] = (out, nextRxSequence c', rxRing c'))
  ∧ (nextRxSequence c' ∉ (rxRing c').*1)
  ∧ (rxRing c).*2 ≡ₚ out ++ (rxRing c').*2.
Proof.
  unfold drainRXLocked. pose proof (drainRX_done (S (length (rxRing c))) (nextRxSequence c) (rxRing c) []) as Hd.
  pose proof drainRX_perm as Hp.
  specialize (Hp (S (length (rxRing c))) (nextRxSequence c) (rxRing c) []).
  destruct (drainRX (S (length (rxRing c))) (nextRxSequence c) (rxRing c) []) as [[out next'] ring'] eqn:He.
  cbn [nextRxSequence rxRing set_rx]. split_and!; [|apply Hd; lia|exact Hp].
  intros Hf. rewrite <- He. apply drainRX_fuel; lia.
Qed.

(** Whether the link takes a packet again, and an envelope that was tried again. *)
Definition resends (link : option outlet) (p : Z) : bool := match link with Some o => resend o p | None => false end.
Definition retried (e : Envelope) : Envelope := mkEnvelope (Sequence e) (Raw e) (Packet_ e) (Tries e + 1) (Timestamp e).

(** Envelopes leave the ring one by one, and only by their own packet. *)
Lemma delivered_ring link (c : Channel A) l e r :
  txRing c = l ++ e :: r → Packet_ e ∉ Packet_ <$> l → txRing (handleDelivered link (Packet_ e) c) = l ++ r.
Proof.
  intros Hr Hl. unfold handleDelivered. rewrite Hr, findEnvelope_here by done.
  unfold adjustWindowOnDeliveredLocked. by repeat case_match.
Qed.

Lemma timeout_ring link (c : Channel A) l e r :
  maxTries c = DefaultMaxTries → txRing c = l ++ e :: r → Packet_ e ∉ Packet_ <$> l →
  txRing (handleTimeout link (Packet_ e) c)
    = l ++ (if (Tries e <? DefaultMaxTries) && resends link (Packet_ e) then [retried e] else []) ++ r
  ∧ (Tries e < DefaultMaxTries → ∃ later, calls (handleTimeout link (Packet_ e) c) = calls c ++ Resend (Packet_ e) :: later).
Proof.
  intros Hm Hr Hl. unfold handleTimeout. rewrite Hr, findEnvelope_here by done.
  change (maxTries (shrinkWindowOnTimeoutLocked c)) with (maxTries c). rewrite Hm. fold (resends link (Packet_ e)).
  destruct (Z.ltb_spec (Tries e) DefaultMaxTries) as [Ht|Ht].
  - rewrite (proj2 (Z.leb_gt _ _)) by done. cbn [andb]. destruct (resends link (Packet_ e)); (split; [done|]); intros _; eexists;
      cbn; rewrite <- ?app_assoc; reflexivity.
  - rewrite (proj2 (Z.leb_le _ _)) by done. split; [done|lia].
Qed.

(** C13.  The sender stays within its limits: whatever messages, timeouts and
    deliveries occur, the window is at least 1 and at most 48, at most 48 envelopes
    are outstanding and none is tried more than 5 times; a message that [Send]
    refuses takes no sequence number and leaves no envelope behind, and one it
    accepts takes the next number and is kept at the end of the ring.  It stays
    there until its packet is reported delivered, or times out at the fifth try or
    when the link refuses to send it again: a delivery takes off that envelope and
    no other, a timeout before that sends its packet again and counts a try, and
    reports about other packets change nothing. *)
Theorem channel_sender link ops :
  Forall typed ops →
  let c := (tx_run ops (NewChannel link) : Channel A * _).1 in
  1 <= window c <= 48 ∧ len (txRing c) <= 48 ∧ Forall (λ e, Tries e <= 5) (txRing c)
  ∧ (∀ link now msg c' r, Send link now msg c = (c', r) → Pack msg ≠ Panic →
      ((∃ e, r = Err e) ∧ txRing c' = txRing c ∧ nextSequence c' = nextSequence c)
      ∨ (r = Ok () ∧ nextSequence c' = (nextSequence c + 1) `mod` 65536
         ∧ ∃ raw packet, envelopeOf msg c = Ok raw
             ∧ txRing c' = txRing c ++ [mkEnvelope (nextSequence c) raw packet 1 now]))
  ∧ (∀ link l e r, txRing c = l ++ e :: r → Packet_ e ∉ Packet_ <$> l →
      txRing (handleDelivered link (Packet_ e) c) = l ++ r
      ∧ txRing (handleTimeout link (Packet_ e) c)
        = l ++ (if (Tries e <? 5) && resends link (Packet_ e) then [retried e] else []) ++ r
      ∧ (Tries e < 5 → ∃ later, calls (handleTimeout link (Packet_ e) c) = calls c ++ Resend (Packet_ e) :: later))
  ∧ ∀ link p, p ∉ Packet_ <$> txRing c → handleDelivered link p c = c ∧ handleTimeout link p c = c.
Proof.
  intros Hty c. destruct (tx_run_spec ops (NewChannel link : Channel A)) as [Hc _]; [apply NewChannel_inv|done|].
  fold c in Hc. pose proof Hc as [Hw Hmax _ Htr Hring _ Henvs _]. unfold WindowMax, WindowMaxFast in *.
  split; [lia|]. split; [lia|]. split; [|split; [|split]].
  - apply (Forall_weaken _ _ _ Henvs). unfold DefaultMaxTries. intros; cbn in *; lia.
  - intros link' now msg c' r Hs Hp. destruct (send_cases link' now msg c c' r Hs Hp) as (_ & _ & _ & _ & _ & Hcase).
    destruct Hcase as [?|(-> & _ & Hseq & body & raw & packet & _ & Henv & _ & Htx)]; [by left|].
    right. split_and!; [done|done|by exists raw, packet].
  - intros link' l e r Hr Hl. split; [by apply delivered_ring|]. by apply timeout_ring.
  - intros link' p Hp. unfold handleDelivered, handleTimeout. by rewrite findEnvelope_absent.
Qed.

(** The packets of a run, by number. *)
Definition packets (sent : list (outMessage * bytes)) (arrivals : list nat) : list bytes :=
  omap (λ i, snd <$> sent !! i) arrivals.

Lemma take_seqZ (M : Z → message A) ms k :
  0 <= k <= len ms → (∀ i m, ms !! i = Some m → M (Z.of_nat i) = m) → M <$> seqZ 0 (k - 0) = take (Z.to_nat k) ms.
Proof.
  intros Hk HM. rewrite Z.sub_0_r. unfold len in Hk. apply list_eq. intros i. rewrite list_lookup_fmap.
  destruct (decide (i < Z.to_nat k)%nat) as [Hi|Hi].
  - rewrite lookup_take_lt by done. destruct (lookup_lt_is_Some_2 ms i) as [m Hm]; [lia|].
    rewrite lookup_seqZ_lt by lia. cbn. rewrite Hm. f_equal. by apply HM.
  - rewrite lookup_take_ge by lia. by rewrite lookup_seqZ_ge by lia.
Qed.

Lemma packets_index sent arrivals (W : Z → bytes) :
  (∀ i x, sent !! i = Some x → W (Z.of_nat i) = x.2) →
  packets sent arrivals = W <$> (Z.of_nat <$> filter (λ i, (i < length sent)%nat) arrivals).
Proof.
  intros HW. unfold packets. induction arrivals as [|i l IH]; [done|]. cbn [omap list_omap].
  rewrite filter_cons. destruct (sent !! i) as [x|] eqn:Hx; cbn [fmap option_fmap option_map].
  - rewrite decide_True by (by eapply lookup_lt_Some). cbn [fmap list_fmap]. rewrite (HW i x Hx). f_equal. exact IH.
  - rewrite decide_False by (by apply lookup_ge_None in Hx; lia). exact IH.
Qed.

(** C12.  In-order, exactly-once delivery: take any run of a sender (with refused
    sends, timeouts and retransmissions in between) and let copies of its packets
    reach a fresh receiver in any order, with any duplicates and losses.  As long
    as the numbers do not wrap, the receiver delivers exactly a prefix of the sent
    messages, in order and each once, whatever arrives, and the arrival of the
    first message still missing extends the prefix. *)
Theorem channel_in_order link ops (c : Channel A) ms arrivals :
  Forall typed ops →
  let sent := (tx_run ops (NewChannel link) : Channel A * _).2 in
  len sent + WindowMax < 65536 → rxRing c = [] → nextRxSequence c = 0 → length ms = length sent →
  (∀ i msg raw body, sent !! i = Some (msg, raw) → Pack msg = Ok body →
     ∃ m, ms !! i = Some m ∧ construct c (GetType msg) (Z.of_nat i) body = Ok m) →
  ∃ k, (rx_run (packets sent arrivals) c).2 = take k ms
    ∧ ((k < length ms)%nat → ∃ k', (k < k')%nat ∧ (rx_run (packets sent (arrivals ++ [k])) c).2 = take k' ms).
Proof.
  intros Hty sent Hfit Hring Hnext Hlen Hcons.
  destruct (tx_run_spec ops (NewChannel link : Channel A)) as [_ Hspec]; [apply NewChannel_inv|done|]. fold sent in Hspec.
  assert (Hseq0 : nextSequence (NewChannel link : Channel A) = 0).
  { unfold NewChannel. destruct link; [by destruct (Float64.ltb _ _)|done]. }
  set (W i := default [] (snd <$> sent !! Z.to_nat i)).
  set (T i := default 0 ((λ x : outMessage * bytes, GetType x.1) <$> sent !! Z.to_nat i)).
  set (B i := default [] ((λ x : outMessage * bytes, match Pack x.1 with Ok b => b | _ => [] end) <$> sent !! Z.to_nat i)).
  set (M i := default (GenericMessage 0 [] 0) (ms !! Z.to_nat i)).
  assert (Hpacked : ∀ i, 0 <= i < len sent →
    (0 <= T i < 65536 ∧ packEnvelope (T i) i (B i) = Ok (W i)) ∧ construct c (T i) i (B i) = Ok (M i)).
  { intros i Hi. destruct (lookup_lt_is_Some_2 sent (Z.to_nat i)) as [[msg raw] Hx]; [unfold len in *; lia|].
    destruct (Hspec _ _ _ Hx) as [Ht (body & Hb & Hr)]. destruct (Hcons _ _ _ _ Hx Hb) as (m & Hm & Hc).
    subst T B W M. cbn beta. rewrite Hx, Hm. cbn. rewrite Hb. rewrite Hseq0, Z.add_0_l in Hr.
    rewrite Z2Nat.id in Hr, Hc by lia. rewrite Z.mod_small in Hr by (unfold WindowMax in *; unfold WindowMaxFast in *; lia). done. }
  assert (Hinit : rx_inv (len sent) T B M 0 c).
  { constructor; [done|pose proof (len_nonneg sent); lia|rewrite Hring; constructor|rewrite Hring; constructor|].
    intros i Hi. by apply Hpacked. }
  assert (HM : ∀ i m, ms !! i = Some m → M (Z.of_nat i) = m) by (intros i m Hm; subst M; cbn; by rewrite Nat2Z.id, Hm).
  assert (HW : ∀ i x, sent !! i = Some x → W (Z.of_nat i) = x.2) by (intros i x Hx; subst W; cbn; by rewrite Nat2Z.id, Hx).
  set (idx (l : list nat) := Z.of_nat <$> filter (λ i, (i < length sent)%nat) l).
  assert (Hidx : ∀ l, Forall (λ i, 0 <= i < len sent) (idx l)).
  { intros l. apply Forall_forall. intros i (j & -> & Hj)%list_elem_of_In%list_elem_of_fmap.
    apply list_elem_of_filter in Hj as [Hj _]. unfold len. lia. }
  destruct (rx_stream (len sent) T B W M Hfit (λ i Hi, proj1 (Hpacked i Hi)) 0 c (idx arrivals) Hinit (Hidx _))
    as (k & Hout & Hinv & _).
  pose proof (rx_range _ _ _ _ _ _ Hinv) as Hk. exists (Z.to_nat k).
  rewrite (packets_index sent arrivals W HW). fold (idx arrivals). rewrite Hout. split.
  { apply take_seqZ; [unfold len in *; lia|done]. }
  intros Hlt. destruct (rx_step (len sent) T B W M Hfit (λ i Hi, proj1 (Hpacked i Hi)) k _ k Hinv) as (k' & c' & Hs & Hinv' & Hle & Hgt).
  { unfold len. lia. }
  specialize (Hgt eq_refl). pose proof (rx_range _ _ _ _ _ _ Hinv') as Hk'. exists (Z.to_nat k'). split; [lia|].
  unfold packets. rewrite omap_app. fold (packets sent arrivals). rewrite (packets_index sent arrivals W HW). fold (idx arrivals).
  rewrite rx_run_app. destruct (rx_run (W <$> idx arrivals) c) as [c1 out1]. cbn [fst snd] in *.
  assert (Hone : omap (λ i, snd <$> sent !! i) [Z.to_nat k] = [W k]).
  { destruct (lookup_lt_is_Some_2 sent (Z.to_nat k)) as [x Hx]; [lia|]. cbn. rewrite Hx. subst W. cbn. by rewrite Hx. }
  rewrite Hone. cbn [rx_run]. rewrite Hs. cbn [snd app]. rewrite app_nil_r, Hout, <- fmap_app.
  rewrite <- (take_seqZ M ms k') by (try done; unfold len in *; lia). f_equal.
  replace (k' - 0) with ((k - 0) + (k' - k)) by lia. rewrite seqZ_app by lia. do 2 f_equal. lia.
Qed.
End properties.

(** ** Past the wrap of the sequence numbers *)

Section wrap.
Abbreviation chan := (Channel Empty_set).

(** A sender's stream of numbered messages. *)
Definition body (i : Z) : bytes := be_encode 4 i.
Definition wire (i : Z) : bytes :=
  match packEnvelope 1 (i `mod` 65536) (body i) with Ok raw => raw | _ => [] end.
Definition received (i : Z) : message Empty_set := GenericMessage 1 (body i) (i `mod` 65536).

Lemma parse_wire i : parseEnvelope (wire i) = Ok (1, i `mod` 65536, body i).
Proof.
  assert (Hb : len (body i) = 4) by apply len_be_encode.
  assert (Hm : 0 <= i `mod` 65536 < 65536) by (apply Z.mod_pos_bound; lia).
  unfold wire. destruct (packEnvelope 1 (i `mod` 65536) (body i)) as [raw|e|] eqn:He.
  - by apply (parse_packed 1 (i `mod` 65536) (body i) raw).
  - unfold packEnvelope in He. rewrite Hb in He. discriminate.
  - unfold packEnvelope in He. rewrite Hb in He. discriminate.
Qed.

Lemma emplace_take next s (m : message Empty_set) ring :
  s ∉ ring.*1 →
  ∃ ring', emplaceRX next (s, m) ring = Some ring' ∧ takeRX s ring' = Some (m, ring)
    ∧ (length ring' = S (length ring))%nat.
Proof.
  induction ring as [|[s' m'] ring IH]; cbn [emplaceRX fmap list_fmap fst].
  { intros _. exists [(s, m)]. cbn [takeRX fst snd]. by rewrite Z.eqb_refl. }
  intros [Hne Hnin]%not_elem_of_cons. rewrite (proj2 (Z.eqb_neq _ _)) by done.
  destruct (_ && _).
  - exists ((s, m) :: (s', m') :: ring). cbn [takeRX fst snd]. by rewrite Z.eqb_refl.
  - destruct (IH Hnin) as (ring' & -> & Ht & Hl). exists ((s', m') :: ring'). cbn [takeRX fst snd].
    rewrite (proj2 (Z.eqb_neq _ _)) by done. rewrite Ht. split_and!; [done|done|cbn; lia].
Qed.

(** In-order arrivals are delivered at once and leave the ring alone. *)
Lemma inorder_run a n (c : chan) :
  factories c = ∅ → nextRxSequence c = a `mod` 65536 →
  (∀ j, a <= j <= a + Z.of_nat n → j `mod` 65536 ∉ (rxRing c).*1) →
  rx_run (wire <$> seqZ a (Z.of_nat n)) c
  = (set_rx (rxRing c) ((a + Z.of_nat n) `mod` 65536) c, received <$> seqZ a (Z.of_nat n)).
Proof.
  revert a c. induction n as [|n IH]; intros a c Hf Hn Hr.
  { rewrite Z.add_0_r, <- Hn. by destruct c. }
  rewrite seqZ_cons by lia. replace (Z.pred (Z.of_nat (S n))) with (Z.of_nat n) by lia. cbn [fmap list_fmap rx_run].
  unfold HandleInbound at 1. rewrite parse_wire, Hn. pose proof (Z.mod_pos_bound a 65536 ltac:(lia)) as Hm.
  rewrite window_modular by lia. rewrite Z.sub_diag. cbn [negb Z.modulo Z.div_eucl Z.leb Z.compare].
  change (negb (0 `mod` 65536 <=? WindowMax)) with false. cbv iota.
  unfold construct. rewrite Hf, lookup_empty. cbv iota.
  destruct (emplace_take (a `mod` 65536) (a `mod` 65536) (received a) (rxRing c)) as (ring' & He & Ht & Hl);
    [apply Hr; lia|]. unfold received at 1 in He. rewrite He. unfold drainRXLocked.
  cbn [rxRing nextRxSequence set_rx]. rewrite Hl. cbn [drainRX]. rewrite Ht.
  unfold SeqModulus, SeqMax. change (65535 + 1) with 65536.
  assert (Hsucc : (a `mod` 65536 + 1) `mod` 65536 = (a + 1) `mod` 65536) by (by rewrite Z.add_mod_idemp_l).
  rewrite Hsucc. assert (Hnone : takeRX ((a + 1) `mod` 65536) (rxRing c) = None) by (apply takeRX_None, Hr; lia).
  rewrite Hnone. cbv iota. fold (fmap wire (seqZ (Z.succ a) (Z.of_nat n))). replace (Z.succ a) with (a + 1) by lia.
  rewrite IH; [|done|done|cbn [rxRing set_rx]; intros j Hj; apply Hr; lia].
  cbn [rxRing set_rx app]. replace (a + 1 + Z.of_nat n) with (a + Z.of_nat (S n)) by lia. done.
Qed.

(** Ten packets around the wrap: two that arrive early, the ones before them, and
    a second copy of message 65539 while it is still waiting. *)
Definition aroundWrap : list Z :=
  [65541; 65539; 65533; 65534; 65535; 65536; 65537; 65539; 65538; 65540].

Lemma around_wrap :
  rx_run (wire <$> aroundWrap) (set_rx [] 65533 (NewChannel None : chan))
  = (set_rx [(3, received 65539)] 6 (NewChannel None : chan), received <$> seqZ 65533 9).
Proof. vm_compute. reflexivity. Qed.

Lemma second_wrap :
  rx_run (wire <$> [131074; 131075]) (set_rx [(3, received 65539)] 2 (NewChannel None : chan))
  = (set_rx [] 4 (NewChannel None : chan), [received 131074; received 65539]).
Proof. vm_compute. reflexivity. Qed.

Lemma first_run :
  rx_run (wire <$> seqZ 0 65533) (NewChannel None : chan)
  = (set_rx [] 65533 (NewChannel None : chan), received <$> seqZ 0 65533).
Proof.
  pose proof (inorder_run 0 (Z.to_nat 65533) (NewChannel None) eq_refl eq_refl) as H.
  rewrite Z2Nat.id in H by lia. apply H. intros j _. apply not_elem_of_nil.
Qed.

Lemma second_run :
  rx_run (wire <$> seqZ 65542 65532) (set_rx [(3, received 65539)] 6 (NewChannel None : chan))
  = (set_rx [(3, received 65539)] 2 (NewChannel None : chan), received <$> seqZ 65542 65532).
Proof.
  pose proof (inorder_run 65542 (Z.to_nat 65532) (set_rx [(3, received 65539)] 6 (NewChannel None)) eq_refl eq_refl) as H.
  rewrite Z2Nat.id in H by lia. apply H. intros j Hj. cbn [rxRing set_rx fmap list_fmap fst].
  rewrite not_elem_of_cons. split; [|apply not_elem_of_nil]. destruct (Z.lt_ge_cases j 131072).
  - rewrite <- (Z_mod_plus_full _ (-1)), Z.mod_small by lia. lia.
  - rewrite <- (Z_mod_plus_full _ (-2)), Z.mod_small by lia. lia.
Qed.

Lemma stream_split : seqZ 0 131075 = seqZ 0 65533 ++ seqZ 65533 9 ++ seqZ 65542 65532 ++ seqZ 131074 1.
Proof.
  change 131075 with (65533 + (9 + (65532 + 1))). rewrite !seqZ_app by lia.
  change (0 + 65533) with 65533. change (65533 + 9) with 65542. change (65542 + 65532) with 131074. reflexivity.
Qed.

(** After the sequence numbers wrap, a duplicate can displace a message: the
    ring is then not sorted, the scan for duplicates stops at the insertion point,
    and a second copy of a waiting message is stored.  In a stream that arrives in
    order except for ten packets around the wrap, every message up to 131074 is
    delivered in order, but then message 65539 is delivered again in place of
    message 131075, which is dropped as old. *)
Theorem channel_wrap_duplicate :
  (rx_run (wire <$> seqZ 0 65533 ++ aroundWrap ++ seqZ 65542 65532 ++ [131074; 131075])
     (NewChannel None : chan)).2
  = (received <$> seqZ 0 131075) ++ [received 65539] ∧ received 65539 ≠ received 131075.
Proof.
  split; [|vm_compute; discriminate].
  rewrite !fmap_app, rx_run_app, first_run. cbv beta iota. rewrite rx_run_app, around_wrap. cbv beta iota.
  rewrite rx_run_app, second_run. cbv beta iota. rewrite second_wrap. cbn [snd].
  change [received 131074; received 65539] with ((received <$> seqZ 131074 1) ++ [received 65539]).
  rewrite stream_split, !fmap_app, <- !app_assoc. reflexivity.
Qed.
End wrap.

(** *** A concrete conversation *)

Definition testOutlet : outlet :=
  mkOutlet x02 (Float64.ratio 1 10) (Some 431) (λ raw, Some (be_u16 (drop 2 raw))) (λ _, true).

(** Three messages through a window of two: the first is delivered in between. *)
Definition threeSends : list tx_op :=
  let send b := OpSend (Some testOutlet) 0 (mkOut 1 (Ok [b])) in
  [send x0a; send x0b; send x0c; OpDelivered (Some testOutlet) 0; OpTimeout (Some testOutlet) 1; send x0c].

Lemma threeSends_typed : Forall typed threeSends.
Proof. repeat constructor; discriminate. Qed.

Lemma channel_sender_witness :
  let c := (tx_run threeSends (NewChannel (Some testOutlet)) : Channel Empty_set * _).1 in
  Sequence <$> txRing c = [1; 2] ∧ 1 <= window c <= 48.
Proof.
  intros c. destruct (@channel_sender Empty_set (Some testOutlet) threeSends threeSends_typed) as [Hw _].
  split; [vm_compute; reflexivity|exact Hw].
Defined.

Definition threeSent : list (outMessage * bytes) :=
  (λ x : byte * Z, (mkOut 1 (Ok [x.1]), put_be_u16 1 ++ put_be_u16 x.2 ++ put_be_u16 1 ++ [x.1])) <$>
    [(x0a, 0); (x0b, 1); (x0c, 2)].

Lemma threeSends_sent : (tx_run threeSends (NewChannel (Some testOutlet)) : Channel Empty_set * _).2 = threeSent.
Proof. vm_compute. reflexivity. Qed.

Definition threeReceived : list (message Empty_set) :=
  [GenericMessage 1 [x0a] 0; GenericMessage 1 [x0b] 1; GenericMessage 1 [x0c] 2].

Lemma three_construct i msg raw body :
  threeSent !! i = Some (msg, raw) → Pack msg = Ok body →
  ∃ m, threeReceived !! i = Some m
    ∧ construct (NewChannel None : Channel Empty_set) (GetType msg) (Z.of_nat i) body = Ok m.
Proof.
  unfold threeSent. rewrite list_lookup_fmap.
  destruct i as [|[|[|i]]]; cbn [lookup list_lookup fmap option_fmap option_map fst snd]; [..|discriminate];
    intros [= <- _] [= <-]; eexists; (split; [reflexivity|reflexivity]).
Qed.

Lemma channel_in_order_witness :
  ∃ k, (rx_run (packets threeSent [2; 0; 2; 0; 1]%nat) (NewChannel None)).2 = take k threeReceived.
Proof.
  pose proof (@channel_in_order Empty_set (Some testOutlet) threeSends (NewChannel None)
    threeReceived [2; 0; 2; 0; 1]%nat threeSends_typed) as H.
  cbv zeta in H. rewrite threeSends_sent in H.
  destruct H as (k & Hk & _); [vm_compute; reflexivity|reflexivity|reflexivity|reflexivity|exact three_construct|].
  exists k. exact Hk.
Defined.

End Channel.
