(* ===== verification/Buffer.v ===== *)
(** * Byte streams over a channel

    [pkg/buffer/buffer.go]: stream messages, the chunking writer with its
    compression probes, the reader, and the [bufio.Writer] that [CreateWriter]
    puts in front of the writer.  The bzip2 codec is a parameter. *)

From S2P Require Import Prelude.
From S2P Require Import Float64.
From S2P Require Import Channel.

Module Buffer.
Local Open Scope go_scope.
Module Ch := Channel.

Definition StreamIDMax : Z := 0x3fff.
Definition MaxChunkLen : Z := 16 * 1024.
Definition CompressTries : Z := 4.
Definition StreamHeaderEOF : Z := 0x8000.
Definition StreamHeaderCompressed : Z := 0x4000.
Definition StreamDataMessageType : Z := 0xff00.
Definition StreamHeaderSize : Z := 2.
Definition CompressThreshold : Z := 32.
Definition maxReaderBufferBytes : Z := 8 * 1024 * 1024.

(** ** Messages *)

Record StreamDataMessage := mkStream {
  StreamID : Z;
  Data : bytes;
  EOF : bool;
  Compressed : bool
}.

Definition Pack (m : StreamDataMessage) : bytes :=
  let headerVal := Z.land (StreamID m) StreamIDMax in
  let headerVal := if EOF m then Z.lor headerVal StreamHeaderEOF else headerVal in
  let headerVal := if Compressed m then Z.lor headerVal StreamHeaderCompressed else headerVal in
  put_be_u16 headerVal ++ Data m.

Definition Unpack (data : bytes) : option StreamDataMessage :=
  if len data <? StreamHeaderSize then None
  else
    let header := be_u16 data in
    Some (mkStream (Z.land header StreamIDMax) (drop 2 data)
            (negb (Z.land header StreamHeaderEOF =? 0)) (negb (Z.land header StreamHeaderCompressed =? 0))).

(** ** The codec *)

Class Bzip2 := {
  bzip2Compress : bytes → option bytes;
  bzip2Decode : bytes → option bytes
}.
Class Bzip2Laws `{Bzip2} :=
  decode_compress : ∀ d c, bzip2Compress d = Some c → bzip2Decode c = Some d.

Section codec.
Context `{Bzip2}.

Definition compressData (data : bytes) : option bytes := bzip2Compress data.

(** A stream that fails or expands past [MaxChunkLen] yields nothing. *)
Definition decompressData (data : bytes) : bytes :=
  match bzip2Decode data with
  | Some d => if MaxChunkLen <? len d then [] else d
  | None => []
  end.

(** ** The reader *)

Record RawChannelReader := mkReader {
  r_streamID : Z;
  buffer : bytes;
  eof : bool;
  callbacks : list Z;
  nextCallbackID : Z
}.

Definition NewRawChannelReader (streamID : Z) : RawChannelReader := mkReader streamID [] false [] 0.

Definition AddReadyCallback (r : RawChannelReader) : RawChannelReader * Z :=
  (mkReader (r_streamID r) (buffer r) (eof r) (callbacks r ++ [nextCallbackID r]) (nextCallbackID r + 1),
   nextCallbackID r).
Definition RemoveReadyCallback (id : Z) (r : RawChannelReader) : RawChannelReader :=
  mkReader (r_streamID r) (buffer r) (eof r) (filter (λ i, i ≠ id) (callbacks r)) (nextCallbackID r).

(** The bytes read and whether [io.EOF] is returned, for a buffer of [n] bytes. *)
Definition Read (n : Z) (r : RawChannelReader) : RawChannelReader * bytes * bool :=
  if (len (buffer r) =? 0) && eof r then (r, [], true)
  else
    let out := take (Z.to_nat n) (buffer r) in
    (mkReader (r_streamID r) (drop (Z.to_nat n) (buffer r)) (eof r) (callbacks r) (nextCallbackID r),
     out, false).

(** Whether the message was taken, and the count the callbacks are told. *)
Definition HandleMessage (m : StreamDataMessage) (r : RawChannelReader) : RawChannelReader * bool * list (Z * Z) :=
  if negb (StreamID m =? u16 (r_streamID r)) then (r, false, [])
  else
    let data := if Compressed m then decompressData (Data m) else Data m in
    let buffer' :=
      if 0 <? len data then
        if len (buffer r) + len data <=? maxReaderBufferBytes then buffer r ++ data else buffer r
      else buffer r in
    let eof' := if EOF m then true else eof r in
    (mkReader (r_streamID r) buffer' eof' (callbacks r) (nextCallbackID r), true,
     (λ id, (id, len buffer')) <$> callbacks r).

(** ** The writer *)

Record RawChannelWriter := mkWriter { w_streamID : Z; w_eof : bool; compression : bool }.

Definition streamMDU (link : option Ch.outlet) : Z :=
  let mdu := Ch.MDU link - StreamHeaderSize in if mdu <? 1 then 1 else mdu.

(** The probes [try], [try + 1], ..., of the compression loop. *)
Fixpoint probe (tries : nat) (try mdu : Z) (p : bytes) : option (bytes * Z) :=
  match tries with
  | O => None
  | S tries =>
      let chunkLen := len p `div` try in
      match compressData (take (Z.to_nat chunkLen) p) with
      | Some c => if (len c <? mdu) && (len c <? chunkLen) then Some (c, chunkLen) else probe tries (try + 1) mdu p
      | None => probe tries (try + 1) mdu p
      end
  end.

(** The message for a write and the number of bytes it takes. *)
Definition nextChunk (mdu : Z) (p : bytes) (w : RawChannelWriter) : StreamDataMessage * Z :=
  let p := if MaxChunkLen <? len p then take (Z.to_nat MaxChunkLen) p else p in
  let plain :=
    let p := if mdu <? len p then take (Z.to_nat mdu) p else p in
    (mkStream (u16 (w_streamID w)) p (w_eof w) false, len p) in
  if compression w && (CompressThreshold <? len p) then
    match probe (Z.to_nat (CompressTries - 1)) 1 mdu p with
    | Some (c, n) => (mkStream (u16 (w_streamID w)) c (w_eof w) true, n)
    | None => plain
    end
  else plain.

(** [wait] is how the wait for window space ends. *)
Definition WriteContext {A} (link : option Ch.outlet) (now : Z) (wait : outcome Ch.channel_error ())
    (p : bytes) (w : RawChannelWriter) (c : Ch.Channel A)
    : Ch.Channel A * outcome Ch.channel_error Z :=
  let '(msg, processed) := nextChunk (streamMDU link) p w in
  match wait with
  | Err e => (c, Err e)
  | Panic => (c, Panic)
  | Ok _ =>
      let '(c, r) := Ch.Send link now (Ch.mkOut StreamDataMessageType (Ok (Pack msg))) c in
      match r with Ok _ => (c, Ok processed) | Err e => (c, Err e) | Panic => (c, Panic) end
  end.

Definition Close {A} (link : option Ch.outlet) (now : Z) (wait : outcome Ch.channel_error ())
    (w : RawChannelWriter) (c : Ch.Channel A) : RawChannelWriter * Ch.Channel A * outcome Ch.channel_error () :=
  let w := mkWriter (w_streamID w) true (compression w) in
  let '(c, r) := WriteContext link now wait [] w c in
  (w, c, match r with Ok _ => Ok () | Err e => Err e | Panic => Panic end).
End codec.

(** ** [bufio.Writer] *)

(** The standard library's buffered writer around a [Write] that reports the
    bytes it took; [None] is a nil error. *)
Section bufio.
Context {S : Type} (rawWrite : bytes → S → S * Z * option Ch.channel_error).

Inductive bufio_error := ShortWrite | Raw (e : Ch.channel_error).

Record bufioWriter := mkBufio { pending : bytes; sticky : option bufio_error }.
Definition bufioSize : Z := 4096.

Definition Flush (b : bufioWriter) (s : S) : S * bufioWriter * option bufio_error :=
  match sticky b with
  | Some e => (s, b, Some e)
  | None =>
      if len (pending b) =? 0 then (s, b, None)
      else
        let '(s, n, err) := rawWrite (pending b) s in
        let err := match err with
                   | Some e => Some (Raw e)
                   | None => if n <? len (pending b) then Some ShortWrite else None
                   end in
        match err with
        | Some e => (s, mkBufio (drop (Z.to_nat n) (pending b)) (Some e), Some e)
        | None => (s, mkBufio [] None, None)
        end
  end.

(** A write that fits into the free part of the buffer. *)
Definition WriteFits (p : bytes) (b : bufioWriter) : bufioWriter * option bufio_error :=
  match sticky b with
  | Some e => (b, Some e)
  | None => (mkBufio (pending b ++ p) None, None)
  end.
End bufio.

(** ** Messages round trip *)

Lemma be_u16_put_mod z r : be_u16 (put_be_u16 z ++ r) = u16 z.
Proof.
  assert (Hr : 0 <= u16 z < 65536) by (apply Z.mod_pos_bound; lia).
  rewrite <- (be_u16_put (u16 z) r) by done. unfold put_be_u16, u16. by rewrite Z.mod_mod by done.
Qed.

Lemma land_u16 h m : Z.land 65535 m = m → Z.land (u16 h) m = Z.land h m.
Proof.
  intros Hm. unfold u16. change 65536 with (2 ^ 16). rewrite <- Z.land_ones by lia.
  change (Z.ones 16) with 65535. by rewrite <- Z.land_assoc, Hm.
Qed.

Lemma Unpack_Pack m : 0 <= StreamID m <= StreamIDMax → Unpack (Pack m) = Some m.
Proof.
  intros Hid. destruct m as [id d e c]. unfold StreamIDMax in *. cbn [StreamID] in *.
  assert (Hland : Z.land id 16383 = id).
  { change 16383 with (Z.ones 14). rewrite Z.land_ones by lia. apply Z.mod_small. lia. }
  assert (Hhigh : ∀ m, Z.land 16383 m = 0 → Z.land id m = 0).
  { intros m Hm. by rewrite <- Hland, <- Z.land_assoc, Hm, Z.land_0_r. }
  unfold Unpack, Pack, StreamIDMax, StreamHeaderEOF, StreamHeaderCompressed, StreamHeaderSize.
  cbn [StreamID Data EOF Compressed]. rewrite Hland.
  set (h := if c then _ else _). rewrite len_app, Ch.len_put_be_u16. pose proof (len_nonneg d).
  rewrite (proj2 (Z.ltb_ge _ _)) by lia. rewrite be_u16_put_mod, !land_u16 by done.
  rewrite (drop_app_mid (put_be_u16 h)) by (unfold put_be_u16; by rewrite be_encode_length).
  subst h. destruct e, c; rewrite ?Z.land_lor_distr_l, Hland, !Hhigh by done;
    change (Z.land 32768 16383) with 0; change (Z.land 16384 16383) with 0; rewrite ?Z.lor_0_r; reflexivity.
Qed.

Lemma unpack_all l : Forall (λ m, 0 <= StreamID m <= StreamIDMax) l → omap (λ m, Unpack (Pack m)) l = l.
Proof.
  intros Hf. induction Hf as [|m l Hm Hf IH]; [done|]. cbn [omap list_omap]. rewrite (Unpack_Pack m Hm).
  f_equal. exact IH.
Qed.

(** ** Writing a stream *)

Section stream.
Context `{Bzip2Laws} (w : RawChannelWriter) (mdu : nat → Z).
Hypothesis open : w_eof w = false.
Hypothesis id_range : 0 <= w_streamID w <= StreamIDMax.
Hypothesis mdu_pos : ∀ i, 1 <= mdu i.

(** Writing all of [p], the write number [i] first, as a caller does that passes
    the rest of a short write again. *)
Fixpoint writeAll (fuel : nat) (i : nat) (p : bytes) : list StreamDataMessage :=
  match fuel, p with
  | S fuel, _ :: _ =>
      let '(m, n) := nextChunk (mdu i) p w in m :: writeAll fuel (S i) (drop (Z.to_nat n) p)
  | _, _ => []
  end.

(** What the reader takes from a message. *)
Definition payloadOf (m : StreamDataMessage) : bytes := if Compressed m then decompressData (Data m) else Data m.

Lemma probe_spec tries try m p c n :
  1 <= try → 0 < len p <= MaxChunkLen → probe tries try m p = Some (c, n) →
  0 <= n <= len p ∧ len c < m ∧ len c < n ∧ decompressData c = take (Z.to_nat n) p.
Proof.
  revert try. induction tries as [|tries IH]; intros try Ht Hp; cbn [probe]; [done|].
  assert (Hn : 0 <= len p `div` try <= len p).
  { split; [apply Z.div_pos; lia|]. apply Z.div_le_upper_bound; [lia|]. nia. }
  destruct (compressData _) as [x|] eqn:Hc; [|apply IH; [lia|done]].
  destruct (Z.ltb_spec (len x) m), (Z.ltb_spec (len x) (len p `div` try)); cbn [andb];
    try (apply IH; [lia|done]).
  intros [= <- <-]. split_and!; [lia|lia|lia|lia|]. unfold decompressData. rewrite (decode_compress _ _ Hc).
  rewrite (proj2 (Z.ltb_ge _ _)); [done|]. rewrite len_take. lia.
Qed.

(** A write takes a non-empty prefix of the data, and the reader gets that prefix. *)
Lemma nextChunk_spec m p :
  1 <= m → p ≠ [] →
  let '(msg, n) := nextChunk m p w in
  1 <= n <= len p ∧ payloadOf msg = take (Z.to_nat n) p ∧ len (Data msg) <= m ∧ StreamID msg = w_streamID w
  ∧ EOF msg = false.
Proof.
  intros Hm Hne. assert (Hid : u16 (w_streamID w) = w_streamID w).
  { apply Z.mod_small. unfold StreamIDMax in id_range. lia. }
  unfold nextChunk. set (q := if MaxChunkLen <? len p then _ else p). rewrite open, Hid.
  assert (Hq : q = take (length q) p ∧ 0 < len q <= MaxChunkLen ∧ len q <= len p).
  { assert (0 < len p). { destruct p; [done|]. rewrite len_cons. pose proof (len_nonneg p). lia. }
    subst q. destruct (Z.ltb_spec MaxChunkLen (len p)) as [Hb|Hb].
    - rewrite length_take, Nat.min_l by (unfold len in Hb; lia). rewrite len_take.
      unfold MaxChunkLen in *. split_and!; try lia. done.
    - rewrite firstn_all. split_and!; try lia. done. }
  destruct Hq as (Hq & Hql & Hqp). clearbody q.
  assert (Hplain : let q' := if m <? len q then take (Z.to_nat m) q else q in
    1 <= len q' <= len p ∧ q' = take (Z.to_nat (len q')) p ∧ len q' <= m).
  { cbv zeta. destruct (Z.ltb_spec m (len q)).
    - rewrite len_take. split_and!; [lia|lia| |lia]. rewrite Hq at 1; rewrite take_take. f_equal. unfold len in *. lia.
    - split_and!; [lia|lia| |lia]. rewrite Hq at 1. f_equal. unfold len. lia. }
  destruct (compression w && _); [destruct (probe _ 1 m q) as [[c n]|] eqn:Hpr|].
  - apply probe_spec in Hpr as (Hn & Hc1 & Hc2 & Hd); [|lia|done]. unfold payloadOf. cbn [Compressed Data StreamID EOF].
    pose proof (len_nonneg c). split_and!; [lia|lia| |lia|done|done].
    rewrite Hd, Hq, take_take. f_equal. unfold len in *. lia.
  - destruct Hplain as (H1' & H2 & H3). unfold payloadOf. cbn [Compressed Data StreamID EOF]. split_and!; try done; lia.
  - destruct Hplain as (H1' & H2 & H3). unfold payloadOf. cbn [Compressed Data StreamID EOF]. split_and!; try done; lia.
Qed.

Lemma writeAll_spec fuel i p :
  (length p <= fuel)%nat →
  concat (payloadOf <$> writeAll fuel i p) = p
  ∧ Forall (λ m, StreamID m = w_streamID w ∧ EOF m = false) (writeAll fuel i p)
  ∧ (∀ j m, writeAll fuel i p !! j = Some m → len (Data m) <= mdu (i + j)).
Proof.
  revert i p. induction fuel as [|fuel IH]; intros i p Hf.
  { destruct p; [|cbn in Hf; lia]. by split_and!. }
  destruct p as [|b p]; [by split_and!|]. cbn [writeAll].
  pose proof (nextChunk_spec (mdu i) (b :: p) (mdu_pos i)) as Hn.
  destruct (nextChunk (mdu i) (b :: p) w) as [m n]. destruct Hn as (Hn & Hp & Hd & Hid & He); [done|].
  destruct (IH (S i) (drop (Z.to_nat n) (b :: p))) as (Hc & Hall & Hm).
  { rewrite length_drop. unfold len in Hn. cbn in Hf, Hn |- *. lia. }
  split_and!.
  - cbn [fmap list_fmap concat]. rewrite Hp. fold (payloadOf <$> writeAll fuel (S i) (drop (Z.to_nat n) (b :: p))).
    rewrite Hc. apply take_drop.
  - by constructor.
  - intros [|j] x Hx; cbn in Hx; [injection Hx as <-; by rewrite Nat.add_0_r|].
    rewrite Nat.add_succ_r. by apply (Hm j x).
Qed.
End stream.

(** A reader that takes in the messages in order, one at each [None], while the
    application reads: up to [n] bytes at each [Some n].  The result is the reader,
    the bytes read and the messages that have not arrived yet. *)
Fixpoint follow `{Bzip2} (schedule : list (option Z)) (ms : list StreamDataMessage) (r : RawChannelReader)
    : RawChannelReader * bytes * list StreamDataMessage :=
  match schedule, ms with
  | [], _ => (r, [], ms)
  | None :: schedule, m :: ms => follow schedule ms (HandleMessage m r).1.1
  | None :: schedule, [] => follow schedule [] r
  | Some n :: schedule, _ =>
      let '(r, out, _) := Read n r in
      let '(r, out', ms) := follow schedule ms r in (r, out ++ out', ms)
  end.

(** The application keeps up: what it has not read yet never exceeds the buffer. *)
Fixpoint keepsUp `{Bzip2} (schedule : list (option Z)) (ms : list StreamDataMessage) (r : RawChannelReader) : Prop :=
  match schedule, ms with
  | [], _ => True
  | None :: schedule, m :: ms =>
      len (buffer r) + len (payloadOf m) <= maxReaderBufferBytes ∧ keepsUp schedule ms (HandleMessage m r).1.1
  | None :: schedule, [] => keepsUp schedule [] r
  | Some n :: schedule, _ => keepsUp schedule ms (Read n r).1.1
  end.

Lemma read_spec n r : let '(r', out, _) := Read n r in
  r_streamID r' = r_streamID r ∧ eof r' = eof r ∧ out ++ buffer r' = buffer r.
Proof.
  unfold Read. destruct (Z.eqb_spec (len (buffer r)) 0) as [He|]; [destruct (eof r) eqn:E|]; cbn [andb];
    by rewrite ?E; split_and!; try apply take_drop.
Qed.

Lemma message_spec `{Bzip2} m r :
  StreamID m = u16 (r_streamID r) → len (buffer r) + len (payloadOf m) <= maxReaderBufferBytes →
  let r1 := (HandleMessage m r).1.1 in
  r_streamID r1 = r_streamID r ∧ buffer r1 = buffer r ++ payloadOf m ∧ eof r1 = eof r || EOF m.
Proof.
  intros Hm Hl. unfold HandleMessage. rewrite Hm, Z.eqb_refl. cbn [negb fst r_streamID buffer eof]. fold (payloadOf m).
  split_and!; [done| |by destruct (EOF m), (eof r)]. destruct (Z.ltb_spec 0 (len (payloadOf m))).
  - by rewrite (proj2 (Z.leb_le _ _)) by lia.
  - pose proof (len_nonneg (payloadOf m)). rewrite (len_0_nil (payloadOf m)) by lia. by rewrite app_nil_r.
Qed.

Lemma follow_spec `{Bzip2} schedule : ∀ ms r,
  Forall (λ m, StreamID m = u16 (r_streamID r)) ms → keepsUp schedule ms r →
  let '(r', out, rest) := follow schedule ms r in
  ∃ arrived, ms = arrived ++ rest ∧ out ++ buffer r' = buffer r ++ concat (payloadOf <$> arrived)
    ∧ eof r' = eof r || existsb EOF arrived.
Proof.
  induction schedule as [|[n|] schedule IH]; intros ms r Hid Hk; cbn [follow].
  - exists []. cbn. by rewrite app_nil_r, orb_false_r.
  - pose proof (read_spec n r) as HR. cbn [keepsUp] in Hk. destruct (Read n r) as [[r1 out] e]. destruct HR as (E1 & E2 & E3).
    specialize (IH ms r1). rewrite E1 in IH. destruct (follow schedule ms r1) as [[r2 out'] rest].
    destruct IH as (arrived & -> & Hb & He); [done..|]. exists arrived. split; [done|].
    by rewrite <- app_assoc, Hb, app_assoc, E3, He, E2.
  - destruct ms as [|m ms]; [by apply IH|]. destruct Hk as [Hl Hk]. apply list.Forall_cons in Hid as [Hm Hid].
    destruct (message_spec m r Hm Hl) as (E1 & E2 & E3). specialize (IH ms (HandleMessage m r).1.1). rewrite E1 in IH.
    destruct (follow schedule ms _) as [[r2 out'] rest]. destruct IH as (arrived & -> & Hb & He); [done..|].
    exists (m :: arrived). split; [done|]. rewrite Hb, He, E2, E3. cbn. by rewrite app_assoc, orb_assoc.
Qed.

(** Data that fits the buffer as a whole needs no reading on the way. *)
Lemma small_keepsUp `{Bzip2} schedule : ∀ ms r,
  Forall (λ m, StreamID m = u16 (r_streamID r)) ms →
  len (buffer r) + len (concat (payloadOf <$> ms)) <= maxReaderBufferBytes → keepsUp schedule ms r.
Proof.
  induction schedule as [|[n|] schedule IH]; intros ms r Hid Hl; [done| |]; cbn [keepsUp].
  - pose proof (read_spec n r) as HR. destruct (Read n r) as [[r1 out] e]. destruct HR as (E1 & _ & E3). cbn [fst].
    apply IH; [by rewrite E1|]. rewrite <- E3, len_app in Hl. pose proof (len_nonneg out). lia.
  - destruct ms as [|m ms]; [by apply IH|]. apply list.Forall_cons in Hid as [Hm Hid]. cbn [fmap list_fmap concat] in Hl.
    fold (payloadOf <$> ms) in Hl. rewrite len_app in Hl. pose proof (len_nonneg (concat (payloadOf <$> ms))).
    assert (Hl1 : len (buffer r) + len (payloadOf m) <= maxReaderBufferBytes) by lia. split; [done|].
    destruct (message_spec m r Hm Hl1) as (E1 & E2 & _). apply IH; [by rewrite E1|]. rewrite E2, len_app. lia.
Qed.

(** The messages of a stream and the one that closes it. *)
Definition streamOf `{Bzip2} (id : Z) (comp : bool) (mdu : nat → Z) (d : bytes) : list StreamDataMessage :=
  let msgs := writeAll (mkWriter id false comp) mdu (length d) 0 d in
  msgs ++ [(nextChunk (mdu (length msgs)) [] (mkWriter id true comp)).1].

Lemma streamOf_spec `{Bzip2Laws} id comp mdu d :
  0 <= id <= StreamIDMax → (∀ i, 1 <= mdu i) →
  ∃ msgs, streamOf id comp mdu d = msgs ++ [mkStream id [] true false] ∧ concat (payloadOf <$> msgs) = d
    ∧ Forall (λ m, StreamID m = id ∧ EOF m = false) msgs
    ∧ (∀ i m, streamOf id comp mdu d !! i = Some m → len (Data m) <= mdu i)
    ∧ omap (λ m, Unpack (Pack m)) (streamOf id comp mdu d) = streamOf id comp mdu d.
Proof.
  intros Hid Hmdu. unfold streamOf. set (w := mkWriter id false comp).
  assert (Hu : u16 id = id) by (apply Z.mod_small; unfold StreamIDMax in Hid; lia).
  destruct (writeAll_spec w mdu eq_refl Hid Hmdu (length d) 0 d (le_n _)) as (Hcat & Hall & Hsize).
  set (msgs := writeAll w mdu (length d) 0 d) in *.
  assert (Hclose : (nextChunk (mdu (length msgs)) [] (mkWriter id true comp)).1 = mkStream id [] true false).
  { unfold nextChunk. cbn [w_streamID w_eof compression]. change (MaxChunkLen <? len []) with false.
    cbv iota. change (CompressThreshold <? len []) with false. rewrite andb_false_r, Hu.
    rewrite (proj2 (Z.ltb_ge _ _)) by (pose proof (Hmdu (length msgs)); unfold len; cbn; lia). done. }
  cbv zeta. rewrite Hclose. exists msgs. split_and!; [done|done|exact Hall| |].
  - intros i m [Hm|[Hge Hm]]%lookup_app_Some; [by apply (Hsize i m)|].
    apply list_lookup_singleton_Some in Hm as [_ <-]. specialize (Hmdu i). unfold len. cbn. lia.
  - apply unpack_all, Forall_app. split; [|constructor; [done|constructor]].
    apply (Forall_weaken _ _ _ Hall). by intros m [-> _].
Qed.

(** C14.  A stream arrives as it was written: data written in as many short writes
    as it takes, each under whatever message size the link allows at that time and
    with or without compression, then closed, is reproduced by the reader from the
    messages in order, while the application reads as it likes.  As long as the
    application never leaves more than 8 MiB unread (the reader drops what exceeds
    its buffer; data of up to 8 MiB needs no reading at all), what it has read and
    what is buffered make up the messages that have arrived, without loss, and the
    end of file is not seen before all of the data; when every message has
    arrived they make up the whole data and the end of file is known.  Every
    message fits the size it was cut for. *)
Theorem buffer_roundtrip `{Bzip2Laws} id comp (mdu : nat → Z) d schedule :
  0 <= id <= StreamIDMax → (∀ i, 1 <= mdu i) →
  let ms := streamOf id comp mdu d in
  let arriving := omap (λ m, Unpack (Pack m)) ms in
  (∀ i m, ms !! i = Some m → len (Pack m) <= mdu i + StreamHeaderSize)
  ∧ (len d <= maxReaderBufferBytes → keepsUp schedule arriving (NewRawChannelReader id))
  ∧ (keepsUp schedule arriving (NewRawChannelReader id) →
     let '(r, out, rest) := follow schedule arriving (NewRawChannelReader id) in
     ∃ arrived, arriving = arrived ++ rest ∧ out ++ buffer r = concat (payloadOf <$> arrived)
     ∧ out ++ buffer r `prefix_of` d
     ∧ (rest = [] → out ++ buffer r = d)
     ∧ eof r = bool_decide (rest = [])
     ∧ ∀ n, (Read n r).2 = bool_decide (rest = [] ∧ out = d)).
Proof.
  intros Hid Hmdu ms arriving. destruct (streamOf_spec id comp mdu d Hid Hmdu) as (msgs & Hms & Hcat & Hall & Hsize & Hpk).
  fold ms in Hms, Hsize, Hpk. subst arriving. rewrite Hpk.
  assert (Hids : Forall (λ m, StreamID m = u16 (r_streamID (NewRawChannelReader id))) ms).
  { cbn [r_streamID NewRawChannelReader]. unfold u16. rewrite Z.mod_small by (unfold StreamIDMax in Hid; lia). rewrite Hms. apply Forall_app.
    split; [|by repeat constructor]. apply (Forall_weaken _ _ _ Hall). by intros m [-> _]. }
  assert (Hd : concat (payloadOf <$> ms) = d) by (rewrite Hms, fmap_app, concat_app, Hcat; cbn; by rewrite app_nil_r).
  split_and!.
  - intros i m Hm. specialize (Hsize i m Hm). unfold Pack. rewrite len_app, Ch.len_put_be_u16. unfold StreamHeaderSize. lia.
  - intros Hl. apply small_keepsUp; [done|]. rewrite Hd. exact Hl.
  - intros Hk. pose proof (follow_spec schedule ms (NewRawChannelReader id) Hids Hk) as HF.
    destruct (follow schedule ms _) as [[r out] rest]. destruct HF as (arrived & Ha & Hb & He). cbn [buffer eof NewRawChannelReader app orb] in Hb, He.
    assert (He' : eof r = bool_decide (rest = [])).
    { rewrite He. case_bool_decide as Hr.
      - rewrite Hr, app_nil_r in Ha. rewrite <- Ha, Hms, existsb_app. cbn. by rewrite orb_true_r.
      - destruct rest as [|x rest] using rev_ind; [done|]. clear IHrest. rewrite Hms, app_assoc in Ha. apply app_inj_tail in Ha as [Ha _].
        apply not_true_iff_false. intros (m & Hm & Hx)%existsb_exists. rewrite Ha in Hall. apply Forall_app in Hall as [Hall _].
        rewrite List.Forall_forall in Hall. destruct (Hall m Hm). congruence. }
    assert (Hall' : rest = [] → out ++ buffer r = d) by (intros ->; rewrite app_nil_r in Ha; by rewrite Hb, <- Ha).
    exists arrived. split_and!; [done|done| |done|done|].
    + rewrite Hb, <- Hd, Ha, fmap_app, concat_app. by eexists.
    + intros n. unfold Read. rewrite He'. destruct (decide (rest = [])) as [Hr|Hr].
      * specialize (Hall' Hr). rewrite bool_decide_eq_true_2 by done. destruct (Z.eqb_spec (len (buffer r)) 0) as [Hz|Hz]; cbn [andb snd]; symmetry.
        -- apply bool_decide_eq_true_2. split; [done|]. by rewrite (len_0_nil (buffer r) Hz), app_nil_r in Hall'.
        -- apply bool_decide_eq_false_2. intros [_ ->]. apply Hz. rewrite <- (app_nil_r d) in Hall' at 2. apply app_inv_head in Hall'. by rewrite Hall'.
      * rewrite bool_decide_eq_false_2 by done. rewrite andb_false_r. symmetry. apply bool_decide_eq_false_2. by intros [? _].
Qed.

(** ** The buffered writer *)

(** [Write] of the raw writer, as [bufio] sees it. *)
Definition rawWrite {A} `{Bzip2} (link : option Ch.outlet) (now : Z) (w : RawChannelWriter) (p : bytes)
    (c : Ch.Channel A) : Ch.Channel A * Z * option Ch.channel_error :=
  let '(c, r) := WriteContext link now (Ok ()) p w c in
  match r with Ok n => (c, n, None) | Err e => (c, 0, Some e) | Panic => (c, 0, None) end.

(** A buffered writer fails on data that does not fit one message: with a
    ready link and compression off, flushing a buffered write longer than the
    stream MDU sends its first chunk, reports a short write, and leaves the writer
    in that error: every later write and flush fails without sending anything, and
    the rest of the data is never sent. *)
Theorem bufio_short_write {A} `{Bzip2} o now id p (c : Ch.Channel A) :
  Ch.IsReadyToSend (Some o) c = true → 9 <= Ch.outletMDU (Some o) → (∀ raw, Ch.transmit o raw ≠ None) →
  streamMDU (Some o) < len p <= bufioSize →
  let w := mkWriter id false false in
  let write := rawWrite (Some o) now w in
  let b := (WriteFits p (mkBufio [] None)).1 in
  ∃ c' b', Flush write b c = (c', b', Some ShortWrite)
    ∧ pending b' = drop (Z.to_nat (streamMDU (Some o))) p ∧ pending b' ≠ []
    ∧ (∀ q, (WriteFits q b').2 = Some ShortWrite) ∧ ∀ c'', Flush write b' c'' = (c'', b', Some ShortWrite).
Proof.
  intros Hready Hmdu Htx Hp w write b. unfold bufioSize in Hp.
  assert (Hs : 1 <= streamMDU (Some o) /\ streamMDU (Some o) + 8 <= Ch.outletMDU (Some o) /\ streamMDU (Some o) <= 65533).
  { unfold streamMDU, Ch.MDU, StreamHeaderSize, Ch.ChannelHeaderSize.
    destruct (Z.ltb_spec (Z.max (Z.min (Ch.outletMDU (Some o) - 6) 65535) 1 - 2) 1); lia. }
  set (m := streamMDU (Some o)) in *.
  set (chunk := take (Z.to_nat m) p).
  assert (Hchunk : len chunk = m) by (subst chunk; rewrite len_take; lia).
  assert (Hnext : nextChunk m p w = (mkStream (u16 id) chunk false false, m)).
  { unfold nextChunk. cbn [compression w andb w_streamID w_eof].
    rewrite (proj2 (Z.ltb_ge MaxChunkLen (len p))) by (unfold MaxChunkLen; lia).
    rewrite (proj2 (Z.ltb_lt m (len p))) by lia. fold chunk. by rewrite Hchunk. }
  set (msg := mkStream (u16 id) chunk false false) in *.
  assert (Hpack : len (Pack msg) = m + 2).
  { unfold Pack. rewrite len_app, Ch.len_put_be_u16. subst msg. cbn [Data]. lia. }
  set (out := Ch.mkOut StreamDataMessageType (Ok (Pack msg))).
  assert (Hsend : ∃ c', Ch.Send (Some o) now out c = (c', Ok ())).
  { unfold Ch.Send. rewrite Hready. cbn [negb]. subst out. cbn [Ch.Pack Ch.GetType].
    unfold Ch.packEnvelope. rewrite (proj2 (Z.ltb_ge _ _)) by lia.
    rewrite (proj2 (Z.ltb_ge _ _)) by (rewrite !len_app, !Ch.len_put_be_u16; lia).
    set (raw := put_be_u16 _ ++ _). specialize (Htx raw). destruct (Ch.transmit o raw); [by eexists|done]. }
  destruct Hsend as [c' Hsend].
  assert (Hw : write p c = (c', m, None)).
  { subst write. unfold rawWrite, WriteContext. fold m. rewrite Hnext. fold out. by rewrite Hsend. }
  exists c', (mkBufio (drop (Z.to_nat m) p) (Some ShortWrite)). subst b. cbn [WriteFits sticky pending fst snd app].
  unfold Flush at 1. cbn [sticky pending]. rewrite (proj2 (Z.eqb_neq _ _)) by lia. rewrite Hw.
  rewrite (proj2 (Z.ltb_lt _ _)) by lia. split_and!; [done|done| |done|done].
  intros Hnil. assert (Hl : len (drop (Z.to_nat m) p) = 0) by (by rewrite Hnil). rewrite len_drop in Hl. lia.
Qed.

(** *** A concrete codec *)

(** Run-length coding of constant data. *)
Definition runLength : Bzip2 := {|
  bzip2Compress d :=
    match d with
    | b :: _ =>
        if bool_decide (d = replicate (length d) b) && (len d <? 65536)
        then Some (x00 :: b :: put_be_u16 (len d)) else Some (x01 :: d)
    | [] => Some [x01]
    end;
  bzip2Decode c :=
    match c with
    | x00 :: b :: l => Some (replicate (Z.to_nat (be_u16 l)) b)
    | x01 :: d => Some d
    | _ => None
    end
|}.

Lemma runLength_laws : @Bzip2Laws runLength.
Proof.
  intros d c. cbn [bzip2Compress bzip2Decode runLength]. destruct d as [|b d]; [by intros [= <-]|].
  destruct (bool_decide _) eqn:Hd; cbn [andb]; [|by intros [= <-]]. apply bool_decide_eq_true in Hd.
  destruct (Z.ltb_spec (len (b :: d)) 65536) as [Hl|]; [|by intros [= <-]]. intros Hc.
  assert (c = x00 :: b :: put_be_u16 (len (b :: d))) as -> by congruence.
  rewrite Ch.be_u16_put_all by (pose proof (len_nonneg (b :: d)); lia). f_equal. unfold len. rewrite Nat2Z.id. done.
Qed.

Definition hundred : bytes := replicate 100 x61 ++ [x01; x02; x03].

Lemma buffer_roundtrip_witness :
  let arriving := omap (λ m, Unpack (Pack m)) (@streamOf runLength 5 true (λ _, 20) hundred) in
  keepsUp (H:=runLength) [None; Some 7; None] arriving (NewRawChannelReader 5)
  ∧ (follow (H:=runLength) [None; Some 7; None] arriving (NewRawChannelReader 5)).1.2
    ++ buffer (follow (H:=runLength) [None; Some 7; None] arriving (NewRawChannelReader 5)).1.1 `prefix_of` hundred.
Proof.
  intros arriving.
  destruct (@buffer_roundtrip runLength runLength_laws 5 true (λ _, 20) hundred [None; Some 7; None]) as (_ & Hk & HF).
  - split; [lia|vm_compute; discriminate].
  - lia.
  - fold arriving in Hk, HF. assert (HK : keepsUp (H:=runLength) [None; Some 7; None] arriving (NewRawChannelReader 5)).
    { apply Hk. vm_compute. discriminate. }
    split; [exact HK|]. specialize (HF HK). destruct (follow _ _ _) as [[r out] rest]. destruct HF as (_ & _ & _ & HF & _). exact HF.
Defined.

Definition tinyOutlet : Ch.outlet := Ch.mkOutlet x02 (Float64.of_Z 0) (Some 20) (λ _, Some 1) (λ _, true).

Lemma bufio_short_write_witness :
  ∃ c' b', Flush (@rawWrite Empty_set runLength (Some tinyOutlet) 0 (mkWriter 5 false false))
      (mkBufio hundred None) (Ch.NewChannel (Some tinyOutlet)) = (c', b', Some ShortWrite).
Proof.
  destruct (@bufio_short_write Empty_set runLength tinyOutlet 0 5 hundred (Ch.NewChannel (Some tinyOutlet)))
    as (c' & b' & H & _).
  - vm_compute. reflexivity.
  - vm_compute. discriminate.
  - discriminate.
  - split; vm_compute; [reflexivity|discriminate].
  - exists c', b'. exact H.
Defined.

End Buffer.
