(* ===== verification/Resource.v ===== *)
(** * Resources

    [pkg/resource]: a resource held in memory, its preparation for a link
    (metadata, compression, encryption, parts and their map hashes, split
    segments) and its advertisement.  Resources read from a file handle are not
    modelled.  The bzip2 stream codec and the msgpack codec are parameters. *)

From stdpp Require Import strings.
From S2P Require Import Prelude.
From S2P Require Import Sha256.
From S2P Require Import Float64.

Module Resource.
Local Open Scope go_scope.

Definition DefaultSegmentSize : Z := 384.
Definition MaxSegments : Z := 65535.
Definition Window : Z := 4.
Definition WindowMin : Z := 2.
Definition WindowMaxSlow : Z := 10.
Definition WindowMaxFast : Z := 75.
Definition WindowFlexibility : Z := 4.
Definition MapHashLen : Z := 4.
Definition RandomHashSize : Z := 4.
Definition MaxEfficientSize : Z := 1 * 1024 * 1024 - 1.
Definition AutoCompressMaxSize : Z := MaxEfficientSize.
Definition MetadataMaxSize : Z := 16 * 1024.
Definition Overhead : Z := 134.
Definition DefaultLinkMDU : Z := 431.
Definition HashmapMaxLen : Z := (DefaultLinkMDU - Overhead) `quot` MapHashLen.
Definition CollisionGuardSize : Z := 2 * WindowMaxFast + HashmapMaxLen.

Definition AdvFlagEncrypted : byte := x01.
Definition AdvFlagCompressed : byte := x02.
Definition AdvFlagSplit : byte := x04.
Definition AdvFlagIsRequest : byte := x08.
Definition AdvFlagIsResponse : byte := x10.
Definition AdvFlagHasMetadata : byte := x20.

Definition CompressionEntropyBase : Float64.f64 := Float64.ratio 3 10.
Definition CompressionEntropyRange : Float64.f64 := Float64.ratio 7 10.

Inductive resource_error :=
  | InvalidSDU | NoData | NegativeRead | OffsetPastEnd | InvalidSegmentIndex (i n : Z) | MetadataExceedsSegment
  | MetadataTooLarge | MarshalFailed | RandFailed | CompressFailed | EncryptFailed | TooLarge | NoNextSegment
  | InvalidSegment | EndOfFile
  | AdvTooLarge | UnpackFailed | TransferSizeOverflow | TransferSizeNegative | InvalidTransferSize
  | DataSizeOverflow | DataSizeNegative | PartsOutOfRange | PartsNegative | HashLength | OriginalHashLength
  | FlagsOutOfRange | BadFlagsType | SegmentIndexRange | TotalSegmentsRange.

(** ** The codecs *)

(** bzip2: compressing, and reading at most [limit] bytes of a decoded stream. *)
Class Bzip2Stream := {
  bzip2CompressBody : bytes → option bytes;
  bzip2Read : bytes → Z → option bytes
}.
Class Bzip2StreamLaws `{Bzip2Stream} :=
  read_compressed : ∀ d c n, bzip2CompressBody d = Some c → bzip2Read c n = Some (take (Z.to_nat n) d).

(** The values of a decoded msgpack map, with the Go type of an integer. *)
Inductive ikind := Kint | Kint8 | Kint16 | Kint32 | Kint64 | Kuint8 | Kuint16 | Kuint32 | Kuint64.
Inductive any := AInt (k : ikind) (z : Z) | ABytes (b : bytes) | ANil | AOther.

Class Msgpack := {
  marshalMap : gmap string any → option bytes;
  unmarshalMap : bytes → option (gmap string any)
}.

(** Integers keep their value, byte strings their content; an absent slice may
    come back as nil. *)
Definition any_same (a b : any) : Prop :=
  match a, b with
  | AInt _ x, AInt _ y => x = y
  | ABytes x, ABytes y => x = y
  | ABytes [], ANil => True
  | ANil, ANil => True
  | _, _ => False
  end.
Class MsgpackLaws `{Msgpack} := {
  unmarshal_marshal : ∀ m b, marshalMap m = Some b →
    ∃ m', unmarshalMap b = Some m' ∧ (∀ k, option_Forall2 any_same (m !! k) (m' !! k))
}.

(** ** The resource *)

Inductive rstatus := StatusPending | StatusActive | StatusComplete | StatusFailed | StatusCancelled.
#[global] Instance rstatus_eq_dec : EqDecision rstatus.
Proof. solve_decision. Defined.

(** The application's callbacks. *)
Inductive event := Called | Progressed.

(** A metadata map: its number of entries and its msgpack encoding. *)
Record Meta := mkMeta { m_len : Z; m_packed : option bytes }.

Record Resource := mkResource {
  data : option bytes;
  sourceData : option bytes;
  hash : bytes;
  randomHash : bytes;
  originalHash : bytes;
  status : rstatus;
  compressed : bool;
  autoCompress : bool;
  encrypted : bool;
  split : bool;
  segments : Z;
  segmentIndex : Z;
  totalSegments : Z;
  completedParts : gset Z;
  transferSize : Z;
  dataSize : Z;
  totalSize : Z;
  progress : Float64.f64;
  callback : bool;
  progressCallback : bool;
  readOffset : Z;
  requestID : option bytes;
  isResponse : bool;
  hashmap : option bytes;
  outboundCipher : option bytes;
  outboundPartSent : option (list bool);
  outboundSentCount : Z;
  metadata : option Meta;
  metadataPacked : bytes;
  events : list event
}.

Definition set_data (v0 : option bytes) (v1 : option bytes) (r : Resource) : Resource :=
  mkResource v0 v1 (hash r) (randomHash r) (originalHash r) (status r) (compressed r) (autoCompress r)
    (encrypted r) (split r) (segments r) (segmentIndex r) (totalSegments r) (completedParts r) (transferSize
    r) (dataSize r) (totalSize r) (progress r) (callback r) (progressCallback r) (readOffset r) (requestID
    r) (isResponse r) (hashmap r) (outboundCipher r) (outboundPartSent r) (outboundSentCount r) (metadata r)
    (metadataPacked r) (events r).
Definition set_hash (v0 : bytes) (v1 : bytes) (v2 : bytes) (r : Resource) : Resource :=
  mkResource (data r) (sourceData r) v0 v1 v2 (status r) (compressed r) (autoCompress r) (encrypted r)
    (split r) (segments r) (segmentIndex r) (totalSegments r) (completedParts r) (transferSize r) (dataSize
    r) (totalSize r) (progress r) (callback r) (progressCallback r) (readOffset r) (requestID r) (isResponse
    r) (hashmap r) (outboundCipher r) (outboundPartSent r) (outboundSentCount r) (metadata r)
    (metadataPacked r) (events r).
Definition set_status (v0 : rstatus) (r : Resource) : Resource :=
  mkResource (data r) (sourceData r) (hash r) (randomHash r) (originalHash r) v0 (compressed r)
    (autoCompress r) (encrypted r) (split r) (segments r) (segmentIndex r) (totalSegments r) (completedParts
    r) (transferSize r) (dataSize r) (totalSize r) (progress r) (callback r) (progressCallback r)
    (readOffset r) (requestID r) (isResponse r) (hashmap r) (outboundCipher r) (outboundPartSent r)
    (outboundSentCount r) (metadata r) (metadataPacked r) (events r).
Definition set_compressed (v0 : bool) (r : Resource) : Resource :=
  mkResource (data r) (sourceData r) (hash r) (randomHash r) (originalHash r) (status r) v0 (autoCompress r)
    (encrypted r) (split r) (segments r) (segmentIndex r) (totalSegments r) (completedParts r) (transferSize
    r) (dataSize r) (totalSize r) (progress r) (callback r) (progressCallback r) (readOffset r) (requestID
    r) (isResponse r) (hashmap r) (outboundCipher r) (outboundPartSent r) (outboundSentCount r) (metadata r)
    (metadataPacked r) (events r).
Definition set_encrypted (v0 : bool) (r : Resource) : Resource :=
  mkResource (data r) (sourceData r) (hash r) (randomHash r) (originalHash r) (status r) (compressed r)
    (autoCompress r) v0 (split r) (segments r) (segmentIndex r) (totalSegments r) (completedParts r)
    (transferSize r) (dataSize r) (totalSize r) (progress r) (callback r) (progressCallback r) (readOffset
    r) (requestID r) (isResponse r) (hashmap r) (outboundCipher r) (outboundPartSent r) (outboundSentCount
    r) (metadata r) (metadataPacked r) (events r).
Definition set_split (v0 : bool) (v1 : Z) (v2 : Z) (r : Resource) : Resource :=
  mkResource (data r) (sourceData r) (hash r) (randomHash r) (originalHash r) (status r) (compressed r)
    (autoCompress r) (encrypted r) v0 (segments r) v2 v1 (completedParts r) (transferSize r) (dataSize r)
    (totalSize r) (progress r) (callback r) (progressCallback r) (readOffset r) (requestID r) (isResponse r)
    (hashmap r) (outboundCipher r) (outboundPartSent r) (outboundSentCount r) (metadata r) (metadataPacked
    r) (events r).
Definition set_segments (v0 : Z) (r : Resource) : Resource :=
  mkResource (data r) (sourceData r) (hash r) (randomHash r) (originalHash r) (status r) (compressed r)
    (autoCompress r) (encrypted r) (split r) v0 (segmentIndex r) (totalSegments r) (completedParts r)
    (transferSize r) (dataSize r) (totalSize r) (progress r) (callback r) (progressCallback r) (readOffset
    r) (requestID r) (isResponse r) (hashmap r) (outboundCipher r) (outboundPartSent r) (outboundSentCount
    r) (metadata r) (metadataPacked r) (events r).
Definition set_completed (v0 : gset Z) (v1 : Float64.f64) (r : Resource) : Resource :=
  mkResource (data r) (sourceData r) (hash r) (randomHash r) (originalHash r) (status r) (compressed r)
    (autoCompress r) (encrypted r) (split r) (segments r) (segmentIndex r) (totalSegments r) v0
    (transferSize r) (dataSize r) (totalSize r) v1 (callback r) (progressCallback r) (readOffset r)
    (requestID r) (isResponse r) (hashmap r) (outboundCipher r) (outboundPartSent r) (outboundSentCount r)
    (metadata r) (metadataPacked r) (events r).
Definition set_sizes (v0 : Z) (v1 : Z) (r : Resource) : Resource :=
  mkResource (data r) (sourceData r) (hash r) (randomHash r) (originalHash r) (status r) (compressed r)
    (autoCompress r) (encrypted r) (split r) (segments r) (segmentIndex r) (totalSegments r) (completedParts
    r) v0 v1 (totalSize r) (progress r) (callback r) (progressCallback r) (readOffset r) (requestID r)
    (isResponse r) (hashmap r) (outboundCipher r) (outboundPartSent r) (outboundSentCount r) (metadata r)
    (metadataPacked r) (events r).
Definition set_totalSize (v0 : Z) (r : Resource) : Resource :=
  mkResource (data r) (sourceData r) (hash r) (randomHash r) (originalHash r) (status r) (compressed r)
    (autoCompress r) (encrypted r) (split r) (segments r) (segmentIndex r) (totalSegments r) (completedParts
    r) (transferSize r) (dataSize r) v0 (progress r) (callback r) (progressCallback r) (readOffset r)
    (requestID r) (isResponse r) (hashmap r) (outboundCipher r) (outboundPartSent r) (outboundSentCount r)
    (metadata r) (metadataPacked r) (events r).
Definition set_callbacks (v0 : bool) (v1 : bool) (r : Resource) : Resource :=
  mkResource (data r) (sourceData r) (hash r) (randomHash r) (originalHash r) (status r) (compressed r)
    (autoCompress r) (encrypted r) (split r) (segments r) (segmentIndex r) (totalSegments r) (completedParts
    r) (transferSize r) (dataSize r) (totalSize r) (progress r) v0 v1 (readOffset r) (requestID r)
    (isResponse r) (hashmap r) (outboundCipher r) (outboundPartSent r) (outboundSentCount r) (metadata r)
    (metadataPacked r) (events r).
Definition set_request (v0 : option bytes) (v1 : bool) (r : Resource) : Resource :=
  mkResource (data r) (sourceData r) (hash r) (randomHash r) (originalHash r) (status r) (compressed r)
    (autoCompress r) (encrypted r) (split r) (segments r) (segmentIndex r) (totalSegments r) (completedParts
    r) (transferSize r) (dataSize r) (totalSize r) (progress r) (callback r) (progressCallback r)
    (readOffset r) v0 v1 (hashmap r) (outboundCipher r) (outboundPartSent r) (outboundSentCount r) (metadata
    r) (metadataPacked r) (events r).
Definition set_hashmap (v0 : option bytes) (r : Resource) : Resource :=
  mkResource (data r) (sourceData r) (hash r) (randomHash r) (originalHash r) (status r) (compressed r)
    (autoCompress r) (encrypted r) (split r) (segments r) (segmentIndex r) (totalSegments r) (completedParts
    r) (transferSize r) (dataSize r) (totalSize r) (progress r) (callback r) (progressCallback r)
    (readOffset r) (requestID r) (isResponse r) v0 (outboundCipher r) (outboundPartSent r)
    (outboundSentCount r) (metadata r) (metadataPacked r) (events r).
Definition set_cipher (v0 : option bytes) (v1 : Z) (r : Resource) : Resource :=
  mkResource (data r) (sourceData r) (hash r) (randomHash r) (originalHash r) (status r) (compressed r)
    (autoCompress r) (encrypted r) (split r) (segments r) (segmentIndex r) (totalSegments r) (completedParts
    r) (transferSize r) (dataSize r) (totalSize r) (progress r) (callback r) (progressCallback r) v1
    (requestID r) (isResponse r) (hashmap r) v0 (outboundPartSent r) (outboundSentCount r) (metadata r)
    (metadataPacked r) (events r).
Definition set_sent (v0 : option (list bool)) (v1 : Z) (r : Resource) : Resource :=
  mkResource (data r) (sourceData r) (hash r) (randomHash r) (originalHash r) (status r) (compressed r)
    (autoCompress r) (encrypted r) (split r) (segments r) (segmentIndex r) (totalSegments r) (completedParts
    r) (transferSize r) (dataSize r) (totalSize r) (progress r) (callback r) (progressCallback r)
    (readOffset r) (requestID r) (isResponse r) (hashmap r) (outboundCipher r) v0 v1 (metadata r)
    (metadataPacked r) (events r).
Definition set_metadata (v0 : option Meta) (v1 : bytes) (r : Resource) : Resource :=
  mkResource (data r) (sourceData r) (hash r) (randomHash r) (originalHash r) (status r) (compressed r)
    (autoCompress r) (encrypted r) (split r) (segments r) (segmentIndex r) (totalSegments r) (completedParts
    r) (transferSize r) (dataSize r) (totalSize r) (progress r) (callback r) (progressCallback r)
    (readOffset r) (requestID r) (isResponse r) (hashmap r) (outboundCipher r) (outboundPartSent r)
    (outboundSentCount r) v0 v1 (events r).
Definition set_events (v0 : list event) (r : Resource) : Resource :=
  mkResource (data r) (sourceData r) (hash r) (randomHash r) (originalHash r) (status r) (compressed r)
    (autoCompress r) (encrypted r) (split r) (segments r) (segmentIndex r) (totalSegments r) (completedParts
    r) (transferSize r) (dataSize r) (totalSize r) (progress r) (callback r) (progressCallback r)
    (readOffset r) (requestID r) (isResponse r) (hashmap r) (outboundCipher r) (outboundPartSent r)
    (outboundSentCount r) (metadata r) (metadataPacked r) v0.

Definition fire (e : event) (on : bool) (r : Resource) : Resource :=
  if on then set_events (events r ++ [e]) r else r.

Abbreviation M := (goM Resource resource_error).

(** [append([]byte(nil), b...)]: nil for an empty slice. *)
Definition fresh_copy (b : bytes) : option bytes := match b with [] => None | _ => Some b end.

Definition estimateCompressibility (d : bytes) : Float64.f64 :=
  let sampleSize := Z.min (len d) 4096 in
  let unique := size (list_to_set (take (Z.to_nat sampleSize) d) : gset byte) in
  let uniqueRatio := Float64.div (Float64.of_Z (Z.of_nat unique)) (Float64.of_Z sampleSize) in
  Float64.add CompressionEntropyBase (Float64.mul CompressionEntropyRange uniqueRatio).

Definition calculateHash (r : Resource) : Resource :=
  set_hash (Sha256.Sum256 (default [] (data r))) (randomHash r) (originalHash r) r.

Definition New (v : option bytes) (auto : bool) : Resource :=
  let dataSize := len (default [] v) in
  let parts := (dataSize + DefaultSegmentSize - 1) `quot` DefaultSegmentSize in
  let parts := if parts <? 1 then 1 else parts in
  let segments := if MaxSegments <? parts then MaxSegments else u16 parts in
  let transfer :=
    if auto then
      let t := match v with
               | Some d => Float64.to_int64 (Float64.mul (Float64.of_Z dataSize) (estimateCompressibility d))
               | None => dataSize
               end in
      let t := if t <? dataSize `quot` 10 then dataSize `quot` 10 else t in
      t + 64
    else dataSize in
  calculateHash
    (mkResource v None [] [] [] StatusPending false auto false false segments 0 0 ∅ transfer dataSize 0
       (Float64.of_Z 0) false false 0 None false None None None 0 None [] []).

Definition GetTotalSize (r : Resource) : Z := if 0 <? totalSize r then totalSize r else dataSize r.

Definition Cancel (r : Resource) : Resource :=
  match status r with
  | StatusPending | StatusActive => fire Called (callback r) (set_status StatusCancelled r)
  | _ => r
  end.

Definition GetSegmentData (segment : Z) (r : Resource) : outcome resource_error bytes :=
  if segments r <=? segment then Err InvalidSegment
  else
    let start := segment * DefaultSegmentSize in
    let size := if segment =? segments r - 1 then dataSize r - start else DefaultSegmentSize in
    if size <? 0 then Panic
    else match data r with
         | Some d => go_slice start (start + size) d
         | None => Err NoData
         end.

Definition MarkSegmentComplete (segment : Z) (r : Resource) : Resource :=
  if segments r <=? segment then r
  else
    let parts := {[ segment ]} ∪ completedParts r in
    let completed := Z.of_nat (size parts) in
    let r := set_completed parts (Float64.div (Float64.of_Z completed) (Float64.of_Z (segments r))) r in
    let r := fire Progressed (progressCallback r) r in
    if completed =? segments r then fire Called (callback r) (set_status StatusComplete r) else r.

Definition IsSegmentComplete (segment : Z) (r : Resource) : bool := bool_decide (segment ∈ completedParts r).

Definition Activate (r : Resource) : Resource :=
  match status r with StatusPending => set_status StatusActive r | _ => r end.

Definition SetFailed (r : Resource) : Resource :=
  match status r with
  | StatusComplete => r
  | _ => fire Called (callback r) (set_status StatusFailed r)
  end.

(** ** Metadata *)

(** The blob of packed metadata: a length in three bytes and the bytes. *)
Definition metaBlob (packed : bytes) : bytes :=
  let n := len packed in
  [z2b (Z.shiftr n 16); z2b (Z.shiftr n 8); z2b n] ++ packed.

Definition SetMetadataPacked (packed : bytes) : M () :=
  match packed with
  | [] => modify (set_metadata None [])
  | _ =>
      guard_go (negb (MetadataMaxSize <? len packed)) MetadataTooLarge ;;
      modify (set_metadata None (metaBlob packed))
  end.

Definition ensureMetadataPackedLocked : M () :=
  r ← mget;
  if 0 <? len (metadataPacked r) then mret ()
  else
    match metadata r with
    | None => mret ()
    | Some m =>
        if m_len m =? 0 then mret ()
        else
          match m_packed m with
          | None => fail MarshalFailed
          | Some packed =>
              guard_go (negb (MetadataMaxSize <? len packed)) MetadataTooLarge ;;
              modify (set_metadata (Some m) (metaBlob packed))
          end
    end.

Definition SetMetadata (meta : option Meta) : M () :=
  match meta with
  | None => modify (set_metadata None [])
  | Some m => modify (set_metadata (Some m) []) ;; ensureMetadataPackedLocked
  end.

Definition HasMetadata (r : Resource) : bool :=
  match metadata r with Some m => 0 <? m_len m | None => false end || (0 <? len (metadataPacked r)).

(** ** Preparation *)

(** The bytes the resource is read from. *)
Definition source (r : Resource) : option bytes :=
  match sourceData r with Some s => Some s | None => data r end.

Definition rawBodySizeLocked (r : Resource) : outcome resource_error Z :=
  match source r with Some s => Ok (len s) | None => Err NoData end.

Definition readRawBodyLocked (offset length : Z) (r : Resource) : outcome resource_error bytes :=
  if length <? 0 then Err NegativeRead
  else if length =? 0 then Ok []
  else
    match source r with
    | Some s =>
        if len s <? offset then Err OffsetPastEnd
        else go_slice offset (Z.min (offset + length) (len s)) s
    | None => Err NoData
    end.

Definition mapHash (random part : bytes) : bytes := take (Z.to_nat MapHashLen) (Sha256.Sum256 (part ++ random)).

(** The part [i] of a blob cut at [sdu] bytes. *)
Definition partOf (sdu : Z) (blob : bytes) (i : Z) : bytes :=
  slice (i * sdu) (Z.min (i * sdu + sdu) (len blob)) blob.

Definition partCount (sdu : Z) (blob : bytes) : Z := (len blob + sdu - 1) `quot` sdu.

(** What the segment [index] takes of the body, and whether it carries the
    metadata. *)
Definition segmentRange (firstRead fileSize index : Z) : Z * Z * bool :=
  if index =? 1 then (0, Z.min firstRead fileSize, true)
  else
    let offset := firstRead + (index - 2) * MaxEfficientSize in
    let length := if fileSize <? offset + MaxEfficientSize then fileSize - offset else MaxEfficientSize in
    (offset, if length <? 0 then 0 else length, false).

Section prepare.
Context `{Bzip2Stream} (encrypt : bytes → option bytes) (rand : option bytes) (sdu : Z).

Definition finishPrepareSegmentLocked (segmentBody : bytes) (includeMeta : bool) : M () :=
  r ← mget;
  let keepOriginal := originalHash r in
  let wireBody := if includeMeta && (0 <? len (metadataPacked r)) then metadataPacked r ++ segmentBody
                  else segmentBody in
  match rand with
  | None => fail RandFailed
  | Some randomHash =>
      payload ←
        (if autoCompress r then
           match bzip2CompressBody wireBody with
           | None => fail CompressFailed
           | Some c =>
               if len c <? len wireBody then modify (set_compressed true) ;; mret c
               else modify (set_compressed false) ;; mret wireBody
           end
         else modify (set_compressed false) ;; mret wireBody);
      let hash := Sha256.Sum256 (wireBody ++ randomHash) in
      modify (set_hash hash randomHash (if len keepOriginal =? 32 then keepOriginal else hash)) ;;
      let keepSource := match split r, sourceData r with true, None => data r | _, s => s end in
      modify (set_data (fresh_copy segmentBody) keepSource) ;;
      match encrypt (randomHash ++ payload) with
      | None => fail EncryptFailed
      | Some innerBlob =>
          modify (set_encrypted true) ;;
          let n := partCount sdu innerBlob in
          guard_go (negb (MaxSegments <? n)) TooLarge ;;
          modify (set_segments (u16 n)) ;;
          modify (set_sizes (len innerBlob) (len wireBody)) ;;
          modify (set_hashmap (Some (mjoin ((λ i, mapHash randomHash (partOf sdu innerBlob i)) <$> seqZ 0 n)))) ;;
          modify (set_cipher (Some innerBlob) 0)
      end
  end.

Definition PrepareOutboundForLink : M () :=
  guard_go (0 <? sdu) InvalidSDU ;;
  modify (set_sent None 0) ;;
  ensureMetadataPackedLocked ;;
  r ← mget;
  let metaLen := len (metadataPacked r) in
  fileSize ← lift (rawBodySizeLocked r);
  let totalSize := fileSize + metaLen in
  modify (set_totalSize totalSize) ;;
  let index := if segmentIndex r =? 0 then 1 else segmentIndex r in
  modify (set_split (split r) (totalSegments r) index) ;;
  if totalSize <=? MaxEfficientSize then
    modify (set_split false 1 1) ;;
    r ← mget;
    body ← lift (readRawBodyLocked 0 fileSize r);
    finishPrepareSegmentLocked body true
  else
    let total := u16 ((totalSize - 1) `quot` MaxEfficientSize + 1) in
    modify (set_split true total index) ;;
    guard_go (negb ((index <? 1) || (total <? index))) (InvalidSegmentIndex index total) ;;
    let firstRead := MaxEfficientSize - metaLen in
    guard_go (0 <=? firstRead) MetadataExceedsSegment ;;
    let '(offset, length, includeMeta) := segmentRange firstRead fileSize index in
    r ← mget;
    body ← lift (readRawBodyLocked offset length r);
    finishPrepareSegmentLocked body includeMeta.

Definition PrepareNextOutboundSegment : M () :=
  r ← mget;
  guard_go (negb (negb (split r) || (totalSegments r <=? segmentIndex r))) NoNextSegment ;;
  modify (set_split (split r) (totalSegments r) (u16 (segmentIndex r + 1))) ;;
  PrepareOutboundForLink.
End prepare.

(** [Read] into a slice of [n] bytes. *)
Definition Read (n : Z) : M bytes :=
  r ← mget;
  match (match outboundCipher r with Some c => Some c | None => data r end) with
  | Some src =>
      guard_go (negb (len src <=? readOffset r)) EndOfFile ;;
      let out := take (Z.to_nat n) (drop (Z.to_nat (readOffset r)) src) in
      modify (set_cipher (outboundCipher r) (readOffset r + len out)) ;;
      mret out
  | None => fail NoData
  end.

(** ** Parts and their map hashes *)

(** The entries of a hash map. *)
Definition mapEntry (m : bytes) (i : Z) : bytes := slice (i * MapHashLen) (i * MapHashLen + MapHashLen) m.

Definition PartIndicesForMapHash (mh : bytes) (r : Resource) : list Z :=
  match hashmap r with
  | Some m =>
      if len mh =? MapHashLen
      then filter (λ i, mapEntry m i = mh) (seqZ 0 (len m `quot` MapHashLen)) else []
  | None => []
  end.

Definition PartIndexForMapHash (mh : bytes) (r : Resource) : Z :=
  match PartIndicesForMapHash mh r with i :: _ => i | [] => -1 end.

Definition OutboundCiphertextSlice (partIndex sdu : Z) (r : Resource) : bytes :=
  match outboundCipher r with
  | None => []
  | Some c =>
      if sdu <=? 0 then []
      else if (partIndex <? 0) || (segments r <=? partIndex) then []
      else if len c <=? partIndex * sdu then []
      else partOf sdu c partIndex
  end.

Definition MarkOutboundPartSent (i : Z) (r : Resource) : Resource * bool :=
  let n := segments r in
  if n =? 0 then (r, true)
  else if (i <? 0) || (n <=? i) then (r, false)
  else
    let sent := default (replicate (Z.to_nat n) false) (outboundPartSent r) in
    let r := match sent !! Z.to_nat i with
             | Some false => set_sent (Some (<[Z.to_nat i := true]> sent)) (outboundSentCount r + 1) r
             | _ => set_sent (Some sent) (outboundSentCount r) r
             end in
    (r, n <=? outboundSentCount r).

Definition IsOutboundPartSent (i : Z) (r : Resource) : bool :=
  match outboundPartSent r with
  | Some sent => if (i <? 0) || (segments r <=? i) then false else default false (sent !! Z.to_nat i)
  | None => false
  end.

Definition OutboundTransferComplete (r : Resource) : bool :=
  (0 <? segments r) && (segments r <=? outboundSentCount r).

Definition hashmapEntriesPerAdvSegment (linkMDU : Z) : Z :=
  let linkMDU := if linkMDU <=? 0 then DefaultLinkMDU else linkMDU in
  let n := (linkMDU - Overhead) `quot` MapHashLen in
  if n <=? 0 then 1 else n.

Definition HashmapSegment (linkMDU segment : Z) (r : Resource) : bytes :=
  let m := default [] (hashmap r) in
  if (segment <? 0) || (len m =? 0) then []
  else
    let entries := hashmapEntriesPerAdvSegment linkMDU in
    let totalEntries := len m `quot` MapHashLen in
    let startEntry := segment * entries in
    if totalEntries <=? startEntry then []
    else slice (startEntry * MapHashLen) (Z.min (startEntry + entries) totalEntries * MapHashLen) m.

Definition MapHashAt (i : Z) (r : Resource) : bytes :=
  let m := default [] (hashmap r) in
  if i <? 0 then [] else if len m <? i * MapHashLen + MapHashLen then [] else mapEntry m i.

Definition ExpectedProof (r : Resource) : option bytes :=
  if negb (len (hash r) =? 32) then None
  else
    match data r with
    | None => None
    | Some d =>
        let body := if (0 <? len (metadataPacked r)) && ((segmentIndex r =? 0) || (segmentIndex r =? 1))
                    then metadataPacked r ++ d else d in
        Some (Sha256.Sum256 (body ++ hash r))
    end.

Definition IsRequest (r : Resource) : bool :=
  match requestID r with Some _ => negb (isResponse r) | None => false end.

(** ** Advertisements *)

Record ResourceAdvertisement := mkAdv {
  a_TransferSize : Z;
  a_DataSize : Z;
  a_Parts : Z;
  a_Hash : bytes;
  a_RandomHash : bytes;
  a_OriginalHash : bytes;
  a_Hashmap : bytes;
  a_SegmentIndex : Z;
  a_TotalSegments : Z;
  a_RequestID : option bytes;
  a_Flags : byte
}.

(** The flag fields are functions of the flag byte. *)
Definition has_flag (f : byte) (a : ResourceAdvertisement) : bool := negb (bool_decide (a_Flags a &&& f = x00)).
Definition a_Compressed := has_flag AdvFlagCompressed.
Definition a_Encrypted := has_flag AdvFlagEncrypted.
Definition a_Split := has_flag AdvFlagSplit.
Definition a_HasMetadata := has_flag AdvFlagHasMetadata.
Definition a_IsRequest := has_flag AdvFlagIsRequest.
Definition a_IsResponse := has_flag AdvFlagIsResponse.

Definition flag (c : bool) (f : byte) : byte := if c then f else x00.

Definition NewResourceAdvertisement (r : Resource) : ResourceAdvertisement :=
  let flags := flag (HasMetadata r) AdvFlagHasMetadata ||| flag (isResponse r) AdvFlagIsResponse
               ||| flag (IsRequest r) AdvFlagIsRequest ||| flag (split r) AdvFlagSplit
               ||| flag (compressed r) AdvFlagCompressed ||| flag (encrypted r) AdvFlagEncrypted in
  mkAdv (transferSize r) (GetTotalSize r) (segments r) (hash r) (randomHash r) (originalHash r)
    (default [] (hashmap r)) (segmentIndex r) (totalSegments r) (requestID r) flags.

Section codec.
Context `{Msgpack}.

Definition advMap (m : bytes) (a : ResourceAdvertisement) : gmap string any :=
  list_to_map
    [("t", AInt Kint (a_TransferSize a)); ("d", AInt Kint (a_DataSize a)); ("n", AInt Kint (a_Parts a));
     ("h", ABytes (a_Hash a)); ("r", ABytes (a_RandomHash a)); ("o", ABytes (a_OriginalHash a));
     ("i", AInt Kint (a_SegmentIndex a)); ("l", AInt Kint (a_TotalSegments a));
     ("q", match a_RequestID a with Some q => ABytes q | None => ANil end);
     ("f", AInt Kuint8 (b2z (a_Flags a))); ("m", ABytes m)].

Definition Pack (segment linkMDU : Z) (a : ResourceAdvertisement) : outcome resource_error bytes :=
  let hashmapMaxLen := hashmapEntriesPerAdvSegment linkMDU in
  let hashmapStart := segment * hashmapMaxLen in
  let hashmapEnd := Z.min (hashmapStart + hashmapMaxLen) (len (a_Hashmap a) `quot` MapHashLen) in
  m ← go_slice (hashmapStart * MapHashLen) (hashmapEnd * MapHashLen) (a_Hashmap a);
  match marshalMap (advMap m a) with Some b => Ok b | None => Err MarshalFailed end.

Definition MaxInt64 : Z := 2 ^ 63 - 1.
Definition MaxInt32 : Z := 2 ^ 31 - 1.

Definition intAt (k : string) (m : gmap string any) : option (ikind * Z) :=
  match m !! k with Some (AInt t z) => Some (t, z) | _ => None end.
Definition bytesAt (k : string) (m : gmap string any) : option bytes :=
  match m !! k with Some (ABytes b) => Some b | _ => None end.

(** A 64-bit size; [over] is the error of an overflow. *)
Definition sizeAt (k : string) (over : resource_error) (m : gmap string any) : outcome resource_error Z :=
  match intAt k m with
  | Some (Kuint64, z) => if MaxInt64 <? z then Err over else Ok z
  | Some (_, z) => Ok z
  | None => Ok 0
  end.

Definition partsAt (m : gmap string any) : outcome resource_error Z :=
  match intAt "n" m with
  | Some (Kint64, z) => if (z <? 0) || (MaxInt32 <? z) then Err PartsOutOfRange else Ok z
  | Some (Kuint64, z) => if MaxInt32 <? z then Err PartsOutOfRange else Ok z
  | Some (_, z) => Ok z
  | None => Ok 0
  end.

Definition coerceUint16 (v : any) : option Z :=
  match v with AInt _ z => if (z <? 0) || (65535 <? z) then None else Some z | _ => None end.

Definition wireFlagsFromAny (v : any) : outcome resource_error byte :=
  match v with
  | AInt _ z => if (z <? 0) || (255 <? z) then Err FlagsOutOfRange else Ok (z2b z)
  | _ => Err BadFlagsType
  end.

Definition maxAdvertisementBytes : Z := 64 * 1024.

(** The 32-byte hash of a key, or none. *)
Definition hashAt (k : string) (e : resource_error) (m : gmap string any) : outcome resource_error bytes :=
  match bytesAt k m with
  | Some h => if negb (len h =? 0) && negb (len h =? 32) then Err e else Ok h
  | None => Ok []
  end.

Definition uint16At (k : string) (e : resource_error) (m : gmap string any) : outcome resource_error Z :=
  match m !! k with
  | Some v => match coerceUint16 v with Some n => Ok n | None => Err e end
  | None => Ok 0
  end.

Definition UnpackResourceAdvertisement (d : bytes) : outcome resource_error ResourceAdvertisement :=
  if maxAdvertisementBytes <? len d then Err AdvTooLarge
  else
    match unmarshalMap d with
    | None => Err UnpackFailed
    | Some m =>
        transfer ← sizeAt "t" TransferSizeOverflow m;
        check (negb (transfer <? 0)) TransferSizeNegative ;;
        check (negb (MaxEfficientSize * 3 <? transfer)) InvalidTransferSize ;;
        size ← sizeAt "d" DataSizeOverflow m;
        check (negb (size <? 0)) DataSizeNegative ;;
        parts ← partsAt m;
        check (negb (parts <? 0)) PartsNegative ;;
        h ← hashAt "h" HashLength m;
        let r := default [] (bytesAt "r" m) in
        o ← hashAt "o" OriginalHashLength m;
        let hm := default [] (bytesAt "m" m) in
        flags ← match m !! "f" with Some v => wireFlagsFromAny v | None => Ok x00 end;
        i ← uint16At "i" SegmentIndexRange m;
        l ← uint16At "l" TotalSegmentsRange m;
        let isSplit := negb (bool_decide (flags &&& AdvFlagSplit = x00)) in
        let l := if isSplit && (l =? 0) then 1 else l in
        let i := if isSplit && (i =? 0) then 1 else i in
        Ok (mkAdv transfer size parts h r o hm i l (bytesAt "q" m) flags)
    end.
End codec.

(** ** Cutting into chunks *)

Lemma slice_join {A} lo mid hi (l : list A) :
  0 <= lo <= mid → mid <= hi → slice lo mid l ++ slice mid hi l = slice lo hi l.
Proof.
  intros H1 H2. unfold slice.
  replace (Z.to_nat (hi - lo)) with (Z.to_nat (mid - lo) + Z.to_nat (hi - mid))%nat by lia.
  rewrite <- take_take_drop. f_equal. rewrite drop_drop. do 2 f_equal. lia.
Qed.

Lemma slice_clip {A} lo hi (l : list A) : slice lo (Z.min hi (len l)) l = slice lo hi l.
Proof.
  unfold slice. destruct (Z.leb_spec hi (len l)) as [?|?]; [do 2 f_equal; lia|].
  rewrite !take_ge; rewrite ?length_drop; unfold len in *; lia || done.
Qed.

Lemma seqZ_snoc m n : 0 <= n → seqZ m (n + 1) = seqZ m n ++ [m + n].
Proof. intros. rewrite (seqZ_app m n 1) by lia. done. Qed.

(** The chunks of [k] bytes from [lo] on make up the bytes from [lo] on. *)
Lemma chunks_join k (l : bytes) n :
  0 < k → 0 <= n → mjoin ((λ i, slice (i * k) (i * k + k) l) <$> seqZ 0 n) = slice 0 (n * k) l.
Proof.
  intros Hk Hn. pattern n. apply natlike_ind; [done| |done]. clear n Hn. intros n Hn IH.
  rewrite <- Z.add_1_r, seqZ_snoc, fmap_app, join_app, IH by done. simpl. rewrite app_nil_r.
  rewrite slice_join by lia. f_equal. lia.
Qed.

Lemma partCount_spec sdu blob :
  0 < sdu → 0 <= partCount sdu blob ∧ len blob <= partCount sdu blob * sdu < len blob + sdu.
Proof.
  intros Hs. unfold partCount. pose proof (len_nonneg blob).
  rewrite Z.quot_div_nonneg by lia.
  pose proof (Z.div_mod (len blob + sdu - 1) sdu ltac:(lia)).
  pose proof (Z.mod_pos_bound (len blob + sdu - 1) sdu Hs). nia.
Qed.

Lemma partOf_slice sdu blob i : partOf sdu blob i = slice (i * sdu) (i * sdu + sdu) blob.
Proof. apply slice_clip. Qed.

Lemma parts_join sdu blob : 0 < sdu → mjoin (partOf sdu blob <$> seqZ 0 (partCount sdu blob)) = blob.
Proof.
  intros Hs. destruct (partCount_spec sdu blob Hs) as [? ?].
  rewrite (list_fmap_ext _ (λ i, slice (i * sdu) (i * sdu + sdu) blob))
    by (intros; apply partOf_slice).
  rewrite chunks_join by lia. rewrite slice_0. apply take_ge. unfold len in *. lia.
Qed.

Lemma len_partOf sdu blob i :
  0 < sdu → 0 <= i < partCount sdu blob → 0 < len (partOf sdu blob i) <= sdu.
Proof.
  intros Hs Hi. destruct (partCount_spec sdu blob Hs) as [? ?].
  assert (i * sdu < len blob) by nia. unfold partOf. rewrite len_slice; nia.
Qed.

Lemma len_mapHash random part : len (mapHash random part) = MapHashLen.
Proof. unfold mapHash. rewrite len_take, Sha256.len_Sum256. done. Qed.

(** The entries of a hash map are the hashes it was made of. *)
Lemma len_mjoin_map (hs : list bytes) :
  Forall (λ h, len h = MapHashLen) hs → len (mjoin hs) = len hs * MapHashLen.
Proof.
  induction 1 as [|h hs Hh _ IH]; [done|].
  change (mjoin (h :: hs)) with (h ++ mjoin hs). rewrite len_app, len_cons, IH, Hh. lia.
Qed.

Lemma mapEntry_mjoin (hs : list bytes) i h :
  Forall (λ h, len h = MapHashLen) hs → 0 <= i → hs !! Z.to_nat i = Some h → mapEntry (mjoin hs) i = h.
Proof.
  intros Hall Hi Hl. rewrite <- (take_drop_middle _ _ _ Hl). rewrite join_app. simpl.
  pose proof (proj1 (Forall_lookup _ _) Hall _ _ Hl) as Hh. simpl in Hh.
  assert (len (mjoin (take (Z.to_nat i) hs)) = i * MapHashLen).
  { rewrite len_mjoin_map by by apply Forall_take. apply lookup_lt_Some in Hl.
    rewrite len_take. unfold len in *. lia. }
  apply slice_app_mid; lia.
Qed.

(** ** What preparation establishes *)

Section prepared.
Context `{Bzip2Stream}.

(** The resource is ready to send [wire]: [blob] is the ciphertext, cut at [sdu]
    bytes. *)
Record prepared (encrypt : bytes → option bytes) (sdu : Z) (wire blob : bytes) (r : Resource) : Prop := {
  p_hash : hash r = Sha256.Sum256 (wire ++ randomHash r);
  p_payload : ∃ payload, encrypt (randomHash r ++ payload) = Some blob
    ∧ (if compressed r then bzip2CompressBody wire = Some payload ∧ len payload < len wire else payload = wire);
  p_cipher : outboundCipher r = Some blob;
  p_encrypted : encrypted r = true;
  p_segments : segments r = partCount sdu blob;
  p_bound : partCount sdu blob <= MaxSegments;
  p_sizes : transferSize r = len blob ∧ dataSize r = len wire;
  p_hashmap : hashmap r = Some (mjoin ((λ i, mapHash (randomHash r) (partOf sdu blob i))
                                         <$> seqZ 0 (partCount sdu blob)));
  p_original : len (originalHash r) = 32
}.

(** The fields that preparing a segment leaves alone. *)
Definition same_identity (r r' : Resource) : Prop :=
  metadataPacked r' = metadataPacked r ∧ metadata r' = metadata r ∧ split r' = split r
  ∧ segmentIndex r' = segmentIndex r ∧ totalSegments r' = totalSegments r ∧ totalSize r' = totalSize r
  ∧ autoCompress r' = autoCompress r ∧ requestID r' = requestID r ∧ isResponse r' = isResponse r
  ∧ outboundPartSent r' = outboundPartSent r ∧ outboundSentCount r' = outboundSentCount r
  ∧ status r' = status r.

Definition wireBody (body : bytes) (includeMeta : bool) (r : Resource) : bytes :=
  if includeMeta && (0 <? len (metadataPacked r)) then metadataPacked r ++ body else body.

Definition keptSource (r : Resource) : option bytes :=
  match split r, sourceData r with true, None => data r | _, s => s end.

Definition finished encrypt rand sdu body meta (r r' : Resource) : Prop :=
  (∃ blob, prepared encrypt sdu (wireBody body meta r) blob r')
  ∧ rand = Some (randomHash r') ∧ data r' = fresh_copy body ∧ sourceData r' = keptSource r
  ∧ same_identity r r' ∧ originalHash r' = (if len (originalHash r) =? 32 then originalHash r else hash r').

Lemma finish_wp encrypt rand sdu body meta r :
  0 < sdu →
  wp (finishPrepareSegmentLocked encrypt rand sdu body meta)
    (λ o r', o = Ok () → finished encrypt rand sdu body meta r r') r.
Proof.
  intros Hs. unfold finishPrepareSegmentLocked. fold (wireBody body meta r) (keptSource r).
  assert (Hu : ∀ n blob, n = partCount sdu blob → negb (MaxSegments <? n) = true →
            u16 n = partCount sdu blob ∧ partCount sdu blob <= MaxSegments).
  { intros n blob -> Hn. destruct (partCount_spec sdu blob Hs). unfold u16, MaxSegments in *.
    rewrite Z.mod_small; lia. }
  assert (Hh : ∀ h : bytes, len h = 32 → len (if len (originalHash r) =? 32 then originalHash r else h) = 32).
  { intros h Hl. destruct (Z.eqb_spec (len (originalHash r)) 32); assumption. }
  repeat wp_step; intros Hok; try discriminate Hok;
    (lazymatch goal with Hn : negb (_ <? partCount sdu ?blob) = true |- _ =>
       destruct (Hu _ blob eq_refl Hn) as [Hu1 Hu2] end);
    (split; [eexists; constructor;
       [reflexivity|eexists; split; [eassumption|first [split; [eassumption|by apply Z.ltb_lt]|reflexivity]]
       |reflexivity|reflexivity|exact Hu1|exact Hu2|split; reflexivity|reflexivity
       |exact (Hh _ (Sha256.len_Sum256 _))]|]);
    unfold same_identity; split_and!; reflexivity.
Qed.
End prepared.

(** *** Segments *)

(** The metadata blob once packed. *)
Definition packedMeta (r : Resource) : bytes :=
  if 0 <? len (metadataPacked r) then metadataPacked r
  else match metadata r with
       | Some (mkMeta n (Some packed)) => if n =? 0 then metadataPacked r else metaBlob packed
       | _ => metadataPacked r
       end.

Lemma ensure_wp r :
  wp ensureMetadataPackedLocked
    (λ o r', o = Ok () → r' = set_metadata (metadata r) (packedMeta r) r) r.
Proof.
  unfold ensureMetadataPackedLocked, packedMeta.
  repeat wp_step; intros Hok; try discriminate Hok; destruct r; cbn in *; try reflexivity.
  all: simplify_eq; try (destruct m as [n [p|]]; cbn in *); simplify_eq; try rewrite Heqb0; try reflexivity.
Qed.

(** The segment [k], from 1, of a byte string. *)
Definition segmentOf (k : Z) (b : bytes) : bytes := slice ((k - 1) * MaxEfficientSize) (k * MaxEfficientSize) b.

Lemma segments_join n b :
  0 <= n → len b <= n * MaxEfficientSize → mjoin ((λ k, segmentOf k b) <$> seqZ 1 n) = b.
Proof.
  intros Hn Hb. transitivity (slice 0 (n * MaxEfficientSize) b).
  - rewrite <- chunks_join by (done || lia). f_equal. change 1 with (1 + 0) at 1. rewrite <- fmap_add_seqZ, <- list_fmap_compose.
    apply list_fmap_ext. intros i x _. unfold segmentOf, compose. f_equal; lia.
  - rewrite slice_0. apply take_ge. unfold len in *. lia.
Qed.

Lemma segment_whole b : len b <= MaxEfficientSize → segmentOf 1 b = b.
Proof.
  intros Hb. unfold segmentOf. change ((1 - 1) * MaxEfficientSize) with 0. rewrite slice_0.
  apply take_ge. unfold len in Hb. lia.
Qed.

Lemma segment_first m s :
  len m <= MaxEfficientSize → MaxEfficientSize < len m + len s →
  segmentOf 1 (m ++ s) = m ++ slice 0 (MaxEfficientSize - len m) s.
Proof.
  intros Hm Hl. unfold segmentOf. replace ((1 - 1) * MaxEfficientSize) with 0 by lia.
  rewrite !slice_0. rewrite take_app. f_equal; [apply take_ge; unfold len in *; lia|].
  f_equal. unfold len. lia.
Qed.

Lemma segment_later k m s :
  2 <= k → len m <= MaxEfficientSize →
  segmentOf k (m ++ s)
  = slice ((MaxEfficientSize - len m) + (k - 2) * MaxEfficientSize)
      ((MaxEfficientSize - len m) + (k - 2) * MaxEfficientSize + MaxEfficientSize) s.
Proof.
  intros Hk Hm. unfold segmentOf, slice.
  assert (0 < MaxEfficientSize) by done.
  rewrite drop_app_ge by (unfold len in *; nia). f_equal; [lia|]. f_equal. unfold len. nia.
Qed.

(** *** Preparing a segment *)

Section ready.
Context `{Bzip2Stream}.

Definition segmentCount (b : bytes) : Z := if len b <=? MaxEfficientSize then 1 else (len b - 1) `quot` MaxEfficientSize + 1.

(** [r'] is [r] prepared for the segment [k] of [b]: metadata and content. *)
Record ready (encrypt : bytes → option bytes) (rand : option bytes) (sdu k : Z) (b : bytes) (r r' : Resource) : Prop := {
  y_prepared : ∃ blob, prepared encrypt sdu (segmentOf k b) blob r';
  y_random : rand = Some (randomHash r');
  y_index : segmentIndex r' = k;
  y_total : totalSegments r' = u16 (segmentCount b);
  y_split : split r' = (MaxEfficientSize <? len b);
  y_size : totalSize r' = len b;
  y_meta : metadataPacked r' = packedMeta r ∧ metadata r' = metadata r;
  y_data : ∃ body, data r' = fresh_copy body ∧ segmentOf k b = (if k =? 1 then packedMeta r ++ body else body);
  y_source : split r' = true → sourceData r' = source r;
  y_original : len (originalHash r) = 32 → originalHash r' = originalHash r;
  y_first : k = 1 → originalHash r' = (if len (originalHash r) =? 32 then originalHash r else hash r');
  y_request : requestID r' = requestID r ∧ isResponse r' = isResponse r ∧ autoCompress r' = autoCompress r;
  y_sent : outboundPartSent r' = None ∧ outboundSentCount r' = 0;
  y_status : status r' = status r
}.

Definition startIndex (b : bytes) (r : Resource) : Z :=
  if len b <=? MaxEfficientSize then 1 else if segmentIndex r =? 0 then 1 else segmentIndex r.

(** A segment body [body] read for segment [k] makes the resource ready. *)
Lemma finish_ready encrypt rand sdu k s body r r1 :
  0 < sdu → source r = Some s →
  let b := packedMeta r ++ s in
  metadataPacked r1 = packedMeta r → metadata r1 = metadata r → source r1 = source r →
  sourceData r1 = sourceData r → data r1 = data r →
  segmentIndex r1 = k → totalSegments r1 = u16 (segmentCount b) → split r1 = (MaxEfficientSize <? len b) →
  totalSize r1 = len b → originalHash r1 = originalHash r → requestID r1 = requestID r →
  isResponse r1 = isResponse r → autoCompress r1 = autoCompress r → outboundPartSent r1 = None →
  outboundSentCount r1 = 0 → status r1 = status r →
  segmentOf k b = (if k =? 1 then packedMeta r ++ body else body) →
  wp (finishPrepareSegmentLocked encrypt rand sdu body (k =? 1))
    (λ o r', o = Ok () → ready encrypt rand sdu k b r r') r1.
Proof.
  intros Hs Hsrc b Hm Hmd Hsr Hsd Hd Hi Ht Hsp Hz Ho Hq Hr Ha Hp Hc Hst Hseg.
  eapply wp_mono; [apply (finish_wp _ _ _ _ _ r1 Hs)|].
  intros o r' HF Hok. destruct (HF Hok) as ([blob HB] & HR & HD & HS & HI & HO).
  destruct HI as (I1 & I2 & I3 & I4 & I5 & I6 & I7 & I8 & I9 & I10 & I11 & I12).
  assert (Hw : wireBody body (k =? 1) r1 = segmentOf k b).
  { unfold wireBody. rewrite Hseg, Hm. destruct (k =? 1); [|done]. simpl.
    destruct (Z.ltb_spec 0 (len (packedMeta r))); [done|].
    rewrite (len_0_nil (packedMeta r)); [done|]. pose proof (len_nonneg (packedMeta r)). lia. }
  rewrite Hw in HB.
  split; try congruence; eauto; try (split_and?; congruence).
  - intros Hsplit. rewrite HS. unfold keptSource, source in *. rewrite I3 in Hsplit.
    rewrite Hsplit, Hsd, Hd. by destruct (sourceData r).
  - intros Hl. rewrite HO, Ho, Hl. reflexivity.
  - intros _. by rewrite HO, Ho.
Qed.

Lemma read_source offset length r s body :
  source r = Some s → 0 <= offset → readRawBodyLocked offset length r = Ok body →
  body = slice offset (offset + length) s.
Proof.
  intros Hs Ho. unfold readRawBodyLocked. rewrite Hs.
  destruct (Z.ltb_spec length 0); [done|]. destruct (Z.eqb_spec length 0) as [->|].
  { intros [= <-]. unfold slice. by replace (Z.to_nat (offset + 0 - offset)) with 0%nat by lia. }
  destruct (Z.ltb_spec (len s) offset); [done|].
  intros HR. apply go_slice_Ok_inv in HR as [-> _]. apply slice_clip.
Qed.
Lemma segmentRange_spec m s k offset length meta :
  len m <= MaxEfficientSize → MaxEfficientSize < len m + len s → 1 <= k →
  segmentRange (MaxEfficientSize - len m) (len s) k = (offset, length, meta) →
  0 <= offset ∧ meta = (k =? 1)
  ∧ segmentOf k (m ++ s) = (if k =? 1 then m ++ slice offset (offset + length) s
                            else slice offset (offset + length) s).
Proof.
  intros Hm Hl Hk. unfold segmentRange. assert (0 < MaxEfficientSize) by done.
  destruct (Z.eqb_spec k 1) as [->|Hne]; intros [= <- <- <-].
  - split; [lia|]. split; [done|]. rewrite segment_first by done. f_equal. rewrite Z.add_0_l.
    symmetry. apply slice_clip.
  - split; [nia|]. split; [done|]. rewrite segment_later by lia.
    set (o := _ + (k - 2) * _). assert (0 <= o) by (subst o; nia).
    destruct (Z.ltb_spec (len s) (o + MaxEfficientSize)); [|destruct (Z.ltb_spec MaxEfficientSize 0); [lia|done]].
    destruct (Z.ltb_spec (len s - o) 0).
    + unfold slice. rewrite drop_ge by (unfold len in *; lia). by rewrite !take_nil.
    + replace (o + (len s - o)) with (Z.min (o + MaxEfficientSize) (len s)) by lia. symmetry. apply slice_clip.
Qed.

(** [PrepareOutboundForLink] that succeeds prepares the segment the resource
    stands at. *)
Lemma prepare_wp encrypt rand sdu r s :
  source r = Some s →
  let b := packedMeta r ++ s in
  wp (PrepareOutboundForLink encrypt rand sdu)
    (λ o r', o = Ok () → ready encrypt rand sdu (startIndex b r) b r r' ∧ 0 < sdu
       ∧ 1 <= startIndex b r <= u16 (segmentCount b)) r.
Proof.
  intros Hsrc b. unfold PrepareOutboundForLink.
  apply wp_guard; intros Hs; [|done]. apply Z.ltb_lt in Hs. apply wp_modify.
  apply wp_bind. eapply wp_mono; [apply ensure_wp|]. intros [[]|e|] r1 H1; [|done|done].
  specialize (H1 eq_refl). apply wp_get.
  assert (Hr1 : source r1 = Some s) by (by subst r1).
  assert (Hm1 : metadataPacked r1 = packedMeta r) by (by subst r1).
  unfold rawBodySizeLocked. rewrite Hr1. apply wp_lift; [intros ? [= <-]|done|done].
  assert (Hlen : len s + len (metadataPacked r1) = len b).
  { rewrite Hm1. subst b. rewrite len_app. lia. }
  cbv zeta. rewrite Hlen. apply wp_modify, wp_modify.
  assert (Hi1 : segmentIndex r1 = segmentIndex r) by (by subst r1).
  rewrite Hi1. unfold startIndex, segmentCount.
  destruct (Z.leb_spec (len b) MaxEfficientSize) as [Hle|Hgt].
  - apply wp_modify, wp_get, wp_lift; [intros body HR|done|done].
    apply (read_source _ _ _ s) in HR; [|by subst r1|done]. rewrite Z.add_0_l, slice_full in HR. subst body.
    eapply wp_mono; [apply (finish_ready encrypt rand sdu 1 s s r)|]; try done; try (by subst r1).
    all: try (unfold segmentCount; apply Z.leb_le in Hle; fold b; rewrite Hle; done).
    + fold b. destruct (Z.ltb_spec MaxEfficientSize (len b)); [lia|done].
    + by apply segment_whole.
    + intros o r' HF Hok. split; [by apply HF|]. split; [done|]. split; done.
  - set (k := if segmentIndex r =? 0 then 1 else segmentIndex r).
    apply wp_modify, wp_guard; intros Hk; [|done]. apply wp_guard; intros Hfirst; [|done].
    apply Z.leb_le in Hfirst. rewrite Hm1 in Hfirst |- *.
    destruct (segmentRange _ _ k) as [[offset length] meta] eqn:Hrange.
    apply segmentRange_spec in Hrange as (Ho & -> & Hseg); [|lia|rewrite Hm1 in Hlen; lia|lia].
    apply wp_get, wp_lift; [intros body HR|done|done].
    apply (read_source _ _ _ s) in HR; [|by subst r1|done]. rewrite <- HR in Hseg.
    eapply wp_mono; [apply (finish_ready encrypt rand sdu k s body r)|]; try done; try (by subst r1).
    + fold b. unfold segmentCount. destruct (Z.leb_spec (len b) MaxEfficientSize); [lia|done].
    + fold b. destruct (Z.ltb_spec MaxEfficientSize (len b)); [done|lia].
    + intros o r' HF Hok. split; [by apply HF|]. lia.
Qed.
End ready.

(** *** Preparation succeeds *)

Section succeeds.
Context `{Bzip2Stream}.

(** What one preparation needs of its surroundings: random bytes, a cipher for
    a segment whose output fits the parts of [sdu] bytes, and the compressor. *)
Definition supplied (sdu : Z) (env : (bytes → option bytes) * option bytes) : Prop :=
  (∃ rh, env.2 = Some rh ∧ len rh = RandomHashSize)
  ∧ (∀ d, len d <= MaxEfficientSize + RandomHashSize →
       ∃ c, env.1 d = Some c ∧ partCount sdu c <= MaxSegments)
  ∧ (∀ d, is_Some (bzip2CompressBody d)).

Lemma finish_succeeds env sdu body meta r :
  supplied sdu env → len (wireBody body meta r) <= MaxEfficientSize →
  wp (finishPrepareSegmentLocked env.1 env.2 sdu body meta) (λ o _, o = Ok ()) r.
Proof.
  intros ((rh & Hr & Hrl) & Henc & Hbz) Hw. unfold finishPrepareSegmentLocked. fold (wireBody body meta r).
  assert (He : ∀ p, len p <= len (wireBody body meta r) →
            ∃ c, env.1 (rh ++ p) = Some c ∧ partCount sdu c <= MaxSegments).
  { intros p Hp. apply Henc. rewrite len_app. lia. }
  apply wp_get. rewrite Hr. cbv zeta.
  destruct (Hbz (wireBody body meta r)) as [c Hc]. unfold wireBody in Hc. rewrite Hc.
  fold (wireBody body meta r) in Hc |- *.
  repeat wp_step; try reflexivity; exfalso;
    (lazymatch goal with
     | Hn : env.1 (rh ++ ?p) = _ |- _ =>
         destruct (He p) as (c' & Hc' & Hb); [unfold wireBody in *; lia|]; rewrite Hc' in Hn; simplify_eq
     end); lia.
Qed.

Lemma read_succeeds offset length r s :
  source r = Some s → 0 <= offset <= len s → 0 <= length → ∃ body, readRawBodyLocked offset length r = Ok body.
Proof.
  intros Hs Ho Hl. unfold readRawBodyLocked. rewrite Hs. destruct (Z.ltb_spec length 0); [lia|].
  destruct (length =? 0); [eauto|]. destruct (Z.ltb_spec (len s) offset); [lia|].
  rewrite go_slice_Ok by lia. eauto.
Qed.
Lemma segmentRange_succeeds m s k offset length meta :
  len m <= MaxEfficientSize → MaxEfficientSize < len m + len s → 1 <= k <= segmentCount (m ++ s) →
  segmentRange (MaxEfficientSize - len m) (len s) k = (offset, length, meta) →
  0 <= offset <= len s ∧ 0 <= length.
Proof.
  intros Hm Hl Hk. unfold segmentCount in Hk. rewrite len_app in Hk.
  destruct (Z.leb_spec (len m + len s) MaxEfficientSize); [lia|].
  assert (0 < MaxEfficientSize) by done. pose proof (len_nonneg s). pose proof (len_nonneg m).
  rewrite Z.quot_div_nonneg in Hk by lia.
  pose proof (Z.div_mod (len m + len s - 1) MaxEfficientSize ltac:(lia)).
  pose proof (Z.mod_pos_bound (len m + len s - 1) MaxEfficientSize ltac:(lia)).
  unfold segmentRange. destruct (Z.eqb_spec k 1) as [->|Hne]; intros [= <- <- <-]; [lia|].
  split; [nia|]. repeat case_match; lia.
Qed.

(** Metadata that is packed already, or packs within its limit. *)
Definition packable (r : Resource) : Prop :=
  len (packedMeta r) <= 3 + MetadataMaxSize
  ∧ (len (metadataPacked r) = 0 → ∀ m, metadata r = Some m → m_len m ≠ 0 → is_Some (m_packed m)).

Lemma ensure_succeeds r : packable r → wp ensureMetadataPackedLocked (λ o _, o = Ok ()) r.
Proof.
  intros [Hl Hp]. unfold ensureMetadataPackedLocked, packedMeta in *. apply wp_get.
  destruct (Z.ltb_spec 0 (len (metadataPacked r))) as [|Hz]; [done|].
  destruct (metadata r) as [[n o]|] eqn:E; [|done]. cbn [m_len m_packed] in *.
  destruct (Z.eqb_spec n 0) as [|Hn]; [done|].
  destruct (Hp ltac:(pose proof (len_nonneg (metadataPacked r)); lia) _ eq_refl Hn) as [p Ho].
  cbn [m_packed] in Ho. subst o. unfold metaBlob in Hl. rewrite len_app in Hl.
  change (len [_; _; _]) with 3 in Hl. apply wp_guard; intros; [done|lia].
Qed.
Lemma len_segmentOf k b : 1 <= k → len (segmentOf k b) <= MaxEfficientSize.
Proof.
  intros Hk. unfold segmentOf, slice. rewrite len_take, len_drop.
  replace (k * MaxEfficientSize - (k - 1) * MaxEfficientSize) with MaxEfficientSize by lia.
  assert (0 < MaxEfficientSize) by done. lia.
Qed.

Lemma wireBody_segment k (b : bytes) body r1 :
  segmentOf k b = (if k =? 1 then metadataPacked r1 ++ body else body) → wireBody body (k =? 1) r1 = segmentOf k b.
Proof.
  intros ->. unfold wireBody. destruct (k =? 1); [|done]. simpl.
  destruct (Z.ltb_spec 0 (len (metadataPacked r1))); [done|].
  rewrite (len_0_nil (metadataPacked r1)); [done|]. pose proof (len_nonneg (metadataPacked r1)). lia.
Qed.

Lemma prepare_succeeds env sdu r s :
  0 < sdu → supplied sdu env → source r = Some s → packable r →
  let b := packedMeta r ++ s in
  segmentCount b <= 65535 → 1 <= startIndex b r <= segmentCount b →
  wp (PrepareOutboundForLink env.1 env.2 sdu) (λ o _, o = Ok ()) r.
Proof.
  intros Hs Henv Hsrc Hpack b Hcount Hidx. unfold PrepareOutboundForLink.
  apply wp_guard; intros Hs'; [|lia]. apply wp_modify, wp_bind.
  eapply wp_mono; [exact (wp_and _ _ _ _ (ensure_wp _) (ensure_succeeds (set_sent None 0 r) Hpack))|].
  intros o r1 [H1 ->]. specialize (H1 eq_refl). apply wp_get.
  assert (Hr1 : source r1 = Some s) by (by subst r1).
  assert (Hm1 : metadataPacked r1 = packedMeta r) by (by subst r1).
  assert (Hi1 : segmentIndex r1 = segmentIndex r) by (by subst r1).
  unfold rawBodySizeLocked. rewrite Hr1. apply wp_lift; [intros ? [= <-]|done|done].
  assert (Hlen : len s + len (metadataPacked r1) = len b) by (rewrite Hm1; subst b; rewrite len_app; lia).
  cbv zeta. rewrite Hlen, Hi1. apply wp_modify, wp_modify. unfold startIndex, segmentCount in *.
  destruct (Z.leb_spec (len b) MaxEfficientSize) as [Hle|Hgt].
  - apply wp_modify, wp_get.
    match goal with |- wp (lift (readRawBodyLocked 0 _ ?rr) ≫= _) _ _ =>
      destruct (read_succeeds 0 (len s) rr s) as [body HR]; [by subst r1|pose proof (len_nonneg s); lia|apply len_nonneg|] end.
    rewrite HR. apply wp_lift; [intros ? [= <-]|done|done].
    apply (read_source _ _ _ s) in HR; [|by subst r1|done]. rewrite Z.add_0_l, slice_full in HR. subst body.
    apply finish_succeeds; [done|]. change true with (1 =? 1).
    rewrite (wireBody_segment 1 b); rewrite segment_whole by done; [done|by subst r1].
  - set (k := if segmentIndex r =? 0 then 1 else segmentIndex r) in *.
    assert (Hu : u16 ((len b - 1) `quot` MaxEfficientSize + 1) = (len b - 1) `quot` MaxEfficientSize + 1)
      by (unfold u16; rewrite Z.mod_small; lia).
    rewrite Hu. apply wp_modify, wp_guard; intros Hk; [|lia].
    destruct Hpack as [Hpk _]. assert (3 + MetadataMaxSize <= MaxEfficientSize) by done.
    apply wp_guard; intros Hfirst; [|rewrite Hm1 in Hfirst; lia]. rewrite Hm1.
    destruct (segmentRange _ _ k) as [[offset length] meta] eqn:Hrange.
    assert (Hr2 : 0 <= offset <= len s ∧ 0 <= length).
    { rewrite Hm1 in Hlen. eapply segmentRange_succeeds; [| | |exact Hrange]; [lia|lia|].
      fold b. unfold segmentCount. destruct (Z.leb_spec (len b) MaxEfficientSize); lia. }
    apply segmentRange_spec in Hrange as (Ho & -> & Hseg); [|lia|rewrite Hm1 in Hlen; lia|lia].
    apply wp_get.
    match goal with |- wp (lift (readRawBodyLocked _ _ ?rr) ≫= _) _ _ =>
      destruct (read_succeeds offset length rr s) as [body HR]; [by subst r1|lia|lia|] end.
    rewrite HR. apply wp_lift; [intros ? [= <-]|done|done].
    apply (read_source _ _ _ s) in HR; [|by subst r1|done]. rewrite <- HR in Hseg.
    apply finish_succeeds; [done|]. rewrite (wireBody_segment k b); [by apply len_segmentOf; lia|].
    by subst r1.
Qed.
End succeeds.

(** *** All the segments *)

Section segments.
Context `{Bzip2Stream}.

Lemma packedMeta_empty r : len (packedMeta r) = 0 → metadataPacked r = [] ∧ packedMeta r = [].
Proof.
  intros Hl. split; [|by apply len_0_nil]. unfold packedMeta in Hl.
  destruct (Z.ltb_spec 0 (len (metadataPacked r))); [lia|].
  apply len_0_nil. pose proof (len_nonneg (metadataPacked r)). lia.
Qed.

Lemma packedMeta_again r r' :
  metadataPacked r' = packedMeta r → metadata r' = metadata r → packedMeta r' = packedMeta r.
Proof.
  intros H1 H2. unfold packedMeta at 1. rewrite H1, H2.
  destruct (Z.ltb_spec 0 (len (packedMeta r))) as [|Hz]; [done|].
  destruct (packedMeta_empty r) as [He Hp]; [pose proof (len_nonneg (packedMeta r)); lia|].
  rewrite Hp. unfold packedMeta in Hp. rewrite He in Hp. simpl in Hp.
  by destruct (metadata r) as [[n [p|]]|]; [destruct (n =? 0)| |].
Qed.

Lemma packable_again r r' :
  metadataPacked r' = packedMeta r → metadata r' = metadata r → packable r → packable r'.
Proof.
  intros H1 H2 [Hl Hp]. split; [by rewrite (packedMeta_again r r')|].
  rewrite H1, H2. intros Hz. apply Hp. by rewrite (proj1 (packedMeta_empty r Hz)).
Qed.

(** The next segment of a resource that stands at segment [k]. *)
Lemma next_ready env0 env sdu k s r0 r :
  let b := packedMeta r0 ++ s in
  0 < sdu → supplied sdu env → source r0 = Some s → packable r0 →
  MaxEfficientSize < len b → 1 <= k < segmentCount b → segmentCount b <= 65535 →
  ready env0.1 env0.2 sdu k b r0 r →
  wp (PrepareNextOutboundSegment env.1 env.2 sdu)
    (λ o r', o = Ok () ∧ ready env.1 env.2 sdu (k + 1) b r0 r' ∧ originalHash r' = originalHash r) r.
Proof.
  intros b Hs Henv Hsrc Hpack Hbig Hk Hn HY. destruct (y_meta _ _ _ _ _ _ _ HY) as [Hm1 Hm2].
  assert (Hsp : split r = true) by (rewrite (y_split _ _ _ _ _ _ _ HY); lia).
  assert (Ht : totalSegments r = segmentCount b).
  { rewrite (y_total _ _ _ _ _ _ _ HY). unfold u16. apply Z.mod_small. lia. }
  unfold PrepareNextOutboundSegment. apply wp_get. rewrite Hsp, Ht, (y_index _ _ _ _ _ _ _ HY).
  apply wp_guard; intros Hg; [|lia]. apply wp_modify.
  replace (u16 (k + 1)) with (k + 1) by (unfold u16; rewrite Z.mod_small; lia).
  set (r1 := set_split _ _ _ r).
  assert (Hsr : source r1 = Some s).
  { unfold source. change (sourceData r1) with (sourceData r). rewrite (y_source _ _ _ _ _ _ _ HY Hsp), Hsrc. done. }
  assert (Hpm : packedMeta r1 = packedMeta r0) by (apply packedMeta_again; done).
  assert (Hst : startIndex b r1 = k + 1).
  { unfold startIndex. change (segmentIndex r1) with (k + 1).
    destruct (Z.leb_spec (len b) MaxEfficientSize); [lia|]. destruct (Z.eqb_spec (k + 1) 0); lia. }
  eapply wp_mono; [apply wp_and; [apply (prepare_wp _ _ _ r1 s Hsr)|
    apply (prepare_succeeds env sdu r1 s); rewrite ?Hpm; fold b; rewrite ?Hst; try done]|].
  { by apply (packable_again r0). } { lia. }
  intros o r' [HW ->]. specialize (HW eq_refl) as (HY' & _ & _). rewrite Hpm in HY'. fold b in HY'. rewrite Hst in HY'.
  split; [done|]. destruct (y_prepared _ _ _ _ _ _ _ HY) as [blob HB].
  assert (Ho : originalHash r' = originalHash r).
  { apply (y_original _ _ _ _ _ _ _ HY'). exact (p_original _ _ _ _ _ HB). }
  split; [|done]. destruct HY' as [? ? ? ? ? ? [M1 M2] ? Y9 ? Yf [Q1 [Q2 Q3]] ? Y13].
  destruct (y_request _ _ _ _ _ _ _ HY) as (Q4 & Q5 & Q6).
  split; try done.
  - split; [by rewrite M1|]. rewrite M2. exact Hm2.
  - by rewrite <- Hpm.
  - intros Hx. rewrite (Y9 Hx), Hsr. done.
  - intros Hx. rewrite Ho. by apply (y_original _ _ _ _ _ _ _ HY).
  - intros Hx. lia.
  - split_and!; [rewrite Q1; exact Q4|rewrite Q2; exact Q5|rewrite Q3; exact Q6].
  - rewrite Y13. exact (y_status _ _ _ _ _ _ _ HY).
Qed.

(** A resource prepared, and advanced once for each further supply. *)
Definition prepareSegments (sdu : Z) (env : (bytes → option bytes) * option bytes)
    (rest : list ((bytes → option bytes) * option bytes)) : M () :=
  foldl (λ m env, m ;; PrepareNextOutboundSegment env.1 env.2 sdu) (PrepareOutboundForLink env.1 env.2 sdu) rest.

Definition lastEnv {A} (env : A) (rest : list A) : A := default env (list.last rest).

Lemma segments_ready sdu env rest r s :
  let b := packedMeta r ++ s in
  0 < sdu → Forall (supplied sdu) (env :: rest) → source r = Some s → packable r →
  MaxEfficientSize < len b → segmentIndex r = 0 → 1 + len rest <= segmentCount b → segmentCount b <= 65535 →
  wp (prepareSegments sdu env rest)
    (λ o r', o = Ok () ∧ ready (lastEnv env rest).1 (lastEnv env rest).2 sdu (1 + len rest) b r r'
       ∧ originalHash r' = originalHash (PrepareOutboundForLink env.1 env.2 sdu r).1) r.
Proof.
  intros b Hs Hall Hsrc Hpack Hbig Hidx Hn Hb.
  pose proof (Forall_inv Hall) as Henv. apply Forall_inv_tail in Hall.
  assert (Hst : startIndex b r = 1).
  { unfold startIndex. rewrite Hidx. destruct (Z.leb_spec (len b) MaxEfficientSize); [lia|done]. }
  induction rest as [|e rest IH] using rev_ind.
  - change (prepareSegments sdu env []) with (PrepareOutboundForLink env.1 env.2 sdu).
    pose proof (prepare_wp env.1 env.2 sdu r s Hsrc) as HP.
    pose proof (prepare_succeeds env sdu r s Hs Henv Hsrc Hpack Hb) as HS.
    cbv zeta in HP, HS. fold b in HP, HS. rewrite Hst in HP, HS. rewrite len_nil in Hn. specialize (HS ltac:(lia)). unfold wp in *.
    split; [done|]. split; [|done]. apply (HP HS).
  - rewrite len_app in Hn. change (len [e]) with 1 in Hn. apply Forall_app in Hall as [Hall He].
    apply Forall_inv in He. pose proof (len_nonneg rest).
    unfold prepareSegments. rewrite foldl_app. simpl. fold (prepareSegments sdu env rest).
    apply wp_bind. eapply wp_mono; [apply IH; [done|lia]|].
    intros o r1 (-> & HY & Ho). simpl.
    eapply wp_mono; [apply (next_ready (lastEnv env rest) e sdu (1 + len rest) s r r1 Hs He Hsrc Hpack Hbig); [fold b; lia|done|done]|].
    intros o r' (-> & HY' & Ho'). split; [done|]. split; [|by rewrite Ho'].
    unfold lastEnv. rewrite last_snoc, len_app. change (len [e]) with 1. simpl.
    by rewrite Z.add_assoc.
Qed.
End segments.

(** ** Theorems on preparation *)

Section theorems.
Context `{Bzip2Stream}.

Lemma prepared_slice encrypt sdu wire blob r i :
  0 < sdu → prepared encrypt sdu wire blob r → 0 <= i < segments r →
  OutboundCiphertextSlice i sdu r = partOf sdu blob i.
Proof.
  intros Hs HP Hi. destruct (partCount_spec sdu blob Hs) as [? ?].
  rewrite (p_segments _ _ _ _ _ HP) in Hi. unfold OutboundCiphertextSlice.
  rewrite (p_cipher _ _ _ _ _ HP), (p_segments _ _ _ _ _ HP).
  destruct (Z.leb_spec sdu 0); [lia|]. destruct (Z.ltb_spec i 0); [lia|].
  destruct (Z.leb_spec (partCount sdu blob) i); [lia|]. simpl.
  destruct (Z.leb_spec (len blob) (i * sdu)); [nia|done].
Qed.

Lemma prepared_parts encrypt sdu wire blob r :
  0 < sdu → prepared encrypt sdu wire blob r →
  mjoin ((λ i, OutboundCiphertextSlice i sdu r) <$> seqZ 0 (segments r)) = blob.
Proof.
  intros Hs HP. transitivity (mjoin (partOf sdu blob <$> seqZ 0 (partCount sdu blob))); [|by apply parts_join].
  rewrite (p_segments _ _ _ _ _ HP). f_equal. apply list_fmap_ext. intros i x Hx.
  apply lookup_seqZ in Hx as [-> Hx]. eapply prepared_slice; [done..|]. rewrite (p_segments _ _ _ _ _ HP). lia.
Qed.

Lemma hashmap_entries random sdu blob :
  Forall (λ h, len h = MapHashLen) ((λ i, mapHash random (partOf sdu blob i)) <$> seqZ 0 (partCount sdu blob)).
Proof. apply Forall_fmap, Forall_forall. intros i _. exact (len_mapHash _ _). Qed.

Lemma prepared_mapHash encrypt sdu wire blob r i :
  0 < sdu → prepared encrypt sdu wire blob r → 0 <= i < segments r →
  MapHashAt i r = mapHash (randomHash r) (partOf sdu blob i).
Proof.
  intros Hs HP Hi. rewrite (p_segments _ _ _ _ _ HP) in Hi. unfold MapHashAt. rewrite (p_hashmap _ _ _ _ _ HP).
  simpl. destruct (Z.ltb_spec i 0); [lia|].
  pose proof (hashmap_entries (randomHash r) sdu blob) as HE.
  rewrite (len_mjoin_map _ HE).
  destruct (Z.ltb_spec (len ((λ i, mapHash (randomHash r) (partOf sdu blob i)) <$> seqZ 0 (partCount sdu blob))
              * MapHashLen) (i * MapHashLen + MapHashLen)) as [Hlt|].
  { unfold len in Hlt. rewrite length_fmap, length_seqZ in Hlt. unfold MapHashLen in Hlt. lia. }
  apply mapEntry_mjoin; [done|lia|]. rewrite list_lookup_fmap, lookup_seqZ_lt by lia. by rewrite Z2Nat.id by lia.
Qed.

Lemma fresh_copy_ne b : b ≠ [] → fresh_copy b = Some b.
Proof. by destruct b. Qed.

(** The proof the sender waits for. *)
Lemma ready_proof encrypt rand sdu k b r r' :
  ready encrypt rand sdu k b r r' → 1 <= k →
  ExpectedProof r' =
    (if bool_decide (segmentOf k b = (if k =? 1 then packedMeta r else [])) then None
     else Some (Sha256.Sum256 (segmentOf k b ++ hash r'))).
Proof.
  intros HY Hk. destruct (y_prepared _ _ _ _ _ _ _ HY) as [blob HB].
  destruct (y_data _ _ _ _ _ _ _ HY) as (body & Hd & Hseg). unfold ExpectedProof.
  rewrite (p_hash _ _ _ _ _ HB) at 1. rewrite Sha256.len_Sum256. simpl.
  rewrite Hd, (y_index _ _ _ _ _ _ _ HY), Hseg. destruct (y_meta _ _ _ _ _ _ _ HY) as [-> _].
  destruct (Z.eqb_spec k 0); [lia|]. rewrite orb_false_l.
  destruct body as [|c body].
  - rewrite bool_decide_true; [done|]. destruct (k =? 1); [apply app_nil_r|done].
  - rewrite bool_decide_false, fresh_copy_ne by
      (done || (destruct (k =? 1); [|done]; intros Ha; apply (f_equal length) in Ha; rewrite length_app in Ha; simpl in Ha; lia)).
    do 3 f_equal. destruct (k =? 1); [|by rewrite andb_false_r]. rewrite andb_true_r.
    destruct (Z.ltb_spec 0 (len (packedMeta r))); [done|].
    rewrite (len_0_nil (packedMeta r)); [done|]. pose proof (len_nonneg (packedMeta r)). lia.
Qed.
(** C18.  A resource that fits one segment, given random bytes, a compressor and a
    cipher whose output fits, is prepared without error: the parts handed out
    one by one make up the ciphertext of the random bytes and the (possibly
    compressed) metadata and content, each is non-empty and fits the packet, the
    hash map holds the hash of each part, and the proof expected is the hash of
    metadata, content and resource hash, except for empty content, for which
    none is. *)
Theorem resource_parts env sdu r s :
  0 < sdu → supplied sdu env → source r = Some s → packable r →
  let b := packedMeta r ++ s in
  len b <= MaxEfficientSize →
  ∃ r' blob payload,
    PrepareOutboundForLink env.1 env.2 sdu r = (r', Ok ())
    ∧ env.2 = Some (randomHash r')
    ∧ env.1 (randomHash r' ++ payload) = Some blob
    ∧ (if compressed r' then bzip2CompressBody b = Some payload else payload = b)
    ∧ hash r' = Sha256.Sum256 (b ++ randomHash r')
    ∧ transferSize r' = len blob
    ∧ mjoin ((λ i, OutboundCiphertextSlice i sdu r') <$> seqZ 0 (segments r')) = blob
    ∧ (∀ i, 0 <= i < segments r' →
         0 < len (OutboundCiphertextSlice i sdu r') <= sdu
         ∧ MapHashAt i r' = mapHash (randomHash r') (OutboundCiphertextSlice i sdu r'))
    ∧ ExpectedProof r' = (if bool_decide (s = []) then None else Some (Sha256.Sum256 (b ++ hash r'))).
Proof.
  intros Hs Henv Hsrc Hpack b Hle.
  assert (Hst : startIndex b r = 1) by (unfold startIndex; by rewrite (proj2 (Z.leb_le _ _) Hle)).
  assert (Hn : segmentCount b = 1) by (unfold segmentCount; by rewrite (proj2 (Z.leb_le _ _) Hle)).
  pose proof (prepare_succeeds env sdu r s Hs Henv Hsrc Hpack) as HS.
  pose proof (prepare_wp env.1 env.2 sdu r s Hsrc) as HP.
  cbv zeta in HS, HP. fold b in HS, HP. rewrite Hst, Hn in HS. rewrite Hst in HP. unfold wp in HS, HP.
  specialize (HS ltac:(lia) ltac:(lia)). destruct (HP HS) as (HY & _ & _).
  destruct (PrepareOutboundForLink env.1 env.2 sdu r) as [r' o] eqn:E. simpl in HS, HY. subst o.
  pose proof (ready_proof _ _ _ _ _ _ _ HY ltac:(lia)) as HX.
  destruct (y_prepared _ _ _ _ _ _ _ HY) as [blob HB]. rewrite segment_whole in HB, HX by done.
  destruct (p_payload _ _ _ _ _ HB) as (payload & Hp1 & Hp2).
  exists r', blob, payload. split; [done|]. split; [exact (y_random _ _ _ _ _ _ _ HY)|]. split; [done|].
  split; [destruct (compressed r'); [exact (proj1 Hp2)|done]|]. split; [exact (p_hash _ _ _ _ _ HB)|]. split; [exact (proj1 (p_sizes _ _ _ _ _ HB))|].
  split; [by eapply prepared_parts|]. split.
  - intros i Hi. rewrite (prepared_slice _ _ _ _ _ _ Hs HB Hi). split.
    + apply len_partOf; [done|]. by rewrite <- (p_segments _ _ _ _ _ HB).
    + exact (prepared_mapHash _ _ _ _ _ _ Hs HB Hi).
  - rewrite HX. rewrite (bool_decide_ext (b = _) (s = [])); [done|]. subst b. split; [|intros ->; by rewrite app_nil_r].
    intros Ha. apply (f_equal length) in Ha. rewrite length_app in Ha. destruct s; [done|simpl in Ha; lia].
Qed.

Lemma segmentCount_bounds b :
  MaxEfficientSize < len b → (segmentCount b - 1) * MaxEfficientSize < len b <= segmentCount b * MaxEfficientSize.
Proof.
  intros Hbig. unfold segmentCount. destruct (Z.leb_spec (len b) MaxEfficientSize); [lia|].
  assert (0 < MaxEfficientSize) by done. rewrite Z.quot_div_nonneg by lia.
  pose proof (Z.div_mod (len b - 1) MaxEfficientSize ltac:(lia)).
  pose proof (Z.mod_pos_bound (len b - 1) MaxEfficientSize ltac:(lia)). nia.
Qed.

(** C19.  A resource too large for one segment, with metadata of any permitted
    size: its segments are the consecutive chunks of the metadata followed by the
    content, they make up all of it, and preparing one after the other, up to the
    last, never fails.  Each segment advertises the index, the number of
    segments, the whole size and, unless the resource had an original hash before,
    the hash of the first segment (of its chunk and its random bytes), and expects
    the proof of its own chunk; after the last there is no next. *)
Theorem split_resource_segments sdu env rest r s :
  let b := packedMeta r ++ s in
  let k := 1 + len rest in
  let first := (PrepareOutboundForLink env.1 env.2 sdu r).1 in
  0 < sdu → Forall (supplied sdu) (env :: rest) → source r = Some s → packable r → segmentIndex r = 0 →
  MaxEfficientSize < len b → k <= segmentCount b <= 65535 →
  mjoin ((λ k, segmentOf k b) <$> seqZ 1 (segmentCount b)) = b
  ∧ ∃ r' blob,
      prepareSegments sdu env rest r = (r', Ok ())
      ∧ prepared (lastEnv env rest).1 sdu (segmentOf k b) blob r'
      ∧ split r' = true ∧ segmentIndex r' = k ∧ totalSegments r' = segmentCount b ∧ GetTotalSize r' = len b
      ∧ originalHash r' = (if len (originalHash r) =? 32 then originalHash r else hash first)
      ∧ hash first = Sha256.Sum256 (segmentOf 1 b ++ randomHash first) ∧ env.2 = Some (randomHash first)
      ∧ ExpectedProof r' = Some (Sha256.Sum256 (segmentOf k b ++ hash r'))
      ∧ (k = segmentCount b → ∀ e, PrepareNextOutboundSegment e.1 e.2 sdu r' = (r', Err NoNextSegment)).
Proof.
  intros b k first Hs Hall Hsrc Hpack Hidx Hbig Hk.
  pose proof (segmentCount_bounds b Hbig) as Hb.
  pose proof (len_nonneg rest). split; [apply segments_join; lia|].
  pose proof (segments_ready sdu env rest r s Hs Hall Hsrc Hpack Hbig Hidx) as HW.
  cbv zeta in HW. fold b in HW. specialize (HW ltac:(subst k; lia) ltac:(lia)). unfold wp in HW.
  destruct (prepareSegments sdu env rest r) as [r' o]. simpl in HW. destruct HW as (-> & HY & Ho). fold k in HY.
  destruct (y_prepared _ _ _ _ _ _ _ HY) as [blob HB].
  assert (Hsp : split r' = true) by (rewrite (y_split _ _ _ _ _ _ _ HY); lia).
  assert (Ht : totalSegments r' = segmentCount b).
  { rewrite (y_total _ _ _ _ _ _ _ HY). unfold u16. apply Z.mod_small. lia. }
  exists r', blob. split; [done|]. split; [done|]. split; [done|]. split; [exact (y_index _ _ _ _ _ _ _ HY)|].
  assert (HF : ready env.1 env.2 sdu 1 b r first).
  { pose proof (segments_ready sdu env [] r s Hs) as HW1. cbv zeta in HW1. fold b in HW1. unfold wp in HW1. 
    apply HW1; try done; [constructor; [by apply Forall_inv in Hall|done]|change (len []) with 0; lia|lia]. }
  destruct (y_prepared _ _ _ _ _ _ _ HF) as [blob1 HB1].
  split; [done|]. split; [|split; [|split; [exact (p_hash _ _ _ _ _ HB1)|split; [exact (y_random _ _ _ _ _ _ _ HF)|split]]]].
  - unfold GetTotalSize. rewrite (y_size _ _ _ _ _ _ _ HY). destruct (Z.ltb_spec 0 (len b)); [done|].
    assert (0 < MaxEfficientSize) by done. lia.
  - rewrite Ho. exact (y_first _ _ _ _ _ _ _ HF eq_refl).
  - rewrite (ready_proof _ _ _ _ _ _ _ HY) by lia. rewrite bool_decide_false; [done|].
    intros Ha. apply (f_equal len) in Ha. destruct Hpack as [Hpk _].
    assert (3 + MetadataMaxSize < MaxEfficientSize) by done.
    assert (Hl : len (segmentOf k b) = Z.min (k * MaxEfficientSize) (len b) - (k - 1) * MaxEfficientSize).
    { unfold segmentOf. rewrite <- slice_clip. rewrite len_slice; nia. }
    rewrite Hl in Ha. destruct (Z.eqb_spec k 1) as [Hk1|]; [rewrite Hk1 in Ha; lia|].
    change (len []) with 0 in Ha. nia.
  - intros Hlast e. unfold PrepareNextOutboundSegment. autorewrite with goM.
    rewrite Hsp, Ht, (y_index _ _ _ _ _ _ _ HY), Hlast.
    replace (segmentCount b <=? segmentCount b) with true by lia. reflexivity.
Qed.
End theorems.

(** ** Advertisements on the wire *)

Section advertised.
Context `{MP : Msgpack} `{!MsgpackLaws}.
Implicit Types m : gmap string any.

(** The advertisements of [NewResourceAdvertisement] for a prepared resource. *)
Record adv_ok (a : ResourceAdvertisement) : Prop := {
  ok_transfer : 0 <= a_TransferSize a <= MaxEfficientSize * 3;
  ok_size : 0 <= a_DataSize a <= MaxInt64;
  ok_parts : 0 <= a_Parts a <= MaxSegments;
  ok_hash : len (a_Hash a) = 32;
  ok_original : len (a_OriginalHash a) = 32;
  ok_index : 1 <= a_SegmentIndex a <= 65535;
  ok_total : 1 <= a_TotalSegments a <= 65535;
  ok_request : a_RequestID a ≠ Some []
}.

Definition with_hashmap (m : bytes) (a : ResourceAdvertisement) : ResourceAdvertisement :=
  mkAdv (a_TransferSize a) (a_DataSize a) (a_Parts a) (a_Hash a) (a_RandomHash a) (a_OriginalHash a) m
    (a_SegmentIndex a) (a_TotalSegments a) (a_RequestID a) (a_Flags a).

(** The entries of the hash map an advertisement carries. *)
Definition advertisedEntries (mdu : Z) (a : ResourceAdvertisement) : Z :=
  Z.min (hashmapEntriesPerAdvSegment mdu) (len (a_Hashmap a) `quot` MapHashLen).

Lemma entriesPerSegment_pos mdu : 1 <= hashmapEntriesPerAdvSegment mdu.
Proof. unfold hashmapEntriesPerAdvSegment. repeat case_match; lia. Qed.

Lemma int_decoded k z m m' key :
  option_Forall2 any_same (m !! key) (m' !! key) → m !! key = Some (AInt k z) →
  ∃ k', m' !! key = Some (AInt k' z).
Proof. intros HF Hm. rewrite Hm in HF. inversion HF as [x y Hs E|]; subst. destruct y; simpl in Hs; try done. subst. eauto. Qed.

Lemma bytes_decoded b m m' key :
  option_Forall2 any_same (m !! key) (m' !! key) → m !! key = Some (ABytes b) →
  m' !! key = Some (ABytes b) ∨ b = [] ∧ m' !! key = Some ANil.
Proof.
  intros HF Hm. rewrite Hm in HF. inversion HF as [x y Hs E|]; subst.
  destruct y; destruct b; simpl in Hs; try done; subst; auto.
Qed.

Lemma bytesAt_decoded b m m' key :
  option_Forall2 any_same (m !! key) (m' !! key) → m !! key = Some (ABytes b) → default [] (bytesAt key m') = b.
Proof. intros HF Hm. unfold bytesAt. by destruct (bytes_decoded b m m' key HF Hm) as [->|[-> ->]]. Qed.

Lemma hashAt_decoded b m m' key e :
  option_Forall2 any_same (m !! key) (m' !! key) → m !! key = Some (ABytes b) → len b = 32 →
  hashAt key e m' = Ok b.
Proof.
  intros HF Hm Hl. unfold hashAt, bytesAt. destruct (bytes_decoded b m m' key HF Hm) as [->|[-> _]]; [|done].
  by rewrite Hl.
Qed.

Lemma sizeAt_decoded k z m m' key e :
  option_Forall2 any_same (m !! key) (m' !! key) → m !! key = Some (AInt k z) → z <= MaxInt64 →
  sizeAt key e m' = Ok z.
Proof.
  intros HF Hm Hz. unfold sizeAt, intAt. destruct (int_decoded k z m m' key HF Hm) as [k' ->].
  destruct k'; try done. destruct (Z.ltb_spec MaxInt64 z); [lia|done].
Qed.

Lemma uint16At_decoded k z m m' key e :
  option_Forall2 any_same (m !! key) (m' !! key) → m !! key = Some (AInt k z) → 0 <= z <= 65535 →
  uint16At key e m' = Ok z.
Proof.
  intros HF Hm Hz. unfold uint16At. destruct (int_decoded k z m m' key HF Hm) as [k' ->]. simpl.
  destruct (Z.ltb_spec z 0); [lia|]. destruct (Z.ltb_spec 65535 z); [lia|done].
Qed.

Lemma partsAt_decoded k z m m' :
  option_Forall2 any_same (m !! "n") (m' !! "n") → m !! "n" = Some (AInt k z) → 0 <= z <= MaxInt32 →
  partsAt m' = Ok z.
Proof.
  intros HF Hm Hz. unfold partsAt, intAt. destruct (int_decoded k z m m' "n" HF Hm) as [k' ->].
  destruct k'; try done; destruct (Z.ltb_spec MaxInt32 z); try lia; try done.
  destruct (Z.ltb_spec z 0); [lia|done].
Qed.

Lemma requestAt_decoded q m m' key :
  option_Forall2 any_same (m !! key) (m' !! key) →
  m !! key = Some (match q with Some q => ABytes q | None => ANil end) → q ≠ Some [] → bytesAt key m' = q.
Proof.
  intros HF Hm Hq. unfold bytesAt. destruct q as [q|].
  - by destruct (bytes_decoded q m m' key HF Hm) as [->|[-> _]].
  - rewrite Hm in HF. inversion HF as [x y Hs E|]; subst. by destruct y.
Qed.

(** C20.  Advertisements: what [Pack] writes, [UnpackResourceAdvertisement] reads
    back field by field, flags, sizes, hashes, request and segment included, with
    the first segment of the hash map. *)
Theorem advertisement_roundtrip mdu a d :
  adv_ok a → Pack 0 mdu a = Ok d → len d <= maxAdvertisementBytes →
  UnpackResourceAdvertisement d = Ok (with_hashmap (take (Z.to_nat (advertisedEntries mdu a * MapHashLen)) (a_Hashmap a)) a).
Proof.
  intros HA HP Hd. unfold Pack in HP. rewrite Z.mul_0_l, Z.add_0_l in HP. fold (advertisedEntries mdu a) in HP.
  change (0 * MapHashLen) with 0 in HP. apply outcome_bind_Ok in HP as (hm & Hm & HP).
  apply go_slice_Ok_inv in Hm as [Hm _]. rewrite slice_0 in Hm. rewrite <- Hm. clear Hm.
  destruct (marshalMap (advMap hm a)) as [b|] eqn:EM; simplify_eq.
  destruct (unmarshal_marshal _ _ EM) as (m' & HU & HF).
  pose proof (λ key, HF key) as HF'. unfold UnpackResourceAdvertisement. rewrite HU.
  destruct (Z.ltb_spec maxAdvertisementBytes (len d)); [lia|]. destruct HA as [? ? ? ? ? ? ? Hq].
  assert (HmaxT : MaxEfficientSize * 3 <= MaxInt64) by done. assert (HmaxP : MaxSegments <= MaxInt32) by done.
  rewrite (sizeAt_decoded Kint (a_TransferSize a) (advMap hm a) m' "t") by (apply HF || reflexivity || lia).
  rewrite (sizeAt_decoded Kint (a_DataSize a) (advMap hm a) m' "d") by (apply HF || reflexivity || lia).
  rewrite (partsAt_decoded Kint (a_Parts a) (advMap hm a) m') by (apply HF || reflexivity || lia).
  rewrite (hashAt_decoded (a_Hash a) (advMap hm a) m' "h") by (apply HF || reflexivity || lia).
  rewrite (hashAt_decoded (a_OriginalHash a) (advMap hm a) m' "o") by (apply HF || reflexivity || lia).
  rewrite (uint16At_decoded Kint (a_SegmentIndex a) (advMap hm a) m' "i") by (apply HF || reflexivity || lia).
  rewrite (uint16At_decoded Kint (a_TotalSegments a) (advMap hm a) m' "l") by (apply HF || reflexivity || lia).
  rewrite (bytesAt_decoded (a_RandomHash a) (advMap hm a) m' "r") by (apply HF || reflexivity).
  rewrite (bytesAt_decoded hm (advMap hm a) m' "m") by (apply HF || reflexivity).
  rewrite (requestAt_decoded (a_RequestID a) (advMap hm a) m' "q") by (apply HF || reflexivity || done).
  destruct (int_decoded Kuint8 (b2z (a_Flags a)) (advMap hm a) m' "f" (HF _) eq_refl) as [kf ->]. simpl.
  pose proof (b2z_range (a_Flags a)) as Hflag.
  assert (Hc : ∀ c e, c = true → check (E:=resource_error) c e = Ok ()) by (by intros ? ? ->).
  rewrite !Hc by lia. simpl.
  destruct (Z.ltb_spec (b2z (a_Flags a)) 0); [lia|]. destruct (Z.ltb_spec 255 (b2z (a_Flags a))); [lia|]. simpl.
  rewrite z2b_b2z. unfold with_hashmap. destruct (Z.eqb_spec (a_TotalSegments a) 0); [lia|].
  destruct (Z.eqb_spec (a_SegmentIndex a) 0); [lia|]. by rewrite !andb_false_r.
Qed.
End advertised.

(** ** Concrete resources *)

(** A compressor that stores, and a cipher that leaves the bytes as they are. *)
#[global] Instance storedBzip2 : Bzip2Stream := {|
  bzip2CompressBody d := Some d;
  bzip2Read c n := Some (take (Z.to_nat n) c)
|}.
#[global] Instance storedBzip2_laws : Bzip2StreamLaws.
Proof. by intros d c n [= <-]. Qed.

Definition demo_env : (bytes → option bytes) * option bytes := (Some, Some [x01; x02; x03; x04]).

Lemma demo_supplied : supplied 464 demo_env.
Proof.
  split; [by eexists|]. split; [|by eexists]. intros d Hd. exists d. split; [done|].
  unfold partCount, MaxSegments, MaxEfficientSize, RandomHashSize in *. pose proof (len_nonneg d).
  rewrite Z.quot_div_nonneg by lia. apply Z.div_le_upper_bound; lia.
Qed.

Definition demo_resource : Resource := New (Some [x68; x69]) false.
Definition large_content : bytes := replicate (Z.to_nat (MaxEfficientSize + 100)) x61.
Definition large_resource : Resource := New (Some large_content) false.

Lemma resource_parts_witness : (PrepareOutboundForLink demo_env.1 demo_env.2 464 demo_resource).2 = Ok ().
Proof.
  assert (Hm : packable demo_resource) by (split; [vm_compute; discriminate|intros _ m Hm; discriminate Hm]).
  destruct (resource_parts demo_env 464 demo_resource [x68; x69] eq_refl demo_supplied eq_refl Hm) as (r' & _ & _ & HR & _).
  { vm_compute. discriminate. }
  rewrite HR. reflexivity.
Defined.

Lemma split_resource_segments_witness : (prepareSegments 464 demo_env [demo_env] large_resource).2 = Ok ().
Proof.
  assert (Hl : len large_content = MaxEfficientSize + 100) by (unfold large_content; rewrite len_replicate, Z2Nat.id; [reflexivity|discriminate]).
  assert (Hn : segmentCount ([] ++ large_content) = 2) by (unfold segmentCount; rewrite app_nil_l, Hl; reflexivity).
  assert (Hm : packable large_resource).
  { split; [change (packedMeta large_resource) with (@nil byte); discriminate|intros _ m Hm; discriminate Hm]. }
  destruct (split_resource_segments 464 demo_env [demo_env] large_resource large_content) as (_ & r' & _ & HR & _).
  - reflexivity.
  - repeat constructor; apply demo_supplied.
  - reflexivity.
  - exact Hm.
  - reflexivity.
  - change (packedMeta large_resource) with (@nil byte). rewrite app_nil_l, Hl. reflexivity.
  - change (packedMeta large_resource) with (@nil byte). rewrite Hn. split; discriminate.
  - rewrite HR. reflexivity.
Defined.

(** A codec of one message. *)
#[global] Instance ikind_eq_dec : EqDecision ikind.
Proof. solve_decision. Defined.
#[global] Instance any_eq_dec : EqDecision any.
Proof. solve_decision. Defined.

Definition demo_adv : ResourceAdvertisement :=
  mkAdv 6 2 1 (replicate 32 x11) [x01; x02; x03; x04] (replicate 32 x11) [x0a; x0b; x0c; x0d] 1 1 None AdvFlagEncrypted.

#[local] Instance demoMsgpack : Msgpack := {|
  marshalMap m := if bool_decide (m = advMap [x0a; x0b; x0c; x0d] demo_adv) then Some [x2a] else None;
  unmarshalMap b := if bool_decide (b = [x2a]) then Some (advMap [x0a; x0b; x0c; x0d] demo_adv) else None
|}.
#[local] Instance demoMsgpack_laws : MsgpackLaws.
Proof.
  constructor. intros m b. unfold marshalMap, demoMsgpack. case_bool_decide as E; [|discriminate].
  intros [= <-]. exists m. split; [by rewrite E|]. intros k.
  destruct (m !! k) as [[|[]| |]|] eqn:Ek; constructor; simpl; try done.
  exfalso. rewrite E in Ek. apply elem_of_list_to_map_2 in Ek. simpl in Ek. set_solver.
Qed.

Lemma advertisement_roundtrip_witness :
  UnpackResourceAdvertisement [x2a] = Ok (with_hashmap [x0a; x0b; x0c; x0d] demo_adv).
Proof.
  apply (advertisement_roundtrip 431 demo_adv [x2a]).
  - constructor; vm_compute; (discriminate || (split; discriminate) || reflexivity).
  - vm_compute. reflexivity.
  - vm_compute. discriminate.
Defined.

End Resource.
