(* ===== verification/ResourceRx.v ===== *)
(** * Assembling a resource

    The receiving side of a resource transfer ([incomingResourceAsm] of
    [pkg/link/incoming_resource.go]): the hash map as it becomes known, the part
    slots, the receive window, the choice of the next request; and the choice of
    parts and hash map segments at the sending side
    ([pkg/link/link_resource.go]).  Counters that are only logged are left
    out. *)

From S2P Require Import Prelude.
From S2P Require Import Sha256.
From S2P Require Import Resource.

Module Rx.
Module R := Resource.
Local Open Scope go_scope.

Definition hashmapNotExhausted : byte := x00.
Definition hashmapExhausted : byte := xff.
Definition incomingResourceStallGrace : Z := 250000000.
Definition incomingResourceWindowShrinkStalls : Z := 2.
Definition incomingResourceWindowMaxShrinkStalls : Z := 3.
Definition incomingResourceMaxStallRetries : Z := 16.
Definition MaxInt : Z := 2 ^ 63 - 1.

Record incomingResourceAsm := mkRx {
  rx_adv : R.ResourceAdvertisement;
  hashmapSegLen : Z;
  partSlots : list (option bytes);
  mapHashes : list (option bytes);
  inflight : list bool;
  hashIndex : gmap bytes (list Z);
  hashmapHeight : Z;
  totalParts : Z;
  consecutiveCompleted : Z;
  waitingForHmu : bool;
  outstandingParts : Z;
  window : Z;
  windowMin : Z;
  windowMax : Z;
  consecutiveStalls : Z;
  lastProgressAt : Z;
  rx_request : option nat
}.

Definition set_hashes (v0 : list (option bytes)) (v1 : gmap bytes (list Z)) (v2 : Z) (x : incomingResourceAsm) : incomingResourceAsm :=
  mkRx (rx_adv x) (hashmapSegLen x) (partSlots x) v0 (inflight x) v1 v2 (totalParts x) (consecutiveCompleted
    x) (waitingForHmu x) (outstandingParts x) (window x) (windowMin x) (windowMax x) (consecutiveStalls x)
    (lastProgressAt x) (rx_request x).
Definition set_slots (v0 : list (option bytes)) (v1 : Z) (x : incomingResourceAsm) : incomingResourceAsm :=
  mkRx (rx_adv x) (hashmapSegLen x) v0 (mapHashes x) (inflight x) (hashIndex x) (hashmapHeight x)
    (totalParts x) v1 (waitingForHmu x) (outstandingParts x) (window x) (windowMin x) (windowMax x)
    (consecutiveStalls x) (lastProgressAt x) (rx_request x).
Definition set_inflight (v0 : list bool) (v1 : Z) (x : incomingResourceAsm) : incomingResourceAsm :=
  mkRx (rx_adv x) (hashmapSegLen x) (partSlots x) (mapHashes x) v0 (hashIndex x) (hashmapHeight x)
    (totalParts x) (consecutiveCompleted x) (waitingForHmu x) v1 (window x) (windowMin x) (windowMax x)
    (consecutiveStalls x) (lastProgressAt x) (rx_request x).
Definition set_waiting (v0 : bool) (x : incomingResourceAsm) : incomingResourceAsm :=
  mkRx (rx_adv x) (hashmapSegLen x) (partSlots x) (mapHashes x) (inflight x) (hashIndex x) (hashmapHeight x)
    (totalParts x) (consecutiveCompleted x) v0 (outstandingParts x) (window x) (windowMin x) (windowMax x)
    (consecutiveStalls x) (lastProgressAt x) (rx_request x).
Definition set_window (v0 : Z) (v1 : Z) (v2 : Z) (x : incomingResourceAsm) : incomingResourceAsm :=
  mkRx (rx_adv x) (hashmapSegLen x) (partSlots x) (mapHashes x) (inflight x) (hashIndex x) (hashmapHeight x)
    (totalParts x) (consecutiveCompleted x) (waitingForHmu x) (outstandingParts x) v0 v1 v2
    (consecutiveStalls x) (lastProgressAt x) (rx_request x).
Definition set_stalls (v0 : Z) (x : incomingResourceAsm) : incomingResourceAsm :=
  mkRx (rx_adv x) (hashmapSegLen x) (partSlots x) (mapHashes x) (inflight x) (hashIndex x) (hashmapHeight x)
    (totalParts x) (consecutiveCompleted x) (waitingForHmu x) (outstandingParts x) (window x) (windowMin x)
    (windowMax x) v0 (lastProgressAt x) (rx_request x).
Definition set_progress (v0 : Z) (x : incomingResourceAsm) : incomingResourceAsm :=
  mkRx (rx_adv x) (hashmapSegLen x) (partSlots x) (mapHashes x) (inflight x) (hashIndex x) (hashmapHeight x)
    (totalParts x) (consecutiveCompleted x) (waitingForHmu x) (outstandingParts x) (window x) (windowMin x)
    (windowMax x) (consecutiveStalls x) v0 (rx_request x).
Definition set_request (v0 : option nat) (x : incomingResourceAsm) : incomingResourceAsm :=
  mkRx (rx_adv x) (hashmapSegLen x) (partSlots x) (mapHashes x) (inflight x) (hashIndex x) (hashmapHeight x)
    (totalParts x) (consecutiveCompleted x) (waitingForHmu x) (outstandingParts x) (window x) (windowMin x)
    (windowMax x) (consecutiveStalls x) (lastProgressAt x) v0.

(** ** The hash map *)

Definition slot {A} (l : list (option A)) (i : Z) : option A :=
  if i <? 0 then None else mjoin (l !! Z.to_nat i).

Definition indexMapHash (idx : Z) (mh : bytes) (m : gmap bytes (list Z)) : gmap bytes (list Z) :=
  if len mh =? R.MapHashLen then
    let l := default [] (m !! mh) in
    if bool_decide (idx ∈ l) then m else <[mh := l ++ [idx]]> m
  else m.

(** The loop of [applyHashmapSegment]; [added] counts the new entries. *)
Fixpoint applyHashes (idx : Z) (hs : list bytes) (x : incomingResourceAsm) (added : Z)
    : incomingResourceAsm * Z :=
  match hs with
  | [] => (x, added)
  | mh :: hs =>
      if (MaxInt <? idx) || (idx <? 0) || (totalParts x <=? idx) then (x, added)
      else
        let new := match slot (mapHashes x) idx with None => 1 | Some _ => 0 end in
        applyHashes (idx + 1) hs
          (set_hashes (<[Z.to_nat idx := Some mh]> (mapHashes x)) (indexMapHash idx mh (hashIndex x))
             (hashmapHeight x + new) x)
          (added + new)
  end.

(** The entries of a byte string of map hashes. *)
Definition entries (m : bytes) : list bytes := R.mapEntry m <$> seqZ 0 (len m `quot` R.MapHashLen).

Definition applyHashmapSegment (segment : Z) (m : bytes) (x : incomingResourceAsm) : incomingResourceAsm * Z :=
  if segment <? 0 then (x, 0)
  else
    let segLen := if hashmapSegLen x <=? 0 then 1 else hashmapSegLen x in
    if MaxInt `quot` segLen <? segment then (x, 0)
    else applyHashes (segment * segLen) (entries m) x 0.

(** ** Placing a part *)

Definition findIndex (p : Z → bool) (lo hi : Z) : option Z := List.find p (seqZ lo (hi - lo)).

Definition lookupMapHash (mh : bytes) (windowStart windowEnd : Z) (x : incomingResourceAsm) : option Z :=
  if negb (len mh =? R.MapHashLen) then None
  else List.find (λ i, negb ((i <? windowStart) || (windowEnd <=? i)) && bool_decide (slot (partSlots x) i = None))
         (default [] (hashIndex x !! mh)).

(** The scan of the slots for the first empty one with this map hash. *)
Definition scanMapHash (mh : bytes) (windowStart windowEnd : Z) (x : incomingResourceAsm) : option Z :=
  findIndex (λ i, bool_decide (slot (partSlots x) i = None) && bool_decide (slot (mapHashes x) i = Some mh))
    windowStart windowEnd.

Definition effectiveWindow (x : incomingResourceAsm) : Z := if window x <=? 0 then R.Window else window x.
Definition windowStart (x : incomingResourceAsm) : Z := Z.max (consecutiveCompleted x + 1) 0.

Definition findPart (mh : bytes) (x : incomingResourceAsm) : option Z :=
  let lo := windowStart x in
  let hi := Z.min (lo + effectiveWindow x) (totalParts x) in
  let guardEnd := Z.min (lo + R.CollisionGuardSize) (totalParts x) in
  match lookupMapHash mh lo hi x with
  | Some i => Some i
  | None =>
      match scanMapHash mh lo hi x with
      | Some i => Some i
      | None =>
          match lookupMapHash mh lo guardEnd x with
          | Some i => Some i
          | None => scanMapHash mh lo guardEnd x
          end
      end
  end.

(** A filled slot with this map hash: the part is a duplicate. *)
Definition isDuplicate (mh : bytes) (x : incomingResourceAsm) : bool :=
  existsb (λ i, bool_decide (slot (partSlots x) i ≠ None) && bool_decide (slot (mapHashes x) i = Some mh))
    (seqZ 0 (totalParts x)).

(** The index of the last slot of the filled prefix, -1 when there is none. *)
Fixpoint consecutivePrefix (slots : list (option bytes)) : Z :=
  match slots with
  | Some (_ :: _) :: slots => 1 + consecutivePrefix slots
  | _ => -1
  end.

Definition storePart (now idx : Z) (d : bytes) (x : incomingResourceAsm) : incomingResourceAsm :=
  let slots := <[Z.to_nat idx := Some d]> (partSlots x) in
  let x := set_slots slots (consecutivePrefix slots) x in
  let x := set_stalls 0 (set_progress now x) in
  let flags := <[Z.to_nat idx := false]> (inflight x) in
  set_inflight flags (if 0 <? outstandingParts x then outstandingParts x - 1 else outstandingParts x) x.

Definition incomingTransferComplete (x : incomingResourceAsm) : bool :=
  forallb (λ s, match s with Some _ => true | None => false end) (partSlots x)
  && (foldr (λ s n, len (default [] s) + n) 0 (partSlots x) =? R.a_TransferSize (rx_adv x)).

Definition concatIncomingParts (x : incomingResourceAsm) : bytes := mjoin (default [] <$> partSlots x).

(** ** The window *)

Definition startIncomingWindow (last minW maxW defaultW : Z) : Z :=
  if last <=? 0 then defaultW else if maxW <? last then maxW else if last <? minW then minW else last.

Definition growIncomingResourceWindow (x : incomingResourceAsm) : incomingResourceAsm :=
  if window x <? windowMax x then
    let step := Z.max (window x `quot` 4) 1 in
    let w := window x + step in
    let w := if windowMax x <? w then windowMax x else w in
    let m := if R.WindowFlexibility - 1 <? w - windowMin x then windowMin x + 1 else windowMin x in
    set_window w m (windowMax x) x
  else x.

(** The loop over the part numbers: the missing parts whose hashes are known. *)
Fixpoint countKnown (x : incomingResourceAsm) (pns : list Z) (n : Z) : Z :=
  match pns with
  | [] => n
  | pn :: pns =>
      match slot (mapHashes x) pn with
      | None => n
      | Some _ => countKnown x pns (match slot (partSlots x) pn with Some _ => n | None => n + 1 end)
      end
  end.

Definition knownHashesAhead (x : incomingResourceAsm) : Z :=
  countKnown x (seqZ (windowStart x) (totalParts x - windowStart x)) 0.

(** The updates of the watchdog for a transfer that made no progress. *)
Definition stallIncoming (x : incomingResourceAsm) : incomingResourceAsm :=
  let x := set_waiting false x in
  let x := set_inflight (replicate (length (inflight x)) false) 0 x in
  let stalls := consecutiveStalls x + 1 in
  let x := set_stalls stalls x in
  let x :=
    if (incomingResourceWindowShrinkStalls <=? stalls) && (windowMin x <? window x) && (0 <? windowMin x)
    then set_window (window x - 1) (windowMin x) (windowMax x) x else x in
  if (incomingResourceWindowMaxShrinkStalls <=? stalls) && (windowMin x <? windowMax x) then
    let m := windowMax x - 1 in
    let m := if R.WindowFlexibility - 1 <? m - window x then m - 1 else m in
    set_window (window x) (windowMin x) m x
  else x.

(** ** The next request *)

(** The loop over the part numbers: the parts to ask for, in reverse, and
    whether the hash map ran out. *)
Fixpoint collectParts (pns : list Z) (slots : Z) (x : incomingResourceAsm) (acc : list (Z * bytes))
    : list (Z * bytes) * bool :=
  match pns with
  | [] => (acc, false)
  | pn :: pns =>
      if bool_decide (slot (partSlots x) pn ≠ None) || default false (inflight x !! Z.to_nat pn)
      then collectParts pns slots x acc
      else
        match slot (mapHashes x) pn with
        | Some mh =>
            let acc := (pn, mh) :: acc in
            if slots <=? len acc then (acc, false) else collectParts pns slots x acc
        | None => (acc, negb (waitingForHmu x))
        end
  end.

Inductive rx_error := CannotExtendHashmap | InvalidLastHash.

(** The hash that anchors a request for more of the hash map. *)
Definition lastMapHash (x : incomingResourceAsm) : outcome rx_error bytes :=
  if (hashmapHeight x =? 0) || (len (mapHashes x) <=? hashmapHeight x - 1) then Err CannotExtendHashmap
  else
    match slot (mapHashes x) (hashmapHeight x - 1) with
    | Some h => if len h =? R.MapHashLen then Ok h else Err InvalidLastHash
    | None => Err InvalidLastHash
    end.

(** The request of [sendIncomingResourceReqNext]: nothing to ask, or the body
    with the parts it asks for and the new state. *)
Definition nextRequest (x : incomingResourceAsm)
    : outcome rx_error (option (bytes * list Z * bool * incomingResourceAsm)) :=
  let searchStart := windowStart x in
  let win := effectiveWindow x in
  if totalParts x <=? searchStart then Ok None
  else if (0 <? outstandingParts x) && (win `quot` 2 <? outstandingParts x) then Ok None
  else
    let slotsNeeded := win - outstandingParts x in
    if slotsNeeded <=? 0 then Ok None
    else
      let last := Z.min (searchStart + win * 2) (totalParts x) in
      let '(acc, exhausted) := collectParts (seqZ searchStart (last - searchStart)) slotsNeeded x [] in
      let asked := rev acc in
      if (len asked =? 0) && negb exhausted then Ok None
      else
        '(prefix, x) ←
          (if exhausted then h ← lastMapHash x; Ok (hashmapExhausted :: h, set_waiting true x)
           else Ok ([hashmapNotExhausted], x));
        let flags := foldl (λ f pn, <[Z.to_nat pn := true]> f) (inflight x) (asked.*1) in
        let x := set_inflight flags (outstandingParts x + len asked) x in
        Ok (Some (prefix ++ R.a_Hash (rx_adv x) ++ mjoin (asked.*2), asked.*1, exhausted, x)).

(** Undoing the reservations of a request that could not be sent. *)
Definition unrequest (pns : list Z) (exhausted : bool) (x : incomingResourceAsm) : incomingResourceAsm :=
  let flags := foldl (λ f pn, <[Z.to_nat pn := false]> f) (inflight x) pns in
  let n := outstandingParts x - len pns in
  let x := set_inflight flags (if n <? 0 then 0 else n) x in
  if exhausted then set_waiting false x else x.

(** Whether more of the hash map should be asked for ahead of need. *)
Definition prefetchDue (x : incomingResourceAsm) : bool :=
  negb (waitingForHmu x) && (hashmapHeight x <? totalParts x)
  && (knownHashesAhead x <? Z.max (window x `quot` 2) 1).

Definition prefetchRequest (x : incomingResourceAsm) : outcome rx_error (option (bytes * incomingResourceAsm)) :=
  if negb (prefetchDue x) then Ok None
  else h ← lastMapHash x; Ok (Some (hashmapExhausted :: h ++ R.a_Hash (rx_adv x), set_waiting true x)).

(** ** A part arrives *)

(** The slot a part fills; none for a duplicate or an unknown part. *)
Definition takePart (now : Z) (d : bytes) (x : incomingResourceAsm) : option incomingResourceAsm :=
  (λ i, storePart now i d x) <$> findPart (R.mapHash (R.a_RandomHash (rx_adv x)) d) x.

(** After a part that does not complete the transfer: whether to ask for more of
    the hash map, whether to ask for more parts, and the grown window. *)
Definition afterPart (x : incomingResourceAsm) : bool * bool * incomingResourceAsm :=
  let needRefill := (outstandingParts x =? 0) || (outstandingParts x <=? effectiveWindow x `quot` 2) in
  (prefetchDue x, needRefill,
   if needRefill && (consecutiveStalls x =? 0) then growIncomingResourceWindow x else x).

(** ** A transfer begins *)

Inductive begin_error :=
  | InvalidMDU | InvalidParts | PartsExceed | NegativeTransfer | TransferExceedsSegment | TransferExceedsParts
  | InvalidHashmap | ResourceRefused.

(** The checks of [beginIncomingResource]; [allowed] is the verdict of the
    protection engine. *)
Definition checkAdvertisement (sdu : Z) (allowed : bool) (a : R.ResourceAdvertisement) : outcome begin_error () :=
  check (0 <? sdu) InvalidMDU ;;
  check (negb (R.a_Parts a <=? 0)) InvalidParts ;;
  let maxSegmentBytes := R.MaxEfficientSize + 4096 in
  let maxParts := Z.min (Z.max (maxSegmentBytes `quot` sdu + 8) 1) R.MaxSegments in
  check (negb (maxParts <? R.a_Parts a)) PartsExceed ;;
  check (negb (R.a_TransferSize a <? 0)) NegativeTransfer ;;
  check (negb (maxSegmentBytes <? R.a_TransferSize a)) TransferExceedsSegment ;;
  check (negb (R.a_Parts a * sdu <? R.a_TransferSize a)) TransferExceedsParts ;;
  check (negb ((len (R.a_Hashmap a) =? 0) || negb (len (R.a_Hashmap a) `rem` R.MapHashLen =? 0))) InvalidHashmap ;;
  check allowed ResourceRefused.

(** The assembly of a new transfer; [last] is the window the previous one ended
    with. *)
Definition newIncoming (now mdu last : Z) (a : R.ResourceAdvertisement) : incomingResourceAsm :=
  let n := Z.to_nat (R.a_Parts a) in
  let x := mkRx a (R.hashmapEntriesPerAdvSegment mdu) (replicate n None) (replicate n None) (replicate n false) ∅
             0 (R.a_Parts a) (-1) false 0 R.WindowMaxSlow R.WindowMin R.WindowMaxFast 0 now None in
  let x := (applyHashmapSegment 0 (R.a_Hashmap a) x).1 in
  set_window (startIncomingWindow last R.WindowMin R.WindowMaxFast R.WindowMaxSlow) (windowMin x) (windowMax x) x.

(** ** The sending side *)

Definition LinkResourceMappedFlag : byte := xff.

(** A request for the resource [out]: the anchor of a hash map extension and the
    hashes of the parts. *)
Definition parseRequest (plaintext : bytes) (out : R.Resource) : option (option bytes * bytes) :=
  match plaintext with
  | [] => None
  | flag :: _ =>
      if len plaintext <? 1 + 32 then None
      else
        let mapped := bool_decide (flag = LinkResourceMappedFlag) in
        let pad := if mapped then 1 + R.MapHashLen else 1 in
        if mapped && (len plaintext <? pad + 32) then None
        else if negb (bool_decide (slice pad (pad + 32) plaintext = R.hash out)) then None
        else
          let reqHashes := drop (Z.to_nat (pad + 32)) plaintext in
          if negb (len reqHashes `rem` R.MapHashLen =? 0) then None
          else Some (if mapped then Some (slice 1 pad plaintext) else None, reqHashes)
  end.

(** The segment of the hash map that follows the anchor, and the first part it
    covers. *)
Definition chooseHashmapUpdateSegment (out : R.Resource) (mdu : Z) (anchor : bytes) (receiverMinPart : Z)
    : option (Z * Z) :=
  if negb (len anchor =? R.MapHashLen) then None
  else
    let n := R.hashmapEntriesPerAdvSegment mdu in
    let totalParts := R.segments out in
    if totalParts =? 0 then None
    else
      let receiverMinPart := if receiverMinPart <? 0 then 0 else receiverMinPart in
      let searchStart := Z.max (receiverMinPart - n) 0 in
      let searchStart := if totalParts <=? searchStart then 0 else searchStart in
      let searchEnd := Z.min (receiverMinPart + R.CollisionGuardSize) totalParts in
      let searchEnd := if searchEnd <? searchStart + n
                       then Z.min (searchStart + R.CollisionGuardSize) totalParts else searchEnd in
      let at_anchor idx := bool_decide (R.MapHashAt idx out = anchor) in
      let boundary idx := at_anchor idx && (idx + 1 <? totalParts) && ((idx + 1) `rem` n =? 0) in
      let target := match findIndex boundary searchStart searchEnd with
                    | Some i => Some i
                    | None => findIndex at_anchor searchStart searchEnd
                    end in
      match target with
      | None => None
      | Some i =>
          let segment := (i + 1) `quot` n in
          if segment <=? 0 then None else Some (segment, i + 1)
      end.

(** The part that answers one requested hash. *)
Definition selectPart (out : R.Resource) (receiverMinPart : Z) (used : list Z) (mh : bytes) : option Z :=
  let totalParts := R.segments out in
  let searchStart := if totalParts <=? receiverMinPart then 0 else receiverMinPart in
  let searchEnd := Z.min (searchStart + R.CollisionGuardSize) totalParts in
  let free idx := negb (bool_decide (idx ∈ used)) && (len (R.MapHashAt idx out) =? R.MapHashLen)
                  && bool_decide (R.MapHashAt idx out = mh) in
  match findIndex (λ idx, free idx && negb (R.IsOutboundPartSent idx out)) searchStart searchEnd with
  | Some i => Some i
  | None =>
      match findIndex free searchStart searchEnd with
      | Some i => Some i
      | None =>
          if 0 <? receiverMinPart
          then findIndex free (Z.max (receiverMinPart - R.CollisionGuardSize) 0) searchStart
          else None
      end
  end.

Definition selectRequestedPartIndexes (out : R.Resource) (reqHashes : bytes) (receiverMinPart : Z) : list Z :=
  if negb (len reqHashes `rem` R.MapHashLen =? 0) then []
  else if R.segments out =? 0 then []
  else
    let receiverMinPart := if receiverMinPart <? 0 then 0 else receiverMinPart in
    foldl (λ used mh, match selectPart out receiverMinPart used mh with
                      | Some i => used ++ [i] | None => used end) [] (entries reqHashes).

(** ** A lossless exchange *)

(** The receiver takes in one part of a transfer that is not complete. *)
Definition receive (now : Z) (x : incomingResourceAsm) (d : bytes) : incomingResourceAsm :=
  match takePart now d x with
  | Some x => if incomingTransferComplete x then x else (afterPart x).2
  | None => x
  end.

(** The receiver takes in the segment of the hash map it waits for. *)
Definition learn (now : Z) (x : incomingResourceAsm) (update : option (Z * bytes)) : incomingResourceAsm :=
  match update with
  | Some (segment, m) => set_waiting false (set_progress now (applyHashmapSegment segment m x).1)
  | None => x
  end.

(** What the sender, at [lo], sends for a request: the parts, and a segment of
    the hash map with its number. *)
Definition answer (mdu sdu : Z) (body : bytes) (out : R.Resource) (lo : Z)
    : list bytes * option (Z * bytes) * R.Resource * Z :=
  match parseRequest body out with
  | None => ([], None, out, lo)
  | Some (anchor, reqHashes) =>
      let indexes := selectRequestedPartIndexes out reqHashes lo in
      let sent := (λ i, R.OutboundCiphertextSlice i sdu out) <$> indexes in
      let out := foldl (λ out i, (R.MarkOutboundPartSent i out).1) out indexes in
      match anchor ≫= λ h, chooseHashmapUpdateSegment out mdu h lo with
      | Some (segment, nextMin) => (sent, Some (segment, R.HashmapSegment mdu segment out), out, nextMin)
      | None => (sent, None, out, lo)
      end
  end.

(** One exchange: a request, and all of its answer. *)
Definition exchange (mdu sdu now : Z) (body : bytes) (s : incomingResourceAsm * R.Resource * Z)
    : incomingResourceAsm * R.Resource * Z :=
  let '(x, out, lo) := s in
  let '(sent, update, out, lo) := answer mdu sdu body out lo in
  (learn now (foldl (receive now) x sent) update, out, lo).

(** One round: more of the hash map when it is due, then more parts. *)
Definition prefetchRound (mdu sdu now : Z) (s : incomingResourceAsm * R.Resource * Z) :=
  let '(x, out, lo) := s in
  match prefetchRequest x with
  | Ok (Some (body, x)) => exchange mdu sdu now body (x, out, lo)
  | _ => s
  end.
Definition requestRound (mdu sdu now : Z) (s : incomingResourceAsm * R.Resource * Z) :=
  let '(x, out, lo) := s in
  match nextRequest x with
  | Ok (Some (body, _, _, x)) => exchange mdu sdu now body (x, out, lo)
  | _ => s
  end.
Definition round (mdu sdu now : Z) (s : incomingResourceAsm * R.Resource * Z) :=
  requestRound mdu sdu now (prefetchRound mdu sdu now s).

(** Rounds until the transfer is complete. *)
Fixpoint rounds (mdu sdu now : Z) (k : nat) (s : incomingResourceAsm * R.Resource * Z) :=
  match k with
  | O => s
  | S k => if incomingTransferComplete s.1.1 then s else rounds mdu sdu now k (round mdu sdu now s)
  end.

(** What the two ends put on the network. *)
Inductive datagram := Request (body : bytes) | Part (d : bytes) | Update (segment : Z) (m : bytes).

(** A network that loses, repeats, delays and reorders: what was sent stays in
    [mail] and arrives any number of times, at any time.  The receiver asks for
    parts and for more of the hash map, the sender answers the requests as they
    reach it, and the watchdog of the receiver gives up what is on its way. *)
Inductive disturbed (mdu sdu : Z) :
    incomingResourceAsm * R.Resource * Z * list datagram → incomingResourceAsm * R.Resource * Z * list datagram → Prop :=
  | requested x body pns ex x' out lo mail :
      nextRequest x = Ok (Some (body, pns, ex, x')) →
      disturbed mdu sdu (x, out, lo, mail) (x', out, lo, Request body :: mail)
  | prefetched x body x' out lo mail :
      prefetchRequest x = Ok (Some (body, x')) →
      disturbed mdu sdu (x, out, lo, mail) (x', out, lo, Request body :: mail)
  | request_arrives x body out lo sent update out' lo' mail :
      Request body ∈ mail → answer mdu sdu body out lo = (sent, update, out', lo') →
      disturbed mdu sdu (x, out, lo, mail)
        (x, out', lo', (Part <$> sent) ++ from_option (λ u, [Update u.1 u.2]) [] update ++ mail)
  | part_arrives now d x out lo mail :
      Part d ∈ mail → disturbed mdu sdu (x, out, lo, mail) (receive now x d, out, lo, mail)
  | update_arrives now k m x out lo mail :
      Update k m ∈ mail → waitingForHmu x = true →
      disturbed mdu sdu (x, out, lo, mail) (learn now x (Some (k, m)), out, lo, mail)
  | stalled x out lo mail : disturbed mdu sdu (x, out, lo, mail) (stallIncoming x, out, lo, mail).

(** ** Slots *)

Lemma slot_Some {A} (l : list (option A)) i a : slot l i = Some a ↔ 0 <= i ∧ l !! Z.to_nat i = Some (Some a).
Proof.
  unfold slot. destruct (Z.ltb_spec i 0) as [Hi|Hi].
  - split; [done|lia].
  - destruct (l !! Z.to_nat i) as [[b|]|] eqn:E; simpl; split; try done; naive_solver.
Qed.

Lemma slot_None {A} (l : list (option A)) i :
  0 <= i < len l → slot l i = None ↔ l !! Z.to_nat i = Some None.
Proof.
  intros Hi. unfold slot. destruct (Z.ltb_spec i 0); [lia|].
  destruct (lookup_lt_is_Some_2 l (Z.to_nat i)) as [o Ho]; [unfold len in Hi; lia|].
  rewrite Ho. destruct o; simpl; naive_solver.
Qed.

Lemma slot_insert {A} (l : list (option A)) i a :
  0 <= i < len l → slot (<[Z.to_nat i := Some a]> l) i = Some a.
Proof. intros Hi. apply slot_Some. split; [lia|]. apply list_lookup_insert_eq. unfold len in Hi. lia. Qed.

Lemma slot_insert_ne {A} (l : list (option A)) i j a :
  0 <= i → i ≠ j → slot (<[Z.to_nat i := Some a]> l) j = slot l j.
Proof.
  intros Hi Hne. unfold slot. destruct (Z.ltb_spec j 0); [done|]. by rewrite list_lookup_insert_ne by lia.
Qed.

Lemma slot_out {A} (l : list (option A)) i : len l <= i → slot l i = None.
Proof.
  intros Hi. unfold slot. destruct (i <? 0); [done|]. rewrite lookup_ge_None_2; [done|]. unfold len in Hi. lia.
Qed.

Lemma slot_replicate {A} n i : slot (replicate n (None : option A)) i = None.
Proof.
  unfold slot. destruct (i <? 0); [done|]. destruct (replicate n None !! Z.to_nat i) as [o|] eqn:E; [|done].
  by apply lookup_replicate in E as [-> _].
Qed.

(** The filled prefix: every slot of it is filled, the next one is not. *)
Lemma consecutivePrefix_spec slots :
  Forall (λ s, s ≠ Some []) slots →
  -1 <= consecutivePrefix slots < len slots
  ∧ (∀ i, 0 <= i <= consecutivePrefix slots → slot slots i ≠ None)
  ∧ slot slots (consecutivePrefix slots + 1) = None.
Proof.
  induction 1 as [|o slots Ho _ (IH1 & IH2 & IH3)]; [split_and!; try done; simpl; intros; lia|].
  rewrite len_cons. destruct o as [[|c d]|]; [done| |].
  - change (consecutivePrefix _) with (1 + consecutivePrefix slots). split; [lia|]. split.
    + intros i Hi. destruct (Z.eq_dec i 0) as [->|]; [done|]. specialize (IH2 (i - 1) ltac:(lia)).
      unfold slot in *. destruct (Z.ltb_spec (i - 1) 0); [lia|]. destruct (Z.ltb_spec i 0); [lia|].
      replace (Z.to_nat i) with (S (Z.to_nat (i - 1))) by lia. done.
    + unfold slot in *. destruct (Z.ltb_spec (consecutivePrefix slots + 1) 0); [lia|].
      destruct (Z.ltb_spec (1 + consecutivePrefix slots + 1) 0); [lia|].
      replace (Z.to_nat (1 + consecutivePrefix slots + 1)) with (S (Z.to_nat (consecutivePrefix slots + 1))) by lia. done.
  - simpl. split; [pose proof (len_nonneg slots); lia|]. split; [intros; lia|done].
Qed.

(** The first index that satisfies a test. *)
Lemma findIndex_Some p lo hi i : findIndex p lo hi = Some i → lo <= i < hi ∧ p i = true.
Proof.
  unfold findIndex. intros HF. apply find_some in HF as [Hin Hp]. split; [|done].
  apply list_elem_of_In, elem_of_seqZ in Hin. lia.
Qed.

Lemma findIndex_None p lo hi i : findIndex p lo hi = None → lo <= i < hi → p i = false.
Proof.
  unfold findIndex. intros HF Hi. apply (find_none _ _ HF). apply list_elem_of_In, elem_of_seqZ. lia.
Qed.

Lemma findIndex_is_Some p lo hi i : lo <= i < hi → p i = true → is_Some (findIndex p lo hi).
Proof.
  intros Hi Hp. destruct (findIndex p lo hi) eqn:E; [done|]. by rewrite (findIndex_None _ _ _ _ E Hi) in Hp.
Qed.

(** ** A transfer of known parts

    [parts] are the sender's parts and [a] its advertisement, the hash map cut
    in segments of [n] hashes. *)

Section transfer.
Context (parts : list bytes) (a : R.ResourceAdvertisement) (n : Z).

Definition hashes : list bytes := R.mapHash (R.a_RandomHash a) <$> parts.

(** The map hashes tell the parts apart, and no part is empty. *)
Record distinct : Prop := {
  d_hashes : NoDup hashes;
  d_parts : Forall (λ p, p ≠ []) parts;
  d_count : 0 < len parts <= R.MaxSegments;
  d_segment : 1 <= n
}.

(** What has been received agrees with the sender's parts; the hashes known are
    those below [hashmapHeight]. *)
Record assembling (x : incomingResourceAsm) : Prop := {
  h_adv : rx_adv x = a;
  h_seglen : hashmapSegLen x = n;
  h_total : totalParts x = len parts;
  h_slots : len (partSlots x) = len parts;
  h_hashes : len (mapHashes x) = len parts;
  h_flags : len (inflight x) = len parts;
  h_slot : ∀ i d, slot (partSlots x) i = Some d → parts !! Z.to_nat i = Some d;
  h_map : ∀ i h, slot (mapHashes x) i = Some h → hashes !! Z.to_nat i = Some h;
  h_index : ∀ h l i, hashIndex x !! h = Some l → i ∈ l → 0 <= i ∧ hashes !! Z.to_nat i = Some h;
  h_prefix : consecutiveCompleted x = consecutivePrefix (partSlots x);
  h_height : 0 <= hashmapHeight x <= len parts;
  h_known : ∀ i, 0 <= i < len parts → slot (mapHashes x) i ≠ None ↔ i < hashmapHeight x
}.

Context (D : distinct).

Lemma hash_at i : 0 <= i < len parts → ∃ p, parts !! Z.to_nat i = Some p
  ∧ hashes !! Z.to_nat i = Some (R.mapHash (R.a_RandomHash a) p).
Proof.
  intros Hi. destruct (lookup_lt_is_Some_2 parts (Z.to_nat i)) as [p Hp]; [unfold len in Hi; lia|].
  exists p. split; [done|]. unfold hashes. by rewrite list_lookup_fmap, Hp.
Qed.

Lemma hash_inj i j h :
  0 <= i → 0 <= j → hashes !! Z.to_nat i = Some h → hashes !! Z.to_nat j = Some h → i = j.
Proof.
  intros Hi Hj H1 H2. pose proof (NoDup_lookup _ _ _ _ (d_hashes D) H1 H2). lia.
Qed.

Lemma len_hash i h : hashes !! i = Some h → len h = R.MapHashLen.
Proof.
  unfold hashes. rewrite list_lookup_fmap. destruct (parts !! i); [|done]. intros [= <-]. apply R.len_mapHash.
Qed.

Lemma slots_nonempty x : assembling x → Forall (λ s, s ≠ Some []) (partSlots x).
Proof.
  intros HA. apply Forall_lookup. intros i o Ho ->.
  assert (Hs : slot (partSlots x) (Z.of_nat i) = Some []) by (apply slot_Some; rewrite Nat2Z.id; split; [lia|done]).
  apply (h_slot x HA) in Hs. pose proof (proj1 (Forall_lookup _ _) (d_parts D) _ _ Hs). done.
Qed.

Lemma prefix_bounds x : assembling x →
  -1 <= consecutiveCompleted x < len parts ∧ windowStart x = consecutiveCompleted x + 1
  ∧ (∀ i, 0 <= i < windowStart x → slot (partSlots x) i ≠ None)
  ∧ slot (partSlots x) (windowStart x) = None.
Proof.
  intros HA. destruct (consecutivePrefix_spec _ (slots_nonempty x HA)) as (H1 & H2 & H3).
  unfold windowStart. rewrite (h_prefix x HA), (h_slots x HA) in *. split; [lia|]. split; [lia|].
  replace (Z.max (consecutivePrefix (partSlots x) + 1) 0) with (consecutivePrefix (partSlots x) + 1) by lia.
  split; [|done]. intros i Hi. apply H2. lia.
Qed.

(** A part found is put where it belongs. *)
Lemma findPart_sound x h i :
  assembling x → findPart h x = Some i →
  0 <= i < len parts ∧ hashes !! Z.to_nat i = Some h ∧ slot (partSlots x) i = None.
Proof.
  intros HA. assert (HL : ∀ lo hi, 0 <= lo → hi <= len parts → lookupMapHash h lo hi x = Some i →
    0 <= i < len parts ∧ hashes !! Z.to_nat i = Some h ∧ slot (partSlots x) i = None).
  { intros lo hi Hlo Hhi. unfold lookupMapHash. case_match; [done|]. intros HF.
    apply find_some in HF as [Hin Hp]. apply list_elem_of_In in Hin.
    destruct (hashIndex x !! h) as [l|] eqn:El; [|by apply elem_of_nil in Hin].
    destruct (h_index x HA h l i El Hin) as [Hi1 Hi2]. apply andb_true_iff in Hp as [Hp1 Hp2].
    apply bool_decide_eq_true in Hp2. split; [lia|done]. }
  assert (HS : ∀ lo hi, 0 <= lo → hi <= len parts → scanMapHash h lo hi x = Some i →
    0 <= i < len parts ∧ hashes !! Z.to_nat i = Some h ∧ slot (partSlots x) i = None).
  { intros lo hi Hlo Hhi HF. apply findIndex_Some in HF as [Hi Hp]. apply andb_true_iff in Hp as [Hp1 Hp2].
    apply bool_decide_eq_true in Hp1, Hp2. split; [lia|]. split; [|done]. by apply (h_map x HA). }
  unfold findPart. rewrite (h_total x HA). unfold windowStart.
  repeat case_match; intros [= <-] || intros HX; try (eapply HL; [| |eassumption]; lia); try (eapply HS; [| |eassumption]; lia).
Qed.

(** A part that is wanted and near is found. *)
Lemma findPart_complete x i h :
  assembling x → windowStart x <= i < Z.min (windowStart x + R.CollisionGuardSize) (len parts) →
  slot (partSlots x) i = None → slot (mapHashes x) i = Some h → findPart h x = Some i.
Proof.
  intros HA Hi Hs Hm. destruct (findPart h x) as [j|] eqn:E.
  - destruct (findPart_sound x h j HA E) as (Hj & Hh & _). f_equal.
    apply (hash_inj j i h); [lia|unfold windowStart in Hi; lia|done|by apply (h_map x HA)].
  - exfalso. unfold findPart in E. repeat case_match; try done. rewrite (h_total x HA) in E.
    pose proof (findIndex_None _ _ _ i E Hi) as HF. cbv beta in HF. by rewrite !bool_decide_true in HF.
Qed.
(** *** Storing a part *)

Lemma consecutivePrefix_ge slots k :
  Forall (λ s, s ≠ Some []) slots → (∀ i, 0 <= i <= k → slot slots i ≠ None) → k <= consecutivePrefix slots.
Proof.
  intros Hne Hall. destruct (consecutivePrefix_spec slots Hne) as (H1 & _ & H3).
  destruct (Z.le_gt_cases k (consecutivePrefix slots)) as [|Hlt]; [done|].
  by destruct (Hall (consecutivePrefix slots + 1)); [lia|].
Qed.

Lemma store_assembling x now i d :
  assembling x → 0 <= i < len parts → parts !! Z.to_nat i = Some d → assembling (storePart now i d x).
Proof.
  intros HA Hi Hd. destruct HA as [? ? ? Hs ? Hf Hslot ? ? ? ? ?]. split; try done; simpl.
  - by rewrite <- Hs; unfold len; rewrite length_insert.
  - by rewrite <- Hf; unfold len; rewrite length_insert.
  - intros j e. destruct (decide (i = j)) as [<-|Hne].
    + rewrite slot_insert by lia. by intros [= <-].
    + rewrite slot_insert_ne by lia. apply Hslot.
Qed.

Lemma store_slot x now i d j :
  assembling x → 0 <= i < len parts →
  slot (partSlots (storePart now i d x)) j = (if j =? i then Some d else slot (partSlots x) j).
Proof.
  intros HA Hi. simpl. destruct (Z.eqb_spec j i) as [->|].
  - rewrite slot_insert; [done|]. rewrite (h_slots x HA). lia.
  - by rewrite slot_insert_ne by lia.
Qed.

Lemma store_window x now i d :
  assembling x → 0 <= i < len parts → parts !! Z.to_nat i = Some d →
  windowStart x <= windowStart (storePart now i d x)
  ∧ (i = windowStart x → windowStart x < windowStart (storePart now i d x)).
Proof.
  intros HA Hi Hd. pose proof (store_assembling x now i d HA Hi Hd) as HA'.
  destruct (prefix_bounds x HA) as (_ & Hw & Hfull & _).
  destruct (prefix_bounds _ HA') as (_ & Hw' & _ & _).
  assert (Hge : ∀ k, (k < windowStart x ∨ k = i ∧ i = windowStart x) → k <= consecutiveCompleted (storePart now i d x)).
  { intros k Hk. rewrite (h_prefix _ HA'). apply consecutivePrefix_ge; [by apply slots_nonempty|].
    intros j Hj. rewrite store_slot by done. destruct (Z.eqb_spec j i); [done|]. apply Hfull. lia. }
  split.
  - specialize (Hge (windowStart x - 1) ltac:(lia)). lia.
  - intros Hx. specialize (Hge i ltac:(auto)). lia.
Qed.

(** *** Learning hashes *)

Lemma apply_assembling hs : ∀ idx x added,
  assembling x → 0 <= idx <= hashmapHeight x →
  (∀ j h, hs !! j = Some h → (Z.to_nat idx + j < length parts)%nat → hashes !! (Z.to_nat idx + j)%nat = Some h) →
  let x' := (applyHashes idx hs x added).1 in
  assembling x' ∧ hashmapHeight x' = Z.max (hashmapHeight x) (Z.min (len parts) (idx + len hs))
  ∧ x' = set_hashes (mapHashes x') (hashIndex x') (hashmapHeight x') x.
Proof.
  induction hs as [|h hs IH]; intros idx x added HA Hidx Hhs; simpl.
  { split; [done|]. split; [rewrite len_nil; pose proof (h_height x HA); lia|by destruct x]. }
  pose proof (d_count D). pose proof (h_height x HA). rewrite (h_total x HA), len_cons.
  assert (65535 < MaxInt) by done. unfold R.MaxSegments in *. pose proof (len_nonneg hs).
  destruct (Z.ltb_spec MaxInt idx); [lia|]. destruct (Z.ltb_spec idx 0); [lia|]. simpl.
  destruct (Z.leb_spec (len parts) idx) as [Hout|Hin].
  { cbn [fst]. split; [done|]. split; [lia|by destruct x]. }
  assert (Hh : hashes !! Z.to_nat idx = Some h).
  { specialize (Hhs 0%nat h eq_refl). rewrite Nat.add_0_r in Hhs. apply Hhs. unfold len in *. lia. }
  set (new := match slot (mapHashes x) idx with None => 1 | Some _ => 0 end).
  assert (Hnew : hashmapHeight x + new = Z.max (hashmapHeight x) (idx + 1)).
  { subst new. pose proof (h_known x HA idx ltac:(lia)) as Hk. destruct (slot (mapHashes x) idx) eqn:E.
    - assert (idx < hashmapHeight x) by (by apply Hk). lia.
    - assert (¬ idx < hashmapHeight x) by (intros Hlt; by apply Hk in Hlt). lia. }
  set (x1 := set_hashes _ _ _ x).
  assert (HA1 : assembling x1).
  { destruct HA as [? ? ? ? Hmh ? ? Hmap Hindex ? ? Hknown]. split; try done; simpl.
    - by rewrite <- Hmh; unfold len; rewrite length_insert.
    - intros j k. destruct (decide (idx = j)) as [<-|].
      + rewrite slot_insert by lia. by intros [= <-].
      + rewrite slot_insert_ne by lia. apply Hmap.
    - intros k l j Hl Hj. unfold indexMapHash in Hl. case_match; [|by apply (Hindex k l j)].
      case_bool_decide as Hin'; [by apply (Hindex k l j)|]. apply lookup_insert_Some in Hl as [[<- <-]|[Hne Hl]].
      + apply elem_of_app in Hj as [Hj|Hj%list_elem_of_singleton].
        * destruct (hashIndex x !! h) as [l'|] eqn:El; [|by apply elem_of_nil in Hj]. by apply (Hindex h l' j).
        * subst j. split; [lia|done].
      + by apply (Hindex k l j).
    - lia.
    - intros j Hj. rewrite Hnew. destruct (decide (idx = j)) as [<-|].
      + rewrite slot_insert by lia. split; [lia|done].
      + rewrite slot_insert_ne by lia. rewrite (Hknown j Hj). lia. }
  destruct (IH (idx + 1) x1 (added + new) HA1) as (IH1 & IH2 & IH3).
  - simpl. lia.
  - intros j k Hk Hlt. replace (Z.to_nat (idx + 1) + j)%nat with (Z.to_nat idx + S j)%nat in * by lia. by apply Hhs.
  - split; [done|]. split; [rewrite IH2; simpl; lia|]. rewrite IH3 at 1. done.
Qed.
(** *** The sender *)

Lemma entries_mjoin (hs : list bytes) : Forall (λ h, len h = R.MapHashLen) hs → entries (mjoin hs) = hs.
Proof.
  intros Hall. unfold entries. rewrite (R.len_mjoin_map hs Hall), Z.quot_mul by done.
  apply list_eq. intros i. rewrite list_lookup_fmap. destruct (hs !! i) as [h|] eqn:E.
  - rewrite lookup_seqZ_lt by (apply lookup_lt_Some in E; unfold len; lia). simpl. f_equal.
    apply R.mapEntry_mjoin; [done|lia|]. by rewrite Z.add_0_l, Nat2Z.id.
  - rewrite lookup_seqZ_ge; [done|]. apply lookup_ge_None in E. unfold len. lia.
Qed.

Lemma hashes_len : Forall (λ h, len h = R.MapHashLen) hashes.
Proof. apply Forall_lookup. intros i h Hh. exact (len_hash i h Hh). Qed.

Context (mdu sdu : Z) (Hn : n = R.hashmapEntriesPerAdvSegment mdu).

(** The sender holds the parts and their hashes. *)
Record serving (out : R.Resource) : Prop := {
  s_hash : R.hash out = R.a_Hash a;
  s_map : R.hashmap out = Some (mjoin hashes);
  s_segments : R.segments out = len parts;
  s_part : ∀ i p, 0 <= i → parts !! Z.to_nat i = Some p → R.OutboundCiphertextSlice i sdu out = p
}.

Lemma sent_serving i out : serving out → serving (R.MarkOutboundPartSent i out).1.
Proof. intros [? ? ? ?]. unfold R.MarkOutboundPartSent. repeat case_match; done. Qed.

Lemma len_hashes : len hashes = len parts.
Proof. unfold hashes, len. by rewrite length_fmap. Qed.

Lemma mapHashAt_hashes out i :
  serving out → 0 <= i < len parts → hashes !! Z.to_nat i = Some (R.MapHashAt i out).
Proof.
  intros HS Hi. unfold R.MapHashAt. rewrite (s_map out HS). simpl. destruct (Z.ltb_spec i 0); [lia|].
  rewrite (R.len_mjoin_map _ hashes_len), len_hashes.
  destruct (Z.ltb_spec (len parts * R.MapHashLen) (i * R.MapHashLen + R.MapHashLen)) as [Hlt|];
    [unfold R.MapHashLen in Hlt; lia|].
  destruct (hash_at i Hi) as (p & _ & Hh). rewrite Hh. f_equal. symmetry.
  apply R.mapEntry_mjoin; [apply hashes_len|lia|done].
Qed.

(** The segment [k] of the hash map. *)
Lemma hashmapSegment_hashes out k :
  serving out → 0 <= k → k * n < len parts →
  R.HashmapSegment mdu k out = mjoin (take (Z.to_nat n) (drop (Z.to_nat (k * n)) hashes)).
Proof.
  intros HS Hk Hlt. pose proof (d_segment D). pose proof (d_count D) as Hc. unfold R.HashmapSegment.
  rewrite (s_map out HS). simpl. rewrite (R.len_mjoin_map _ hashes_len), len_hashes, Z.quot_mul, <- Hn by done.
  destruct (Z.ltb_spec k 0); [lia|]. destruct (Z.eqb_spec (len parts * R.MapHashLen) 0) as [E|];
    [unfold R.MapHashLen in E; lia|]. simpl. destruct (Z.leb_spec (len parts) (k * n)); [lia|].
  assert (Hsplit : hashes = take (Z.to_nat (k * n)) hashes ++ take (Z.to_nat n) (drop (Z.to_nat (k * n)) hashes)
             ++ drop (Z.to_nat (k * n) + Z.to_nat n) hashes).
  { by rewrite <- drop_drop, take_drop, take_drop. }
  rewrite Hsplit at 1. rewrite !join_app.
  assert (Hl1 : len (mjoin (take (Z.to_nat (k * n)) hashes)) = k * n * R.MapHashLen).
  { rewrite R.len_mjoin_map by (apply Forall_take, hashes_len). rewrite len_take, len_hashes. f_equal. lia. }
  assert (Hl2 : len (mjoin (take (Z.to_nat n) (drop (Z.to_nat (k * n)) hashes)))
                = (Z.min (k * n + n) (len parts) - k * n) * R.MapHashLen).
  { rewrite R.len_mjoin_map by (apply Forall_take, Forall_drop, hashes_len).
    rewrite len_take, len_drop, len_hashes. f_equal. lia. }
  apply slice_app_mid; [by rewrite Hl1|rewrite Hl1, Hl2; lia].
Qed.

(** The answer to a hash: the part that has it, when the part is near. *)
Lemma selectPart_near out lo used i h :
  serving out → 0 <= lo < len parts → lo - R.CollisionGuardSize <= i < lo + R.CollisionGuardSize →
  0 <= i < len parts → hashes !! Z.to_nat i = Some h → i ∉ used → selectPart out lo used h = Some i.
Proof.
  intros HS Hlo Hnear Hi Hh Hu. unfold selectPart. rewrite (s_segments out HS).
  destruct (Z.leb_spec (len parts) lo); [lia|].
  set (free idx := negb (bool_decide (idx ∈ used)) && (len (R.MapHashAt idx out) =? R.MapHashLen)
                   && bool_decide (R.MapHashAt idx out = h)).
  assert (Hat : R.MapHashAt i out = h).
  { pose proof (mapHashAt_hashes out i HS Hi). congruence. }
  assert (Hfree : free i = true).
  { subst free. cbv beta. rewrite Hat, !bool_decide_false, bool_decide_true by done.
    by rewrite (len_hash _ _ Hh). }
  assert (Honly : ∀ j, 0 <= j < len parts → free j = true → j = i).
  { intros j Hj Hf. apply andb_true_iff in Hf as [_ Hf]. apply bool_decide_eq_true in Hf.
    apply (hash_inj j i h); [lia|lia| |done]. rewrite (mapHashAt_hashes out j HS Hj). by f_equal. }
  match goal with |- match ?F with _ => _ end = _ => destruct F as [j|] eqn:E1 end.
  { apply findIndex_Some in E1 as [Hj Hf]. change (free j && negb (R.IsOutboundPartSent j out) = true) in Hf. apply andb_true_iff in Hf as [Hf _]. f_equal. apply Honly; [lia|done]. }
  destruct (findIndex free lo (Z.min (lo + R.CollisionGuardSize) (len parts))) as [j|] eqn:E2.
  { apply findIndex_Some in E2 as [Hj Hf]. f_equal. apply Honly; [lia|done]. }
  assert (i < lo).
  { destruct (Z.lt_ge_cases i lo) as [|Hge]; [done|].
    pose proof (findIndex_None _ _ _ i E2 ltac:(lia)). congruence. }
  destruct (Z.ltb_spec 0 lo); [|lia].
  destruct (findIndex_is_Some free (Z.max (lo - R.CollisionGuardSize) 0) lo i) as [j E3]; [lia|done|].
  rewrite E3. apply findIndex_Some in E3 as [Hj Hf]. f_equal. apply Honly; [lia|done].
Qed.

(** The answer to a request for near parts: the parts, in the order asked. *)
Lemma select_near out lo pns hs :
  serving out → 0 <= lo < len parts → NoDup pns →
  Forall2 (λ i h, lo - R.CollisionGuardSize <= i < lo + R.CollisionGuardSize ∧ 0 <= i < len parts
                  ∧ hashes !! Z.to_nat i = Some h) pns hs →
  selectRequestedPartIndexes out (mjoin hs) lo = pns.
Proof.
  intros HS Hlo Hnd HF. pose proof (d_count D). unfold selectRequestedPartIndexes.
  assert (Hlen : Forall (λ h, len h = R.MapHashLen) hs).
  { apply Forall_lookup. intros j h Hj. destruct (Forall2_lookup_r _ _ _ _ _ HF Hj) as (i & _ & _ & _ & Hh).
    exact (len_hash _ _ Hh). }
  rewrite (R.len_mjoin_map hs Hlen), Z.rem_mul, (s_segments out HS), entries_mjoin by done. simpl.
  destruct (Z.eqb_spec (len parts) 0); [lia|]. destruct (Z.ltb_spec lo 0); [lia|].
  assert (HG : ∀ done, NoDup (done ++ pns) →
    foldl (λ used mh, match selectPart out lo used mh with Some i => used ++ [i] | None => used end) done hs
    = done ++ pns).
  { clear Hnd Hlen. induction HF as [|i h pns hs (H1 & H2 & H3) HF IH]; intros don Hnd; simpl; [by rewrite app_nil_r|].
    rewrite (selectPart_near out lo don i h) by (done || (intros Hin; apply list.NoDup_app in Hnd as (_ & Hd & _);
      apply (Hd i Hin); left)).
    rewrite IH; [by rewrite <- app_assoc|]. by rewrite <- app_assoc. }
  by apply (HG []).
Qed.
(** The answer to the request of more hashes: the next segment. *)
Lemma choose_near out lo m h :
  serving out → n <= R.HashmapMaxLen → 1 <= m → m * n < len parts → lo = (m - 1) * n ∨ lo = m * n →
  hashes !! Z.to_nat (m * n - 1) = Some h →
  chooseHashmapUpdateSegment out mdu h lo = Some (m, m * n).
Proof.
  intros HS Hmax Hm Hlt Hlo Hh. pose proof (d_segment D). unfold chooseHashmapUpdateSegment.
  assert (Hg : R.HashmapMaxLen < R.CollisionGuardSize) by done.
  rewrite (len_hash _ _ Hh). rewrite Z.eqb_refl. cbn [negb].
  rewrite (s_segments out HS), <- Hn. destruct (Z.eqb_spec (len parts) 0); [lia|]. cbv zeta.
  destruct (Z.ltb_spec lo 0); [nia|].
  set (lo1 := Z.max (lo - n) 0). assert (Hlo1 : 0 <= lo1 <= m * n - 1) by (subst lo1; nia).
  destruct (Z.leb_spec (len parts) lo1); [lia|].
  set (e0 := Z.min (lo + R.CollisionGuardSize) (len parts)).
  set (e1 := if e0 <? lo1 + n then Z.min (lo1 + R.CollisionGuardSize) (len parts) else e0).
  assert (He1 : m * n - 1 < e1 <= len parts).
  { subst e0 e1. destruct (Z.ltb_spec (Z.min (lo + R.CollisionGuardSize) (len parts)) (lo1 + n)); nia. }
  assert (Hat : R.MapHashAt (m * n - 1) out = h).
  { pose proof (mapHashAt_hashes out (m * n - 1) HS ltac:(lia)). congruence. }
  match goal with |- context [findIndex ?b lo1 e1] => set (boundary := b) end.
  destruct (findIndex_is_Some boundary lo1 e1 (m * n - 1)) as [j Ej]; [lia| |].
  { subst boundary. cbv beta. rewrite Hat, bool_decide_true by done.
    replace (m * n - 1 + 1) with (m * n) by lia. rewrite Z.rem_mul by lia. simpl. lia. }
  rewrite Ej. apply findIndex_Some in Ej as [Hj Hb]. subst boundary. cbv beta in Hb.
  apply andb_true_iff in Hb as [Hb _]. apply andb_true_iff in Hb as [Hb _]. apply bool_decide_eq_true in Hb.
  assert (j = m * n - 1) as ->.
  { apply (hash_inj j (m * n - 1) h); [lia|lia| |done]. rewrite (mapHashAt_hashes out j HS) by lia. by f_equal. }
  replace (m * n - 1 + 1) with (m * n) by lia. rewrite Z.quot_mul by lia.
  destruct (Z.leb_spec m 0); [lia|done].
Qed.

(** *** The request *)

Lemma collect_spec x slots pns : ∀ acc0,
  ∃ l, (collectParts pns slots x acc0).1 = rev l ++ acc0 ∧ l.*1 `sublist_of` pns
    ∧ Forall (λ p, slot (partSlots x) p.1 = None ∧ slot (mapHashes x) p.1 = Some p.2) l
    ∧ ((collectParts pns slots x acc0).2 = true → waitingForHmu x = false ∧ ∃ pn, pn ∈ pns ∧ slot (mapHashes x) pn = None).
Proof.
  induction pns as [|pn pns IH]; intros acc0; simpl.
  { exists []. by split_and!. }
  case_bool_decide as Hs; simpl.
  { destruct (IH acc0) as (l & H1 & H2 & H3 & H4). exists l. split; [done|]. split; [by constructor|]. split; [done|].
    intros Hx. destruct (H4 Hx) as (Hw & p & Hp & Hpn). split; [done|]. exists p. split; [by right|done]. }
  destruct (default false (inflight x !! Z.to_nat pn)).
  { destruct (IH acc0) as (l & H1 & H2 & H3 & H4). exists l. split; [done|]. split; [by constructor|]. split; [done|].
    intros Hx. destruct (H4 Hx) as (Hw & p & Hp & Hpn). split; [done|]. exists p. split; [by right|done]. }
  assert (Hnone : slot (partSlots x) pn = None) by (by destruct (slot (partSlots x) pn); [destruct Hs|]).
  destruct (slot (mapHashes x) pn) as [h|] eqn:Eh.
  - destruct (slots <=? len ((pn, h) :: acc0)).
    + exists [(pn, h)]. simpl. split; [done|]. split; [by constructor; apply sublist_nil_l|]. split; [|done].
      by constructor.
    + destruct (IH ((pn, h) :: acc0)) as (l & H1 & H2 & H3 & H4). exists ((pn, h) :: l).
      split; [rewrite H1; simpl; by rewrite <- app_assoc|]. split; [by constructor|]. split; [by constructor|].
      intros Hx. destruct (H4 Hx) as (Hw & p & Hp & Hpn). split; [done|]. exists p. split; [by right|done].
  - exists []. simpl. split; [done|]. split; [apply sublist_nil_l|]. split; [constructor|].
    intros Hx. split; [by destruct (waitingForHmu x)|]. exists pn. split; [by left|done].
Qed.

(** The first part not yet received is asked for, or its hash is. *)
Lemma collect_first x slots pn pns :
  1 <= slots → slot (partSlots x) pn = None → default false (inflight x !! Z.to_nat pn) = false →
  waitingForHmu x = false →
  match slot (mapHashes x) pn with
  | Some h => ∃ l, (collectParts (pn :: pns) slots x []).1 = rev l ++ [(pn, h)]
  | None => collectParts (pn :: pns) slots x [] = ([], true)
  end.
Proof.
  intros Hsl Hs Hf Hw. simpl. rewrite Hs, Hf, bool_decide_false by (by intros []). simpl.
  destruct (slot (mapHashes x) pn) as [h|]; [|by rewrite Hw].
  destruct (slots <=? len [(pn, h)]); [by exists []|].
  destruct (collect_spec x slots pns [(pn, h)]) as (l & -> & _). by exists l.
Qed.
(** *** Windows *)

Definition window_ok (x : incomingResourceAsm) : Prop :=
  R.WindowMin <= windowMin x <= window x ∧ window x <= windowMax x <= R.WindowMaxFast.

Lemma grow_ok x : window_ok x → window_ok (growIncomingResourceWindow x).
Proof.
  unfold window_ok, growIncomingResourceWindow, R.WindowMin, R.WindowMaxFast, R.WindowFlexibility. intros Hw.
  destruct (Z.ltb_spec (window x) (windowMax x)); [|done]. simpl.
  assert (0 <= window x `quot` 4) by (apply Z.quot_pos; lia).
  repeat case_match; lia.
Qed.

Lemma stall_ok x : window_ok x → window_ok (stallIncoming x).
Proof.
  unfold window_ok, stallIncoming, R.WindowMin, R.WindowMaxFast, R.WindowFlexibility,
    incomingResourceWindowShrinkStalls, incomingResourceWindowMaxShrinkStalls. intros Hw. simpl.
  repeat (case_match; simpl in *); lia.
Qed.

Lemma after_frame x : ∃ w m, (afterPart x).2 = set_window w m (windowMax x) x ∧ (window_ok x → window_ok (afterPart x).2).
Proof.
  assert (Hx : x = set_window (window x) (windowMin x) (windowMax x) x) by (by destruct x).
  unfold afterPart. simpl. destruct (_ && _); [|by eauto].
  unfold growIncomingResourceWindow at 1 2. destruct (window x <? windowMax x) eqn:E; [|by eauto].
  eexists _, _. split; [reflexivity|]. intros Hw. pose proof (grow_ok x Hw) as HG.
  unfold growIncomingResourceWindow in HG. by rewrite E in HG.
Qed.

Lemma windowed x w m M : assembling x → assembling (set_window w m M x).
Proof. by intros [? ? ? ? ? ? ? ? ? ? ? ?]; split. Qed.

Lemma effective x : window_ok x → effectiveWindow x = window x ∧ 2 <= window x <= 75.
Proof.
  unfold window_ok, effectiveWindow, R.WindowMin, R.WindowMaxFast. intros Hw. split; [case_match; lia|lia].
Qed.

(** *** A request of a receiver at rest *)

(** Nothing is on its way. *)
Definition quiet (x : incomingResourceAsm) : Prop :=
  outstandingParts x = 0 ∧ waitingForHmu x = false ∧ inflight x = replicate (length parts) false.

Lemma lastMapHash_known x :
  assembling x → 1 <= hashmapHeight x →
  ∃ h, lastMapHash x = Ok h ∧ hashes !! Z.to_nat (hashmapHeight x - 1) = Some h ∧ len h = R.MapHashLen.
Proof.
  intros HA Hh. pose proof (h_height x HA). unfold lastMapHash. rewrite (h_hashes x HA).
  destruct (Z.eqb_spec (hashmapHeight x) 0); [lia|].
  destruct (Z.leb_spec (len parts) (hashmapHeight x - 1)); [lia|]. simpl.
  pose proof (proj2 (h_known x HA (hashmapHeight x - 1) ltac:(lia)) ltac:(lia)) as Hk.
  destruct (slot (mapHashes x) (hashmapHeight x - 1)) as [h|] eqn:E; [|done].
  pose proof (h_map x HA _ _ E) as Hm. pose proof (len_hash _ _ Hm) as Hl. rewrite Hl. simpl. eauto.
Qed.

(** A part on request: wanted, near, its hash known. *)
Definition wanted (x : incomingResourceAsm) (p : Z * bytes) : Prop :=
  windowStart x <= p.1 < windowStart x + 150 ∧ 0 <= p.1 < len parts
  ∧ slot (partSlots x) p.1 = None ∧ slot (mapHashes x) p.1 = Some p.2.

Lemma next_request x :
  assembling x → quiet x → window_ok x → windowStart x < len parts → 1 <= hashmapHeight x →
  ∃ asked (ex : bool) h,
    nextRequest x = Ok (Some ((if ex then hashmapExhausted :: h else [hashmapNotExhausted]) ++ R.a_Hash a ++ mjoin (asked.*2),
                              asked.*1, ex,
                              set_inflight (foldl (λ f pn, <[Z.to_nat pn := true]> f) (inflight x) (asked.*1)) (len asked)
                                (set_waiting ex x)))
    ∧ NoDup (asked.*1) ∧ Forall (wanted x) asked
    ∧ (windowStart x < hashmapHeight x → windowStart x ∈ asked.*1)
    ∧ (hashmapHeight x <= windowStart x → ex = true)
    ∧ (ex = true → hashmapHeight x < len parts ∧ hashmapHeight x < windowStart x + 150
         ∧ hashes !! Z.to_nat (hashmapHeight x - 1) = Some h ∧ len h = R.MapHashLen).
Proof.
  intros HA (Ho & Hw & Hf) Hwin Hws Hh1. destruct (effective x Hwin) as [He Hr].
  destruct (prefix_bounds x HA) as (_ & Hws0 & _ & Hnone).
  destruct (lastMapHash_known x HA Hh1) as (h & Hlast & Hhash & Hhl).
  assert (Hpos : 0 <= windowStart x) by (unfold windowStart; lia).
  unfold nextRequest. rewrite Ho, He, (h_total x HA). destruct (Z.leb_spec (len parts) (windowStart x)); [lia|].
  simpl (0 <? 0). cbv zeta. rewrite andb_false_l, Z.sub_0_r. destruct (Z.leb_spec (window x) 0); [lia|].
  set (last := Z.min _ _).
  assert (Hseq : seqZ (windowStart x) (last - windowStart x)
                 = windowStart x :: seqZ (windowStart x + 1) (last - windowStart x - 1)).
  { subst last. rewrite (seqZ_cons (windowStart x)) by lia. do 2 f_equal; lia. }
  pose proof (collect_spec x (window x) (seqZ (windowStart x) (last - windowStart x)) []) as (l & Hl & Hsub & Hall & Hex).
  pose proof (collect_first x (window x) (windowStart x) (seqZ (windowStart x + 1) (last - windowStart x - 1))
                ltac:(lia) Hnone) as Hfirst.
  rewrite Hf, lookup_replicate_2 in Hfirst by (unfold len in *; lia). specialize (Hfirst eq_refl Hw).
  rewrite <- Hseq in Hfirst. rewrite app_nil_r in Hl.
  destruct (collectParts _ _ _ _) as [acc ex]. simpl in Hl, Hex, Hfirst. subst acc. rewrite rev_involutive.
  pose proof (proj1 (h_known x HA (windowStart x) ltac:(lia))) as Hk1.
  pose proof (proj2 (h_known x HA (windowStart x) ltac:(lia))) as Hk2.
  assert (Hmem : windowStart x < hashmapHeight x → windowStart x ∈ l.*1).
  { intros Hlt. specialize (Hk2 Hlt). destruct (slot (mapHashes x) (windowStart x)) as [h'|]; [|done].
    destruct Hfirst as [l' Hl']. apply (f_equal (@rev _)) in Hl'. rewrite rev_involutive, rev_app_distr in Hl'.
    rewrite Hl'. simpl. by left. }
  assert (Hexh : hashmapHeight x <= windowStart x → ex = true).
  { intros Hle. destruct (slot (mapHashes x) (windowStart x)) as [h'|]; [specialize (Hk1 ltac:(done)); lia|].
    by injection Hfirst. }
  assert (Hcase : (len l =? 0) && negb ex = false).
  { destruct (Z.lt_ge_cases (windowStart x) (hashmapHeight x)) as [Hlt|Hge].
    - specialize (Hmem Hlt). destruct l as [|p l]; [by apply elem_of_nil in Hmem|]. rewrite len_cons.
      pose proof (len_nonneg l). destruct (Z.eqb_spec (1 + len l) 0); [lia|done].
    - rewrite (Hexh Hge). apply andb_false_r. }
  rewrite Hcase. exists l, ex, h.
  assert (Hend : ∀ pn, pn ∈ seqZ (windowStart x) (last - windowStart x) → windowStart x <= pn < windowStart x + 150 ∧ pn < len parts).
  { intros pn Hpn. apply elem_of_seqZ in Hpn. subst last. lia. }
  split; [|split; [|split; [|split; [done|split; [done|]]]]].
  - destruct ex; [rewrite Hlast|]; simpl; rewrite Ho, (h_adv x HA); repeat f_equal; try lia.
    rewrite <- Hw. by destruct x.
  - eapply sublist_NoDup; [apply NoDup_seqZ|exact Hsub].
  - apply list.Forall_forall. intros p Hp. destruct (proj1 (list.Forall_forall _ _) Hall p Hp) as [Hp1 Hp2].
    assert (Hin : p.1 ∈ l.*1) by (apply list_elem_of_fmap; by exists p).
    destruct (Hend p.1 (elem_of_sublist _ _ _ Hin Hsub)). unfold wanted. split_and!; (done || lia).
  - intros Hx. destruct (Hex Hx) as (_ & pn & Hpn & Hun). destruct (Hend pn Hpn).
    assert (¬ pn < hashmapHeight x) by (intros Hlt; by apply (h_known x HA pn ltac:(lia)) in Hlt).
    split_and!; (done || lia).
Qed.
(** *** Delivery *)

Lemma flags_lookup (v : bool) (pns : list Z) : ∀ (f : list bool) (i : nat),
  foldl (λ f pn, <[Z.to_nat pn := v]> f) f pns !! i
  = (if bool_decide (i ∈ Z.to_nat <$> pns) then (λ _ : bool, v) <$> f !! i else f !! i).
Proof.
  induction pns as [|pn pns IH]; intros f i; [done|]. simpl. rewrite IH.
  destruct (decide (i = Z.to_nat pn)) as [->|Hne].
  - rewrite (bool_decide_true (Z.to_nat pn ∈ _ :: _)) by left.
    destruct (decide (Z.to_nat pn < length f)%nat).
    + rewrite list_lookup_insert_eq by done. destruct (lookup_lt_is_Some_2 f (Z.to_nat pn)) as [b ->]; [done|].
      by case_bool_decide.
    + rewrite list_insert_ge by lia. rewrite lookup_ge_None_2 by lia. by case_bool_decide.
  - rewrite list_lookup_insert_ne by done.
    rewrite (bool_decide_ext (i ∈ _ :: _) (i ∈ Z.to_nat <$> pns)); [done|].
    rewrite elem_of_cons. naive_solver.
Qed.

Lemma flags_cleared pns : ∀ f : list bool,
  foldl (λ f pn, <[Z.to_nat pn := false]> f) (foldl (λ f pn, <[Z.to_nat pn := true]> f) f pns) pns
  = foldl (λ f pn, <[Z.to_nat pn := false]> f) f pns.
Proof.
  intros f. apply list_eq. intros i. rewrite !flags_lookup. case_bool_decide; [|done]. by destruct (f !! i).
Qed.

Lemma clear_replicate k pns :
  foldl (λ f pn, <[Z.to_nat pn := false]> f) (replicate k false) pns = replicate k false.
Proof. induction pns as [|pn pns IH]; [done|]. simpl. by rewrite insert_replicate. Qed.

(** One wanted part: it fills its slot, and the rest is as it was. *)
Record received (x x' : incomingResourceAsm) (l : list (Z * bytes)) : Prop := {
  v_assembling : assembling x';
  v_window : window_ok x';
  v_waiting : waitingForHmu x' = waitingForHmu x;
  v_height : hashmapHeight x' = hashmapHeight x;
  v_map : mapHashes x' = mapHashes x;
  v_outstanding : outstandingParts x' = outstandingParts x - len l;
  v_inflight : inflight x' = foldl (λ f pn, <[Z.to_nat pn := false]> f) (inflight x) (l.*1);
  v_start : windowStart x <= windowStart x';
  v_filled : ∀ i, i ∈ l.*1 → slot (partSlots x') i ≠ None;
  v_kept : ∀ i, i ∉ l.*1 → slot (partSlots x') i = slot (partSlots x) i
}.

Lemma receive_wanted x now i h d :
  assembling x → window_ok x → 1 <= outstandingParts x → wanted x (i, h) → parts !! Z.to_nat i = Some d →
  received x (receive now x d) [(i, h)].
Proof.
  intros HA Hw Ho (Hnear & Hi & Hs & Hm) Hd. simpl in *.
  assert (Hg : 150 <= R.CollisionGuardSize) by done.
  assert (Hh : R.mapHash (R.a_RandomHash (rx_adv x)) d = h).
  { rewrite (h_adv x HA). pose proof (h_map x HA i h Hm) as Hh. unfold hashes in Hh.
    rewrite list_lookup_fmap, Hd in Hh. by injection Hh. }
  assert (HT : takePart now d x = Some (storePart now i d x)).
  { unfold takePart. rewrite Hh, (findPart_complete x i h HA) by (done || lia). done. }
  unfold receive. rewrite HT.
  pose proof (store_assembling x now i d HA Hi Hd) as HA1.
  destruct (store_window x now i d HA Hi Hd) as [Hmono _].
  assert (Hw1 : window_ok (storePart now i d x)) by done.
  assert (HR : received x (storePart now i d x) [(i, h)]).
  { split; try done; simpl.
    - destruct (Z.ltb_spec 0 (outstandingParts x)); [done|lia].
    - intros j Hj%list_elem_of_singleton. subst j. rewrite (slot_insert (partSlots x)); [done|].
      rewrite (h_slots x HA). lia.
    - intros j Hj. rewrite slot_insert_ne; [done|lia|]. intros ->. apply Hj. by left. }
  destruct (incomingTransferComplete _); [done|].
  destruct (after_frame (storePart now i d x)) as (w & m & E & Hok). specialize (Hok Hw1). rewrite E in Hok |- *.
  destruct HR as [? ? ? ? ? ? ? ? ? ?]. split; try done. by apply windowed.
Qed.

Lemma received_trans x x1 x2 p l : received x x1 [p] → received x1 x2 l → received x x2 (p :: l).
Proof.
  intros [? ? ? ? ? Ho1 Hf1 ? Hin1 Hk1] [? ? ? ? ? Ho2 Hf2 ? Hin2 Hk2]. split; try done; try congruence.
  - rewrite Ho2, Ho1, !len_cons, len_nil. lia.
  - rewrite Hf2, Hf1. done.
  - lia.
  - intros i Hi. destruct (decide (i ∈ l.*1)) as [Hl|Hl]; [by apply Hin2|]. rewrite Hk2 by done. apply Hin1.
    apply elem_of_cons in Hi as [->|]; [by left|done].
  - intros i Hi. rewrite Hk2, Hk1; [done| |].
    + intros Hl. apply Hi. apply elem_of_cons. left. by apply list_elem_of_singleton in Hl.
    + intros Hl. apply Hi. by right.
Qed.

(** All the wanted parts, one after the other. *)
Lemma receive_all now l : ∀ x ds,
  assembling x → window_ok x → len l <= outstandingParts x → NoDup (l.*1) → Forall (wanted x) l →
  Forall2 (λ p d, parts !! Z.to_nat p.1 = Some d) l ds →
  received x (foldl (receive now) x ds) l.
Proof.
  induction l as [|[i h] l IH]; intros x ds HA Hw Ho Hnd Hall HF.
  - apply Forall2_nil_inv_l in HF as ->. split; try done; simpl; rewrite ?len_nil; try lia.
    intros i Hi. by apply elem_of_nil in Hi.
  - apply Forall2_cons_inv_l in HF as (d & ds' & Hd & HF & ->). rewrite len_cons in Ho. pose proof (len_nonneg l).
    apply list.NoDup_cons in Hnd as [Hni Hnd]. pose proof (Forall_inv Hall) as Hi. apply Forall_inv_tail in Hall.
    pose proof (receive_wanted x now i h d HA Hw ltac:(lia) Hi Hd) as HR. simpl.
    eapply received_trans; [exact HR|]. destruct HR as [HA1 Hw1 ? ? Hmap Ho1 ? Hst ? Hk1].
    apply IH; try done. { rewrite Ho1. change (len [(i, h)]) with 1. lia. }
    apply list.Forall_forall. intros [j k] Hin.
    destruct (proj1 (list.Forall_forall _ _) Hall _ Hin) as (Hn1 & Hn2 & Hn3 & Hn4). simpl in *.
    assert (Hj : slot (partSlots (receive now x d)) j = None).
    { rewrite Hk1; [done|]. intros Hji%list_elem_of_singleton. subst j. apply Hni.
      apply list_elem_of_fmap. by exists (i, k). }
    split_and!; simpl; try done; try lia; [|by rewrite Hmap].
    destruct (prefix_bounds _ HA1) as (_ & _ & Hfull & _).
    destruct (Z.le_gt_cases (windowStart (receive now x d)) j); [done|]. by destruct (Hfull j); [lia|].
Qed.
(** *** An exchange *)

Context (Hhash : len (R.a_Hash a) = 32) (Hmax : n <= R.HashmapMaxLen).

(** The message of a request. *)
Definition requestBody (anchor : option bytes) (hs : list bytes) : bytes :=
  match anchor with Some h => hashmapExhausted :: h | None => [hashmapNotExhausted] end ++ R.a_Hash a ++ mjoin hs.

Lemma parse_request out anchor hs :
  serving out → Forall (λ h, len h = R.MapHashLen) hs → (∀ h, anchor = Some h → len h = R.MapHashLen) →
  parseRequest (requestBody anchor hs) out = Some (anchor, mjoin hs).
Proof.
  intros HS Hhs Hanchor. unfold requestBody.
  set (pre := match anchor with Some h => hashmapExhausted :: h | None => [hashmapNotExhausted] end).
  set (pad := match anchor with Some _ => 1 + R.MapHashLen | None => 1 end).
  assert (Hpre : len pre = pad).
  { subst pre pad. destruct anchor as [h|]; [|done]. rewrite len_cons, (Hanchor h); done. }
  pose proof (len_nonneg (mjoin hs)).
  assert (Hbody : len (pre ++ R.a_Hash a ++ mjoin hs) = pad + 32 + len (mjoin hs)) by (rewrite !len_app; lia).
  assert (Hslice : slice pad (pad + 32) (pre ++ R.a_Hash a ++ mjoin hs) = R.a_Hash a) by (apply slice_app_mid; lia).
  assert (Hdrop : drop (Z.to_nat (pad + 32)) (pre ++ R.a_Hash a ++ mjoin hs) = mjoin hs).
  { rewrite app_assoc. apply drop_app_mid. rewrite length_app. unfold len in *. lia. }
  assert (Hrem : len (mjoin hs) `rem` R.MapHashLen = 0) by (rewrite R.len_mjoin_map, Z.rem_mul; done).
  unfold parseRequest. destruct anchor as [h|].
  - change (pre ++ R.a_Hash a ++ mjoin hs) with (hashmapExhausted :: h ++ R.a_Hash a ++ mjoin hs) in *.
    cbv zeta. rewrite Hbody. rewrite (bool_decide_true (hashmapExhausted = LinkResourceMappedFlag)) by done.
    change (1 + R.MapHashLen) with pad. rewrite Hslice, Hdrop, Hrem, (s_hash out HS).
    rewrite (bool_decide_true (R.a_Hash a = R.a_Hash a)) by done.
    destruct (Z.ltb_spec (pad + 32 + len (mjoin hs)) (1 + 32)); [unfold pad, R.MapHashLen in *; lia|].
    destruct (Z.ltb_spec (pad + 32 + len (mjoin hs)) (pad + 32)); [lia|]. simpl. do 3 f_equal.
    apply (slice_app_mid [hashmapExhausted] h); [done|]. rewrite (Hanchor h) by done. done.
  - change (pre ++ R.a_Hash a ++ mjoin hs) with (hashmapNotExhausted :: R.a_Hash a ++ mjoin hs) in *.
    cbv zeta. rewrite Hbody. rewrite (bool_decide_false (hashmapNotExhausted = LinkResourceMappedFlag)) by done.
    rewrite andb_false_l. change pad with 1 in *. rewrite Hslice, Hdrop, Hrem, (s_hash out HS).
    rewrite (bool_decide_true (R.a_Hash a = R.a_Hash a)) by done.
    destruct (Z.ltb_spec (1 + 32 + len (mjoin hs)) (1 + 32)); [lia|]. done.
Qed.

(** The sender is one segment of the hash map behind the receiver at most, and
    not far ahead of the parts still missing. *)
Definition in_step (x : incomingResourceAsm) (lo : Z) : Prop :=
  ∃ m, 1 <= m ∧ hashmapHeight x = Z.min (len parts) (m * n) ∧ (lo = (m - 1) * n ∨ lo = m * n)
    ∧ 0 <= lo < len parts ∧ lo - R.CollisionGuardSize <= windowStart x.

Lemma marked_serving indexes : ∀ out,
  serving out → serving (foldl (λ out i, (R.MarkOutboundPartSent i out).1) out indexes).
Proof. induction indexes as [|i indexes IH]; intros out HS; [done|]. simpl. by apply IH, sent_serving. Qed.

Lemma answer_spec x out lo asked anchor :
  assembling x → serving out → in_step x lo → NoDup (asked.*1) → Forall (wanted x) asked →
  (∀ h, anchor = Some h → hashmapHeight x < len parts ∧ hashes !! Z.to_nat (hashmapHeight x - 1) = Some h) →
  ∃ ds out', Forall2 (λ p d, parts !! Z.to_nat p.1 = Some d) asked ds ∧ serving out'
    ∧ answer mdu sdu (requestBody anchor (asked.*2)) out lo =
        (ds,
         match anchor with
         | Some _ => Some (hashmapHeight x `quot` n,
                           mjoin (take (Z.to_nat n) (drop (Z.to_nat (hashmapHeight x)) hashes)))
         | None => None
         end, out', match anchor with Some _ => hashmapHeight x | None => lo end).
Proof.
  intros HA HS (m & Hm & Hheight & Hlo & Hlo' & Hnear) Hnd Hall Hanchor. pose proof (d_segment D).
  assert (Hg : R.HashmapMaxLen < R.CollisionGuardSize) by done.
  assert (Hhs : Forall (λ h, len h = R.MapHashLen) (asked.*2)).
  { apply Forall_fmap. apply (Forall_weaken _ _ _ Hall). intros p (_ & _ & _ & Hp).
    exact (len_hash _ _ (h_map x HA _ _ Hp)). }
  unfold answer. rewrite parse_request; [|done|done|intros h Hh; exact (len_hash _ _ (proj2 (Hanchor h Hh)))].
  assert (Hsel : selectRequestedPartIndexes out (mjoin (asked.*2)) lo = asked.*1).
  { apply select_near; [done|done|done|]. apply Forall2_fmap_l, Forall2_fmap_r, Forall_Forall2_diag.
    apply (Forall_weaken _ _ _ Hall). intros [i h] (H1 & H2 & _ & H4). simpl in *.
    split; [|split; [done|by apply (h_map x HA)]].
    assert (i < hashmapHeight x) by (apply (h_known x HA i H2); by rewrite H4). nia. }
  rewrite Hsel. set (out' := foldl _ out _). assert (HS' : serving out') by by apply marked_serving.
  exists ((λ i, R.OutboundCiphertextSlice i sdu out) <$> asked.*1), out'. split; [|split; [done|]].
  - apply Forall2_fmap_r, Forall2_fmap_r, Forall_Forall2_diag. apply (Forall_weaken _ _ _ Hall).
    intros [i h] (_ & H2 & _). simpl in *. destruct (hash_at i H2) as (p & Hp & _).
    rewrite Hp. f_equal. symmetry. apply (s_part out HS); [lia|done].
  - destruct anchor as [h|]; [|done]. destruct (Hanchor h eq_refl) as [Hlt Hh]. simpl.
    assert (Hmn : hashmapHeight x = m * n) by lia. rewrite Hmn in Hh |- *.
    rewrite (choose_near out' lo m h) by (done || lia).
    rewrite (hashmapSegment_hashes out' m HS') by lia. by rewrite Z.quot_mul by lia.
Qed.

Lemma learn_segment now x :
  assembling x → n <= hashmapHeight x < len parts → (∃ m, hashmapHeight x = m * n) →
  let x' := learn now x (Some (hashmapHeight x `quot` n, mjoin (take (Z.to_nat n) (drop (Z.to_nat (hashmapHeight x)) hashes)))) in
  assembling x' ∧ hashmapHeight x' = Z.min (len parts) (hashmapHeight x + n) ∧ waitingForHmu x' = false
  ∧ outstandingParts x' = outstandingParts x ∧ inflight x' = inflight x ∧ partSlots x' = partSlots x
  ∧ windowStart x' = windowStart x ∧ (window_ok x → window_ok x').
Proof.
  intros HA Hh [m Hm]. pose proof (d_segment D). pose proof (d_count D) as Hc. unfold R.MaxSegments in Hc.
  unfold learn, applyHashmapSegment. rewrite (h_seglen x HA), Hm, Z.quot_mul by lia.
  destruct (Z.ltb_spec m 0); [nia|]. destruct (Z.leb_spec n 0); [lia|].
  destruct (Z.ltb_spec (MaxInt `quot` n) m) as [Hbig|].
  { exfalso. rewrite Z.quot_div_nonneg in Hbig by (done || lia).
    assert (65535 <= MaxInt `div` n); [|nia]. apply Z.div_le_lower_bound; [lia|].
    unfold R.HashmapMaxLen, R.DefaultLinkMDU, R.Overhead, R.MapHashLen in Hmax. change ((431 - 134) `quot` 4) with 74 in Hmax.
    assert (65535 * 74 <= MaxInt) by done. nia. }
  rewrite entries_mjoin by (apply Forall_take, Forall_drop, hashes_len).
  destruct (apply_assembling (take (Z.to_nat n) (drop (Z.to_nat (m * n)) hashes)) (m * n) x 0 HA) as (HA' & Hh' & Hx').
  - lia.
  - intros j h Hj _. apply lookup_take_Some in Hj as [Hj _]. by rewrite lookup_drop in Hj.
  - set (x1 := (applyHashes _ _ x 0).1) in *.
    split; [destruct HA' as [? ? ? ? ? ? ? ? ? ? ? ?]; split; done|].
    split; [simpl; rewrite Hh', len_take, len_drop, len_hashes; lia|]. split; [done|].
    rewrite Hx'. done.
Qed.
(** *** Completion *)

Context (Hsize : R.a_TransferSize a = len (mjoin parts)).

Lemma assembled x : assembling x → windowStart x = len parts → partSlots x = Some <$> parts.
Proof.
  intros HA Hw. destruct (prefix_bounds x HA) as (_ & _ & Hfull & _). apply list_eq. intros i.
  rewrite list_lookup_fmap. destruct (decide (i < length parts)%nat) as [Hi|Hi].
  - specialize (Hfull (Z.of_nat i) ltac:(unfold len in Hw; lia)).
    destruct (slot (partSlots x) (Z.of_nat i)) as [d|] eqn:E; [|done].
    pose proof (h_slot x HA _ _ E) as Hd. apply slot_Some in E as [_ E]. rewrite Nat2Z.id in E, Hd. by rewrite E, Hd.
  - rewrite !lookup_ge_None_2; [done|lia|]. pose proof (h_slots x HA) as Hl. unfold len in Hl. lia.
Qed.

Lemma slots_sum (ps : list bytes) : foldr (λ s k, len (default [] s) + k) 0 (Some <$> ps) = len (mjoin ps).
Proof.
  induction ps as [|p ps IH]; [done|]. rewrite fmap_cons. cbn [foldr]. rewrite IH. cbn [default].
  change (mjoin (p :: ps)) with (p ++ mjoin ps). by rewrite len_app.
Qed.

Lemma complete_spec x : assembling x →
  incomingTransferComplete x = true ↔ windowStart x = len parts.
Proof.
  intros HA. destruct (prefix_bounds x HA) as (Hb & Hw & _ & Hnone). unfold incomingTransferComplete. split.
  - intros HC. apply andb_true_iff in HC as [HC _]. rewrite forallb_forall in HC.
    destruct (Z.eq_dec (windowStart x) (len parts)) as [|Hne]; [done|]. exfalso.
    apply slot_None in Hnone; [|rewrite (h_slots x HA); lia]. apply list_elem_of_lookup_2 in Hnone.
    apply list_elem_of_In in Hnone. by specialize (HC _ Hnone).
  - intros HC. rewrite (assembled x HA HC), slots_sum, (h_adv x HA), Hsize, Z.eqb_refl, andb_true_r.
    apply forallb_forall. intros s Hs. apply list_elem_of_In, list_elem_of_fmap in Hs as (p & -> & _). done.
Qed.

Lemma concat_spec x : assembling x → incomingTransferComplete x = true → concatIncomingParts x = mjoin parts.
Proof.
  intros HA HC. apply (complete_spec x HA) in HC. unfold concatIncomingParts. rewrite (assembled x HA HC).
  f_equal. rewrite <- list_fmap_compose. apply list_fmap_id.
Qed.

(** *** Rounds *)

(** Between two rounds. *)
Record stage (x : incomingResourceAsm) (out : R.Resource) (lo : Z) : Prop := {
  g_assembling : assembling x;
  g_quiet : quiet x;
  g_window : window_ok x;
  g_serving : serving out;
  g_step : in_step x lo;
  g_near : ∀ i, slot (partSlots x) i ≠ None → i < windowStart x + 150
}.

Lemma height_pos x lo : in_step x lo → n <= hashmapHeight x ∨ hashmapHeight x = len parts.
Proof. intros (m & Hm & Hh & _). pose proof (d_segment D). nia. Qed.

Lemma countKnown_ge x pns : ∀ k, k <= countKnown x pns k.
Proof.
  induction pns as [|pn pns IH]; intros k; simpl; [lia|]. destruct (slot (mapHashes x) pn); [|lia].
  case_match; [apply IH|]. specialize (IH (k + 1)). lia.
Qed.

Lemma countKnown_missing x pns l : ∀ k,
  Forall (λ pn, slot (mapHashes x) pn ≠ None) (pns ++ l) → Forall (λ pn, slot (partSlots x) pn = None) l →
  ∀ rest, k + len l <= countKnown x (pns ++ l ++ rest) k.
Proof.
  induction pns as [|pn pns IH]; intros k Hk Hl rest; simpl in *.
  - revert k. induction l as [|pn l IHl]; intros k; simpl in *; [rewrite len_nil; pose proof (countKnown_ge x rest k); lia|].
    pose proof (Forall_inv Hk) as Hne. pose proof (Forall_inv Hl) as Hs. simpl in Hs, Hne. rewrite Hs.
    destruct (slot (mapHashes x) pn); [|done]. rewrite len_cons.
    specialize (IHl (Forall_inv_tail Hk) (Forall_inv_tail Hl) (k + 1)). lia.
  - pose proof (Forall_inv Hk) as Hne. simpl in Hne. destruct (slot (mapHashes x) pn); [|done].
    destruct (slot (partSlots x) pn); [by apply IH; [apply (Forall_inv_tail Hk)|]|].
    specialize (IH (k + 1) (Forall_inv_tail Hk) Hl rest). lia.
Qed.

(** A prefetch is not far ahead of the missing parts. *)
Lemma prefetch_near x :
  assembling x → window_ok x → (∀ i, slot (partSlots x) i ≠ None → i < windowStart x + 150) →
  prefetchDue x = true → hashmapHeight x <= windowStart x + 187.
Proof.
  intros HA Hwin Hnear Hdue. unfold prefetchDue in Hdue. destruct (effective x Hwin) as [_ Hr].
  apply andb_true_iff in Hdue as [_ Hk]. apply Z.ltb_lt in Hk.
  assert (Hk37 : knownHashesAhead x < 37 + 1).
  { assert (window x `quot` 2 < 38); [|lia]. rewrite Z.quot_div_nonneg by lia. apply Z.div_lt_upper_bound; lia. }
  pose proof (h_height x HA) as Hh. destruct (prefix_bounds x HA) as (_ & Hw & _ & _).
  assert (0 <= windowStart x) by (unfold windowStart; lia).
  destruct (Z.le_gt_cases (hashmapHeight x) (windowStart x + 150)) as [|Hgt]; [lia|].
  unfold knownHashesAhead in Hk37. rewrite (h_total x HA) in Hk37.
  assert (Hseq : seqZ (windowStart x) (len parts - windowStart x)
    = seqZ (windowStart x) 150 ++ seqZ (windowStart x + 150) (hashmapHeight x - windowStart x - 150)
      ++ seqZ (hashmapHeight x) (len parts - hashmapHeight x)).
  { replace (len parts - windowStart x) with (150 + ((hashmapHeight x - windowStart x - 150) + (len parts - hashmapHeight x))) by lia.
    rewrite seqZ_app, seqZ_app by lia. do 3 f_equal. lia. }
  rewrite Hseq in Hk37.
  pose proof (countKnown_missing x (seqZ (windowStart x) 150)
    (seqZ (windowStart x + 150) (hashmapHeight x - windowStart x - 150)) 0) as HC.
  unfold len in HC at 1. rewrite length_seqZ in HC.
  specialize (HC ltac:(apply Forall_app; split; apply list.Forall_forall; intros i Hi%elem_of_seqZ; apply (h_known x HA i); lia)).
  specialize (HC ltac:(apply list.Forall_forall; intros i Hi%elem_of_seqZ; destruct (slot (partSlots x) i) eqn:E; [exfalso; assert (slot (partSlots x) i ≠ None) as Hs by (by rewrite E); specialize (Hnear i Hs); lia|done])).
  specialize (HC (seqZ (hashmapHeight x) (len parts - hashmapHeight x))). lia.
Qed.
(** What an exchange leaves. *)
Record exchanged (x : incomingResourceAsm) (asked : list (Z * bytes)) (anchor : option bytes)
    (x' : incomingResourceAsm) (out' : R.Resource) (lo' : Z) : Prop := {
  e_assembling : assembling x';
  e_window : window_ok x';
  e_serving : serving out';
  e_step : in_step x' lo';
  e_outstanding : outstandingParts x' = outstandingParts x - len asked;
  e_inflight : inflight x' = foldl (λ f pn, <[Z.to_nat pn := false]> f) (inflight x) (asked.*1);
  e_waiting : waitingForHmu x' = match anchor with Some _ => false | None => waitingForHmu x end;
  e_height : hashmapHeight x' = match anchor with Some _ => Z.min (len parts) (hashmapHeight x + n) | None => hashmapHeight x end;
  e_start : windowStart x <= windowStart x';
  e_filled : ∀ i, i ∈ asked.*1 → slot (partSlots x') i ≠ None;
  e_kept : ∀ i, i ∉ asked.*1 → slot (partSlots x') i = slot (partSlots x) i
}.

Lemma exchange_spec now x out lo asked anchor :
  assembling x → window_ok x → serving out → in_step x lo → NoDup (asked.*1) → Forall (wanted x) asked →
  len asked <= outstandingParts x →
  (∀ h, anchor = Some h → hashmapHeight x < len parts ∧ hashmapHeight x <= windowStart x + 187
     ∧ hashes !! Z.to_nat (hashmapHeight x - 1) = Some h) →
  ∃ x' out' lo', exchange mdu sdu now (requestBody anchor (asked.*2)) (x, out, lo) = (x', out', lo')
    ∧ exchanged x asked anchor x' out' lo'.
Proof.
  intros HA Hw HS Hstep Hnd Hall Hlen Hanchor.
  destruct (answer_spec x out lo asked anchor HA HS Hstep Hnd Hall) as (ds & out' & HF & HS' & Hans).
  { intros h Hh. destruct (Hanchor h Hh) as (? & ? & ?). done. }
  unfold exchange. rewrite Hans. pose proof (receive_all now asked x ds HA Hw Hlen Hnd Hall HF) as HR.
  set (x1 := foldl (receive now) x ds) in *. destruct HR as [HA1 Hw1 Hwait1 Hh1 _ Ho1 Hf1 Hst1 Hfill1 Hkept1].
  destruct anchor as [h|].
  - destruct (Hanchor h eq_refl) as (Hlt & Hnear & _). pose proof (d_segment D).
    assert (Hpos : n <= hashmapHeight x1 < len parts) by (destruct (height_pos x lo Hstep); lia).
    destruct Hstep as (m & Hm & Hhm & _). assert (Hmn : hashmapHeight x = m * n) by lia.
    destruct (learn_segment now x1 HA1 Hpos) as (HA2 & Hh2 & Hwait2 & Ho2 & Hf2 & Hs2 & Hst2 & Hw2).
    { exists m. by rewrite Hh1. }
    rewrite Hh1 in *. eexists _, _, _. split; [done|].
    assert (Hg : 187 < R.CollisionGuardSize) by done.
    split; [done|by apply Hw2|done| |by rewrite Ho2|by rewrite Hf2|done|done|lia|by rewrite Hs2|by rewrite Hs2].
    exists (m + 1). rewrite Hh2. split_and!; try lia.
  - eexists _, _, _. split; [done|]. simpl.
    split; try done. destruct Hstep as (m & ? & ? & ? & ? & ?). exists m. rewrite Hh1. split_and!; (done || lia).
Qed.

(** A round between two stages brings the transfer forward. *)
Lemma prefetch_sound x lo body x' :
  assembling x → window_ok x → in_step x lo → (∀ i, slot (partSlots x) i ≠ None → i < windowStart x + 150) →
  prefetchRequest x = Ok (Some (body, x')) →
  ∃ h, body = requestBody (Some h) (([] : list (Z * bytes)).*2) ∧ x' = set_waiting true x
    ∧ hashmapHeight x < len parts ∧ hashmapHeight x <= windowStart x + 187
    ∧ hashes !! Z.to_nat (hashmapHeight x - 1) = Some h.
Proof.
  intros HA Hw Hstep Hnear. unfold prefetchRequest. destruct (prefetchDue x) eqn:Hdue; simpl; [|done].
  pose proof (prefetch_near x HA Hw Hnear Hdue) as H187.
  assert (Hlt : hashmapHeight x < len parts).
  { unfold prefetchDue in Hdue. apply andb_true_iff in Hdue as [Hdue _]. apply andb_true_iff in Hdue as [_ Hdue].
    rewrite (h_total x HA) in Hdue. lia. }
  pose proof (d_segment D). destruct (lastMapHash_known x HA) as (h & -> & Hh & _); [destruct (height_pos x lo Hstep); lia|].
  simpl. rewrite (h_adv x HA). intros [= <- <-]. exists h. split; [|done].
  unfold requestBody. simpl. by rewrite app_nil_r.
Qed.

Lemma prefetch_total x lo :
  assembling x → in_step x lo → prefetchRequest x = Ok None ∨ ∃ body x', prefetchRequest x = Ok (Some (body, x')).
Proof.
  intros HA Hstep. unfold prefetchRequest. destruct (prefetchDue x); simpl; [|by left]. right.
  pose proof (d_segment D). pose proof (d_count D).
  destruct (lastMapHash_known x HA) as (h & -> & _ & _); [destruct (height_pos x lo Hstep); lia|]. simpl. eauto.
Qed.

Lemma prefetch_stage now x out lo :
  stage x out lo → ∃ x' out' lo', prefetchRound mdu sdu now (x, out, lo) = (x', out', lo') ∧ stage x' out' lo'
    ∧ windowStart x <= windowStart x' ∧ hashmapHeight x <= hashmapHeight x'.
Proof.
  intros HG. pose proof HG as [HA (Ho & Hwait & Hf) Hw HS Hstep Hslots]. unfold prefetchRound.
  destruct (prefetch_total x lo HA Hstep) as [->|(body & x1 & HP)].
  { exists x, out, lo. split; [done|]. split; [done|]. lia. }
  rewrite HP. destruct (prefetch_sound x lo body x1 HA Hw Hstep Hslots HP) as (h & -> & -> & Hlt & Hnear & Hh).
  assert (HA' : assembling (set_waiting true x)) by (destruct HA as [? ? ? ? ? ? ? ? ? ? ? ?]; by split).
  destruct (exchange_spec now (set_waiting true x) out lo [] (Some h) HA' Hw HS Hstep) as (x' & out' & lo' & HE & HX).
  { constructor. } { constructor. } { rewrite len_nil. simpl. lia. } { intros k [= <-]. done. }
  exists x', out', lo'. split; [done|]. destruct HX as [? ? ? ? Ho' Hf' Hwait' Hh' Hst' _ Hkept].
  rewrite len_nil in Ho'. simpl in *. pose proof (d_segment D). split; [|split; [done|lia]].
  split; try done.
  - split_and!; [lia|done|by rewrite Hf'].
  - intros i Hi. rewrite Hkept in Hi by apply not_elem_of_nil. specialize (Hslots i Hi). unfold windowStart in *. simpl in *. lia.
Qed.

Lemma request_stage now x out lo :
  stage x out lo → windowStart x < len parts →
  ∃ x' out' lo', requestRound mdu sdu now (x, out, lo) = (x', out', lo') ∧ stage x' out' lo'
    ∧ windowStart x <= windowStart x' ∧ hashmapHeight x <= hashmapHeight x'
    ∧ (windowStart x < windowStart x' ∨ hashmapHeight x < hashmapHeight x').
Proof.
  intros [HA (Ho & Hwait & Hf) Hw HS Hstep Hslots] Hws. pose proof (d_segment D).
  destruct (next_request x HA (conj Ho (conj Hwait Hf)) Hw Hws) as (asked & ex & h & HN & Hnd & Hall & Hfirst & Hexh & Hex).
  { pose proof (d_count D). destruct (height_pos x lo Hstep); lia. }
  unfold requestRound. rewrite HN.
  set (x1 := set_inflight _ _ _).
  assert (HA1 : assembling x1).
  { destruct HA as [? ? ? ? ? Hfl ? ? ? ? ? ?]. split; try done. simpl. rewrite <- Hfl. unfold len. f_equal.
    clear. generalize (inflight x). induction (asked.*1) as [|pn l IH]; intros f; [done|]. simpl. by rewrite IH, length_insert. }
  replace ((if ex then hashmapExhausted :: h else [hashmapNotExhausted]) ++ R.a_Hash a ++ mjoin (asked.*2))
    with (requestBody (if ex then Some h else None) (asked.*2)) by (by destruct ex).
  destruct (exchange_spec now x1 out lo asked (if ex then Some h else None) HA1 Hw HS Hstep Hnd Hall)
    as (x' & out' & lo' & HE & HX).
  { done. } { intros k Hk. destruct ex; [|done]. injection Hk as <-. destruct (Hex eq_refl) as (? & ? & ? & _).
    split_and!; try done. change (hashmapHeight x <= windowStart x + 187). lia. }
  exists x', out', lo'. split; [done|]. destruct HX as [HA' Hw' HS' Hstep' Ho' Hf' Hwait' Hh' Hst' Hfill Hkept].
  change (windowStart x1) with (windowStart x) in Hst'. change (hashmapHeight x1) with (hashmapHeight x) in Hh'.
  pose proof (h_height x HA) as Hhb.
  split; [|split; [done|split; [destruct ex; lia|]]].
  - split; try done.
    + split_and!.
      * rewrite Ho'. simpl. lia.
      * rewrite Hwait'. by destruct ex.
      * rewrite Hf'. simpl. rewrite flags_cleared, Hf. apply clear_replicate.
    + intros i Hi. destruct (decide (i ∈ asked.*1)) as [Hin|Hin].
      * apply list_elem_of_fmap in Hin as (p & -> & Hp). destruct (proj1 (list.Forall_forall _ _) Hall p Hp) as (? & _). lia.
      * rewrite Hkept in Hi by done. specialize (Hslots i Hi). lia.
  - destruct (Z.lt_ge_cases (windowStart x) (hashmapHeight x)) as [Hlt|Hge].
    + left. specialize (Hfill _ (Hfirst Hlt)). destruct (prefix_bounds x' HA') as (_ & _ & _ & Hnone).
      destruct (Z.eq_dec (windowStart x) (windowStart x')) as [E|]; [|lia]. rewrite E in Hfill. done.
    + right. pose proof (Hexh Hge) as Hx. destruct (Hex Hx) as (? & _). rewrite Hx in Hh'. lia.
Qed.

Lemma rounds_complete now k : ∀ x out lo,
  stage x out lo → 2 * len parts - windowStart x - hashmapHeight x <= Z.of_nat k →
  ∃ x' out' lo', rounds mdu sdu now k (x, out, lo) = (x', out', lo') ∧ assembling x' ∧ incomingTransferComplete x' = true.
Proof.
  induction k as [|k IH]; intros x out lo HG Hk.
  - pose proof (g_assembling _ _ _ HG) as HA. exists x, out, lo. split; [done|]. split; [done|].
    destruct (prefix_bounds x HA) as (? & ? & _). pose proof (h_height x HA). apply complete_spec; [done|lia].
  - pose proof (g_assembling _ _ _ HG) as HA. simpl. destruct (incomingTransferComplete x) eqn:HC; [by exists x, out, lo|].
    assert (Hws : windowStart x < len parts).
    { destruct (prefix_bounds x HA) as (? & ? & _). destruct (Z.eq_dec (windowStart x) (len parts)) as [E|]; [|lia].
      apply (complete_spec x HA) in E. congruence. }
    destruct (prefetch_stage now x out lo HG) as (x1 & out1 & lo1 & HP & HG1 & Hw1 & Hh1). unfold round. rewrite HP.
    destruct (Z.lt_ge_cases (windowStart x1) (len parts)) as [Hlt|Hge].
    + destruct (request_stage now x1 out1 lo1 HG1 Hlt) as (x2 & out2 & lo2 & HR & HG2 & Hw2 & Hh2 & Hprog). rewrite HR.
      apply IH; [done|lia].
    + pose proof (g_assembling _ _ _ HG1) as HA1. destruct (prefix_bounds x1 HA1) as (? & ? & _).
      assert (Hnone : nextRequest x1 = Ok None).
      { unfold nextRequest. rewrite (h_total x1 HA1). destruct (Z.leb_spec (len parts) (windowStart x1)); [done|lia]. }
      unfold requestRound. rewrite Hnone. assert (HC1 : incomingTransferComplete x1 = true) by (apply complete_spec; [done|lia]).
      exists x1, out1, lo1. split; [|done]. destruct k; [done|]. simpl. by rewrite HC1.
Qed.
(** *** Where a transfer begins, and where it resumes *)

Lemma new_stage now last out :
  R.a_Parts a = len parts → R.a_Hashmap a = mjoin (take (Z.to_nat n) hashes) → serving out →
  stage (newIncoming now mdu last a) out 0.
Proof.
  intros Hparts Hmap HS. pose proof (d_segment D). pose proof (d_count D). unfold newIncoming. rewrite Hparts, Hmap, <- Hn.
  assert (Hnat : Z.to_nat (len parts) = length parts) by (unfold len; lia). rewrite Hnat.
  set (x0 := mkRx _ _ _ _ _ _ _ _ _ _ _ _ _ _ _ _ _).
  assert (HA0 : assembling x0).
  { split; simpl; try done; try (unfold len; by rewrite length_replicate); try (by intros ? ?; rewrite slot_replicate).
    - by destruct (length parts).
    - lia.
    - intros i Hi. rewrite slot_replicate. split; [done|lia]. }
  unfold applyHashmapSegment. rewrite (h_seglen x0 HA0).
  replace (0 <? 0) with false by done. destruct (Z.leb_spec n 0); [lia|].
  destruct (Z.ltb_spec (MaxInt `quot` n) 0) as [Hneg|].
  { rewrite Z.quot_div_nonneg in Hneg by (done || lia). pose proof (Z.div_pos MaxInt n ltac:(done) ltac:(lia)). lia. }
  rewrite entries_mjoin by (apply Forall_take, hashes_len). rewrite Z.mul_0_l.
  destruct (apply_assembling (take (Z.to_nat n) hashes) 0 x0 0 HA0) as (HA1 & Hh1 & Hx1).
  { simpl. lia. } { intros j h Hj _. by apply lookup_take_Some in Hj as [Hj _]. }
  set (x1 := (applyHashes 0 _ x0 0).1) in *. rewrite len_take, len_hashes in Hh1. simpl in Hh1.
  assert (Hw : R.WindowMin <= startIncomingWindow last R.WindowMin R.WindowMaxFast R.WindowMaxSlow <= R.WindowMaxFast).
  { unfold startIncomingWindow, R.WindowMin, R.WindowMaxFast, R.WindowMaxSlow. repeat case_match; lia. }
  assert (Hstart : windowStart x1 = 0) by (unfold windowStart; by rewrite Hx1).
  split; [by apply windowed| | |done| |].
  - unfold quiet. simpl. rewrite Hx1. simpl. done.
  - unfold window_ok. simpl. rewrite Hx1. simpl. unfold R.WindowMin, R.WindowMaxFast in *. lia.
  - exists 1. simpl. change (windowStart (set_window _ _ _ x1)) with (windowStart x1). rewrite Hh1, Hstart.
    assert (0 < R.CollisionGuardSize) by done. lia.
  - intros i. simpl. rewrite Hx1. simpl. by rewrite slot_replicate.
Qed.

(** A transfer with anything lost or on its way. *)
Record under_way (x : incomingResourceAsm) (out : R.Resource) (lo : Z) : Prop := {
  u_assembling : assembling x;
  u_window : window_ok x;
  u_serving : serving out;
  u_step : in_step x lo;
  u_near : ∀ i, slot (partSlots x) i ≠ None → i < windowStart x + 150
}.

Lemma stall_frame x : ∃ w m M,
  stallIncoming x = set_window w m M (set_stalls (consecutiveStalls x + 1)
                      (set_inflight (replicate (length (inflight x)) false) 0 (set_waiting false x))).
Proof. unfold stallIncoming. cbv zeta. repeat (case_match; [|]); eexists _, _, _; reflexivity. Qed.

(** The watchdog leaves nothing on its way. *)
Lemma stall_stage x out lo : under_way x out lo → stage (stallIncoming x) out lo.
Proof.
  intros [HA Hw HS Hstep Hnear]. pose proof (stall_ok x Hw) as Hw'. destruct (stall_frame x) as (w & m & M & E).
  rewrite E in Hw' |- *. pose proof (h_flags x HA) as Hf. unfold len in Hf.
  assert (Hlen : length (inflight x) = length parts) by lia. rewrite Hlen in *.
  split; try done. apply windowed. destruct HA as [? ? ? ? ? ? ? ? ? ? ? ?].
  split; try done. simpl. unfold len. by rewrite length_replicate.
Qed.

(** *** Any request can be answered *)

Lemma request_sound x body pns ex x' :
  assembling x → window_ok x → nextRequest x = Ok (Some (body, pns, ex, x')) →
  ∃ asked anchor f k w,
    body = requestBody anchor (asked.*2) ∧ NoDup (asked.*1) ∧ Forall (wanted x) asked
    ∧ (∀ h, anchor = Some h → hashmapHeight x < len parts ∧ hashmapHeight x <= windowStart x + 187
         ∧ hashes !! Z.to_nat (hashmapHeight x - 1) = Some h)
    ∧ x' = set_inflight f k (set_waiting w x) ∧ length f = length (inflight x).
Proof.
  intros HA Hwin. destruct (effective x Hwin) as [He Hr]. unfold nextRequest. rewrite He, (h_total x HA).
  destruct (Z.leb_spec (len parts) (windowStart x)); [done|]. case_match; [done|]. case_match; [done|].
  set (last := Z.min _ _).
  pose proof (collect_spec x (window x - outstandingParts x) (seqZ (windowStart x) (last - windowStart x)) []) as (l & Hl & Hsub & Hall & Hex).
  rewrite app_nil_r in Hl. destruct (collectParts _ _ _ _) as [acc exh]. simpl in Hl, Hex. subst acc. rewrite rev_involutive.
  assert (Hpos : 0 <= windowStart x) by (unfold windowStart; lia).
  assert (Hend : ∀ pn, pn ∈ seqZ (windowStart x) (last - windowStart x) → windowStart x <= pn < windowStart x + 150 ∧ pn < len parts).
  { intros pn Hpn. apply elem_of_seqZ in Hpn. subst last. lia. }
  case_match; [done|]. intros HN. apply outcome_bind_Ok in HN as ([pre x1] & Hpre & HN). simplify_eq.
  assert (Hlen : ∀ pns f, length (foldl (λ (f : list bool) pn, <[Z.to_nat pn := true]> f) f pns) = length f).
  { clear. induction pns as [|pn pns IH]; intros f; [done|]. simpl. by rewrite IH, length_insert. }
  assert (HW : NoDup (l.*1) ∧ Forall (wanted x) l).
  { split; [eapply sublist_NoDup; [apply NoDup_seqZ|exact Hsub]|]. apply list.Forall_forall. intros p Hp.
    destruct (proj1 (list.Forall_forall _ _) Hall p Hp) as [Hp1 Hp2].
    assert (Hin : p.1 ∈ l.*1) by (apply list_elem_of_fmap; by exists p).
    destruct (Hend p.1 (elem_of_sublist _ _ _ Hin Hsub)). unfold wanted. split_and!; (done || lia). }
  destruct ex.
  - destruct (Hex eq_refl) as (_ & pn & Hpn & Hun). destruct (Hend pn Hpn).
    assert (Hge : ¬ pn < hashmapHeight x) by (intros Hlt; by apply (h_known x HA pn ltac:(lia)) in Hlt).
    apply outcome_bind_Ok in Hpre as (h & Hlast & Hpre). simplify_eq.
    assert (Hh1 : 1 <= hashmapHeight x).
    { unfold lastMapHash in Hlast. pose proof (h_height x HA). destruct (Z.eqb_spec (hashmapHeight x) 0); [done|lia]. }
    destruct (lastMapHash_known x HA Hh1) as (h' & Hlast' & Hh & _). assert (h' = h) as -> by congruence.
    eexists l, (Some h), _, _, true. split; [unfold requestBody; simpl; by rewrite (h_adv x HA)|]. split; [apply HW|].
    split; [apply HW|]. split; [|split; [reflexivity|apply Hlen]]. intros k [= <-]. split_and!; (done || lia).
  - simplify_eq. eexists l, None, _, _, (waitingForHmu x1). split; [unfold requestBody; simpl; by rewrite (h_adv x1 HA)|].
    split; [apply HW|]. split; [apply HW|]. split; [done|]. split; [|apply Hlen].
    replace (set_waiting (waitingForHmu x1) x1) with x1 by (by destruct x1). reflexivity.
Qed.
(** *** Disturbances *)

Lemma under_way_flags x out lo f k w :
  under_way x out lo → length f = length (inflight x) → under_way (set_inflight f k (set_waiting w x)) out lo.
Proof.
  intros [HA ? ? ? ?] Hf. split; try done. destruct HA as [? ? ? ? ? Hfl ? ? ? ? ? ?]. split; try done.
  simpl. unfold len in *. by rewrite Hf.
Qed.

Lemma waiting_under_way x out lo w : under_way x out lo → under_way (set_waiting w x) out lo.
Proof. intros [HA ? ? ? ?]. split; try done. destruct HA as [? ? ? ? ? ? ? ? ? ? ? ?]. by split. Qed.

(** What is on the network: requests the receiver had reason to make, parts near
    its window, and segments of the hash map up to where the sender is. *)
Definition posted (x : incomingResourceAsm) (body : bytes) : Prop :=
  ∃ (asked : list (Z * bytes)) anchor, body = requestBody anchor (asked.*2)
    ∧ Forall (λ p, 0 <= p.1 < len parts ∧ p.1 < windowStart x + 150 ∧ hashes !! Z.to_nat p.1 = Some p.2) asked
    ∧ ∀ h, anchor = Some h → ∃ m, 1 <= m ∧ m * n < len parts ∧ m * n <= hashmapHeight x ∧ m * n <= windowStart x + 187
        ∧ hashes !! Z.to_nat (m * n - 1) = Some h.
Definition mailed (x : incomingResourceAsm) (lo : Z) (g : datagram) : Prop :=
  match g with
  | Request body => posted x body
  | Part d => ∃ i, 0 <= i < len parts ∧ i < windowStart x + 150 ∧ parts !! Z.to_nat i = Some d
  | Update k m => 1 <= k ∧ k * n <= lo ∧ m = mjoin (take (Z.to_nat n) (drop (Z.to_nat (k * n)) hashes))
  end.

(** The transfer has moved on. *)
Definition later (x : incomingResourceAsm) (lo : Z) (x' : incomingResourceAsm) (lo' : Z) : Prop :=
  windowStart x <= windowStart x' ∧ hashmapHeight x <= hashmapHeight x' ∧ lo <= lo'.
Lemma mailed_later x lo x' lo' g : later x lo x' lo' → mailed x lo g → mailed x' lo' g.
Proof.
  intros (H1 & H2 & H3). destruct g as [body|d|k m]; simpl.
  - intros (asked & anchor & -> & Hall & Ha). exists asked, anchor. split; [done|]. split.
    + apply (Forall_weaken _ _ _ Hall). intros p (? & ? & ?). split_and!; (done || lia).
    + intros h Hh. destruct (Ha h Hh) as (m & ? & ? & ? & ? & ?). exists m. split_and!; (done || lia).
  - intros (i & ? & ? & ?). exists i. split_and!; (done || lia).
  - intros (? & ? & ?). split_and!; (done || lia).
Qed.

Lemma selectPart_sound out lo used i h :
  serving out → 0 <= lo → selectPart out lo used h = Some i → 0 <= i < len parts ∧ hashes !! Z.to_nat i = Some h.
Proof.
  intros HS Hlo. unfold selectPart. rewrite (s_segments out HS). pose proof (d_count D).
  set (start := if len parts <=? lo then 0 else lo). assert (Hst : 0 <= start < len parts) by (subst start; destruct (Z.leb_spec (len parts) lo); lia).
  set (free idx := negb (bool_decide (idx ∈ used)) && (len (R.MapHashAt idx out) =? R.MapHashLen) && bool_decide (R.MapHashAt idx out = h)).
  assert (HF : ∀ j, 0 <= j < len parts → free j = true → j = i → 0 <= i < len parts ∧ hashes !! Z.to_nat i = Some h).
  { intros j Hj [_ Hf%bool_decide_eq_true]%andb_true_iff <-. split; [done|]. rewrite (mapHashAt_hashes out j HS Hj). by f_equal. }
  cbv zeta. intros HE. repeat case_match; simplify_eq;
    match goal with E : findIndex _ _ _ = Some _ |- _ => apply findIndex_Some in E as [Hj Hf] end; apply (HF i); (done || lia || idtac).
  by apply andb_true_iff in Hf as [Hf _].
Qed.

Lemma select_sound out lo (asked : list (Z * bytes)) :
  serving out → 0 <= lo → Forall (λ p, 0 <= p.1 < len parts ∧ hashes !! Z.to_nat p.1 = Some p.2) asked →
  ∀ i, i ∈ selectRequestedPartIndexes out (mjoin (asked.*2)) lo → i ∈ asked.*1.
Proof.
  intros HS Hlo Hall. pose proof (d_count D). unfold selectRequestedPartIndexes.
  assert (Hlen : Forall (λ h, len h = R.MapHashLen) (asked.*2)).
  { apply Forall_fmap. apply (Forall_weaken _ _ _ Hall). intros p [_ Hp]. exact (len_hash _ _ Hp). }
  rewrite (R.len_mjoin_map _ Hlen), Z.rem_mul, (s_segments out HS), entries_mjoin by done. simpl.
  destruct (Z.eqb_spec (len parts) 0); [lia|]. destruct (Z.ltb_spec lo 0); [lia|]. clear Hlen.
  set (step := λ used mh, match selectPart out lo used mh with Some i => used ++ [i] | None => used end).
  assert (HG : ∀ l used i, Forall (λ p, 0 <= p.1 < len parts ∧ hashes !! Z.to_nat p.1 = Some p.2) l →
            i ∈ foldl step used (l.*2) → i ∈ used ∨ i ∈ l.*1).
  { clear Hall asked. induction l as [|[j h] l IH]; intros used i Hall Hi; [by left|]. apply list.Forall_cons in Hall as [[Hj Hh] Hall].
    simpl in *. destruct (IH _ _ Hall Hi) as [Hin|]; [|by right; right]. unfold step in Hin.
    destruct (selectPart out lo used h) as [k|] eqn:Ek; [|by left]. apply elem_of_app in Hin as [|Ek'%list_elem_of_singleton]; [by left|subst i].
    destruct (selectPart_sound out lo used k h HS Hlo Ek) as [Hk Hkh]. assert (k = j) as -> by (apply (hash_inj k j h); (done || lia)). right. left. }
  intros i Hi. by destruct (HG asked [] i Hall Hi) as [?%elem_of_nil|].
Qed.

(** A late request for more of the hash map does not take the sender back. *)
Lemma choose_sound out lo m h k next :
  serving out → 1 <= m → m * n < len parts → 0 <= lo < len parts → hashes !! Z.to_nat (m * n - 1) = Some h →
  chooseHashmapUpdateSegment out mdu h lo = Some (k, next) → k = m ∧ next = m * n ∧ lo - n <= m * n - 1.
Proof.
  intros HS Hm Hlt Hlo Hh. pose proof (d_segment D). unfold chooseHashmapUpdateSegment.
  rewrite (len_hash _ _ Hh), Z.eqb_refl. cbn [negb]. rewrite (s_segments out HS), <- Hn. destruct (Z.eqb_spec (len parts) 0); [lia|]. cbv zeta.
  destruct (Z.ltb_spec lo 0); [lia|]. set (lo1 := Z.max (lo - n) 0). destruct (Z.leb_spec (len parts) lo1); [lia|].
  set (e0 := Z.min (lo + R.CollisionGuardSize) (len parts)).
  set (e1 := if e0 <? lo1 + n then Z.min (lo1 + R.CollisionGuardSize) (len parts) else e0).
  assert (He1 : e1 <= len parts) by (subst e0 e1; case_match; lia).
  assert (HA : ∀ i, lo1 <= i < e1 → bool_decide (R.MapHashAt i out = h) = true → i = m * n - 1).
  { intros i Hi Hb%bool_decide_eq_true. apply (hash_inj i (m * n - 1) h); [lia|nia| |done]. rewrite (mapHashAt_hashes out i HS) by lia. by f_equal. }
  match goal with |- match ?T with _ => _ end = _ → _ => assert (HT : ∀ i, T = Some i → lo1 <= i ∧ i = m * n - 1) end.
  { intros i. destruct (findIndex _ lo1 e1) as [j|] eqn:E1; intros HE.
    - injection HE as ->. apply findIndex_Some in E1 as [Hi [[Hb _]%andb_true_iff _]%andb_true_iff]. split; [lia|]. by apply HA.
    - apply findIndex_Some in HE as [Hi Hb]. split; [lia|]. by apply HA. }
  match goal with |- match ?T with _ => _ end = _ → _ => destruct T as [i|] end; [|done].
  destruct (HT i eq_refl) as [Hi ->]. replace (m * n - 1 + 1) with (m * n) by lia. rewrite Z.quot_mul by lia.
  destruct (Z.leb_spec m 0); [lia|]. intros [= <- <-]. split_and!; lia.
Qed.

(** The answer to any request of the receiver, however late. *)
Lemma answer_any x out lo body sent update out' lo' :
  serving out → in_step x lo → posted x body → answer mdu sdu body out lo = (sent, update, out', lo') →
  serving out' ∧ in_step x lo' ∧ lo <= lo' ∧ Forall (mailed x lo') ((Part <$> sent) ++ from_option (λ u, [Update u.1 u.2]) [] update).
Proof.
  intros HS Hstep (asked & anchor & -> & Hall & Hanchor). pose proof Hstep as (m & Hm & Hh & Hlo & Hlo' & Hfar).
  pose proof (d_segment D). unfold answer.
  rewrite parse_request; cycle 1; [done| |intros h Hh'; destruct (Hanchor h Hh') as (? & _ & _ & _ & _ & Hx); exact (len_hash _ _ Hx)|].
  { apply Forall_fmap. apply (Forall_weaken _ _ _ Hall). intros p (_ & _ & Hp). exact (len_hash _ _ Hp). }
  set (indexes := selectRequestedPartIndexes _ _ _). set (out1 := foldl _ out indexes). assert (HS' : serving out1) by by apply marked_serving.
  assert (Hsent : ∀ lo', Forall (mailed x lo') (Part <$> ((λ i, R.OutboundCiphertextSlice i sdu out) <$> indexes))).
  { intros lo1. apply Forall_fmap, Forall_fmap, list.Forall_forall. intros i Hi. apply select_sound in Hi; [|done|lia|].
    - apply list_elem_of_fmap in Hi as (p & -> & Hp). destruct (proj1 (list.Forall_forall _ _) Hall p Hp) as (H1 & H2 & _).
      exists p.1. split; [done|]. split; [done|]. destruct (hash_at p.1 H1) as (d & Hd & _). by rewrite (s_part out HS p.1 d) by (done || lia).
    - apply (Forall_weaken _ _ _ Hall). by intros p (? & _ & ?). }
  destruct (anchor ≫= λ h, chooseHashmapUpdateSegment out1 mdu h lo) as [[k next]|] eqn:EC.
  - intros [= <- <- <- <-]. destruct anchor as [h|]; [|done]. simpl in EC. destruct (Hanchor h eq_refl) as (j & Hj & Hjl & Hjh & Hjw & Hjx).
    destruct (choose_sound out1 lo j h k next HS' Hj Hjl Hlo' Hjx EC) as (-> & -> & Hlow).
    assert (Hjm : j <= m) by (apply (Z.mul_le_mono_pos_r _ _ n); lia).
    assert (Hj1 : m - 1 <= j). { cut (m - 1 < j + 1); [lia|]. apply (Z.mul_lt_mono_pos_r n); lia. }
    assert (Hle : lo <= j * n). { destruct Hlo as [->| ->]; [nia|]. cut (m < j + 1); [nia|]. apply (Z.mul_lt_mono_pos_r n); lia. }
    split; [done|]. split.
    { exists m. assert (187 < R.CollisionGuardSize) by done. assert (j = m - 1 ∨ j = m) as [->| ->] by lia; split_and!; (done || lia || auto). }
    split; [done|]. apply Forall_app. split; [apply Hsent|]. simpl. constructor; [|done]. simpl.
    split_and!; [lia|lia|]. by rewrite (hashmapSegment_hashes out1 j HS') by lia.
  - intros [= <- <- <- <-]. split_and!; try done. simpl. rewrite app_nil_r. apply Hsent.
Qed.

Lemma receive_any now x i d :
  assembling x → window_ok x → 0 <= i < len parts → parts !! Z.to_nat i = Some d →
  let x' := receive now x d in
  assembling x' ∧ window_ok x' ∧ hashmapHeight x' = hashmapHeight x ∧ windowStart x <= windowStart x'
  ∧ ∀ j, slot (partSlots x') j ≠ None → j = i ∨ slot (partSlots x) j ≠ None.
Proof.
  intros HA Hw Hi Hd. unfold receive, takePart. rewrite (h_adv x HA).
  destruct (findPart (R.mapHash (R.a_RandomHash a) d) x) as [j|] eqn:EF; cbn [fmap option_fmap option_map].
  2:{ split_and!; try done. by right. }
  assert (j = i) as ->.
  { destruct (findPart_sound x _ j HA EF) as (Hj & Hh & _). apply (hash_inj j i (R.mapHash (R.a_RandomHash a) d)); [lia|lia|exact Hh|].
    unfold hashes. by rewrite list_lookup_fmap, Hd. }
  pose proof (store_assembling x now i d HA Hi Hd) as HA1. destruct (store_window x now i d HA Hi Hd) as [Hmono _].
  assert (Hsl : ∀ j, slot (partSlots (storePart now i d x)) j ≠ None → j = i ∨ slot (partSlots x) j ≠ None).
  { intros j. rewrite store_slot by done. destruct (Z.eqb_spec j i); auto. }
  destruct (incomingTransferComplete (storePart now i d x)).
  - split; [done|]. split; [exact Hw|]. split; [reflexivity|]. split; [exact Hmono|exact Hsl].
  - destruct (after_frame (storePart now i d x)) as (w & m & E & Hok). specialize (Hok Hw). rewrite E in Hok |- *.
    split; [by apply windowed|]. split; [exact Hok|]. split; [reflexivity|]. split; [exact Hmono|exact Hsl].
Qed.

Lemma learn_any now x out lo k :
  under_way x out lo → 1 <= k → k * n <= lo →
  let x' := learn now x (Some (k, mjoin (take (Z.to_nat n) (drop (Z.to_nat (k * n)) hashes)))) in
  under_way x' out lo ∧ later x lo x' lo.
Proof.
  intros [HA Hw HS Hstep Hnear] Hk Hlo. pose proof (d_segment D). pose proof (d_count D) as Hc. unfold R.MaxSegments in Hc.
  destruct Hstep as (m & Hm & Hh & Hlom & Hlob & Hfar).
  unfold learn, applyHashmapSegment. rewrite (h_seglen x HA).
  destruct (Z.ltb_spec k 0); [lia|]. destruct (Z.leb_spec n 0); [lia|].
  destruct (Z.ltb_spec (MaxInt `quot` n) k) as [Hbig|].
  { exfalso. rewrite Z.quot_div_nonneg in Hbig by (done || lia).
    assert (65535 <= MaxInt `div` n); [|nia]. apply Z.div_le_lower_bound; [lia|].
    change R.HashmapMaxLen with 74 in Hmax. assert (65535 * 74 <= MaxInt) by done. nia. }
  rewrite entries_mjoin by (apply Forall_take, Forall_drop, hashes_len).
  assert (Hkm : k = m ∧ lo = m * n ∨ k + 1 <= m) by nia.
  assert (Hkh : k * n <= hashmapHeight x) by (rewrite Hh; nia).
  destruct (apply_assembling (take (Z.to_nat n) (drop (Z.to_nat (k * n)) hashes)) (k * n) x 0 HA) as (HA' & Hh' & Hx').
  - lia.
  - intros j h Hj _. apply lookup_take_Some in Hj as [Hj _]. by rewrite lookup_drop in Hj.
  - set (x1 := (applyHashes _ _ x 0).1) in *. rewrite len_take, len_drop, len_hashes in Hh'.
    assert (Hst : windowStart x1 = windowStart x) by (unfold windowStart; by rewrite Hx').
    assert (Hps : partSlots x1 = partSlots x) by (by rewrite Hx').
    split; cycle 1. { split_and!; [by apply Z.eq_le_incl|simpl; lia|done]. }
    split; [destruct HA' as [? ? ? ? ? ? ? ? ? ? ? ?]; split; done|by rewrite Hx'|done| |].
    + destruct Hkm as [[-> ->]|Hkm].
      * exists (m + 1). change (windowStart (set_waiting _ _)) with (windowStart x1). simpl. rewrite Hst, Hh'. split_and!; (done || lia).
      * exists m. change (windowStart (set_waiting _ _)) with (windowStart x1). simpl. rewrite Hst, Hh'. split_and!; try (done || lia).
        assert (k * n + n <= m * n) by nia. lia.
    + intros i Hi. change (windowStart (set_waiting _ _)) with (windowStart x1). rewrite Hst. apply Hnear. by rewrite <- Hps.
Qed.

Lemma later_refl x lo : later x lo x lo.
Proof. unfold later. lia. Qed.

(** A transfer under way, with the network. *)
Definition at_large (s : incomingResourceAsm * R.Resource * Z * list datagram) : Prop :=
  let '(x, out, lo, mail) := s in under_way x out lo ∧ Forall (mailed x lo) mail.

Lemma at_large_moved x lo x' out' lo' mail new :
  under_way x' out' lo' → later x lo x' lo' → Forall (mailed x lo) mail → Forall (mailed x' lo') new →
  at_large (x', out', lo', new ++ mail).
Proof.
  intros HU HL Hm Hn'. split; [done|]. apply Forall_app. split; [done|]. apply (Forall_weaken _ _ _ Hm). intros g. by apply mailed_later.
Qed.

(** The request that is made is one the receiver has reason to make. *)
Lemma posted_request x lo (asked : list (Z * bytes)) anchor :
  assembling x → in_step x lo → Forall (wanted x) asked →
  (∀ h, anchor = Some h → hashmapHeight x < len parts ∧ hashmapHeight x <= windowStart x + 187
     ∧ hashes !! Z.to_nat (hashmapHeight x - 1) = Some h) →
  posted x (requestBody anchor (asked.*2)).
Proof.
  intros HA (m & Hm & Hh & _) Hall Hanchor. exists asked, anchor. split; [done|]. split.
  - apply (Forall_weaken _ _ _ Hall). intros p (? & ? & _ & Hp). split_and!; [lia..|by apply (h_map x HA)].
  - intros h E. destruct (Hanchor h E) as (H1 & H2 & H3). assert (E' : hashmapHeight x = m * n) by lia. rewrite E' in *. by exists m.
Qed.

Lemma disturbed_at_large s s' : disturbed mdu sdu s s' → at_large s → at_large s'.
Proof.
  intros HD. destruct HD as [x body pns ex x' out lo mail HN|x body x' out lo mail HN|x body out lo sent update out' lo' mail Hin HE
    |now d x out lo mail Hin|now k m x out lo mail Hin Hwt|x out lo mail]; intros [HU HM]; pose proof HU as [HA Hw HS Hstep Hnear];
    try pose proof (proj1 (list.Forall_forall _ _) HM _ Hin) as Hg.
  - destruct (request_sound x _ _ _ _ HA Hw HN) as (asked & anchor & f & k & w & -> & _ & Hall & Hanchor & -> & Hf).
    apply (at_large_moved x lo _ _ _ mail [_]); [by apply under_way_flags|exact (later_refl x lo)|done|].
    constructor; [|done]. exact (posted_request x lo asked anchor HA Hstep Hall Hanchor).
  - destruct (prefetch_sound x lo _ _ HA Hw Hstep Hnear HN) as (h & -> & -> & Hlt & H187 & Hh).
    apply (at_large_moved x lo _ _ _ mail [_]); [by apply waiting_under_way|exact (later_refl x lo)|done|].
    constructor; [|done]. apply (posted_request x lo [] (Some h)); [done..|constructor|]. by intros k [= <-].
  - destruct (answer_any x out lo body sent update out' lo' HS Hstep Hg HE) as (HS' & Hstep' & Hle & Hnew). rewrite app_assoc.
    apply (at_large_moved x lo); [by split|by split_and!|done|exact Hnew].
  - destruct Hg as (i & Hi & Hnr & Hp). destruct (receive_any now x i d HA Hw Hi Hp) as (HA' & Hw' & Hh' & Hst' & Hsl).
    apply (at_large_moved x lo _ _ _ mail []); [|split_and!; (done || lia)|done|done]. split; try done.
    + destruct Hstep as (m & ? & ? & ? & ? & ?). exists m. rewrite Hh'. split_and!; (done || lia).
    + intros j Hj. destruct (Hsl j Hj) as [->|Hj']; [lia|]. specialize (Hnear j Hj'). lia.
  - destruct Hg as (Hk & Hlo & ->). destruct (learn_any now x out lo k HU Hk Hlo) as [HU' HL].
    by apply (at_large_moved x lo _ _ _ mail []).
  - pose proof (stall_stage x out lo HU) as [? ? ? ? ? ?]. destruct (stall_frame x) as (w & m & M & E).
    apply (at_large_moved x lo _ _ _ mail []); [done|rewrite E; exact (later_refl x lo)|done|done].
Qed.
End transfer.

(** ** Theorems on transfers *)

Section theorems.
Context `{R.Bzip2Stream}.

Definition partsOf (sdu : Z) (blob : bytes) : list bytes := R.partOf sdu blob <$> seqZ 0 (R.partCount sdu blob).

(** The advertisement of a resource, as it is unpacked. *)
Definition advertised (mdu : Z) (out : R.Resource) : R.ResourceAdvertisement :=
  let a := R.NewResourceAdvertisement out in
  R.with_hashmap (take (Z.to_nat (R.advertisedEntries mdu a * R.MapHashLen)) (R.a_Hashmap a)) a.

Lemma take_mjoin k (hs : list bytes) :
  Forall (λ h, len h = R.MapHashLen) hs → 0 <= k →
  take (Z.to_nat (Z.min k (len hs) * R.MapHashLen)) (mjoin hs) = mjoin (take (Z.to_nat k) hs).
Proof.
  intros Hall Hk. rewrite <- (take_drop (Z.to_nat k) hs) at 2. rewrite join_app. apply take_app_mid.
  pose proof (R.len_mjoin_map _ (Forall_take _ (Z.to_nat k) _ Hall)) as Hl. rewrite len_take in Hl.
  unfold len at 1 in Hl. rewrite <- (Nat2Z.id (length _)), Hl, Z2Nat.id by lia. done.
Qed.

Lemma advertised_hashmap mdu sdu wire blob encrypt out :
  R.prepared encrypt sdu wire blob out →
  R.a_Hashmap (advertised mdu out)
  = mjoin (take (Z.to_nat (R.hashmapEntriesPerAdvSegment mdu)) (hashes (partsOf sdu blob) (advertised mdu out))).
Proof.
  intros HP. unfold advertised, R.advertisedEntries. simpl. rewrite (R.p_hashmap _ _ _ _ _ HP). simpl.
  pose proof (R.hashmap_entries (R.randomHash out) sdu blob) as HE. pose proof (R.entriesPerSegment_pos mdu).
  rewrite (R.len_mjoin_map _ HE), Z.quot_mul, take_mjoin by (done || lia). f_equal. f_equal.
  unfold hashes, partsOf. simpl. by rewrite <- list_fmap_compose.
Qed.

Lemma entriesPerSegment_max mdu : mdu <= R.DefaultLinkMDU → R.hashmapEntriesPerAdvSegment mdu <= R.HashmapMaxLen.
Proof.
  intros Hm. change R.HashmapMaxLen with 74. unfold R.hashmapEntriesPerAdvSegment, R.DefaultLinkMDU, R.Overhead, R.MapHashLen in *.
  destruct (Z.leb_spec mdu 0); [by vm_compute|].
  destruct (Z.leb_spec ((mdu - 134) `quot` 4) 0); [lia|].
  destruct (Z.le_gt_cases 134 mdu); [rewrite Z.quot_div_nonneg by lia; assert ((mdu - 134) `div` 4 < 75) by (apply Z.div_lt_upper_bound; lia); lia|].
  exfalso. assert ((mdu - 134) `quot` 4 <= 0); [|lia]. rewrite <- (Z.opp_involutive (mdu - 134)), Z.quot_opp_l by lia.
  pose proof (Z.quot_pos (- (mdu - 134)) 4 ltac:(lia) ltac:(lia)). lia.
Qed.

Lemma prepared_serving encrypt sdu wire blob mdu out :
  0 < sdu → R.prepared encrypt sdu wire blob out → serving (partsOf sdu blob) (advertised mdu out) sdu out.
Proof.
  intros Hs HP. split.
  - done.
  - rewrite (R.p_hashmap _ _ _ _ _ HP). f_equal. f_equal. unfold hashes, partsOf. by rewrite <- list_fmap_compose.
  - rewrite (R.p_segments _ _ _ _ _ HP). unfold partsOf, len. rewrite length_fmap, length_seqZ.
    destruct (R.partCount_spec sdu blob Hs). lia.
  - intros i p Hi Hp. unfold partsOf in Hp. rewrite list_lookup_fmap in Hp.
    destruct (seqZ 0 (R.partCount sdu blob) !! Z.to_nat i) as [j|] eqn:Ej; [|done]. apply lookup_seqZ in Ej as [-> Ej].
    injection Hp as <-. rewrite Z2Nat.id by lia. simpl. apply (R.prepared_slice encrypt sdu wire); [done|done|].
    rewrite (R.p_segments _ _ _ _ _ HP). lia.
Qed.

Lemma prepared_distinct encrypt sdu wire blob mdu out :
  0 < sdu → R.prepared encrypt sdu wire blob out → blob ≠ [] →
  NoDup (R.mapHash (R.randomHash out) <$> partsOf sdu blob) →
  distinct (partsOf sdu blob) (advertised mdu out) (R.hashmapEntriesPerAdvSegment mdu).
Proof.
  intros Hs HP Hne Hnd. destruct (R.partCount_spec sdu blob Hs) as [? ?]. split; [done| | |apply R.entriesPerSegment_pos].
  - apply list.Forall_forall. intros p Hp. apply list_elem_of_fmap in Hp as (i & -> & Hi%elem_of_seqZ).
    pose proof (R.len_partOf sdu blob i Hs ltac:(lia)) as Hl. intros E. unfold len in Hl. rewrite E in Hl. simpl in Hl. lia.
  - unfold partsOf. unfold len. rewrite length_fmap, length_seqZ.
    pose proof (R.p_bound _ _ _ _ _ HP). assert (0 < len blob) by (destruct blob; [done|rewrite len_cons; pose proof (len_nonneg blob); lia]).
    nia.
Qed.

Lemma stage_under_way parts a n sdu x out lo : stage parts a n sdu x out lo → under_way parts a n sdu x out lo.
Proof. intros []. by split. Qed.

Lemma disturbed_rtc parts a n mdu sdu s s' :
  distinct parts a n → n = R.hashmapEntriesPerAdvSegment mdu → len (R.a_Hash a) = 32 → n <= R.HashmapMaxLen →
  rtc (disturbed mdu sdu) s s' → at_large parts a n sdu s → at_large parts a n sdu s'.
Proof.
  intros D Hn Hh Hmax Hrun. induction Hrun as [|s1 s2 s3 Hstep _ IH]; [done|].
  intros HU. apply IH. by eapply disturbed_at_large.
Qed.

End theorems.

(** Six bytes in parts of four. *)
Definition demo_out : R.Resource := (R.PrepareOutboundForLink R.demo_env.1 R.demo_env.2 4 R.demo_resource).1.
Definition demo_rx : incomingResourceAsm := newIncoming 0 R.DefaultLinkMDU 0 (advertised R.DefaultLinkMDU demo_out).

Definition demo_state : incomingResourceAsm * R.Resource * Z := (demo_rx, demo_out, 0).
Definition demo_blob : bytes := [x01; x02; x03; x04; x68; x69].

Lemma prepare_prepared encrypt rand sdu r s wire blob out :
  R.PrepareOutboundForLink encrypt rand sdu r = (out, Ok ()) → R.source r = Some s → R.outboundCipher out = Some blob →
  R.segmentOf (R.startIndex (R.packedMeta r ++ s) r) (R.packedMeta r ++ s) = wire → R.prepared encrypt sdu wire blob out.
Proof.
  intros HW Hs Hb <-. pose proof (R.prepare_wp encrypt rand sdu r s Hs) as HR. cbv zeta in HR. unfold wp in HR.
  rewrite HW in HR. cbn [fst snd] in HR. destruct (HR eq_refl) as [HY _]. destruct (R.y_prepared _ _ _ _ _ _ _ HY) as [c HP].
  pose proof (R.p_cipher _ _ _ _ _ HP) as Hc. rewrite Hb in Hc. by injection Hc as <-.
Qed.

Lemma demo_prepare : R.PrepareOutboundForLink R.demo_env.1 R.demo_env.2 4 R.demo_resource = (demo_out, Ok ()).
Proof.
  assert (HO : (R.PrepareOutboundForLink R.demo_env.1 R.demo_env.2 4 R.demo_resource).2 = Ok ()) by by lazy.
  unfold demo_out. destruct (R.PrepareOutboundForLink _ _ _ _) as [r o]. cbn [fst snd] in *. by rewrite HO.
Qed.

Lemma demo_prepared : R.prepared R.demo_env.1 4 [x68; x69] demo_blob demo_out.
Proof.
  apply (prepare_prepared R.demo_env.1 R.demo_env.2 4 R.demo_resource [x68; x69]); [exact demo_prepare|by vm_compute..].
Qed.

Lemma demo_nodup : NoDup (R.mapHash (R.randomHash demo_out) <$> partsOf 4 demo_blob).
Proof. apply (bool_decide_unpack _). by vm_compute. Qed.


(** ** Well-formed transfers

    What holds of an incoming transfer whatever the peer sends: the tables have
    the advertised length, every index they hold is inside them, and the window
    stays within its bounds. *)

Definition known {A} (l : list (option A)) : Z := len (filter (λ s, s ≠ None) l).

Record rx_ok (x : incomingResourceAsm) : Prop := {
  w_parts : 0 < totalParts x <= R.MaxSegments;
  w_slots : len (partSlots x) = totalParts x;
  w_hashes : len (mapHashes x) = totalParts x;
  w_flags : len (inflight x) = totalParts x;
  w_data : Forall (λ s, s ≠ Some []) (partSlots x);
  w_prefix : consecutiveCompleted x = consecutivePrefix (partSlots x);
  w_height : hashmapHeight x = known (mapHashes x);
  w_entry : ∀ i h, slot (mapHashes x) i = Some h → len h = R.MapHashLen;
  w_index : ∀ h l i, hashIndex x !! h = Some l → i ∈ l → 0 <= i < totalParts x;
  w_window : window_ok x;
  w_out : 0 <= outstandingParts x
}.

Lemma known_insert {A} (l : list (option A)) i a :
  0 <= i < len l → known (<[Z.to_nat i := Some a]> l) = known l + (match slot l i with None => 1 | Some _ => 0 end).
Proof.
  intros Hi. unfold known, slot. destruct (Z.ltb_spec i 0); [lia|]. unfold len in Hi.
  assert (Hn : (Z.to_nat i < length l)%nat) by lia. generalize (Z.to_nat i), Hn. clear. intros n. revert l.
  induction n as [|n IH]; intros [|s l] Hn; simpl in *; try lia.
  - destruct s as [b|]; simpl; [rewrite !filter_cons_True by done; rewrite !len_cons; lia|].
    rewrite filter_cons_True, filter_cons_False, len_cons by (done || naive_solver). lia.
  - rewrite !filter_cons. specialize (IH l ltac:(lia)). destruct (decide (s ≠ None)); rewrite ?len_cons; lia.
Qed.

Lemma known_le {A} (l : list (option A)) : 0 <= known l <= len l.
Proof. unfold known, len. pose proof (length_filter (λ s : option A, s ≠ None) l). lia. Qed.

Lemma len_entries m h : h ∈ entries m → len h = R.MapHashLen.
Proof.
  unfold entries. intros (i & -> & Hi%elem_of_seqZ)%list_elem_of_fmap. unfold R.mapEntry, R.MapHashLen in *.
  pose proof (len_nonneg m). rewrite Z.quot_div_nonneg in Hi by lia. pose proof (Z.mul_div_le (len m) 4 ltac:(lia)).
  rewrite len_slice by lia. lia.
Qed.

Lemma applyHashes_ok hs : ∀ idx x n,
  Forall (λ h, len h = R.MapHashLen) hs → rx_ok x → rx_ok (applyHashes idx hs x n).1.
Proof.
  induction hs as [|h hs IH]; intros idx x n Hall Hx; simpl; [done|].
  destruct ((MaxInt <? idx) || (idx <? 0) || (totalParts x <=? idx)) eqn:E; [done|].
  rewrite !orb_false_iff, !Z.ltb_ge, Z.leb_gt in E. destruct E as [[_ H0] Hlt].
  apply IH; [by apply Forall_inv_tail in Hall|]. apply Forall_inv in Hall. destruct Hx as [? ? Hh ? ? ? Hk He Hi ? ?].
  split; simpl; try done.
  - unfold len. rewrite length_insert. done.
  - rewrite known_insert by lia. lia.
  - intros i h'. destruct (decide (i = idx)) as [->|Hne].
    + rewrite slot_insert by lia. by intros [= <-].
    + destruct (Z.lt_ge_cases i 0) as [Hneg|Hpos]; [by unfold slot; destruct (Z.ltb_spec i 0); [|lia]|].
      rewrite slot_insert_ne by lia. apply He.
  - unfold indexMapHash. intros h' l i. destruct (len h =? R.MapHashLen); [|apply Hi].
    case_bool_decide; [apply Hi|]. destruct (decide (h' = h)) as [->|Hne].
    + rewrite lookup_insert_eq. intros [= <-] [Hin|Hin%list_elem_of_singleton]%elem_of_app; [|lia].
      destruct (hashIndex x !! h) as [l|] eqn:El; [by eapply Hi|by apply elem_of_nil in Hin].
    + rewrite lookup_insert_ne by done. apply Hi.
Qed.

Lemma applyHashmapSegment_ok k m x : rx_ok x → rx_ok (applyHashmapSegment k m x).1.
Proof.
  intros Hx. unfold applyHashmapSegment. repeat (case_match; [done|]). 
  apply applyHashes_ok; [|done]. apply list.Forall_forall. intros h. apply len_entries.
Qed.

Lemma learn_ok now x u : rx_ok x → rx_ok (learn now x u).
Proof.
  intros Hx. destruct u as [[k m]|]; [|done]. simpl. pose proof (applyHashmapSegment_ok k m x Hx) as [].
  by split.
Qed.

Lemma lookupMapHash_range mh lo hi x i : lookupMapHash mh lo hi x = Some i → lo <= i < hi ∧ slot (partSlots x) i = None.
Proof.
  unfold lookupMapHash. destruct (negb _); [done|]. intros HF%List.find_some.
  destruct HF as [_ [Hr Hn%bool_decide_eq_true]%andb_true_iff]. rewrite negb_true_iff, orb_false_iff, Z.ltb_ge, Z.leb_gt in Hr. lia || done.
Qed.
Lemma scanMapHash_range mh lo hi x i : scanMapHash mh lo hi x = Some i → lo <= i < hi ∧ slot (partSlots x) i = None.
Proof. unfold scanMapHash. intros [Hr Hp]%findIndex_Some. apply andb_true_iff in Hp as [Hp%bool_decide_eq_true _]. done. Qed.

Lemma windowStart_nonneg x : 0 <= windowStart x.
Proof. unfold windowStart. lia. Qed.

(** A part is stored in an empty slot of the table. *)
Lemma findPart_range mh x i : findPart mh x = Some i → 0 <= i < totalParts x ∧ slot (partSlots x) i = None.
Proof.
  unfold findPart. pose proof (windowStart_nonneg x).
  destruct (lookupMapHash _ _ _ _) eqn:E1; [intros [= <-]; apply lookupMapHash_range in E1; split; [lia|apply E1]|].
  destruct (scanMapHash _ _ _ _) eqn:E2; [intros [= <-]; apply scanMapHash_range in E2; split; [lia|apply E2]|].
  destruct (lookupMapHash _ _ (Z.min (windowStart x + R.CollisionGuardSize) _) _) eqn:E3;
    [intros [= <-]; apply lookupMapHash_range in E3; split; [lia|apply E3]|].
  intros E4%scanMapHash_range. split; [lia|apply E4].
Qed.

Lemma takePart_ok now d x x' : d ≠ [] → rx_ok x → takePart now d x = Some x' → rx_ok x'.
Proof.
  intros Hd Hx. unfold takePart. destruct (findPart _ x) as [i|] eqn:E; [|done]. intros [= <-].
  apply findPart_range in E as [Hi _]. destruct Hx. split; simpl; try done.
  - unfold len. by rewrite length_insert.
  - unfold len. by rewrite length_insert.
  - apply Forall_insert; [done|]. congruence.
  - destruct (Z.ltb_spec 0 (outstandingParts x)); lia.
Qed.

Lemma set_window_ok w m M x : rx_ok x → window_ok (set_window w m M x) → rx_ok (set_window w m M x).
Proof. intros [] Hw. by split. Qed.

Lemma afterPart_ok x : rx_ok x → rx_ok (afterPart x).2.
Proof.
  intros Hx. destruct (after_frame x) as (w & m & E & Hw). rewrite E in *. apply set_window_ok; [done|]. apply Hw, Hx.
Qed.

Lemma flags_len (b : bool) pns : ∀ f : list bool, len (foldl (λ f pn, <[Z.to_nat pn := b]> f) f pns) = len f.
Proof. induction pns as [|pn pns IH]; intros f; simpl; [done|]. rewrite IH. unfold len. by rewrite length_insert. Qed.

Lemma set_inflight_ok f n x : rx_ok x → len f = len (inflight x) → 0 <= n → rx_ok (set_inflight f n x).
Proof. intros [] Hf Hn. split; simpl; try done. lia. Qed.
Lemma set_waiting_ok b x : rx_ok x → rx_ok (set_waiting b x).
Proof. intros []. by split. Qed.
Lemma set_request_ok q x : rx_ok x → rx_ok (set_request q x).
Proof. intros []. by split. Qed.

Lemma nextRequest_ok x body pns ex x' : rx_ok x → nextRequest x = Ok (Some (body, pns, ex, x')) → rx_ok x'.
Proof.
  intros Hx. unfold nextRequest. do 3 (case_match; [done|]). destruct (collectParts _ _ _ _) as [acc exh]. case_match; [done|].
  assert (Hgo : ∀ y asked, rx_ok y → rx_ok (set_inflight (foldl (λ f pn, <[Z.to_nat pn := true]> f) (inflight y) (asked : list (Z * bytes)).*1)
            (outstandingParts y + len asked) y)).
  { intros y asked Hy. apply set_inflight_ok; [done|apply flags_len|]. pose proof (w_out y Hy). pose proof (len_nonneg asked). lia. }
  destruct exh.
  - destruct (lastMapHash x) as [h|e|]; simpl; [|done|done]. intros [= _ _ _ <-]. apply (Hgo (set_waiting true x)). by apply set_waiting_ok.
  - simpl. intros [= _ _ _ <-]. by apply Hgo.
Qed.

Lemma unrequest_ok pns ex x : rx_ok x → rx_ok (unrequest pns ex x).
Proof.
  intros Hx. unfold unrequest.
  assert (Hy : rx_ok (set_inflight (foldl (λ f pn, <[Z.to_nat pn := false]> f) (inflight x) pns)
                 (if outstandingParts x - len pns <? 0 then 0 else outstandingParts x - len pns) x)).
  { apply set_inflight_ok; [done|apply flags_len|]. case_match; lia. }
  destruct ex; [by apply set_waiting_ok|done].
Qed.

Lemma prefetchRequest_ok x body x' : rx_ok x → prefetchRequest x = Ok (Some (body, x')) → rx_ok x'.
Proof.
  intros Hx. unfold prefetchRequest. case_match; [done|]. destruct (lastMapHash x); simpl; [|done|done].
  intros [= _ <-]. by apply set_waiting_ok.
Qed.

Lemma stallIncoming_ok x : rx_ok x → rx_ok (stallIncoming x).
Proof.
  intros Hx. pose proof (stall_ok x (w_window x Hx)) as Hw. destruct (stall_frame x) as (w & m & M & E). rewrite E in *.
  apply set_window_ok; [|done].
  assert (H1 : rx_ok (set_inflight (replicate (length (inflight x)) false) 0 (set_waiting false x))).
  { apply set_inflight_ok; [by apply set_waiting_ok|unfold len; by rewrite length_replicate|done]. }
  destruct H1. by split.
Qed.

Lemma applyHashes_bounds hs : ∀ idx x n,
  windowMin (applyHashes idx hs x n).1 = windowMin x ∧ windowMax (applyHashes idx hs x n).1 = windowMax x.
Proof. induction hs as [|h hs IH]; intros idx x n; simpl; [done|]. case_match; [done|]. 
  match goal with |- context [applyHashes ?i hs ?y ?m] => destruct (IH i y m) as [-> ->] end. done.
Qed.
Lemma apply_bounds k m x :
  windowMin (applyHashmapSegment k m x).1 = windowMin x ∧ windowMax (applyHashmapSegment k m x).1 = windowMax x.
Proof. unfold applyHashmapSegment. repeat (case_match; [done|]). apply applyHashes_bounds. Qed.

Lemma filter_replicate_none {A} n : filter (λ s : option A, s ≠ None) (replicate n None) = [].
Proof. induction n as [|n IH]; [done|]. simpl. rewrite filter_cons_False by naive_solver. done. Qed.

Lemma newIncoming_ok now mdu last sdu admitted a :
  checkAdvertisement sdu admitted a = Ok () → rx_ok (newIncoming now mdu last a).
Proof.
  intros HC. assert (Hparts : 0 < R.a_Parts a <= R.MaxSegments).
  { unfold checkAdvertisement, check in HC. repeat (case_match; simpl in HC; try done).
    rewrite ?negb_true_iff, ?Z.leb_gt, ?Z.ltb_ge in *. lia. }
  unfold newIncoming. set (x := mkRx _ _ _ _ _ _ _ _ _ _ _ _ _ _ _ _ _).
  assert (Hx : rx_ok x).
  { assert (Hl : ∀ A (v : A), len (replicate (Z.to_nat (R.a_Parts a)) v) = R.a_Parts a) by (intros; unfold len; rewrite length_replicate; lia).
    split; simpl; rewrite ?Hl; try done.
    - by apply Forall_replicate.
    - destruct (Z.to_nat _) eqn:E; [lia|done].
    - unfold known. by rewrite filter_replicate_none.
    - intros i h. unfold slot. case_match; [done|]. intros HS. destruct (replicate _ _ !! _) as [o|] eqn:E; simpl in HS; [|done].
      apply lookup_replicate in E as [-> _]. done. }
  apply (applyHashmapSegment_ok 0 (R.a_Hashmap a)) in Hx. apply set_window_ok; [done|].
  assert (Hw : R.WindowMin <= startIncomingWindow last R.WindowMin R.WindowMaxFast R.WindowMaxSlow <= R.WindowMaxFast).
  { unfold startIncomingWindow, R.WindowMin, R.WindowMaxFast, R.WindowMaxSlow. repeat case_match; lia. }
  destruct (apply_bounds 0 (R.a_Hashmap a) x) as [E1 E2]. unfold window_ok. simpl. rewrite E1, E2. simpl. lia.
Qed.

End Rx.
