(* ===== verification/SplitResource.v ===== *)
(** * Split resources

    [pkg/link/split_resource.go] and [pkg/common/membudget.go]: the segments of a
    split resource are staged, in memory or in files, until the last one has
    arrived.  The tables and the memory budget are shared by all links of the
    process; the file system is a map from paths to contents whose operations may
    fail. *)

From S2P Require Import Prelude.
From S2P Require Import Sha256.
From S2P Require Import Resource.

Module Split.
Module R := Resource.
Local Open Scope go_scope.

Definition maxSplitAssembliesPerLink : Z := 4.
Definition maxSplitAssembliesTotal : Z := 1024.
Definition maxSplitAssemblyBytes : Z := Z.shiftl 1 30.
Definition DefaultMaxInMemoryResourceBytes : Z := Z.shiftl 256 20.

(** The value of a [map[string]any] variable after [msgpack.Unmarshal] into it;
    [None] is a nil map. *)
Class MetaCodec := {
  Metadata : Type;
  unmarshalMeta : bytes → option Metadata
}.

Inductive split_error :=
  | MissingOriginalHash | AssemblyLimit | PerLinkLimit | BeginsAt (i : Z) | OutOfOrder (i want : Z)
  | SegmentCountChanged (n n' : Z) | ExceedsLimit (n : Z) | MetaTooShort | MetaSizeInvalid | BudgetExceeded
  | DiskFailed.

(** ** The memory budget *)

Record MemoryBudget := mkBudget { used : Z; limit : Z }.

Definition SetLimit (n : Z) (b : MemoryBudget) : MemoryBudget := mkBudget (used b) n.
Definition TryReserve (n : Z) (b : MemoryBudget) : option MemoryBudget :=
  if n <=? 0 then Some b
  else if (0 <? limit b) && (limit b - n <? used b) then None
  else Some (mkBudget (used b + n) (limit b)).
Definition Release (n : Z) (b : MemoryBudget) : MemoryBudget :=
  if n <=? 0 then b else mkBudget (Z.max (used b - n) 0) (limit b).

(** ** State *)

Record splitAsm := mkAsm {
  nextIndex : Z;
  declaredSegs : Z;
  declaredSize : Z;
  written : Z;
  origHash : bytes
}.

(** What becomes of a file operation. *)
Inductive fault := Works | Refused | Partial (n : nat).

Record Store := mkStore {
  splitResourceBudget : MemoryBudget;
  splitResourceMem : gmap bytes bytes;
  splitResourceMetaMem : gmap bytes bytes;
  splitAssemblies : gmap bytes splitAsm;
  files : gmap bytes bytes;
  faults : list fault
}.
Definition set_budget (v : MemoryBudget) (s : Store) : Store :=
  mkStore v (splitResourceMem s) (splitResourceMetaMem s) (splitAssemblies s) (files s) (faults s).
Definition set_mem (v : gmap bytes bytes) (s : Store) : Store :=
  mkStore (splitResourceBudget s) v (splitResourceMetaMem s) (splitAssemblies s) (files s) (faults s).
Definition set_metaMem (v : gmap bytes bytes) (s : Store) : Store :=
  mkStore (splitResourceBudget s) (splitResourceMem s) v (splitAssemblies s) (files s) (faults s).
Definition set_assemblies (v : gmap bytes splitAsm) (s : Store) : Store :=
  mkStore (splitResourceBudget s) (splitResourceMem s) (splitResourceMetaMem s) v (files s) (faults s).
Definition set_files (v : gmap bytes bytes) (f : list fault) (s : Store) : Store :=
  mkStore (splitResourceBudget s) (splitResourceMem s) (splitResourceMetaMem s) (splitAssemblies s) v f.

(** What a link takes from its configuration: where to stage, the directory and
    whether the application has a callback. *)
Record Config := mkConfig {
  InMemoryStorage : bool;
  ConfigPath : bytes;
  storageEnv : bool;
  MaxInMemoryResourceBytes : Z
}.
Record Conf := mkConf {
  config : option Config;
  storageDir : bytes;
  linkID : bytes;
  concludedCallback : bool
}.

Definition UseInMemoryStorage (c : Config) : bool :=
  InMemoryStorage c || (bool_decide (ConfigPath c = []) && negb (storageEnv c)).
Definition EffectiveMaxInMemoryResourceBytes (c : Config) : Z :=
  if negb (InMemoryStorage c) then 0
  else if MaxInMemoryResourceBytes c <? 0 then 0
  else if MaxInMemoryResourceBytes c =? 0 then DefaultMaxInMemoryResourceBytes
  else MaxInMemoryResourceBytes c.

Definition useInMemoryResources (l : Conf) : bool :=
  match config l with None => true | Some c => InMemoryStorage c || UseInMemoryStorage c end.
Definition budgetLimit (l : Conf) : Z :=
  match config l with None => 0 | Some c => EffectiveMaxInMemoryResourceBytes c end.

(** Staging ends in a hand-over: a request to serve, the answer to a pending
    request, or a resource for the application. *)
Inductive delivery `{MetaCodec} :=
  | Requested (data : bytes)
  | Answered (pending : nat) (data : bytes) (metadata : option Metadata)
  | Concluded (data : bytes) (metadata : option Metadata) (hash : bytes).

(** ** Keys and paths *)

Definition hexDigit (z : Z) : byte := if z <? 10 then z2b (48 + z) else z2b (87 + z).
Definition hexEncode (b : bytes) : bytes := b ≫= λ c, [hexDigit (b2z c `div` 16); hexDigit (b2z c `mod` 16)].

Definition colon : byte := x3a.
Definition splitResourceKey (l : Conf) (originalHash : bytes) : bytes :=
  hexEncode (linkID l) ++ [colon] ++ hexEncode originalHash.
(** [filepath.Join] of a clean directory and a name. *)
Definition joinPath (dir name : bytes) : bytes := dir ++ [x2f] ++ name.
Definition metaSuffix : bytes := [x2e; x6d; x65; x74; x61].
Definition resourceStoragePath (l : Conf) (originalHash : bytes) : bytes :=
  joinPath (storageDir l) (hexEncode (linkID l) ++ [x2d] ++ hexEncode originalHash).

(** ** Operations *)

Notation M := (goM Store split_error).

(** [l.resourceBudget()] sets the limit of the shared budget. *)
Definition resourceBudget (l : Conf) (s : Store) : Store := set_budget (SetLimit (budgetLimit l) (splitResourceBudget s)) s.
Definition reserve (l : Conf) (n : Z) : M () :=
  modify (resourceBudget l) ;;
  s ← mget;
  match TryReserve n (splitResourceBudget s) with
  | Some b => modify (set_budget b)
  | None => fail BudgetExceeded
  end.
Definition release (n : Z) (s : Store) : Store := set_budget (Release n (splitResourceBudget s)) s.

Definition insertAsm (key : bytes) (a : splitAsm) (s : Store) : Store := set_assemblies (<[key := a]> (splitAssemblies s)) s.

(** The assembly of a key, a new one at the first segment. *)
Definition openAssembly (key : bytes) (adv : R.ResourceAdvertisement) : M splitAsm :=
  s ← mget;
  match splitAssemblies s !! key with
  | Some asm =>
      if R.a_SegmentIndex adv =? 1 then
        let asm := mkAsm 1 (R.a_TotalSegments adv) (R.a_DataSize adv) 0 (origHash asm) in
        modify (insertAsm key asm) ;; mret asm
      else mret asm
  | None =>
      guard_go (Z.of_nat (size (splitAssemblies s)) <? maxSplitAssembliesTotal) AssemblyLimit ;;
      let prefix := take (length key - length (hexEncode (R.a_OriginalHash adv))) key in
      let count := size (filter (λ kv : bytes * splitAsm, prefix `prefix_of` kv.1) (splitAssemblies s)) in
      guard_go (Z.of_nat count <? maxSplitAssembliesPerLink) PerLinkLimit ;;
      guard_go (R.a_SegmentIndex adv =? 1) (BeginsAt (R.a_SegmentIndex adv)) ;;
      let asm := mkAsm 1 (R.a_TotalSegments adv) (R.a_DataSize adv) 0 (R.a_OriginalHash adv) in
      modify (insertAsm key asm) ;; mret asm
  end.

Definition stagedLimit (asm : splitAsm) : Z :=
  Z.min (Z.max (declaredSegs asm * R.MaxEfficientSize) (declaredSize asm)) maxSplitAssemblyBytes.

Definition admitSplitSegment (key : bytes) (adv : R.ResourceAdvertisement) (payloadLen : Z) : M () :=
  asm ← openAssembly key adv;
  guard_go (R.a_SegmentIndex adv =? nextIndex asm) (OutOfOrder (R.a_SegmentIndex adv) (nextIndex asm)) ;;
  guard_go (R.a_TotalSegments adv =? declaredSegs asm) (SegmentCountChanged (declaredSegs asm) (R.a_TotalSegments adv)) ;;
  guard_go (negb (stagedLimit asm <? written asm + payloadLen)) (ExceedsLimit (stagedLimit asm)) ;;
  modify (insertAsm key (mkAsm (u16 (nextIndex asm + 1)) (declaredSegs asm) (declaredSize asm)
                           (written asm + payloadLen) (origHash asm))).

Definition finishSplitAssembly (key : bytes) (s : Store) : Store := set_assemblies (delete key (splitAssemblies s)) s.

(** The metadata region at the start of the first segment. *)
Definition metaSize (payload : bytes) : Z := be_decode (take 3 payload).
Definition metaRegion (payload : bytes) : outcome split_error (bytes * bytes) :=
  if len payload <? 3 then Err MetaTooShort
  else if len payload <? 3 + metaSize payload then Err MetaSizeInvalid
  else Ok (slice 3 (3 + metaSize payload) payload, drop (Z.to_nat (3 + metaSize payload)) payload).

(** What an earlier attempt left in memory is discarded. *)
Definition discardStaged (l : Conf) (key : bytes) (s : Store) : Store :=
  let s := match splitResourceMem s !! key with
           | Some buf => set_mem (<[key := []]> (splitResourceMem s)) (release (len buf) (resourceBudget l s))
           | None => s
           end in
  match splitResourceMetaMem s !! key with
  | Some prev => set_metaMem (delete key (splitResourceMetaMem s)) (release (len prev) (resourceBudget l s))
  | None => s
  end.

Definition stageMeta (l : Conf) (key meta : bytes) : M () :=
  reserve l (len meta) ;;
  modify (λ s,
    let s := match splitResourceMetaMem s !! key with Some prev => release (len prev) (resourceBudget l s) | None => s end in
    set_metaMem (<[key := meta]> (splitResourceMetaMem s)) s).

Section handlers.
Context `{MetaCodec}.

(** The hand-over of a completed resource. *)
Definition conclude (l : Conf) (adv : R.ResourceAdvertisement) (pending : option nat) (data : bytes)
    (metadata : option Metadata) : option delivery :=
  if R.a_IsRequest adv then Some (Requested data)
  else
    match pending with
    | Some p => Some (Answered p data metadata)
    | None => if concludedCallback l then Some (Concluded data metadata (R.a_OriginalHash adv)) else None
    end.

(** The bytes of a segment are appended, and handed over after the last one. *)
Definition stageInMemory (l : Conf) (key fileBytes : bytes) (adv : R.ResourceAdvertisement) (pending : option nat)
    : M (option delivery) :=
  reserve l (len fileBytes) ;;
  modify (λ s, set_mem (<[key := default [] (splitResourceMem s !! key) ++ fileBytes]> (splitResourceMem s)) s) ;;
  if R.a_SegmentIndex adv <? R.a_TotalSegments adv then mret None
  else
    s ← mget;
    let data := default [] (splitResourceMem s !! key) in
    let metaRaw := default [] (splitResourceMetaMem s !! key) in
    modify (λ s, set_metaMem (delete key (splitResourceMetaMem s)) (set_mem (delete key (splitResourceMem s)) s)) ;;
    modify (finishSplitAssembly key) ;;
    modify (λ s, release (len data) (resourceBudget l s)) ;;
    (if 0 <? len metaRaw then modify (λ s, release (len metaRaw) (resourceBudget l s)) else mret ()) ;;
    mret (conclude l adv pending data (if 0 <? len metaRaw then unmarshalMeta metaRaw else None)).

Definition handleSplitSegmentInMemory (l : Conf) (payload : bytes) (adv : R.ResourceAdvertisement)
    (pending : option nat) : M (option delivery) :=
  let key := splitResourceKey l (R.a_OriginalHash adv) in
  (if R.a_SegmentIndex adv =? 1 then modify (discardStaged l key) else mret ()) ;;
  fileBytes ← (if R.a_HasMetadata adv && (R.a_SegmentIndex adv =? 1) then
                 '(meta, body) ← lift (metaRegion payload);
                 stageMeta l key meta ;; mret body
               else mret payload);
  stageInMemory l key fileBytes adv pending.

(** *** Files *)

Definition fileOp : M fault :=
  s ← mget;
  match faults s with
  | [] => mret Works
  | f :: _ => modify (λ s, set_files (files s) (tail (faults s)) s) ;; mret f
  end.
Definition onFiles (f : gmap bytes bytes → gmap bytes bytes) : M () := modify (λ s, set_files (f (files s)) (faults s) s).

Definition mkdirAll : M () := f ← fileOp; match f with Works => mret () | _ => fail DiskFailed end.
(** [os.Remove], its error ignored. *)
Definition remove (path : bytes) : M () := f ← fileOp; match f with Works => onFiles (delete path) | _ => mret () end.
Definition writeFile (path data : bytes) : M () :=
  f ← fileOp;
  match f with
  | Works => onFiles (<[path := data]>)
  | Refused => fail DiskFailed
  | Partial n => onFiles (<[path := take n data]>) ;; fail DiskFailed
  end.
(** [os.OpenFile] with O_CREATE and either O_TRUNC or O_APPEND. *)
Definition openFile (path : bytes) (trunc : bool) : M () :=
  f ← fileOp;
  match f with
  | Works => onFiles (λ m, <[path := if trunc then [] else default [] (m !! path)]> m)
  | _ => fail DiskFailed
  end.
Definition appendFile (path data : bytes) : M () :=
  f ← fileOp;
  match f with
  | Works => onFiles (λ m, <[path := default [] (m !! path) ++ data]> m)
  | Refused => fail DiskFailed
  | Partial n => onFiles (λ m, <[path := default [] (m !! path) ++ take n data]> m) ;; fail DiskFailed
  end.
Definition readFile (path : bytes) : M (option bytes) :=
  f ← fileOp;
  s ← mget;
  mret (match f with Works => files s !! path | _ => None end).

Definition handleSplitSegmentOnDisk (l : Conf) (payload : bytes) (adv : R.ResourceAdvertisement)
    (pending : option nat) : M (option delivery) :=
  mkdirAll ;;
  let path := resourceStoragePath l (R.a_OriginalHash adv) in
  let metaPath := path ++ metaSuffix in
  let first := R.a_SegmentIndex adv =? 1 in
  (if first then remove metaPath else mret ()) ;;
  fileBytes ← (if R.a_HasMetadata adv && first then
                 '(meta, body) ← lift (metaRegion payload);
                 writeFile metaPath meta ;; mret body
               else mret payload);
  openFile path first ;;
  appendFile path fileBytes ;;
  if R.a_SegmentIndex adv <? R.a_TotalSegments adv then mret None
  else
    r ← readFile path;
    match r with
    | None => fail DiskFailed
    | Some data =>
        b ← readFile metaPath;
        (match b with Some _ => remove metaPath | None => mret () end) ;;
        remove path ;;
        modify (finishSplitAssembly (splitResourceKey l (R.a_OriginalHash adv))) ;;
        mret (conclude l adv pending data (b ≫= unmarshalMeta))
    end.

(** A segment whose payload has been assembled and verified. *)
Definition handleSplitSegmentComplete (l : Conf) (payload : bytes) (adv : R.ResourceAdvertisement)
    (pending : option nat) : M (option delivery) :=
  guard_go (0 <? len (R.a_OriginalHash adv)) MissingOriginalHash ;;
  admitSplitSegment (splitResourceKey l (R.a_OriginalHash adv)) adv (len payload) ;;
  if useInMemoryResources l then handleSplitSegmentInMemory l payload adv pending
  else handleSplitSegmentOnDisk l payload adv pending.
End handlers.

(** One staged assembly given up when its link closes. *)
Definition dropAssembly (key : bytes) (s : Store) : Store :=
  let s := set_assemblies (delete key (splitAssemblies s)) s in
  let s := match splitResourceMem s !! key with
           | Some buf => set_mem (delete key (splitResourceMem s)) (release (len buf) s)
           | None => s
           end in
  match splitResourceMetaMem s !! key with
  | Some (x :: r) => set_metaMem (delete key (splitResourceMetaMem s)) (release (len (x :: r)) s)
  | _ => s
  end.

Definition dropPrefix (l : Conf) : bytes :=
  match linkID l with [] => [] | id => hexEncode id ++ [colon] end.

Definition dropSplitAssemblies (l : Conf) : M () :=
  s ← mget;
  let dropped := map_to_list (filter (λ kv : bytes * splitAsm, dropPrefix l `prefix_of` kv.1) (splitAssemblies s)) in
  modify (λ s, foldl (λ s kv, dropAssembly kv.1 s) s dropped) ;;
  foldl (λ m kv, m ;;
           let path := joinPath (storageDir l) (hexEncode (origHash kv.2)) in
           remove path ;; remove (path ++ metaSuffix)) (mret ()) dropped.

(** ** Accounting *)

Definition total (m : gmap bytes bytes) : Z := map_fold (λ _ b n, len b + n) 0 m.

Lemma total_insert_fresh k b m : m !! k = None → total (<[k := b]> m) = len b + total m.
Proof. intros Hk. unfold total. apply (map_fold_insert_L (λ (_ b : bytes) (n : Z), len b + n)); [intros; lia|done]. Qed.

Lemma total_delete k b m : m !! k = Some b → total m = len b + total (delete k m).
Proof.
  intros Hk. rewrite <- (insert_delete_id m k b Hk) at 1. apply total_insert_fresh, lookup_delete_eq.
Qed.

Lemma total_delete_default k m : total (delete k m) = total m - len (default [] (m !! k)).
Proof.
  destruct (m !! k) as [b|] eqn:E; simpl; [rewrite (total_delete k b m E); lia|].
  rewrite delete_id by done. rewrite len_nil. lia.
Qed.

Lemma total_insert k b m : total (<[k := b]> m) = total m - len (default [] (m !! k)) + len b.
Proof.
  rewrite <- insert_delete_eq, total_insert_fresh, total_delete_default by apply lookup_delete_eq. lia.
Qed.

Lemma total_nonneg m : 0 <= total m.
Proof. unfold total. apply (map_fold_weak_ind (λ n _, 0 <= n)); [done|]. intros k b _ n _ Hn. pose proof (len_nonneg b). lia. Qed.

Lemma total_lookup k m : len (default [] (m !! k)) <= total m.
Proof. pose proof (total_nonneg (delete k m)). rewrite total_delete_default in *. lia. Qed.

Lemma total_change k m m' :
  (∀ k', k' ≠ k → m' !! k' = m !! k') →
  total m' = total m - len (default [] (m !! k)) + len (default [] (m' !! k)).
Proof.
  intros Hne. assert (E : delete k m' = delete k m).
  { apply map_eq. intros k'. destruct (decide (k' = k)) as [->|Hk]; [by rewrite !lookup_delete_eq|].
    rewrite !lookup_delete_ne by done. by apply Hne. }
  pose proof (total_delete_default k m') as H1. rewrite E, total_delete_default in H1. lia.
Qed.

(** The bytes staged in memory, for all keys and for one. *)
Definition staged (s : Store) : Z := total (splitResourceMem s) + total (splitResourceMetaMem s).
Definition weight (k : bytes) (s : Store) : Z :=
  len (default [] (splitResourceMem s !! k)) + len (default [] (splitResourceMetaMem s !! k)).

Lemma weight_nonneg k s : 0 <= weight k s.
Proof. unfold weight. pose proof (len_nonneg (default [] (splitResourceMem s !! k))). pose proof (len_nonneg (default [] (splitResourceMetaMem s !! k))). lia. Qed.

Definition perLink (p : bytes) (m : gmap bytes splitAsm) : Z :=
  Z.of_nat (size (filter (λ kv : bytes * splitAsm, p `prefix_of` kv.1) m)).

(** The bytes of an assembly are bounded by what was admitted of it, unless the
    sender has been refused a restart. *)
Definition assembly_ok (s : Store) (k : bytes) (a : splitAsm) : Prop :=
  0 <= written a <= maxSplitAssemblyBytes ∧ weight k s <= maxSplitAssemblyBytes
  ∧ (nextIndex a = 1 ∨ weight k s <= written a).

(** What holds of the shared tables between operations of links with one
    configuration. *)
Record staging_ok (lim : Z) (s : Store) : Prop := {
  i_used : used (splitResourceBudget s) = staged s;
  i_limit : 0 < lim → staged s <= lim;
  i_total : Z.of_nat (size (splitAssemblies s)) <= maxSplitAssembliesTotal;
  i_link : ∀ id, perLink (hexEncode id ++ [colon]) (splitAssemblies s) <= maxSplitAssembliesPerLink;
  i_key : ∀ k, splitAssemblies s !! k = None → splitResourceMem s !! k = None ∧ default [] (splitResourceMetaMem s !! k) = [];
  i_asm : ∀ k a, splitAssemblies s !! k = Some a → assembly_ok s k a
}.

(** The tables at one key. *)
Definition view (k : bytes) (s : Store) := (splitAssemblies s !! k, splitResourceMem s !! k, splitResourceMetaMem s !! k).

(** A step at one key that is charged to the budget. *)
Definition moves (lim : Z) (key : bytes) (s s' : Store) : Prop :=
  (∀ k, k ≠ key → view k s' = view k s)
  ∧ used (splitResourceBudget s') - weight key s' = used (splitResourceBudget s) - weight key s
  ∧ (0 < lim → used (splitResourceBudget s) <= lim → used (splitResourceBudget s') <= lim).

#[export] Instance moves_preorder lim key : PreOrder (moves lim key).
Proof.
  split; [by split; [|split]|]. intros s1 s2 s3 (Hv1 & Hu1 & Hl1) (Hv2 & Hu2 & Hl2).
  split; [intros k Hk; rewrite Hv2, Hv1; done|]. split; [lia|tauto].
Qed.

(** Room for another assembly of a link. *)
Definition room (id : bytes) (s : Store) : Prop :=
  Z.of_nat (size (splitAssemblies s)) < maxSplitAssembliesTotal
  ∧ perLink (hexEncode id ++ [colon]) (splitAssemblies s) < maxSplitAssembliesPerLink.

Lemma staged_change lim key s s' : moves lim key s s' → used (splitResourceBudget s) = staged s → used (splitResourceBudget s') = staged s'.
Proof.
  intros (Hv & Hu & _) Hs. unfold staged, weight in *.
  rewrite (total_change key (splitResourceMem s) (splitResourceMem s')) by (intros k Hk; by injection (Hv k Hk)).
  rewrite (total_change key (splitResourceMetaMem s) (splitResourceMetaMem s')) by (intros k Hk; by injection (Hv k Hk)).
  lia.
Qed.

Lemma TryReserve_spec n b :
  match TryReserve n b with
  | Some b' => used b' = used b + Z.max n 0 ∧ limit b' = limit b ∧ (0 < n → 0 < limit b → used b + n <= limit b)
  | None => 0 < n ∧ 0 < limit b < used b + n
  end.
Proof.
  unfold TryReserve. destruct (Z.leb_spec n 0); [split; [|split]; done || lia|].
  destruct (Z.ltb_spec 0 (limit b)), (Z.ltb_spec (limit b - n) (used b)); simpl; (split; [|split]) || split; done || lia.
Qed.

Lemma reserve_wp l n Q s :
  (∀ s', used (splitResourceBudget s') = used (splitResourceBudget s) + Z.max n 0 →
     (0 < n → 0 < budgetLimit l → used (splitResourceBudget s) + n <= budgetLimit l) →
     s' = set_budget (mkBudget (used (splitResourceBudget s')) (budgetLimit l)) s → Q (Ok ()) s') →
  (0 < n → 0 < budgetLimit l < used (splitResourceBudget s) + n → Q (Err BudgetExceeded) (resourceBudget l s)) →
  wp (reserve l n) Q s.
Proof.
  intros HS HF. unfold reserve. repeat wp_step;
    pose proof (TryReserve_spec n (splitResourceBudget (resourceBudget l s))) as HT; rewrite Heqo in HT; simpl in HT.
  - destruct HT as (Hu & Hl & Hb). apply HS; simpl; [done|done|]. destruct m; simpl in *. by subst.
  - destruct HT. by apply HF.
Qed.


Definition views (k : bytes) v (s : Store) : Prop := view k s = v.

Lemma reserve_views k v l n : keeps (views k v) (reserve l n).
Proof. unfold reserve. keeps_auto; done. Qed.
Lemma admit_views k v key adv n : key ≠ k → keeps (views k v) (admitSplitSegment key adv n).
Proof.
  intros Hne. unfold admitSplitSegment, openAssembly. keeps_auto;
    unfold views, view, insertAsm in *; simpl; by rewrite lookup_insert_ne.
Qed.

(** *** Keys *)

(** Bytes that are not hexadecimal digits. *)
Definition separator (c : byte) : Prop := b2z c < 48 ∨ 57 < b2z c < 97.
Lemma separator_colon : separator colon. Proof. by right. Qed.
Lemma separator_dash : separator x2d. Proof. by left. Qed.
Lemma separator_dot : separator x2e. Proof. by left. Qed.
#[local] Hint Resolve separator_colon separator_dash separator_dot : core.

Lemma hexEncode_no c b : separator c → c ∉ hexEncode b.
Proof.
  intros Hc. unfold hexEncode. intros (d & Hd & _)%list_elem_of_bind. pose proof (b2z_range d).
  assert (Hdig : ∀ z, 0 <= z < 16 → c ≠ hexDigit z).
  { intros z Hz -> . unfold separator, hexDigit in Hc. destruct (Z.ltb_spec z 10); rewrite b2z_z2b_small in Hc by lia; lia. }
  rewrite !elem_of_cons in Hd. destruct Hd as [E|[E|Hd]]; [| |by apply elem_of_nil in Hd]; revert E; apply Hdig.
  - split; [apply Z.div_pos; lia|apply Z.div_lt_upper_bound; lia].
  - apply Z.mod_pos_bound. lia.
Qed.

Lemma before_sep c (a b x y : bytes) : c ∉ a → c ∉ b → a ++ c :: x = b ++ c :: y → a = b ∧ x = y.
Proof.
  revert b. induction a as [|e a IH]; intros [|d b] Ha Hb E; simplify_eq/=; [done|set_solver|set_solver|].
  destruct (IH b) as [-> ->]; set_solver.
Qed.

Lemma link_prefix id id' h : hexEncode id' ++ [colon] `prefix_of` hexEncode id ++ [colon] ++ h → hexEncode id' = hexEncode id.
Proof.
  intros [t E]. rewrite <- app_assoc in E. symmetry in E.
  apply before_sep in E as [-> _]; auto using hexEncode_no.
Qed.

Lemma key_prefix l h :
  take (length (splitResourceKey l h) - length (hexEncode h)) (splitResourceKey l h) = hexEncode (linkID l) ++ [colon].
Proof.
  unfold splitResourceKey. rewrite app_assoc. rewrite take_app_length'; [done|]. rewrite length_app. lia.
Qed.

(** *** Numbers of assemblies *)

Lemma perLink_dom p m : perLink p m = Z.of_nat (size (filter (λ k, p `prefix_of` k) (dom m))).
Proof.
  unfold perLink. rewrite <- size_dom. f_equal. f_equal. apply set_eq. intros k.
  rewrite elem_of_dom, elem_of_filter, elem_of_dom. unfold is_Some. setoid_rewrite map_lookup_filter_Some. naive_solver.
Qed.

Lemma perLink_insert p k a m :
  perLink p (<[k := a]> m) <= perLink p m + (if decide (p `prefix_of` k ∧ m !! k = None) then 1 else 0).
Proof.
  rewrite !perLink_dom, dom_insert_L. destruct (decide (k ∈ dom m)) as [Hk|Hk].
  - replace ({[k]} ∪ dom m) with (dom m) by set_solver. destruct (decide _); lia.
  - rewrite filter_union_L, filter_singleton_L. destruct (decide (p `prefix_of` k)) as [Hp|Hp].
    + rewrite (decide_True (P := p `prefix_of` k ∧ m !! k = None)) by (split; [done|by apply not_elem_of_dom]).
      rewrite size_union by (intros x; set_solver). rewrite size_singleton. lia.
    + rewrite union_empty_l_L. destruct (decide _); lia.
    + apply _.
    + apply _.
Qed.

Lemma perLink_delete p k m : perLink p (delete k m) <= perLink p m.
Proof. rewrite !perLink_dom, dom_delete_L. apply inj_le, subseteq_size. set_solver. Qed.

Lemma size_insert_map {A} (k : bytes) (a : A) (m : gmap bytes A) : Z.of_nat (size (<[k := a]> m)) <= Z.of_nat (size m) + (if decide (m !! k = None) then 1 else 0).
Proof.
  destruct (m !! k) as [b|] eqn:E.
  - rewrite decide_False by done. rewrite map_size_insert_Some by done. lia.
  - rewrite decide_True by done. rewrite map_size_insert_None by done. lia.
Qed.

(** *** One step at one key *)

(** The assembly of the key is new only where there was room for it. *)
Lemma staging_step lim key s s' :
  staging_ok lim s → moves lim key s s' →
  (splitAssemblies s !! key = None → splitAssemblies s' !! key ≠ None → ∃ l h, key = splitResourceKey l h ∧ room (linkID l) s) →
  (splitAssemblies s' !! key = None → splitResourceMem s' !! key = None ∧ default [] (splitResourceMetaMem s' !! key) = []) →
  (∀ a, splitAssemblies s' !! key = Some a → assembly_ok s' key a) →
  staging_ok lim s'.
Proof.
  intros [Hu Hl Ht Hp Hk Ha] HM Hroom Hkey Hasm. pose proof (staged_change _ _ _ _ HM Hu) as Hu'.
  destruct HM as (Hv & _ & Hb).
  assert (Hside : (Z.of_nat (size (splitAssemblies s')) <= maxSplitAssembliesTotal)
            ∧ ∀ id, perLink (hexEncode id ++ [colon]) (splitAssemblies s') <= maxSplitAssembliesPerLink).
  { destruct (splitAssemblies s' !! key) as [a|] eqn:Ea.
    - assert (E : splitAssemblies s' = <[key := a]> (splitAssemblies s)).
      { apply map_eq. intros k. destruct (decide (k = key)) as [->|Hne]; [by rewrite lookup_insert_eq|].
        rewrite lookup_insert_ne by done. by injection (Hv k Hne). }
      rewrite E. split; [|intros id].
      + pose proof (size_insert_map key a (splitAssemblies s)). destruct (decide _) as [Hn|]; [|lia].
        destruct (Hroom Hn ltac:(done)) as (? & ? & _ & []). lia.
      + pose proof (perLink_insert (hexEncode id ++ [colon]) key a (splitAssemblies s)). specialize (Hp id).
        destruct (decide _) as [[Hpre Hn]|]; [|lia]. destruct (Hroom Hn ltac:(done)) as (l & h & -> & _ & Hr).
        rewrite (link_prefix _ _ _ Hpre) in *. lia.
    - assert (E : splitAssemblies s' = delete key (splitAssemblies s)).
      { apply map_eq. intros k. destruct (decide (k = key)) as [->|Hne]; [by rewrite lookup_delete_eq|].
        rewrite lookup_delete_ne by done. by injection (Hv k Hne). }
      rewrite E. split; [|intros id; pose proof (perLink_delete (hexEncode id ++ [colon]) key (splitAssemblies s)); specialize (Hp id); lia].
      rewrite map_size_delete. case_match; unfold id; lia. }
  destruct Hside as [Ht' Hp']. split; try done.
  - intros Hlim. rewrite <- Hu'. apply Hb; [done|]. rewrite Hu. by apply Hl.
  - intros k Hn. destruct (decide (k = key)) as [->|Hne]; [by apply Hkey|].
    pose proof (Hv k Hne) as E. injection E as E1 E2 E3. rewrite E2, E3. apply Hk. congruence.
  - intros k a E. destruct (decide (k = key)) as [->|Hne]; [by apply Hasm|].
    pose proof (Hv k Hne) as Ev. injection Ev as E1 E2 E3. rewrite E1 in E. pose proof (Ha k a E) as Hok.
    unfold assembly_ok, weight in *. by rewrite E2, E3.
Qed.

(** *** The steps of an operation *)

Lemma set_budget_moves lim l key s : moves lim key s (resourceBudget l s).
Proof. by split; [|split]. Qed.

Lemma release_used n s : 0 <= n <= used (splitResourceBudget s) → used (splitResourceBudget (release n s)) = used (splitResourceBudget s) - n.
Proof. intros Hn. unfold release, Release. simpl. destruct (Z.leb_spec n 0); simpl; lia. Qed.


Lemma view_mem k v s : view k (set_mem v s) = (splitAssemblies s !! k, v !! k, splitResourceMetaMem s !! k).
Proof. done. Qed.
Lemma view_metaMem k v s : view k (set_metaMem v s) = (splitAssemblies s !! k, splitResourceMem s !! k, v !! k).
Proof. done. Qed.

(** Storing [v] under the key, the budget charged or credited with the
    difference. *)
Lemma mem_moves lim key m s s' :
  (∀ k, k ≠ key → m !! k = splitResourceMem s !! k) → s' = set_mem m (set_budget (splitResourceBudget s') s) →
  let d := len (default [] (m !! key)) - len (default [] (splitResourceMem s !! key)) in
  used (splitResourceBudget s') = used (splitResourceBudget s) + d →
  (0 < d → 0 < lim → used (splitResourceBudget s) + d <= lim) →
  moves lim key s s'.
Proof.
  intros Hm -> d Hu Hl. simpl in Hu |- *. split; [intros k Hk; unfold view; simpl; by rewrite Hm|].
  split; [unfold weight; simpl; lia|]. simpl. intros Hlim Hle. rewrite Hu. destruct (Z.lt_ge_cases 0 d); [by apply Hl|lia].
Qed.
Lemma meta_moves lim key m s s' :
  (∀ k, k ≠ key → m !! k = splitResourceMetaMem s !! k) → s' = set_metaMem m (set_budget (splitResourceBudget s') s) →
  let d := len (default [] (m !! key)) - len (default [] (splitResourceMetaMem s !! key)) in
  used (splitResourceBudget s') = used (splitResourceBudget s) + d →
  (0 < d → 0 < lim → used (splitResourceBudget s) + d <= lim) →
  moves lim key s s'.
Proof.
  intros Hm -> d Hu Hl. simpl in Hu |- *. split; [intros k Hk; unfold view; simpl; by rewrite Hm|].
  split; [unfold weight; simpl; lia|]. simpl. intros Hlim Hle. rewrite Hu. destruct (Z.lt_ge_cases 0 d); [by apply Hl|lia].
Qed.

Lemma discardStaged_spec lim l key s :
  weight key s <= used (splitResourceBudget s) →
  let s' := discardStaged l key s in
  moves lim key s s' ∧ weight key s' = 0 ∧ splitAssemblies s' = splitAssemblies s ∧ splitResourceMetaMem s' !! key = None
  ∧ default [] (splitResourceMem s' !! key) = [].
Proof.
  intros Hw s'. set (s1 := match splitResourceMem s !! key with
    | Some buf => set_mem (<[key := []]> (splitResourceMem s)) (release (len buf) (resourceBudget l s)) | None => s end).
  assert (H1 : moves lim key s s1 ∧ splitAssemblies s1 = splitAssemblies s ∧ default [] (splitResourceMem s1 !! key) = []
            ∧ splitResourceMetaMem s1 = splitResourceMetaMem s).
  { subst s1. unfold weight in Hw. pose proof (len_nonneg (default [] (splitResourceMetaMem s !! key))).
    destruct (splitResourceMem s !! key) as [buf|] eqn:E; [|split; [done|by rewrite ?E]]. simpl in Hw. pose proof (len_nonneg buf).
    split; [|simpl; by rewrite lookup_insert_eq].
    apply (mem_moves _ _ (<[key := []]> (splitResourceMem s))); [by intros; rewrite lookup_insert_ne|done| |];
      rewrite lookup_insert_eq, E; simpl; change (len (@nil byte)) with 0; [|lia].
    pose proof (release_used (len buf) (resourceBudget l s) ltac:(simpl; lia)) as Hr. simpl in Hr. lia. }
  destruct H1 as (HM & Ha & Hm & Hmeta).
  assert (Hw1 : weight key s1 <= used (splitResourceBudget s1)) by (destruct HM as (_ & Hu & _); lia).
  assert (Es : s' = match splitResourceMetaMem s1 !! key with
    | Some prev => set_metaMem (delete key (splitResourceMetaMem s1)) (release (len prev) (resourceBudget l s1)) | None => s1 end) by done.
  clearbody s1 s'. destruct (splitResourceMetaMem s1 !! key) as [prev|] eqn:E.
  - assert (Hm' : moves lim key s1 s').
    { subst s'. unfold weight in Hw1. rewrite Hm, E in Hw1. simpl in Hw1. rewrite len_nil in Hw1. pose proof (len_nonneg prev).
      apply (meta_moves _ _ (delete key (splitResourceMetaMem s1))); [by intros; rewrite lookup_delete_ne|done| |];
        rewrite lookup_delete_eq, E; simpl; change (len (@nil byte)) with 0; [|lia].
      pose proof (release_used (len prev) (resourceBudget l s1) ltac:(simpl; lia)) as Hr. simpl in Hr. lia. }
    subst s'. split; [by etrans|]. unfold weight. simpl. rewrite lookup_delete_eq, Hm. done.
  - subst s'. split; [done|]. unfold weight. rewrite E, Hm. done.
Qed.

Lemma stageMeta_wp l key meta Q s :
  splitResourceMetaMem s !! key = None →
  (∀ s', moves (budgetLimit l) key s s' → weight key s' = weight key s + len meta →
     splitAssemblies s' = splitAssemblies s → splitResourceMem s' = splitResourceMem s →
     splitResourceMetaMem s' !! key = Some meta → Q (Ok ()) s') →
  (0 < budgetLimit l < used (splitResourceBudget s) + len meta → Q (Err BudgetExceeded) (resourceBudget l s)) →
  wp (stageMeta l key meta) Q s.
Proof.
  intros Hnone HS HF. pose proof (len_nonneg meta). unfold stageMeta. apply wp_bind, reserve_wp; [|by intros _ ?; apply HF].
  intros s1 Hu Hl Es. simpl. wp_step. rewrite Es in *. simpl. rewrite Hnone. simpl in *.
  apply HS; unfold weight; simpl; rewrite ?lookup_insert_eq, ?Hnone; simpl; change (len (@nil byte)) with 0; try done; try lia.
  apply (meta_moves _ _ (<[key := meta]> (splitResourceMetaMem s))); [by intros; rewrite lookup_insert_ne|done| |];
    simpl; rewrite lookup_insert_eq, Hnone; simpl; change (len (@nil byte)) with 0; lia.
Qed.

(** What the segment adds: metadata at the start of the first one, and bytes. *)
Definition fileRegion (adv : R.ResourceAdvertisement) (payload : bytes) : outcome split_error (option bytes * bytes) :=
  if R.a_HasMetadata adv && (R.a_SegmentIndex adv =? 1)
  then '(meta, body) ← metaRegion payload; Ok (Some meta, body) else Ok (None, payload).

Lemma len_metaRegion payload meta body : metaRegion payload = Ok (meta, body) → len meta + len body <= len payload.
Proof.
  unfold metaRegion. destruct (Z.ltb_spec (len payload) 3); [done|].
  destruct (Z.ltb_spec (len payload) (3 + metaSize payload)) as [|Hle]; [done|]. intros [= <- <-].
  assert (0 <= metaSize payload) by apply be_decode_range. rewrite len_slice, len_drop by lia. lia.
Qed.

(** What is staged of earlier segments; the first one starts afresh. *)
Definition earlier (adv : R.ResourceAdvertisement) (key : bytes) (s : Store) : bytes * option bytes :=
  if R.a_SegmentIndex adv =? 1 then ([], None)
  else (default [] (splitResourceMem s !! key), splitResourceMetaMem s !! key).

Section delivered.
Context `{MetaCodec}.

Definition concluded_with (l : Conf) adv pending (data : bytes) (meta : option bytes) : option delivery :=
  conclude l adv pending data (if 0 <? len (default [] meta) then unmarshalMeta (default [] meta) else None).

(** The segment that follows what is staged. *)
Inductive segment_result (l : Conf) (payload : bytes) (adv : R.ResourceAdvertisement) (pending : option nat) (key : bytes)
    (a : splitAsm) (s : Store) : outcome split_error (option delivery) → Store → Prop :=
  | segment_error e meta s' :
      splitAssemblies s' !! key = Some a → weight key s' <= written a →
      (default [] (splitResourceMem s' !! key), splitResourceMetaMem s' !! key)
        = ((earlier adv key s).1, union meta (earlier adv key s).2) →
      meta = None ∨ (∃ body, fileRegion adv payload = Ok (meta, body)) →
      fileRegion adv payload = Err e
        ∨ e = BudgetExceeded ∧ 0 < budgetLimit l < used (splitResourceBudget s) + len payload →
      segment_result l payload adv pending key a s (Err e) s'
  | segment_staged meta body s' :
      fileRegion adv payload = Ok (meta, body) → R.a_SegmentIndex adv < R.a_TotalSegments adv →
      view key s' = (Some a, Some ((earlier adv key s).1 ++ body), union meta (earlier adv key s).2) →
      weight key s' <= written a →
      segment_result l payload adv pending key a s (Ok None) s'
  | segment_last meta body s' :
      fileRegion adv payload = Ok (meta, body) → R.a_TotalSegments adv <= R.a_SegmentIndex adv →
      view key s' = (None, None, None) →
      segment_result l payload adv pending key a s
        (Ok (concluded_with l adv pending ((earlier adv key s).1 ++ body) (union meta (earlier adv key s).2))) s'.
End delivered.

Section segments.
Context `{MetaCodec}.

Lemma delete_moves lim l key data meta s :
  default [] (splitResourceMem s !! key) = data → default [] (splitResourceMetaMem s !! key) = meta →
  weight key s <= used (splitResourceBudget s) →
  let s1 := finishSplitAssembly key (set_metaMem (delete key (splitResourceMetaMem s)) (set_mem (delete key (splitResourceMem s)) s)) in
  let s2 := release (len data) (resourceBudget l s1) in
  let s3 := if 0 <? len meta then release (len meta) (resourceBudget l s2) else s2 in
  moves lim key s s3 ∧ view key s3 = (None, None, None).
Proof.
  intros Hd Hm Hw s1 s2 s3. pose proof (len_nonneg data). pose proof (len_nonneg meta).
  unfold weight in Hw. rewrite Hd, Hm in Hw.
  assert (Hu2 : used (splitResourceBudget s2) = used (splitResourceBudget s) - len data).
  { exact (release_used (len data) (resourceBudget l s1) ltac:(simpl; lia)). }
  assert (Hu3 : used (splitResourceBudget s3) = used (splitResourceBudget s) - len data - len meta).
  { subst s3. destruct (Z.ltb_spec 0 (len meta)); [|lia]. rewrite release_used; simpl in *; lia. }
  assert (Hv3 : ∀ k, view k s3 = view k s1) by (intros k; subst s3; by destruct (0 <? len meta)).
  split; [|rewrite Hv3; unfold view; simpl; by rewrite !lookup_delete_eq].
  split; [intros k Hk; rewrite Hv3; unfold view; simpl; by rewrite !lookup_delete_ne|].
  split; [|lia]. rewrite Hu3. pose proof (Hv3 key) as E. unfold view in E. simpl in E. rewrite !lookup_delete_eq in E.
  injection E as E1 E2 E3. unfold weight. rewrite E2, E3, Hd, Hm. simpl. change (len (@nil byte)) with 0. lia.
Qed.

Lemma stageInMemory_wp l key adv pending body Q s (a : splitAsm) :
  let data := default [] (splitResourceMem s !! key) ++ body in
  let meta := splitResourceMetaMem s !! key in
  splitAssemblies s !! key = Some a → weight key s <= used (splitResourceBudget s) →
  (0 < budgetLimit l < used (splitResourceBudget s) + len body → Q (Err BudgetExceeded) (resourceBudget l s)) →
  (∀ s', moves (budgetLimit l) key s s' → R.a_SegmentIndex adv < R.a_TotalSegments adv →
     view key s' = (Some a, Some data, meta) → Q (Ok None) s') →
  (∀ s', moves (budgetLimit l) key s s' → R.a_TotalSegments adv <= R.a_SegmentIndex adv →
     view key s' = (None, None, None) → Q (Ok (concluded_with l adv pending data meta)) s') →
  wp (stageInMemory l key body adv pending) Q s.
Proof.
  intros data meta Ha Hw HE HN HL. unfold stageInMemory. pose proof (len_nonneg body).
  apply wp_bind, reserve_wp; [|by intros _ ?; apply HE]. intros s1 Hu Hl Es. simpl. wp_step.
  set (s2 := set_mem _ s1).
  assert (HM : moves (budgetLimit l) key s s2).
  { assert (Hb : splitResourceBudget s2 = splitResourceBudget s1) by done.
    apply (mem_moves _ _ (<[key := data]> (splitResourceMem s))).
    - by intros; rewrite lookup_insert_ne.
    - subst s2. rewrite Es. done.
    - rewrite lookup_insert_eq, Hb, Hu. subst data. simpl. rewrite len_app. lia.
    - rewrite lookup_insert_eq. subst data. simpl. rewrite len_app. lia. }
  assert (Hv : view key s2 = (Some a, Some data, meta)).
  { subst s2. rewrite Es. unfold view. simpl. by rewrite lookup_insert_eq, Ha. }
  assert (Hw2 : weight key s2 <= used (splitResourceBudget s2)) by (destruct HM as (_ & ? & _); lia).
  clearbody s2. injection Hv as Hv1 Hv2 Hv3. destruct (Z.ltb_spec (R.a_SegmentIndex adv) (R.a_TotalSegments adv)).
  - wp_step. apply HN; [done|done|]. unfold view. congruence.
  - destruct (delete_moves (budgetLimit l) l key data (default [] meta) s2) as [HM3 Hv']; [by rewrite Hv2|by rewrite Hv3|done|].
    wp_step. rewrite Hv2, Hv3. simpl. do 3 wp_step. unfold concluded_with in HL.
    destruct (0 <? len (default [] meta)); repeat wp_step; (apply HL; [by etrans|done|done]).
Qed.

Lemma body_result l payload adv pending a key meta body s s2 :
  fileRegion adv payload = Ok (meta, body) → moves (budgetLimit l) key s s2 → splitAssemblies s2 !! key = Some a →
  (default [] (splitResourceMem s2 !! key), splitResourceMetaMem s2 !! key) = ((earlier adv key s).1, union meta (earlier adv key s).2) →
  weight key s2 + len body <= written a → weight key s <= used (splitResourceBudget s) →
  used (splitResourceBudget s2) + len body <= used (splitResourceBudget s) + len payload →
  wp (stageInMemory l key body adv pending)
    (λ r s', moves (budgetLimit l) key s s' ∧ segment_result l payload adv pending key a s r s') s2.
Proof.
  intros Hf HM Ha [= Hdata Hmeta] Hw Hu Hfit. pose proof (len_nonneg body).
  apply (stageInMemory_wp l key adv pending body _ s2 a Ha).
  - destruct HM as (_ & ? & _). lia.
  - intros Hlim. split; [etrans; [exact HM|apply set_budget_moves]|].
    apply (segment_error _ _ _ _ _ _ _ _ meta); [done|unfold weight in *; simpl; lia| |by eauto|right; split; [done|lia]].
    simpl. by rewrite Hdata, Hmeta.
  - intros s3 HM3 Hlt Hv3. split; [by etrans|]. apply (segment_staged _ _ _ _ _ _ _ meta body); [done|done| |].
    + by rewrite Hv3, Hdata, Hmeta.
    + injection Hv3 as _ E2 E3. unfold weight in *. rewrite E2, E3. simpl. rewrite len_app. lia.
  - intros s3 HM3 Hge Hv3. split; [by etrans|]. rewrite Hdata, Hmeta. by eapply segment_last.
Qed.

Lemma inMemory_wp l payload adv pending a s :
  let key := splitResourceKey l (R.a_OriginalHash adv) in
  splitAssemblies s !! key = Some a → weight key s <= used (splitResourceBudget s) → len payload <= written a →
  (R.a_SegmentIndex adv = 1 ∨ weight key s + len payload <= written a) →
  wp (handleSplitSegmentInMemory l payload adv pending)
    (λ r s', moves (budgetLimit l) key s s' ∧ segment_result l payload adv pending key a s r s') s.
Proof.
  intros key Ha Hw Hlen Hnext. unfold handleSplitSegmentInMemory. fold key. apply wp_bind.
  eapply (wp_mono _ (λ r s1, r = Ok () ∧ moves (budgetLimit l) key s s1 ∧ splitAssemblies s1 !! key = Some a
     ∧ weight key s1 + len payload <= written a
     ∧ (default [] (splitResourceMem s1 !! key), splitResourceMetaMem s1 !! key) = earlier adv key s
     ∧ used (splitResourceBudget s1) <= used (splitResourceBudget s))).
  { unfold earlier. destruct (Z.eqb_spec (R.a_SegmentIndex adv) 1) as [E|E].
    - wp_step. destruct (discardStaged_spec (budgetLimit l) l key s Hw) as (HM & Hw0 & Hasm & Hmeta & Hmem).
      split; [done|]. split; [done|]. split; [by rewrite Hasm|]. split; [lia|].
      split; [by rewrite Hmeta, Hmem|]. destruct HM as (_ & Hu & _). pose proof (weight_nonneg key s). lia.
    - wp_step. split; [done|]. split; [done|]. split; [done|]. split; [lia|]. by split. }
  intros r s1 (-> & HM & Ha1 & Hw1 & Hearly & Hu1). unfold ends. pose proof (len_nonneg payload).
  destruct (R.a_HasMetadata adv && (R.a_SegmentIndex adv =? 1)) eqn:Efirst.
  - assert (Hf : fileRegion adv payload = '(meta, body) ← metaRegion payload; Ok (Some meta, body))
      by (unfold fileRegion; by rewrite Efirst).
    apply andb_true_iff in Efirst as [_ Eidx]. unfold earlier in Hearly. rewrite Eidx in Hearly. injection Hearly as Hmem Hmeta.
    wp_step. apply wp_lift.
    + intros [meta body] HR. rewrite HR in Hf. wp_step. pose proof (len_metaRegion _ _ _ HR). pose proof (len_nonneg body).
      apply wp_bind. apply (stageMeta_wp l key meta); [done| |].
      * intros s2 HM2 Hw2 Ha2 Hm2 Hmeta2. unfold ends. wp_step.
        apply (body_result _ _ _ _ _ _ (Some meta) body); [done|by etrans|by rewrite Ha2| |lia|lia|destruct HM2 as (_ & ? & _); lia].
        unfold earlier. rewrite Eidx, Hm2, Hmeta2. simpl. by rewrite Hmem.
      * intros Hlim. split; [etrans; [exact HM|apply set_budget_moves]|]. pose proof (len_nonneg meta).
        apply (segment_error _ _ _ _ _ _ _ _ None); [done| | |by left|right; split; [done|lia]].
        -- unfold weight in *. simpl. lia.
        -- unfold earlier. rewrite Eidx. simpl. by rewrite Hmem, Hmeta.
    + intros e HR. rewrite HR in Hf. split; [done|]. apply (segment_error _ _ _ _ _ _ _ _ None); [done|lia| |by left|by left].
      unfold earlier. rewrite Eidx. simpl. by rewrite Hmem, Hmeta.
    + intros HR. unfold metaRegion in HR. repeat case_match; done.
  - wp_step. apply (body_result _ _ _ _ _ _ None payload); [unfold fileRegion; by rewrite Efirst|done|done| |lia|lia|lia].
    rewrite <- Hearly. simpl. by rewrite (left_id_L None union).
Qed.
End segments.

(** *** Admission *)

Definition startedAsm (adv : R.ResourceAdvertisement) (i w : Z) (oh : bytes) : splitAsm :=
  mkAsm i (R.a_TotalSegments adv) (R.a_DataSize adv) w oh.

Definition follows (adv : R.ResourceAdvertisement) (n : Z) (a : splitAsm) : Prop :=
  nextIndex a = R.a_SegmentIndex adv ∧ declaredSegs a = R.a_TotalSegments adv ∧ written a + n <= stagedLimit a.

Inductive admit_result (l : Conf) (adv : R.ResourceAdvertisement) (n : Z) (key : bytes) (s : Store) :
    outcome split_error () → Store → Prop :=
  | admit_first oh :
      R.a_SegmentIndex adv = 1 → (splitAssemblies s !! key = None → room (linkID l) s) →
      n <= stagedLimit (startedAsm adv 1 0 oh) →
      admit_result l adv n key s (Ok ()) (insertAsm key (startedAsm adv 2 n oh) s)
  | admit_next a :
      R.a_SegmentIndex adv ≠ 1 → splitAssemblies s !! key = Some a → follows adv n a →
      admit_result l adv n key s (Ok ())
        (insertAsm key (mkAsm (u16 (R.a_SegmentIndex adv + 1)) (declaredSegs a) (declaredSize a) (written a + n) (origHash a)) s)
  | admit_refused e :
      (R.a_SegmentIndex adv = 1 → splitAssemblies s !! key = None ∧ ¬ room (linkID l) s) →
      (R.a_SegmentIndex adv ≠ 1 → ∀ a, splitAssemblies s !! key = Some a → ¬ follows adv n a) →
      admit_result l adv n key s (Err e) s
  | admit_restart_refused e oh :
      R.a_SegmentIndex adv = 1 → (splitAssemblies s !! key = None → room (linkID l) s) →
      stagedLimit (startedAsm adv 1 0 oh) < n →
      admit_result l adv n key s (Err e) (insertAsm key (startedAsm adv 1 0 oh) s).

Lemma insertAsm_twice key a b s : insertAsm key a (insertAsm key b s) = insertAsm key a s.
Proof. unfold insertAsm. simpl. by rewrite insert_insert_eq. Qed.

(** The checks once there is an assembly. *)
Lemma start_checks l adv n key oh s :
  R.a_SegmentIndex adv = 1 → (splitAssemblies s !! key = None → room (linkID l) s) →
  let a := startedAsm adv 1 0 oh in
  wp (guard_go (R.a_SegmentIndex adv =? nextIndex a) (OutOfOrder (R.a_SegmentIndex adv) (nextIndex a)) ;;
      guard_go (R.a_TotalSegments adv =? declaredSegs a) (SegmentCountChanged (declaredSegs a) (R.a_TotalSegments adv)) ;;
      guard_go (negb (stagedLimit a <? written a + n)) (ExceedsLimit (stagedLimit a)) ;;
      modify (insertAsm key (mkAsm (u16 (nextIndex a + 1)) (declaredSegs a) (declaredSize a) (written a + n) (origHash a))))
    (admit_result l adv n key s) (insertAsm key a s).
Proof.
  intros E Hr a. subst a. unfold startedAsm. simpl. rewrite E, !Z.eqb_refl. do 2 (apply wp_guard; [intros _|done]).
  apply wp_guard.
  - intros Hl%negb_true_iff%Z.ltb_ge. wp_step. rewrite insertAsm_twice. by apply admit_first.
  - intros Hl%negb_false_iff%Z.ltb_lt. by apply admit_restart_refused.
Qed.

Lemma admit_wp l adv n s :
  let key := splitResourceKey l (R.a_OriginalHash adv) in
  wp (admitSplitSegment key adv n) (admit_result l adv n key s) s.
Proof.
  intros key. unfold admitSplitSegment, openAssembly. wp_step. wp_step. destruct (splitAssemblies s !! key) as [a|] eqn:Ea.
  - destruct (Z.eqb_spec (R.a_SegmentIndex adv) 1) as [E|E].
    + do 3 wp_step. apply start_checks; [done|]. by rewrite Ea.
    + wp_step. assert (Hno : ∀ e, ¬ follows adv n a → admit_result l adv n key s (Err e) s).
      { intros e Hn. apply admit_refused; [done|]. intros _ a' [= <-]%(eq_trans (eq_sym Ea)). done. }
      unfold follows in Hno. repeat (apply wp_guard; [|intros HF; apply Hno; rewrite ?negb_false_iff, ?Z.eqb_neq, ?Z.ltb_lt in HF; lia]; intros ?).
      wp_step. rewrite !Z.eqb_eq, negb_true_iff, Z.ltb_ge in *. replace (nextIndex a) with (R.a_SegmentIndex adv).
      by apply admit_next.
  - pose proof (key_prefix l (R.a_OriginalHash adv)) as Hp. fold key in Hp. cbv zeta. rewrite Hp.
    fold (perLink (hexEncode (linkID l) ++ [colon]) (splitAssemblies s)).
    assert (Hno : ∀ e, (R.a_SegmentIndex adv = 1 → ¬ room (linkID l) s) → admit_result l adv n key s (Err e) s).
    { intros e Hn. apply admit_refused; [|intros _ a' HF; congruence]. intros E. split; [done|by apply Hn]. }
    unfold room in Hno.
    do 3 (wp_step; wp_step; [|rewrite ?Z.ltb_ge, ?Z.eqb_neq in *; apply Hno; unfold perLink in *; lia]).
    rewrite !Z.ltb_lt, Z.eqb_eq in *. do 3 wp_step. apply start_checks; [done|]. intros _. done.
Qed.

(** *** Every operation keeps the tables in order *)

Lemma weight_le k s : used (splitResourceBudget s) = staged s → weight k s <= used (splitResourceBudget s).
Proof.
  intros ->. unfold staged, weight. pose proof (total_lookup k (splitResourceMem s)).
  pose proof (total_lookup k (splitResourceMetaMem s)). lia.
Qed.
Lemma weight_max lim k s : staging_ok lim s → weight k s <= maxSplitAssemblyBytes.
Proof.
  intros HI. destruct (splitAssemblies s !! k) as [a|] eqn:E; [by destruct (i_asm _ _ HI k a E) as (_ & ? & _)|].
  destruct (i_key _ _ HI k E) as [E1 E2]. unfold weight. rewrite E1, E2. discriminate.
Qed.

Lemma insertAsm_moves lim key a s : moves lim key s (insertAsm key a s).
Proof. split; [intros k Hk; unfold view; simpl; by rewrite lookup_insert_ne|]. by split. Qed.

Lemma insertAsm_inj key a b s : insertAsm key a s = insertAsm key b s → a = b.
Proof. intros E%(f_equal (λ s, splitAssemblies s !! key)). simpl in E. rewrite !lookup_insert_eq in E. congruence. Qed.

Lemma stagedLimit_max a : stagedLimit a <= maxSplitAssemblyBytes.
Proof. unfold stagedLimit. lia. Qed.

Section segment_staging.
Context `{MetaCodec}.

(** What an admitted segment leaves. *)
Lemma result_staging lim l payload adv pending key a s r s' :
  staging_ok lim s → moves lim key s s' → key = splitResourceKey l (R.a_OriginalHash adv) →
  (splitAssemblies s !! key = None → room (linkID l) s) → 0 <= written a <= maxSplitAssemblyBytes →
  segment_result l payload adv pending key a (insertAsm key a s) r s' → staging_ok lim s'.
Proof.
  intros HI HM -> Hroom Hw HR. eapply staging_step; [done|done|by eauto| |].
  - destruct HR as [e m s' E _ _ _ _|meta body s' _ _ Hv _|meta body s' _ _ Hv]; [congruence| |]; injection Hv as E1 E2 E3; [congruence|].
    intros _. by rewrite E2, E3.
  - intros a' Ha'. destruct HR as [e m s' E Hle _ _ _|meta body s' _ _ Hv Hle|meta body s' _ _ Hv];
      [|injection Hv as E _ _|by injection Hv as E1 E2 E3; congruence];
      (assert (a' = a) as -> by congruence; split; [done|]; split; [lia|by right]).
Qed.

(** A segment in memory: it is admitted and then staged, or refused. *)
Lemma complete_wp l p adv pend s :
  let κ := splitResourceKey l (R.a_OriginalHash adv) in
  useInMemoryResources l = true → staging_ok (budgetLimit l) s →
  wp (handleSplitSegmentComplete l p adv pend)
    (λ r s', r = Err MissingOriginalHash ∧ R.a_OriginalHash adv = [] ∧ s' = s
       ∨ ∃ r1 s1, admit_result l adv (len p) κ s r1 s1 ∧
         match r1 with
         | Ok _ => ∃ a, s1 = insertAsm κ a s ∧ moves (budgetLimit l) κ s s' ∧ segment_result l p adv pend κ a s1 r s'
         | Err e => r = Err e ∧ s' = s1
         | Panic => False
         end) s.
Proof.
  intros κ Hmem HI. unfold handleSplitSegmentComplete. wp_step.
  2: { left. split; [done|]. split; [|done]. destruct (R.a_OriginalHash adv) as [|b h]; [done|]. pose proof (len_nonneg h).
       rewrite len_cons in *. rewrite Z.ltb_ge in *. lia. }
  apply wp_bind. eapply wp_mono; [apply admit_wp|]. fold κ. intros r1 s1 HA. rewrite Hmem. pose proof (len_nonneg p).
  assert (Hgo : ∀ a, s1 = insertAsm κ a s → r1 = Ok () → len p <= written a →
            R.a_SegmentIndex adv = 1 ∨ weight κ s + len p <= written a →
            wp (handleSplitSegmentInMemory l p adv pend) (λ r s', ∃ r1 s1, admit_result l adv (len p) κ s r1 s1 ∧
              match r1 with
              | Ok _ => ∃ a, s1 = insertAsm κ a s ∧ moves (budgetLimit l) κ s s' ∧ segment_result l p adv pend κ a s1 r s'
              | Err e => r = Err e ∧ s' = s1
              | Panic => False
              end) s1).
  { intros a -> -> Hw Hnext. eapply wp_mono; [apply (inMemory_wp l p adv pend a)|]; fold κ.
    - apply lookup_insert_eq.
    - exact (weight_le κ s (i_used _ _ HI)).
    - done.
    - done.
    - intros r s' [HM HR]. exists (Ok ()), (insertAsm κ a s). split; [done|]. exists a. split; [done|]. split; [|done].
      etrans; [apply insertAsm_moves|exact HM]. }
  pose proof HA as HA'. destruct HA' as [oh E _ _|a E Ha (Hi & _ & Hle)|e _ _|e oh E _ _]; simpl.
  - eapply wp_mono; [eapply Hgo; [done|done|done|by left]|]. by right.
  - destruct (i_asm _ _ HI κ a Ha) as (Hw & _ & Hwt). eapply wp_mono; [eapply Hgo; [done|done|simpl; lia|right; simpl; lia]|]. by right.
  - right. by exists (Err e), s.
  - right. by eexists (Err e), _.
Qed.

Lemma segment_staging lim l payload adv pending s :
  budgetLimit l = lim → useInMemoryResources l = true → staging_ok lim s →
  staging_ok lim (handleSplitSegmentComplete l payload adv pending s).1.
Proof.
  intros <- Hmem HI. pose proof (len_nonneg payload) as Hn.
  destruct (complete_wp l payload adv pending s Hmem HI) as [(_ & _ & ->)|(r1 & s1 & HA & HR)]; [done|].
  set (key := splitResourceKey l (R.a_OriginalHash adv)) in *.
  destruct HA as [oh E Hroom Hle|a E Ha (Hi & Hs & Hle)|e _ _|e oh E Hroom Hle].
  - destruct HR as (a1 & Ea & HM & HR). eapply (result_staging _ l payload adv pending key a1 s); [done|done|done|done| |by rewrite <- Ea].
    apply insertAsm_inj in Ea as <-.
    simpl. split; [done|]. etrans; [done|apply stagedLimit_max].
  - destruct HR as (a1 & Ea & HM & HR). eapply (result_staging _ l payload adv pending key a1 s); [done|done|done|congruence| |by rewrite <- Ea].
    apply insertAsm_inj in Ea as <-.
    destruct (i_asm _ _ HI key a Ha) as (Hw & _ & _). pose proof (stagedLimit_max a). simpl. lia.
  - by destruct HR as [_ ->].
  - destruct HR as [_ ->]. eapply (staging_step _ key s); [done|apply insertAsm_moves|by eauto| |].
    + simpl. by rewrite lookup_insert_eq.
    + intros a Ha. simpl in Ha. rewrite lookup_insert_eq in Ha. injection Ha as <-.
      split; [done|]. split; [exact (weight_max _ key s HI)|by left].
Qed.
End segment_staging.

Lemma Release_used n b : 0 <= n <= used b → used (Release n b) = used b - n.
Proof. intros Hn. unfold Release. destruct (Z.leb_spec n 0); simpl; lia. Qed.

Lemma dropAssembly_moves lim key s :
  weight key s <= used (splitResourceBudget s) →
  moves lim key s (dropAssembly key s) ∧ splitAssemblies (dropAssembly key s) !! key = None
  ∧ splitResourceMem (dropAssembly key s) !! key = None ∧ default [] (splitResourceMetaMem (dropAssembly key s) !! key) = [].
Proof.
  intros Hw. unfold weight in Hw. pose proof (len_nonneg (default [] (splitResourceMetaMem s !! key))).
  pose proof (len_nonneg (default [] (splitResourceMem s !! key))). unfold dropAssembly. simpl.
  destruct (splitResourceMem s !! key) as [buf|] eqn:E1; destruct (splitResourceMetaMem s !! key) as [[|x prev]|] eqn:E2; simpl in *; rewrite ?E1, ?E2; simpl;
    (split; [split; [intros k Hk; unfold view; simpl; by rewrite ?lookup_delete_ne|]; split|split; [|split]]); simpl;
    unfold weight; simpl; rewrite ?lookup_delete_eq, ?E1, ?E2; simpl; try done;
    change (len (@nil byte)) with 0 in *; rewrite ?Release_used by lia; lia.
Qed.

Definition dropAll (ks : list (bytes * splitAsm)) (s : Store) : Store := foldl (λ s kv, dropAssembly kv.1 s) s ks.

Lemma dropAssembly_staging lim key s : staging_ok lim s → staging_ok lim (dropAssembly key s).
Proof.
  intros HI. destruct (dropAssembly_moves lim key s (weight_le key s (i_used _ _ HI))) as (HM & Ha & Hm & Hmeta).
  eapply (staging_step lim key); [done|done|done|done|]. intros a Ha'. congruence.
Qed.

Lemma dropAll_staging lim ks s : staging_ok lim s → staging_ok lim (dropAll ks s).
Proof. unfold dropAll. revert s. induction ks as [|kv ks IH]; [done|]. intros s HI. simpl. by apply IH, dropAssembly_staging. Qed.

(** The removal of files leaves the tables alone. *)
Definition tables (s : Store) := (splitResourceBudget s, splitResourceMem s, splitResourceMetaMem s, splitAssemblies s).
Lemma staging_tables lim s s' : tables s' = tables s → staging_ok lim s → staging_ok lim s'.
Proof. destruct s, s'. unfold tables. simpl. intros [= -> -> -> ->] []. by split. Qed.

Lemma remove_tables t path : keeps (λ s, tables s = t) (remove path).
Proof. unfold remove, fileOp, onFiles. keeps_auto; done. Qed.

Lemma dropFiles_tables t l (ks : list (bytes * splitAsm)) (m : M ()) :
  keeps (λ s, tables s = t) m →
  keeps (λ s, tables s = t) (foldl (λ m kv, m ;;
    let path := joinPath (storageDir l) (hexEncode (origHash kv.2)) in remove path ;; remove (path ++ metaSuffix)) m ks).
Proof.
  revert m. induction ks as [|kv ks IH]; [done|]. intros m Hm. simpl. apply IH.
  apply keeps_bind; [done|]. intros _. apply keeps_bind; [|intros _]; apply remove_tables.
Qed.

Lemma drop_staging lim l s : staging_ok lim s → staging_ok lim (dropSplitAssemblies l s).1.
Proof.
  intros HI. unfold dropSplitAssemblies.
  set (ks := map_to_list (filter (λ kv : bytes * splitAsm, dropPrefix l `prefix_of` kv.1) (splitAssemblies s))).
  eapply staging_tables; [|by apply (dropAll_staging lim ks)].
  apply (dropFiles_tables (tables (dropAll ks s)) l ks (mret ())); [apply keeps_ret|done].
Qed.

(** ** Theorems *)

Section theorems.
Context `{MetaCodec}.

(** A completed segment arrives on a link, or a link closes. *)
Inductive op :=
  | Segment (l : Conf) (payload : bytes) (adv : R.ResourceAdvertisement) (pending : option nat)
  | Close (l : Conf).
Definition op_conf (o : op) : Conf := match o with Segment l _ _ _ => l | Close l => l end.
Definition step (o : op) : M (option delivery) :=
  match o with
  | Segment l payload adv pending => handleSplitSegmentComplete l payload adv pending
  | Close l => dropSplitAssemblies l ;; mret None
  end.
Definition run (os : list op) (s : Store) : Store := foldl (λ s o, (step o s).1) s os.
Definition start (fs : gmap bytes bytes) (ft : list fault) : Store := mkStore (mkBudget 0 0) ∅ ∅ ∅ fs ft.

Lemma start_staging lim fs ft : staging_ok lim (start fs ft).
Proof. split; try done. intros Hlim. unfold staged, total. simpl. rewrite !map_fold_empty. lia. Qed.

(** C16.  Whatever segments arrive on whatever links, the shared staging tables
    stay within their bounds: the memory budget is exactly the number of staged
    bytes and respects the configured limit, there are at most 1024 assemblies,
    at most 4 of a link, each with at most 1 GiB, and nothing is staged without
    an assembly. *)
Theorem staging_bounded lim os fs ft :
  Forall (λ o, budgetLimit (op_conf o) = lim ∧ useInMemoryResources (op_conf o) = true) os →
  let s := run os (start fs ft) in
  used (splitResourceBudget s) = staged s ∧ (0 < lim → staged s <= lim)
  ∧ Z.of_nat (size (splitAssemblies s)) <= maxSplitAssembliesTotal
  ∧ (∀ id, perLink (hexEncode id ++ [colon]) (splitAssemblies s) <= maxSplitAssembliesPerLink)
  ∧ (∀ k, weight k s <= maxSplitAssemblyBytes)
  ∧ ∀ k, splitAssemblies s !! k = None → weight k s = 0.
Proof.
  intros Hall s. assert (HI : staging_ok lim s).
  { subst s. pose proof (start_staging lim fs ft) as HI. revert HI. generalize (start fs ft). induction Hall as [|o os [Hlim Hmem] _ IH]; [done|]. intros s HI. simpl. apply IH.
    destruct o as [l payload adv pending|l]; simpl in *; [by apply segment_staging|]. 
    pose proof (drop_staging lim l s HI) as HD. unfold mbind, goM_bind. by destruct (dropSplitAssemblies l s) as [s' [| |]]. }
  split; [apply HI|]. split; [apply HI|]. split; [apply HI|]. split; [apply HI|]. split; [intros k; by apply (weight_max lim)|].
  intros k Hk. destruct (i_key _ _ HI k Hk) as [E1 E2]. unfold weight. by rewrite E1, E2.
Qed.
End theorems.

(** *** Segments in sequence *)

Section sequence.
Context `{MetaCodec}.

(** The operations on one key. *)
Definition touches (κ : bytes) (o : op) : bool :=
  match o with
  | Segment l _ adv _ => bool_decide (splitResourceKey l (R.a_OriginalHash adv) = κ)
  | Close l => bool_decide (dropPrefix l `prefix_of` κ)
  end.

(** The outcomes of the operations on one key. *)
Fixpoint results (κ : bytes) (os : list op) (s : Store) : list (outcome split_error (option delivery)) :=
  match os with
  | [] => []
  | o :: os => (if touches κ o then [(step o s).2] else []) ++ results κ os (step o s).1
  end.

(** The outcomes of a list of operations. *)
Fixpoint outcomes (os : list op) (s : Store) : list (outcome split_error (option delivery)) :=
  match os with [] => [] | o :: os => (step o s).2 :: outcomes os (step o s).1 end.

(** The segments of a resource, numbered from [i] to [n]. *)
Fixpoint numbered (n : Z) (h : bytes) (i : Z) (segs : list (bytes * R.ResourceAdvertisement * option nat)) : Prop :=
  match segs with
  | [] => i = n + 1
  | (p, adv, _) :: segs =>
      R.a_SegmentIndex adv = i ∧ R.a_TotalSegments adv = n ∧ R.a_OriginalHash adv = h ∧ numbered n h (i + 1) segs
  end.
Definition arrivals (l : Conf) (segs : list (bytes * R.ResourceAdvertisement * option nat)) : list op :=
  (λ x, Segment l x.1.1 x.1.2 x.2) <$> segs.
Definition sizeOf (segs : list (bytes * R.ResourceAdvertisement * option nat)) : Z := foldr (λ x n, len x.1.1 + n) 0 segs.

Lemma op_staging o s lim :
  budgetLimit (op_conf o) = lim → useInMemoryResources (op_conf o) = true → staging_ok lim s → staging_ok lim (step o s).1.
Proof.
  intros Hlim Hmem HI. destruct o as [l payload adv pending|l]; simpl in *; [by apply segment_staging|].
  pose proof (drop_staging lim l s HI) as HD. unfold mbind, goM_bind. by destruct (dropSplitAssemblies l s) as [s' [| |]].
Qed.

Lemma dropAll_view κ ks s : Forall (λ kv, kv.1 ≠ κ) ks → view κ (dropAll ks s) = view κ s.
Proof.
  intros Hall. unfold dropAll. revert s. induction Hall as [|kv ks Hkv _ IH]; [done|]. intros s. simpl. rewrite IH.
  unfold dropAssembly. repeat case_match; unfold view; simpl; by rewrite ?lookup_delete_ne.
Qed.

Lemma elsewhere_view κ o s : touches κ o = false → view κ (step o s).1 = view κ s.
Proof.
  destruct o as [l payload adv pending|l]; simpl; intros Hne%bool_decide_eq_false.
  - set (key := splitResourceKey l (R.a_OriginalHash adv)) in *.
    assert (HK : keeps (views κ (view κ s)) (handleSplitSegmentComplete l payload adv pending)); [|by apply HK].
    unfold handleSplitSegmentComplete. fold key. apply keeps_bind; [auto with keeps|intros _].
    apply keeps_bind; [by apply admit_views|intros _].
    unfold handleSplitSegmentInMemory, handleSplitSegmentOnDisk, stageInMemory, stageMeta, reserve, mkdirAll, remove,
      writeFile, openFile, appendFile, readFile, onFiles, fileOp. fold key. keeps_auto;
      unfold views, view, discardStaged in *; repeat case_match; simpl in *; by rewrite ?lookup_insert_ne, ?lookup_delete_ne.
  - set (ks := map_to_list (filter (λ kv : bytes * splitAsm, dropPrefix l `prefix_of` kv.1) (splitAssemblies s))).
    assert (Hks : view κ (dropAll ks s) = view κ s).
    { apply dropAll_view, list.Forall_forall. intros [k a] Hin%elem_of_map_to_list%map_lookup_filter_Some_1_2.
      simpl in *. by intros ->. }
    pose proof (dropFiles_tables (tables (dropAll ks s)) l ks (mret ()) (keeps_ret _ _) (dropAll ks s) eq_refl) as HT.
    change (tables (dropSplitAssemblies l s).1 = tables (dropAll ks s)) in HT.
    assert (Hv : view κ (dropSplitAssemblies l s).1 = view κ (dropAll ks s)) by (injection HT as _ E1 E2 E3; unfold view; congruence).
    unfold mbind, goM_bind. rewrite <- Hks, <- Hv. by destruct (dropSplitAssemblies l s) as [s' [| |]].
Qed.

(** [k] of [n] segments are staged. *)
Record progress (κ : bytes) (n k w : Z) (data : bytes) (meta : option bytes) (s : Store) : Prop := {
  p_asm : ∃ d oh, splitAssemblies s !! κ = Some (mkAsm (k + 1) n d w oh);
  p_mem : splitResourceMem s !! κ = Some data;
  p_meta : splitResourceMetaMem s !! κ = meta
}.

Lemma view_progress κ n k w data meta s s' : view κ s' = view κ s → progress κ n k w data meta s → progress κ n k w data meta s'.
Proof. intros [= E1 E2 E3] [H1 H2 H3]. split; by rewrite ?E1, ?E2, ?E3. Qed.
(** The next segment, memory not being limited. *)
Lemma next_segment l h n k w data meta p adv pend s :
  let κ := splitResourceKey l h in
  budgetLimit l <= 0 → useInMemoryResources l = true → staging_ok (budgetLimit l) s → h ≠ [] → 1 <= k → k + 1 <= n <= 65535 →
  progress κ n k w data meta s → R.a_SegmentIndex adv = k + 1 → R.a_TotalSegments adv = n → R.a_OriginalHash adv = h →
  w + len p <= Z.min (n * R.MaxEfficientSize) maxSplitAssemblyBytes →
  let r := step (Segment l p adv pend) s in
  if k + 1 <? n then r.2 = Ok None ∧ progress κ n (k + 1) (w + len p) (data ++ p) meta r.1
  else r.2 = Ok (concluded_with l adv pend (data ++ p) meta).
Proof.
  intros κ Hlim Hmem HI Hh Hk Hn [(d & oh & Ha) Hm Hmeta] Hidx Htot Horig Hsize.
  intros r. destruct (complete_wp l p adv pend s Hmem HI) as [(_ & E & _)|(r1 & s1 & HA & HR)]; [congruence|].
  change (handleSplitSegmentComplete l p adv pend s) with r in *. cbv zeta in HA, HR. rewrite Horig in HA, HR. fold κ in HA, HR. clearbody r. destruct r as [s' o]. simpl in HR |- *.
  set (a := mkAsm (k + 1) n d w oh) in *.
  assert (HF : follows adv (len p) a) by (split; [done|]; split; [done|]; unfold stagedLimit; simpl; lia).
  destruct HA as [oh' E _ _|a' E Ha' _|e _ HN|e oh' E _ _]; [lia| |by destruct (HN ltac:(lia) a Ha HF)|lia].
  assert (a' = a) as -> by congruence. destruct HR as (a1 & <-%insertAsm_inj & _ & HR).
  assert (Eidx : (R.a_SegmentIndex adv =? 1) = false) by (apply Z.eqb_neq; lia).
  assert (Hf : fileRegion adv p = Ok (None, p)) by (unfold fileRegion; by rewrite Eidx, andb_false_r).
  assert (He : ∀ b, earlier adv κ (insertAsm κ b s) = (data, meta)) by (intros b; unfold earlier; rewrite Eidx; simpl; by rewrite Hm, Hmeta).
  destruct HR as [e m ? _ _ _ _ [HE|[_ HE]]|meta' body ? HE Hlt Hv _|meta' body ? HE Hge Hv]; [congruence|lia| |];
    rewrite Hf in HE; injection HE as <- <-.
  - rewrite He in Hv. simpl in Hv. rewrite (left_id_L None union) in Hv. destruct (Z.ltb_spec (k + 1) n); [|lia]. split; [done|]. injection Hv as E1 E2 E3. split; [|done|done].
    exists d, oh. rewrite E1. unfold u16. rewrite Hidx, Z.mod_small by lia. done.
  - rewrite He. simpl. rewrite (left_id_L None union). destruct (Z.ltb_spec (k + 1) n); [lia|done].
Qed.

(** The first segment, whatever is staged of an earlier attempt. *)
Lemma first_segment l h n p meta body adv pend s :
  let κ := splitResourceKey l h in
  budgetLimit l <= 0 → useInMemoryResources l = true → staging_ok (budgetLimit l) s → h ≠ [] → 2 <= n <= 65535 →
  (splitAssemblies s !! κ = None → room (linkID l) s) →
  R.a_SegmentIndex adv = 1 → R.a_TotalSegments adv = n → R.a_OriginalHash adv = h → fileRegion adv p = Ok (meta, body) →
  len p <= Z.min (n * R.MaxEfficientSize) maxSplitAssemblyBytes →
  let r := step (Segment l p adv pend) s in
  r.2 = Ok None ∧ progress κ n 1 (len p) body meta r.1.
Proof.
  intros κ Hlim Hmem HI Hh Hn Hroom Hidx Htot Horig Hf Hsize.
  intros r. destruct (complete_wp l p adv pend s Hmem HI) as [(_ & E & _)|(r1 & s1 & HA & HR)]; [congruence|].
  change (handleSplitSegmentComplete l p adv pend s) with r in *. cbv zeta in HA, HR. rewrite Horig in HA, HR. fold κ in HA, HR. clearbody r. destruct r as [s' o]. simpl in HR |- *.
  destruct HA as [oh' _ _ _|a' E|e HN _|e oh' E _ HL]; [|lia|by destruct (HN Hidx) as [HN1 HN2]; destruct (HN2 (Hroom HN1))|
    unfold stagedLimit in HL; simpl in HL; lia].
  destruct HR as (a1 & <-%insertAsm_inj & _ & HR). set (a1 := startedAsm _ _ _ _) in *.
  assert (He : earlier adv κ (insertAsm κ a1 s) = ([], None)) by (unfold earlier; by rewrite Hidx).
  destruct HR as [e m ? _ _ _ _ [HE|[_ HE]]|meta' body' ? HE Hlt Hv _|meta' body' ? HE Hge Hv]; [congruence|lia| |lia].
  rewrite Hf in HE. injection HE as <- <-. rewrite He in Hv. simpl in Hv. injection Hv as E1 E2 E3.
  split; [done|]. split; [|done|by rewrite E3, (right_id_L None union)].
  exists (R.a_DataSize adv), oh'. rewrite E1. unfold a1, startedAsm. by rewrite Htot.
Qed.

(** The links of a process with memory staging and no limit. *)
Definition unlimited (lim : Z) (o : op) : Prop := budgetLimit (op_conf o) = lim ∧ useInMemoryResources (op_conf o) = true.

Lemma no_results κ os s : filter (λ o, touches κ o) os = [] → results κ os s = [].
Proof.
  revert s. induction os as [|o os IH]; [done|]. intros s HF. rewrite filter_cons in HF. simpl.
  destruct (touches κ o); simpl in *; [done|]. by apply IH.
Qed.

Lemma sizeOf_nonneg segs : 0 <= sizeOf segs.
Proof. induction segs as [|y segs IH]; simpl; [done|]. pose proof (len_nonneg y.1.1). lia. Qed.

Lemma numbered_bound n h i segs x : numbered n h (i + 1) (segs ++ [x]) → i < n.
Proof.
  revert i. induction segs as [|[[p adv] pend] segs IH]; intros i; simpl.
  - destruct x as [[p adv] pend]. intros (_ & _ & _ & Hn). lia.
  - intros (_ & _ & _ & HN). apply IH in HN. lia.
Qed.

Lemma later_segments l h n : ∀ os segs x k w data meta s,
  let κ := splitResourceKey l h in
  budgetLimit l <= 0 → useInMemoryResources l = true → Forall (unlimited (budgetLimit l)) os → staging_ok (budgetLimit l) s →
  h ≠ [] → 1 <= k → n <= 65535 → progress κ n k w data meta s →
  filter (λ o, touches κ o) os = arrivals l (segs ++ [x]) → numbered n h (k + 1) (segs ++ [x]) →
  w + sizeOf (segs ++ [x]) <= Z.min (n * R.MaxEfficientSize) maxSplitAssemblyBytes →
  results κ os s = replicate (length segs) (Ok None)
    ++ [Ok (concluded_with l x.1.2 x.2 (data ++ mjoin ((λ y, y.1.1) <$> segs ++ [x])) meta)].
Proof.
  induction os as [|o os IH]; intros segs x k w data meta s κ Hlim Hmem Hall HI Hh Hk Hn HP HF HN Hsize.
  { by destruct segs. }
  destruct (Forall_inv Hall) as [Hol Hom]. apply Forall_inv_tail in Hall. rewrite filter_cons in HF. simpl.
  pose proof (op_staging o s _ Hol Hom HI) as HI'. destruct (touches κ o) eqn:Ho; simpl in HF.
  2: { simpl. eapply IH; try done. eapply view_progress; [by apply elsewhere_view|done]. }
  destruct segs as [|[[p adv] pend] segs]; simpl in HF, HN, Hsize; injection HF as -> HF.
  - destruct x as [[p adv] pend]. simpl in *. destruct HN as (Hi & Ht & Hh' & Hend).
    rewrite no_results by done. pose proof (next_segment l h n k w data meta p adv pend s Hlim Hmem HI Hh Hk ltac:(lia) HP Hi Ht Hh' ltac:(lia)) as HS.
    cbv zeta in HS. destruct (Z.ltb_spec (k + 1) n); [lia|]. simpl in HS. rewrite HS. by rewrite app_nil_r.
  - simpl in *. destruct HN as (Hi & Ht & Hh' & HN).
    assert (Hlast : k + 1 < n) by (eapply numbered_bound; exact HN).
    assert (Hpos : 0 <= sizeOf (segs ++ [x])) by apply sizeOf_nonneg.
    pose proof (next_segment l h n k w data meta p adv pend s Hlim Hmem HI Hh Hk ltac:(lia) HP Hi Ht Hh' ltac:(lia)) as HS.
    cbv zeta in HS. destruct (Z.ltb_spec (k + 1) n); [|lia]. destruct HS as [HR HP']. simpl in HR. rewrite HR. simpl. f_equal.
    rewrite app_assoc. eapply (IH segs x (k + 1) (w + len p)); try done; lia.
Qed.

End sequence.

Section segment_theorems.
Context `{MetaCodec}.

(** C15.  The segments of a split resource, arriving in order on their link among
    any other traffic, are accepted without a hand-over until the last one, which
    hands over their concatenation, the metadata region of the first segment
    taken off, exactly once.  What an earlier attempt has left does not matter.
    The resource is staged in memory, which is not limited here, there is room for
    it among the assemblies of the link, and its size stays within the limit of an
    assembly. *)
Theorem split_segments_assembled l h n os p adv pend segs x meta body s :
  let κ := splitResourceKey l h in
  budgetLimit l <= 0 → useInMemoryResources l = true → Forall (unlimited (budgetLimit l)) os → staging_ok (budgetLimit l) s →
  h ≠ [] → n <= 65535 → (splitAssemblies s !! κ = None → room (linkID l) s) →
  numbered n h 1 ((p, adv, pend) :: segs ++ [x]) → fileRegion adv p = Ok (meta, body) →
  sizeOf ((p, adv, pend) :: segs ++ [x]) <= Z.min (n * R.MaxEfficientSize) maxSplitAssemblyBytes →
  filter (λ o, touches κ o) os = arrivals l (segs ++ [x]) →
  results κ (Segment l p adv pend :: os) s
  = Ok None :: replicate (length segs) (Ok None)
    ++ [Ok (concluded_with l x.1.2 x.2 (body ++ mjoin ((λ y, y.1.1) <$> segs ++ [x])) meta)].
Proof.
  intros κ Hlim Hmem Hall HI Hh Hn Hroom HN Hf Hsize HF. simpl in HN. destruct HN as (Hi & Ht & Ho & HN).
  assert (Hlast : 1 < n) by (eapply numbered_bound; exact HN).
  assert (Hpos : 0 <= sizeOf (segs ++ [x])) by apply sizeOf_nonneg. simpl in Hsize.
  destruct (first_segment l h n p meta body adv pend s Hlim Hmem HI Hh ltac:(lia) Hroom Hi Ht Ho Hf ltac:(lia)) as [HR HP].
  simpl. rewrite bool_decide_true by (by rewrite Ho). simpl in HR. rewrite HR. simpl. f_equal.
  apply (later_segments l h n os segs x 1 (len p)); try done; lia || by apply (op_staging (Segment l p adv pend)).
Qed.

(** A first segment that does not fit. *)
Lemma first_refused l h adv p pend s :
  let κ := splitResourceKey l h in
  0 < budgetLimit l → useInMemoryResources l = true → staging_ok (budgetLimit l) s → h ≠ [] →
  splitAssemblies s !! κ = None → room (linkID l) s →
  R.a_SegmentIndex adv = 1 → R.a_TotalSegments adv = 2 → R.a_OriginalHash adv = h → R.a_HasMetadata adv = false →
  len p <= R.MaxEfficientSize → used (splitResourceBudget s) <= budgetLimit l < used (splitResourceBudget s) + len p →
  ∃ s1 d oh, step (Segment l p adv pend) s = (s1, Err BudgetExceeded)
    ∧ view κ s1 = (Some (mkAsm 2 2 d (len p) oh), splitResourceMem s1 !! κ, None)
    ∧ default [] (splitResourceMem s1 !! κ) = [] ∧ used (splitResourceBudget s1) = used (splitResourceBudget s).
Proof.
  intros κ Hlim Hmem HI Hh Hnone Hroom Hi Ht Ho Hnm Hsize Hbig. destruct (i_key _ _ HI κ Hnone) as [Em Emeta].
  assert (Hw0 : weight κ s = 0) by (unfold weight; by rewrite Em, Emeta).
  assert (Hcap : R.MaxEfficientSize <= Z.min (2 * R.MaxEfficientSize) maxSplitAssemblyBytes) by discriminate.
  destruct (complete_wp l p adv pend s Hmem HI) as [(_ & E & _)|(r1 & s1 & HA & HR)]; [congruence|].
  cbv zeta in HA, HR. rewrite Ho in HA, HR. fold κ in HA, HR. simpl. destruct (handleSplitSegmentComplete l p adv pend s) as [s' o].
  destruct HA as [oh _ _ _|a' E|e HN _|e oh E _ HL]; [|lia|by destruct (HN Hi)|unfold stagedLimit in HL; simpl in HL; lia].
  destruct HR as (a1 & <-%insertAsm_inj & (_ & HU & HB) & HR). simpl in HR, HU, HB.
  assert (Hf : fileRegion adv p = Ok (None, p)) by (unfold fileRegion; by rewrite Hnm).
  assert (He : ∀ b, earlier adv κ (insertAsm κ b s) = ([], None)) by (intros b; unfold earlier; by rewrite Hi).
  destruct HR as [e m ? Ha _ Hv Hm HE|meta' body ? HE Hlt Hv _|meta' body ? HE Hge Hv]; [| |lia].
  - destruct HE as [HE|[-> _]]; [congruence|]. assert (m = None) as -> by (destruct Hm as [?|[? ?]]; congruence).
    rewrite He in Hv. injection Hv as Hv1 Hv2. exists s', (R.a_DataSize adv), oh. split; [done|]. unfold view. rewrite Hv2.
    split; [|split; [done|]].
    + rewrite Ha. unfold startedAsm. by rewrite Ht.
    + unfold weight at 1 in HU. rewrite Hv1, Hv2 in HU. change (len _ + len _) with 0 in HU. lia.
  - exfalso. specialize (HB Hlim ltac:(lia)). rewrite Hf in HE. injection HE as <- <-. rewrite He in Hv. injection Hv as _ E2 E3. unfold weight at 1 in HU. rewrite E2, E3 in HU.
    simpl in HU. change (len (@nil byte)) with 0 in HU. lia.
Qed.

(** A segment that is refused for want of memory is nevertheless counted as
    received: the next one is accepted, and what is handed over at the end lacks
    the refused segment, without any error. *)
Theorem refused_segment_leaves_gap l h adv1 adv2 p1 p2 pend1 pend2 s :
  let κ := splitResourceKey l h in
  0 < budgetLimit l → useInMemoryResources l = true → staging_ok (budgetLimit l) s → h ≠ [] →
  splitAssemblies s !! κ = None → room (linkID l) s →
  numbered 2 h 1 [(p1, adv1, pend1); (p2, adv2, pend2)] → R.a_HasMetadata adv1 = false →
  len p1 + len p2 <= R.MaxEfficientSize → budgetLimit l < used (splitResourceBudget s) + len p1 →
  used (splitResourceBudget s) + len p2 <= budgetLimit l →
  results κ [Segment l p1 adv1 pend1; Segment l p2 adv2 pend2] s
  = [Err BudgetExceeded; Ok (concluded_with l adv2 pend2 p2 None)].
Proof.
  intros κ Hlim Hmem HI Hh Hnone Hroom (Hi1 & Ht1 & Ho1 & Hi2 & Ht2 & Ho2 & _) Hnm Hsize Hbig Hfits.
  pose proof (len_nonneg p1). pose proof (len_nonneg p2).
  destruct (first_refused l h adv1 p1 pend1 s Hlim Hmem HI Hh Hnone Hroom Hi1 Ht1 Ho1 Hnm ltac:(lia) ltac:(lia))
    as (s1 & d & oh & Hs1 & Hv & Hempty & Hu).
  pose proof (op_staging (Segment l p1 adv1 pend1) s _ eq_refl Hmem HI) as HI1. rewrite Hs1 in HI1. simpl in HI1.
  injection Hv as Ha Hmeta. fold κ in Ha, Hempty, Hmeta.
  unfold results. rewrite Hs1. simpl. rewrite !bool_decide_true by (by rewrite ?Ho1, ?Ho2). simpl. f_equal. f_equal.
  destruct (complete_wp l p2 adv2 pend2 s1 Hmem HI1) as [(_ & E & _)|(r1 & s2 & HA & HR)]; [congruence|].
  cbv zeta in HA, HR. rewrite Ho2 in HA, HR. fold κ in HA, HR. destruct (handleSplitSegmentComplete l p2 adv2 pend2 s1) as [s' o].
  assert (Hcap : R.MaxEfficientSize <= Z.min (2 * R.MaxEfficientSize) maxSplitAssemblyBytes) by discriminate.
  destruct HA as [oh' E _ _|a' E Ha' _|e _ HN|e oh' E _ _]; [lia| |exfalso; apply (HN ltac:(lia) _ Ha)|lia].
  2: { split; [done|]. split; [done|]. unfold stagedLimit. simpl. lia. }
  destruct HR as (a1 & <-%insertAsm_inj & _ & HR). simpl in HR |- *.
  assert (Hf : fileRegion adv2 p2 = Ok (None, p2)) by (unfold fileRegion; by rewrite Hi2, andb_false_r).
  assert (He : ∀ b, earlier adv2 κ (insertAsm κ b s1) = ([], None)) by (intros b; unfold earlier; rewrite Hi2; simpl; by rewrite Hempty, Hmeta).
  destruct HR as [e m ? _ _ _ _ HE|meta' body ? HE Hlt _ _|meta' body ? HE Hge _]; [|lia|].
  - destruct HE as [HE|[_ HE]]; [congruence|]. simpl in HE. lia.
  - rewrite Hf in HE. injection HE as <- <-. rewrite He. by rewrite (left_id_L None union).
Qed.
End segment_theorems.

(** *** Closing a link *)

(** The staging files are not among those removed. *)
Lemma dropped_path l h oh (t u : bytes) :
  t = [] ∨ t = metaSuffix → u = [] ∨ u = metaSuffix →
  resourceStoragePath l h ++ t ≠ joinPath (storageDir l) (hexEncode oh) ++ u.
Proof.
  intros _ Hu E. unfold resourceStoragePath, joinPath in E. rewrite <- !app_assoc in E. apply app_inv_head in E. injection E as E.
  assert (Hin : x2d ∈ hexEncode oh ++ u) by (rewrite <- E; apply elem_of_app; right; apply elem_of_cons; by left).
  apply elem_of_app in Hin as [Hin|Hin]; [by apply hexEncode_no in Hin|]. destruct Hu as [->| ->].
  - by apply elem_of_nil in Hin.
  - unfold metaSuffix in Hin. rewrite !elem_of_cons, elem_of_nil in Hin. naive_solver.
Qed.

Lemma remove_other path k : path ≠ k → ∀ v, keeps (λ s, files s !! k = v) (remove path).
Proof.
  intros Hne v. unfold remove, fileOp, onFiles. keeps_auto; simpl in *; rewrite ?lookup_delete_ne by done; done.
Qed.

(** The files staged for a link survive its closing. *)
Lemma drop_leaves_files l h t s :
  t = [] ∨ t = metaSuffix →
  let path := resourceStoragePath l h ++ t in files (dropSplitAssemblies l s).1 !! path = files s !! path.
Proof.
  intros Ht path. set (ks := map_to_list (filter (λ kv : bytes * splitAsm, dropPrefix l `prefix_of` kv.1) (splitAssemblies s))).
  assert (Hd : files (dropAll ks s) = files s).
  { unfold dropAll. clearbody ks. revert s. induction ks as [|kv ks IH]; [done|]. intros s. simpl. rewrite IH.
    unfold dropAssembly. repeat case_match; done. }
  assert (HK : ∀ ks (m : M ()), keeps (λ s', files s' !! path = files s !! path) m → keeps (λ s', files s' !! path = files s !! path)
            (foldl (λ m kv, m ;; let path := joinPath (storageDir l) (hexEncode (origHash kv.2)) in
               remove path ;; remove (path ++ metaSuffix)) m (ks : list (bytes * splitAsm)))).
  { clear ks Hd. induction ks as [|kv ks IH]; [done|]. intros m Hm. simpl. apply IH, keeps_bind; [done|]. intros _.
    apply keeps_bind; [|intros _]; apply remove_other; apply not_eq_sym.
    - rewrite <- (app_nil_r (joinPath _ _)). apply dropped_path; auto.
    - apply dropped_path; auto. }
  change (files (foldl (λ m kv, m ;; let path := joinPath (storageDir l) (hexEncode (origHash kv.2)) in
               remove path ;; remove (path ++ metaSuffix)) (mret ()) ks (dropAll ks s)).1 !! path = files s !! path).
  apply HK; [apply keeps_ret|by rewrite Hd].
Qed.

(** A link that never had an identifier drops the assemblies of every link. *)
Lemma unnamed_drop l s : linkID l = [] → splitAssemblies (dropSplitAssemblies l s).1 = ∅.
Proof.
  intros Hid. set (ks := map_to_list (filter (λ kv : bytes * splitAsm, dropPrefix l `prefix_of` kv.1) (splitAssemblies s))).
  pose proof (dropFiles_tables (tables (dropAll ks s)) l ks (mret ()) (keeps_ret _ _) (dropAll ks s) eq_refl) as HT.
  change (tables (dropSplitAssemblies l s).1 = tables (dropAll ks s)) in HT. injection HT as _ _ _ ->.
  assert (Hk : ∀ ks s k, k ∈ ks.*1 ∨ splitAssemblies s !! k = None → splitAssemblies (dropAll ks s) !! k = None).
  { clear. unfold dropAll. induction ks as [|kv ks IH]; intros s k Hk; simpl in *; [destruct Hk as [Hk|]; [by apply elem_of_nil in Hk|done]|].
    apply IH. rewrite elem_of_cons in Hk.
    assert (Ha : splitAssemblies (dropAssembly kv.1 s) = delete kv.1 (splitAssemblies s)) by (unfold dropAssembly; repeat case_match; done).
    rewrite Ha. destruct (decide (k = kv.1)) as [->|]; [right; apply lookup_delete_eq|]. rewrite lookup_delete_ne by done. tauto. }
  apply map_eq. intros k. rewrite lookup_empty. apply Hk. destruct (splitAssemblies s !! k) as [a|] eqn:E; [left|by right].
  apply list_elem_of_fmap. exists (k, a). split; [done|]. apply elem_of_map_to_list, map_lookup_filter_Some. split; [done|].
  unfold dropPrefix. rewrite Hid. apply prefix_nil.
Qed.

(** *** Staging in files *)

Section disk.
Context `{MetaCodec}.

Lemma admit_tables key adv n s1 s2 :
  splitAssemblies s1 = splitAssemblies s2 →
  let r1 := admitSplitSegment key adv n s1 in
  let r2 := admitSplitSegment key adv n s2 in
  r1.2 = r2.2 ∧ splitAssemblies r1.1 = splitAssemblies r2.1
  ∧ r1.1 = set_assemblies (splitAssemblies r1.1) s1 ∧ r2.1 = set_assemblies (splitAssemblies r2.1) s2.
Proof.
  intros E r1 r2. subst r1 r2. unfold admitSplitSegment, openAssembly, mget, mbind, goM_bind, guard_go, check, modify, mret, goM_ret.
  destruct s1, s2. simpl in *. subst. repeat (case_match; simplify_eq/=); done.
Qed.

Lemma fileOp_works Q s : faults s = [] → Q (Ok Works) s → wp fileOp Q s.
Proof. intros Hf HQ. unfold fileOp. wp_step. rewrite Hf. by wp_step. Qed.

Lemma remove_wp path Q s : faults s = [] → Q (Ok ()) (set_files (delete path (files s)) [] s) → wp (remove path) Q s.
Proof. intros Hf HQ. unfold remove. apply wp_bind, fileOp_works; [done|]. unfold ends, onFiles. wp_step. by rewrite Hf. Qed.
Lemma writeFile_wp path data Q s : faults s = [] → Q (Ok ()) (set_files (<[path := data]> (files s)) [] s) → wp (writeFile path data) Q s.
Proof. intros Hf HQ. unfold writeFile. apply wp_bind, fileOp_works; [done|]. unfold ends, onFiles. wp_step. by rewrite Hf. Qed.
Lemma readFile_wp path Q s : faults s = [] → Q (Ok (files s !! path)) s → wp (readFile path) Q s.
Proof. intros Hf HQ. unfold readFile. apply wp_bind, fileOp_works; [done|]. unfold ends. by repeat wp_step. Qed.
Lemma mkdirAll_wp Q s : faults s = [] → Q (Ok ()) s → wp mkdirAll Q s.
Proof. intros Hf HQ. unfold mkdirAll. apply wp_bind, fileOp_works; [done|]. unfold ends. by wp_step. Qed.
(** Opening a file and writing to it. *)
Lemma append_wp (path : bytes) (trunc : bool) (data : bytes) (k : () → M (option delivery)) (Q : outcome split_error (option delivery) → Store → Prop) s :
  faults s = [] →
  wp (k ()) Q (set_files (<[path := (if trunc then [] else default [] (files s !! path)) ++ data]> (files s)) [] s) →
  wp (openFile path trunc ≫= λ _ : (), appendFile path data ≫= k) Q s.
Proof.
  intros Hf HQ. unfold openFile, appendFile. wp_step. apply wp_bind, fileOp_works; [done|]. unfold ends, onFiles. wp_step.
  wp_step. apply wp_bind, fileOp_works; [done|]. unfold ends. wp_step. simpl.
  rewrite lookup_insert_eq, insert_insert_eq, Hf. exact HQ.
Qed.

(** What is staged of earlier segments in files. *)
Definition earlierFiles (adv : R.ResourceAdvertisement) (path : bytes) (s : Store) : bytes * option bytes :=
  if R.a_SegmentIndex adv =? 1 then ([], None)
  else (default [] (files s !! path), files s !! (path ++ metaSuffix)).

Definition at_path (path : bytes) (data meta : option bytes) (s s' : Store) : Prop :=
  files s' !! path = data ∧ files s' !! (path ++ metaSuffix) = meta
  ∧ (∀ p, p ≠ path → p ≠ path ++ metaSuffix → files s' !! p = files s !! p) ∧ faults s' = [].

Lemma path_meta (path : bytes) : path ++ metaSuffix ≠ path.
Proof. intros E. apply (f_equal length) in E. rewrite length_app in E. simpl in E. lia. Qed.

Lemma onDisk_wp l payload adv pending meta body s :
  let path := resourceStoragePath l (R.a_OriginalHash adv) in
  faults s = [] → fileRegion adv payload = Ok (meta, body) →
  wp (handleSplitSegmentOnDisk l payload adv pending)
    (λ r s', let data := (earlierFiles adv path s).1 ++ body in let meta := union meta (earlierFiles adv path s).2 in
       if R.a_SegmentIndex adv <? R.a_TotalSegments adv
       then r = Ok None ∧ at_path path (Some data) meta s s' ∧ splitAssemblies s' = splitAssemblies s
       else r = Ok (conclude l adv pending data (meta ≫= unmarshalMeta)) ∧ at_path path None None s s'
            ∧ splitAssemblies s' = delete (splitResourceKey l (R.a_OriginalHash adv)) (splitAssemblies s)) s.
Proof.
  intros path Hf HR. unfold handleSplitSegmentOnDisk. fold path. pose proof (path_meta path) as Hne.
  apply wp_bind, mkdirAll_wp; [done|]. unfold ends. cbv zeta. apply wp_bind.
  set (meta0 := (earlierFiles adv path s).2).
  eapply (wp_mono _ (λ r s1, r = Ok () ∧ at_path path (files s !! path) meta0 s s1 ∧ splitAssemblies s1 = splitAssemblies s)).
  { subst meta0. unfold earlierFiles. destruct (R.a_SegmentIndex adv =? 1).
    - apply remove_wp; [done|]. split; [done|]. split; [|done]. split; simpl; [by rewrite lookup_delete_ne|].
      split; [apply lookup_delete_eq|]. split; [|done]. intros p _ Hp. by rewrite lookup_delete_ne.
    - wp_step. split; [done|]. split; [|done]. by split. }
  intros r s1 (-> & (Hp1 & Hm1 & Ho1 & Hf1) & Ha1). unfold ends. apply wp_bind.
  eapply (wp_mono _ (λ r s2, r = Ok body ∧ at_path path (files s !! path) (union meta meta0) s s2 ∧ splitAssemblies s2 = splitAssemblies s)).
  { unfold fileRegion in HR. destruct (R.a_HasMetadata adv && (R.a_SegmentIndex adv =? 1)).
    - destruct (metaRegion payload) as [[m b]| |]; simpl in HR; [|done|done]. injection HR as <- <-.
      apply wp_lift; [|done|done]. intros ? [= <-]. apply wp_bind, writeFile_wp; [done|]. unfold ends. wp_step.
      split; [done|]. split; [|done]. split; simpl; [by rewrite lookup_insert_ne|]. split; [rewrite lookup_insert_eq; by destruct meta0|].
      split; [|done]. intros p Hp Hpm. rewrite lookup_insert_ne by done. by apply Ho1.
    - injection HR as <- <-. wp_step. split; [done|]. split; [|done]. rewrite (left_id_L None union). by split. }
  clear s1 Hp1 Hm1 Ho1 Hf1 Ha1. intros r s1 (-> & (Hp1 & Hm1 & Ho1 & Hf1) & Ha1). unfold ends. apply append_wp; [done|].
  rewrite Hp1. set (data := (if R.a_SegmentIndex adv =? 1 then [] else default [] (files s !! path)) ++ body).
  assert (Hdata : (earlierFiles adv path s).1 ++ body = data) by (unfold data, earlierFiles; by destruct (R.a_SegmentIndex adv =? 1)).
  rewrite Hdata. clearbody data. destruct (R.a_SegmentIndex adv <? R.a_TotalSegments adv).
  - wp_step. split; [done|]. split; [|done]. split; simpl; [by rewrite lookup_insert_eq|]. split; [by rewrite lookup_insert_ne|].
    split; [|done]. intros p Hp Hpm. rewrite lookup_insert_ne by done. by apply Ho1.
  - apply wp_bind, readFile_wp; [done|]. simpl. rewrite lookup_insert_eq. apply wp_bind, readFile_wp; [done|]. simpl.
    rewrite lookup_insert_ne, Hm1 by done. apply wp_bind.
    eapply (wp_mono _ (λ r s2, r = Ok () ∧ at_path path (Some data) None s s2 ∧ splitAssemblies s2 = splitAssemblies s)).
    { destruct (meta ∪ meta0) as [m|].
      - apply remove_wp; [done|]. split; [done|]. split; [|done]. split; simpl; [by rewrite lookup_delete_ne, lookup_insert_eq|].
        split; [apply lookup_delete_eq|]. split; [|done]. intros p Hp Hpm. rewrite lookup_delete_ne, lookup_insert_ne by done. by apply Ho1.
      - wp_step. split; [done|]. split; [|done]. split; simpl; [by rewrite lookup_insert_eq|]. split; [by rewrite lookup_insert_ne|].
        split; [|done]. intros p Hp Hpm. rewrite lookup_insert_ne by done. by apply Ho1. }
    clear s1 Hp1 Hm1 Ho1 Hf1 Ha1. intros r s1 (-> & (Hp1 & Hm1 & Ho1 & Hf1) & Ha1). unfold ends.
    apply wp_bind, remove_wp; [done|]. unfold ends. wp_step. wp_step. split; [done|]. simpl. rewrite Ha1. split; [|done].
    split; simpl; [apply lookup_delete_eq|]. split; [by rewrite lookup_delete_ne|]. split; [|done].
    intros p Hp Hpm. rewrite lookup_delete_ne by done. by apply Ho1.
Qed.
(** Memory and files hold the same, for the assemblies that have begun. *)
Record same_staging (l ld : Conf) (sm sd : Store) : Prop := {
  e_asm : splitAssemblies sd = splitAssemblies sm;
  e_faults : faults sd = [];
  e_data : ∀ h a, splitAssemblies sm !! splitResourceKey l h = Some a → nextIndex a ≠ 1 →
    (default [] (files sd !! resourceStoragePath ld h), files sd !! (resourceStoragePath ld h ++ metaSuffix))
    = (default [] (splitResourceMem sm !! splitResourceKey l h), splitResourceMetaMem sm !! splitResourceKey l h)
}.

Lemma other_path ld h h' (t u : bytes) :
  hexEncode h' ≠ hexEncode h → t = [] ∨ t = metaSuffix → u = [] ∨ u = metaSuffix →
  resourceStoragePath ld h' ++ t ≠ resourceStoragePath ld h ++ u.
Proof.
  intros Hne Ht Hu E. unfold resourceStoragePath, joinPath in E. rewrite <- !app_assoc in E. apply app_inv_head in E. injection E as E.
  apply app_inv_head in E. injection E as E. pose proof (hexEncode_no x2e h separator_dot). pose proof (hexEncode_no x2e h' separator_dot).
  destruct Ht as [->| ->], Hu as [->| ->]; rewrite ?app_nil_r in E.
  - done.
  - apply H1. rewrite E. apply elem_of_app. right. apply elem_of_cons. by left.
  - apply H0. rewrite <- E. apply elem_of_app. right. apply elem_of_cons. by left.
  - by apply app_inv_tail in E.
Qed.

Lemma same_key l h h' : splitResourceKey l h' = splitResourceKey l h ↔ hexEncode h' = hexEncode h.
Proof. unfold splitResourceKey. split; [intros E%app_inv_head|intros ->; done]. by injection E. Qed.

(** The other assemblies. *)
Lemma same_elsewhere l ld h sm sd sm' sd' lim data meta :
  same_staging l ld sm sd → moves lim (splitResourceKey l h) sm sm' → at_path (resourceStoragePath ld h) data meta sd sd' →
  splitAssemblies sd' = splitAssemblies sm' →
  (∀ a, splitAssemblies sm' !! splitResourceKey l h = Some a → nextIndex a ≠ 1 →
     (default [] data, meta) = (default [] (splitResourceMem sm' !! splitResourceKey l h), splitResourceMetaMem sm' !! splitResourceKey l h)) →
  same_staging l ld sm' sd'.
Proof.
  intros [He Hf Hd] (Hv & _ & _) (Hp & Hm & Ho & Hf') Ha Hkey. split; [done|done|]. intros h' a Ea Hi.
  destruct (decide (hexEncode h' = hexEncode h)) as [E|E].
  - assert (Ek : splitResourceKey l h' = splitResourceKey l h) by by apply same_key.
    assert (Epath : resourceStoragePath ld h' = resourceStoragePath ld h) by (unfold resourceStoragePath; by rewrite E).
    rewrite Ek in *. rewrite Epath, Hp, Hm. by apply (Hkey a).
  - assert (Ek : splitResourceKey l h' ≠ splitResourceKey l h) by by rewrite same_key.
    pose proof (Hv _ Ek) as Ev. injection Ev as E1 E2 E3. rewrite E2, E3, <- (Hd h' a); [|congruence|done].
    pose proof (other_path ld h h' [] [] E ltac:(auto) ltac:(auto)) as P1. pose proof (other_path ld h h' [] metaSuffix E ltac:(auto) ltac:(auto)) as P2.
    pose proof (other_path ld h h' metaSuffix [] E ltac:(auto) ltac:(auto)) as P3. pose proof (other_path ld h h' metaSuffix metaSuffix E ltac:(auto) ltac:(auto)) as P4.
    rewrite ?app_nil_r in *. by rewrite !Ho.
Qed.

Lemma conclude_same l ld adv pend data meta :
  concludedCallback ld = concludedCallback l → unmarshalMeta [] = None →
  conclude ld adv pend data (meta ≫= unmarshalMeta) = concluded_with l adv pend data meta.
Proof.
  intros Hcb Hnil. unfold concluded_with, conclude. rewrite Hcb. destruct meta as [[|x m]|]; simpl; by rewrite ?Hnil.
Qed.

(** An admitted segment. *)
Lemma same_staged l ld p adv pend a meta body sm sd :
  let κ := splitResourceKey l (R.a_OriginalHash adv) in
  let path := resourceStoragePath ld (R.a_OriginalHash adv) in
  budgetLimit l <= 0 → linkID ld = linkID l → concludedCallback ld = concludedCallback l → unmarshalMeta [] = None →
  fileRegion adv p = Ok (meta, body) → weight κ sm <= used (splitResourceBudget sm) → len p <= written a →
  R.a_SegmentIndex adv = 1 ∨ weight κ sm + len p <= written a →
  splitAssemblies sm !! κ = Some a → splitAssemblies sd = splitAssemblies sm → faults sd = [] →
  earlierFiles adv path sd = earlier adv κ sm →
  let rm := handleSplitSegmentInMemory l p adv pend sm in
  let rd := handleSplitSegmentOnDisk ld p adv pend sd in
  rd.2 = rm.2 ∧ moves (budgetLimit l) κ sm rm.1 ∧ splitAssemblies rd.1 = splitAssemblies rm.1
  ∧ ∃ data meta, at_path path data meta sd rd.1 ∧
    (∀ a, splitAssemblies rm.1 !! κ = Some a → (data, meta) = (splitResourceMem rm.1 !! κ, splitResourceMetaMem rm.1 !! κ)).
Proof.
  intros κ path Hlim Hid Hcb Hnil HR Hw Hle Hnext Ha Hasm Hf He rm rd.
  destruct (inMemory_wp l p adv pend a sm Ha Hw Hle Hnext) as [HM HSR]. fold κ rm in HM, HSR.
  pose proof (onDisk_wp ld p adv pend meta body sd Hf HR) as HD. fold path in HD. unfold wp in HD. fold rd in HD. cbv zeta in HD.
  assert (Eκ : splitResourceKey ld (R.a_OriginalHash adv) = κ) by (unfold κ, splitResourceKey; by rewrite Hid).
  rewrite Eκ, He in HD. clearbody rm rd. destruct rm as [sm' om], rd as [sd' od]. simpl in *.
  destruct HSR as [e m ? _ _ _ _ [HE|[_ HE]]|meta' body' ? HE Hlt Hv _|meta' body' ? HE Hge Hv]; [congruence|lia| |];
    rewrite HR in HE; injection HE as <- <-; injection Hv as E1 E2 E3.
  - destruct (Z.ltb_spec (R.a_SegmentIndex adv) (R.a_TotalSegments adv)); [|lia]. destruct HD as (-> & HA & HB).
    split; [done|]. split; [done|]. split.
    + apply map_eq. intros k. rewrite HB, Hasm. destruct (decide (k = κ)) as [->|Hk]; [congruence|].
      destruct HM as (HM & _). by injection (HM k Hk).
    + eexists _, _. split; [exact HA|]. intros a' _. by rewrite E2, E3.
  - destruct (Z.ltb_spec (R.a_SegmentIndex adv) (R.a_TotalSegments adv)); [lia|]. destruct HD as (-> & HA & HB).
    split; [f_equal; by apply conclude_same|]. split; [done|]. split.
    + apply map_eq. intros k. rewrite HB, Hasm. destruct (decide (k = κ)) as [->|Hk]; [by rewrite lookup_delete_eq, E1|].
      rewrite lookup_delete_ne by done. destruct HM as (HM & _). by injection (HM k Hk).
    + eexists _, _. split; [exact HA|]. intros a' Ha'. congruence.
Qed.

(** The same segment staged in memory and in files. *)
Lemma same_segment l ld p adv pend sm sd :
  budgetLimit l <= 0 → useInMemoryResources l = true → useInMemoryResources ld = false →
  linkID ld = linkID l → concludedCallback ld = concludedCallback l → unmarshalMeta [] = None →
  is_ok (fileRegion adv p) = true → staging_ok (budgetLimit l) sm → same_staging l ld sm sd →
  let rm := step (Segment l p adv pend) sm in
  let rd := step (Segment ld p adv pend) sd in
  rd.2 = rm.2 ∧ same_staging l ld rm.1 rd.1.
Proof.
  intros Hlim Hmem Hdisk Hid Hcb Hnil Hok HI HS.
  destruct (fileRegion adv p) as [[meta body]| |] eqn:HR; [|done|done]. set (κ := splitResourceKey l (R.a_OriginalHash adv)).
  assert (Eκ : splitResourceKey ld (R.a_OriginalHash adv) = κ) by (unfold κ, splitResourceKey; by rewrite Hid).
  destruct (admit_tables κ adv (len p) sm sd (eq_sym (e_asm _ _ _ _ HS))) as (Eo & Ea & Em & Ed).
  pose proof (admit_wp l adv (len p) sm) as HA. cbv zeta in HA. fold κ in HA. unfold wp in HA.
  unfold step, handleSplitSegmentComplete. rewrite Hmem, Hdisk, Eκ. fold κ. unfold mbind, goM_bind, guard_go, check.
  destruct (0 <? len (R.a_OriginalHash adv)); [|by split].
  destruct (admitSplitSegment κ adv (len p) sm) as [sm1 om], (admitSplitSegment κ adv (len p) sd) as [sd1 od].
  simpl in *. subst od. 
  assert (Hpath : at_path (resourceStoragePath ld (R.a_OriginalHash adv)) (files sd !! resourceStoragePath ld (R.a_OriginalHash adv))
            (files sd !! (resourceStoragePath ld (R.a_OriginalHash adv) ++ metaSuffix)) sd sd1).
  { rewrite Ed. by destruct HS. }
  set (path := resourceStoragePath ld (R.a_OriginalHash adv)) in *. pose proof (len_nonneg p).
  assert (Hgo : ∀ a, sm1 = insertAsm κ a sm → len p <= written a → R.a_SegmentIndex adv = 1 ∨ weight κ sm + len p <= written a →
            (R.a_SegmentIndex adv ≠ 1 → ∃ a0, splitAssemblies sm !! κ = Some a0 ∧ nextIndex a0 ≠ 1) →
            (handleSplitSegmentOnDisk ld p adv pend sd1).2 = (handleSplitSegmentInMemory l p adv pend sm1).2
            ∧ same_staging l ld (handleSplitSegmentInMemory l p adv pend sm1).1 (handleSplitSegmentOnDisk ld p adv pend sd1).1).
  { intros a E Hle Hnext Hbegun. assert (He : earlierFiles adv path sd1 = earlier adv κ sm1).
    { unfold earlierFiles, earlier. destruct (Z.eqb_spec (R.a_SegmentIndex adv) 1); [done|]. destruct (Hbegun ltac:(done)) as (a0 & Ha0 & Hn0).
      rewrite E, Ed. exact (e_data _ _ _ _ HS _ a0 Ha0 Hn0). }
    destruct (same_staged l ld p adv pend a meta body sm1 sd1) as (Hr & HM & Hasm & data & meta' & HP & Hk);
      try done; fold κ.
    - rewrite E. exact (weight_le κ sm (i_used _ _ HI)).
    - by rewrite E.
    - rewrite E. apply lookup_insert_eq.
    - rewrite Ed. apply HS.
    - split; [done|]. eapply (same_elsewhere l ld (R.a_OriginalHash adv) sm sd); [done| | |done|].
      + etrans; [|exact HM]. rewrite E. apply insertAsm_moves.
      + destruct HP as (HP1 & HP2 & HP3 & HP4). split; [done|]. split; [done|]. split; [|done].
        intros q Hq Hqm. rewrite HP3 by done. by rewrite Ed.
      + intros a' Ha' _. pose proof (Hk a' Ha') as EE. by injection EE as -> ->. }
  destruct HA as [oh E _ _|a E Ha' (Hn & Hs & Hle)|e _ _|e oh E _ _].
  - eapply Hgo; [done|done|by left|done].
  - destruct (i_asm _ _ HI κ a Ha') as (Hwr & _ & Hwt). eapply Hgo; [done|simpl; lia|right; simpl; lia|]. intros _. exists a. split; [done|lia].
  - split; [done|]. simpl. destruct HS as [H1 H2 H3]. split; [by rewrite <- Ea|by rewrite Ed|]. by rewrite Ed.
  - split; [done|]. simpl. eapply (same_elsewhere l ld (R.a_OriginalHash adv) sm sd _ _ 0); [done|apply insertAsm_moves|exact Hpath|done|].
    intros a' Ha' Hn. fold κ in Ha'. simpl in Ha'. rewrite lookup_insert_eq in Ha'. injection Ha' as <-. by destruct Hn.
Qed.

(** C17.  Staging in files and staging in memory hand over the same: for the same
    segments, whatever their order, sizes and numbers, as long as memory is not
    limited, the file system works and the metadata regions are well formed, every
    segment has the same outcome. *)
Theorem disk_same_as_memory l ld xs fs :
  budgetLimit l <= 0 → useInMemoryResources l = true → useInMemoryResources ld = false →
  linkID ld = linkID l → concludedCallback ld = concludedCallback l → unmarshalMeta [] = None →
  Forall (λ x : bytes * R.ResourceAdvertisement * option nat, is_ok (fileRegion x.1.2 x.1.1) = true) xs →
  outcomes (arrivals ld xs) (start fs []) = outcomes (arrivals l xs) (start fs []).
Proof.
  intros Hlim Hmem Hdisk Hid Hcb Hnil Hall.
  assert (Hgen : ∀ sm sd, staging_ok (budgetLimit l) sm → same_staging l ld sm sd →
            outcomes (arrivals ld xs) sd = outcomes (arrivals l xs) sm); [|apply Hgen; [apply start_staging|done]].
  induction Hall as [|[[p adv] pend] xs Hok _ IH]; [done|]. intros sm sd HI HS. simpl in Hok |- *.
  destruct (same_segment l ld p adv pend sm sd Hlim Hmem Hdisk Hid Hcb Hnil Hok HI HS) as [Hr HS']. f_equal; [done|].
  apply IH; [|done]. by apply (op_staging (Segment l p adv pend)).
Qed.
End disk.

(** ** Concrete stores *)

#[local] Instance rawMeta : MetaCodec := {|
  Metadata := bytes;
  unmarshalMeta b := match b with [] => None | _ => Some b end
|}.

Definition demo_mem : Conf := mkConf None [x64] [x01; x02] true.
Definition demo_limited : Conf := mkConf (Some (mkConfig true [] false 4)) [x64] [x01; x02] true.
Definition demo_disk : Conf := mkConf (Some (mkConfig false [x2f] false 0)) [x64] [x01; x02] true.
Definition other_link : Conf := mkConf None [x64] [x03; x04] true.

Definition demo_segment (i n : Z) : R.ResourceAdvertisement :=
  R.mkAdv 6 6 1 (replicate 32 x01) (replicate 4 x02) (replicate 32 x03) [] i n None (R.AdvFlagSplit ||| R.AdvFlagEncrypted).
Definition demo_first : R.ResourceAdvertisement :=
  R.mkAdv 6 6 1 (replicate 32 x01) (replicate 4 x02) (replicate 32 x03) [] 1 3 None
    (R.AdvFlagSplit ||| R.AdvFlagEncrypted ||| R.AdvFlagHasMetadata).

Definition demo_ops : list op :=
  [Segment other_link [x55] (demo_segment 1 3) None; Segment demo_mem [x63; x64] (demo_segment 2 3) None;
   Close other_link; Segment demo_mem [x65; x66] (demo_segment 3 3) None].

Lemma split_segments_assembled_witness :
  results (splitResourceKey demo_mem (replicate 32 x03))
    (Segment demo_mem [x00; x00; x01; x7f; x61; x62] demo_first None :: demo_ops) (start ∅ [])
  = [Ok None; Ok None; Ok (Some (Concluded [x61; x62; x63; x64; x65; x66] (Some [x7f]) (replicate 32 x03)))].
Proof.
  etrans; [apply (split_segments_assembled demo_mem (replicate 32 x03) 3 demo_ops [x00; x00; x01; x7f; x61; x62] demo_first None
           [([x63; x64], demo_segment 2 3, None)] ([x65; x66], demo_segment 3 3, None) (Some [x7f]) [x61; x62] (start ∅ []))|].
  - discriminate.
  - reflexivity.
  - repeat constructor.
  - apply start_staging.
  - discriminate.
  - discriminate.
  - split; reflexivity.
  - repeat split.
  - reflexivity.
  - discriminate.
  - vm_compute. reflexivity.
  - vm_compute. reflexivity.
Defined.

Lemma refused_segment_leaves_gap_witness :
  results (splitResourceKey demo_limited (replicate 32 x03))
    [Segment demo_limited [x61; x62; x63; x64; x65] (demo_segment 1 2) None; Segment demo_limited [x66] (demo_segment 2 2) None]
    (start ∅ [])
  = [Err BudgetExceeded; Ok (Some (Concluded [x66] None (replicate 32 x03)))].
Proof.
  etrans; [apply (refused_segment_leaves_gap demo_limited (replicate 32 x03))|].
  - reflexivity.
  - reflexivity.
  - apply start_staging.
  - discriminate.
  - reflexivity.
  - split; reflexivity.
  - repeat split.
  - reflexivity.
  - discriminate.
  - reflexivity.
  - discriminate.
  - vm_compute. reflexivity.
Defined.

Lemma disk_same_as_memory_witness :
  outcomes (arrivals demo_disk [([x61], demo_segment 1 2, None); ([x62], demo_segment 2 2, None)]) (start ∅ [])
  = [Ok None; Ok (Some (Concluded [x61; x62] None (replicate 32 x03)))].
Proof.
  etrans; [apply (disk_same_as_memory demo_mem demo_disk)|].
  - discriminate.
  - reflexivity.
  - reflexivity.
  - reflexivity.
  - reflexivity.
  - reflexivity.
  - repeat constructor.
  - vm_compute. reflexivity.
Defined.

Lemma staging_bounded_witness :
  staged (run [Segment demo_limited [x61; x62] (demo_segment 1 2) None] (start ∅ [])) <= 4.
Proof.
  destruct (staging_bounded 4 [Segment demo_limited [x61; x62] (demo_segment 1 2) None] ∅ []) as (_ & HL & _).
  - repeat constructor.
  - apply HL. reflexivity.
Defined.
End Split.
