(* ===== verification/Link.v ===== *)
(** * Links

    [pkg/link]: the session cipher ([link_crypto.go]), the three-packet
    handshake ([link_handshake.go], [link_proof.go]), the status machine with its
    watchdog ([link.go], [link_keepalive.go]) and reconnection ([reconnect.go]).
    The transport, the receiving interface, the protection engine and the msgpack
    codec of the round-trip time are the parameters of [LinkEnv]; what the link
    does to them is recorded in [effects]. *)

From S2P Require Import Prelude.
From S2P Require Import Sha256.
From S2P Require Import Packet.
From S2P Require Import Crypto.
From S2P Require Import HeaderRewrite.
From S2P Require Import Float64.
From S2P Require Import Common.
From S2P Require Import Identity.
From S2P Require Import Rate.

Module Link.
Import Common.
Local Open Scope go_scope.

Abbreviation packet := Packet.packet.

Definition ECPubSize : Z := 64.
Definition KeySize : Z := 32.
Definition LinkMTUSize : Z := 3.
Definition ModeByteMask : byte := xe0.
Definition SigLength : Z := 64.
Definition EstablishmentTimeoutPerHop : Float64.f64 := Float64.of_Z 6.
Definition Keepalive : Z := 360.
Definition StaleTime : Z := 720.
Definition DefaultMTU : Z := 1500.
Definition TokenOverhead : Z := 48.
Definition ModeAES128CBC : byte := x00.
Definition ModeAES256CBC : byte := x01.
Definition ModeDefault : byte := ModeAES256CBC.
Definition DestTypeLink : byte := x03.
Definition PathfinderM : byte := x80.
Definition HopCountUnreachable : byte := xff.
Definition KeepaliveRequestByte : byte := xff.
Definition KeepaliveResponseByte : byte := xfe.
Definition KeepaliveMaxRTT : Float64.f64 := Float64.ratio 175 100.
Definition KeepaliveMinSec : Float64.f64 := Float64.of_Z 5.

Inductive link_error :=
  | NoSessionKeys
  | DataTooShort
  | HMACFailed
  | CryptoFailed (e : Crypto.crypto_error)
  | IdentityFailed (e : Identity.identity_error)
  | PacketFailed (e : Packet.packet_error)
  | Refused
  | NoDestinationIdentity
  | RequestTooShort
  | InvalidPeerKey
  | MissingEphemeralKey
  | InvalidMode (m : byte)
  | InvalidStatus
  | HopMismatch (got want : Z)
  | ProofTooShort
  | ProofSignature
  | ClosedBeforeActive
  | SendFailed
  | NotActive
  | AlreadySettled
  | EstablishBusy
  | DestinationRequired
  | NoPath
  | InvalidRTT
  | RequiresSessionKeys
  | IdentificationLength
  | InvalidRemoteIdentity
  | InvalidSignature
  | RemoteBlackholed
  | NilOwner
  | OwnerKey
  | NoSigningKey
  | LengthMismatch
  | EmptyHash
  | NotPrepared
  | InvalidPacketType.

Definition crypt {A} (r : outcome Crypto.crypto_error A) : outcome link_error A :=
  match r with Ok a => Ok a | Err e => Err (CryptoFailed e) | Panic => Panic end.
Definition ident {A} (r : outcome Identity.identity_error A) : outcome link_error A :=
  match r with Ok a => Ok a | Err e => Err (IdentityFailed e) | Panic => Panic end.
Definition pack {A} (r : outcome Packet.packet_error A) : outcome link_error A :=
  match r with Ok a => Ok a | Err e => Err (PacketFailed e) | Panic => Panic end.

(** ** State *)

Inductive status := StatusPending | StatusHandshake | StatusActive | StatusStale | StatusClosed | StatusFailed.
#[global] Instance status_eq_dec : EqDecision status.
Proof. solve_decision. Defined.

(** A Go channel that is only closed: nil, open or closed. *)
Inductive doneChan := NilChan | OpenChan | ClosedChan.

Record Destination := mkDest {
  d_hash : bytes;
  d_type : byte;
  d_identity : option Identity.Identity;
  d_proofStrategy : byte;
  d_maxRequest : option Z
}.

(** What an operation does outside the link. *)
Inductive effect :=
  | SendPacket (p : packet)
  | IfaceSend (raw : bytes)
  | RegisterReceipt (p : packet)
  | RegisterLink (id : bytes)
  | UnregisterLink (id : bytes)
  | RegisterLinkPath (id : bytes)
  | ExpirePath (dest : bytes)
  | BeginOutboundEstablish (dest : bytes)
  | EndOutboundEstablish (dest : bytes)
  | Established
  | ClosedCallback
  | NotifyClosed
  | Identified (key : bytes)
  | Deliver (plaintext : bytes)
  | ToChannel (plaintext : bytes)
  | Handle (context : byte) (plaintext : option bytes)
  | ResourceProof (data : bytes).

Record Link := mkLink {
  destination : option Destination;
  networkInterface : option bool;
  establishedCallback : bool;
  st : status;
  initiator : bool;
  prv : option bytes;
  pub : bytes;
  sigPriv : option bytes;
  sigPub : bytes;
  peerPub : bytes;
  peerSigPub : bytes;
  hmacKey : option bytes;
  sessionKey : option bytes;
  cipher : option (bytes * bytes);
  linkID : bytes;
  mode : byte;
  mtu : Z;
  mdu : Z;
  requestPacket : option packet;
  requestTime : Z;
  establishedAt : Z;
  establishmentTimeout : Z;
  keepalive : Z;
  staleTime : Z;
  rtt : Float64.f64;
  expectedHops : byte;
  rebalanced : Z;
  lastInbound : Z;
  lastOutbound : Z;
  lastKeepalive : Z;
  lastDataReceived : Z;
  lastDataSent : Z;
  teardownReason : status;
  remoteIdentity : option Identity.Identity;
  linkDone : doneChan;
  watchdogDone : doneChan;
  watchdogActive : bool;
  packetCallback : bool;
  pendingPlainData : bytes;
  channelGate : bool;
  earlyChannel : list packet;
  inboundQ : list packet;
  inboundBusy : bool;
  cachedProofRaw : bytes;
  cachedProofPkt : option packet;
  effects : list effect
}.

Definition set_networkInterface (v : option bool) (l : Link) : Link :=
  mkLink (destination l) v (establishedCallback l) (st l) (initiator l) (prv l) (pub l) (sigPriv l)
    (sigPub l) (peerPub l) (peerSigPub l) (hmacKey l) (sessionKey l) (cipher l) (linkID l) (mode l)
    (mtu l) (mdu l) (requestPacket l) (requestTime l) (establishedAt l) (establishmentTimeout l)
    (keepalive l) (staleTime l) (rtt l) (expectedHops l) (rebalanced l) (lastInbound l)
    (lastOutbound l) (lastKeepalive l) (lastDataReceived l) (lastDataSent l) (teardownReason l)
    (remoteIdentity l) (linkDone l) (watchdogDone l) (watchdogActive l) (packetCallback l)
    (pendingPlainData l) (channelGate l) (earlyChannel l) (inboundQ l) (inboundBusy l)
    (cachedProofRaw l) (cachedProofPkt l) (effects l).
Definition set_st (v : status) (l : Link) : Link :=
  mkLink (destination l) (networkInterface l) (establishedCallback l) v (initiator l) (prv l)
    (pub l) (sigPriv l) (sigPub l) (peerPub l) (peerSigPub l) (hmacKey l) (sessionKey l) (cipher l)
    (linkID l) (mode l) (mtu l) (mdu l) (requestPacket l) (requestTime l) (establishedAt l)
    (establishmentTimeout l) (keepalive l) (staleTime l) (rtt l) (expectedHops l) (rebalanced l)
    (lastInbound l) (lastOutbound l) (lastKeepalive l) (lastDataReceived l) (lastDataSent l)
    (teardownReason l) (remoteIdentity l) (linkDone l) (watchdogDone l) (watchdogActive l)
    (packetCallback l) (pendingPlainData l) (channelGate l) (earlyChannel l) (inboundQ l)
    (inboundBusy l) (cachedProofRaw l) (cachedProofPkt l) (effects l).
Definition set_initiator (v : bool) (l : Link) : Link :=
  mkLink (destination l) (networkInterface l) (establishedCallback l) (st l) v (prv l) (pub l)
    (sigPriv l) (sigPub l) (peerPub l) (peerSigPub l) (hmacKey l) (sessionKey l) (cipher l)
    (linkID l) (mode l) (mtu l) (mdu l) (requestPacket l) (requestTime l) (establishedAt l)
    (establishmentTimeout l) (keepalive l) (staleTime l) (rtt l) (expectedHops l) (rebalanced l)
    (lastInbound l) (lastOutbound l) (lastKeepalive l) (lastDataReceived l) (lastDataSent l)
    (teardownReason l) (remoteIdentity l) (linkDone l) (watchdogDone l) (watchdogActive l)
    (packetCallback l) (pendingPlainData l) (channelGate l) (earlyChannel l) (inboundQ l)
    (inboundBusy l) (cachedProofRaw l) (cachedProofPkt l) (effects l).
Definition set_prv (p : option bytes) (q : bytes) (l : Link) : Link :=
  mkLink (destination l) (networkInterface l) (establishedCallback l) (st l) (initiator l) p q
    (sigPriv l) (sigPub l) (peerPub l) (peerSigPub l) (hmacKey l) (sessionKey l) (cipher l)
    (linkID l) (mode l) (mtu l) (mdu l) (requestPacket l) (requestTime l) (establishedAt l)
    (establishmentTimeout l) (keepalive l) (staleTime l) (rtt l) (expectedHops l) (rebalanced l)
    (lastInbound l) (lastOutbound l) (lastKeepalive l) (lastDataReceived l) (lastDataSent l)
    (teardownReason l) (remoteIdentity l) (linkDone l) (watchdogDone l) (watchdogActive l)
    (packetCallback l) (pendingPlainData l) (channelGate l) (earlyChannel l) (inboundQ l)
    (inboundBusy l) (cachedProofRaw l) (cachedProofPkt l) (effects l).
Definition set_signing (s : option bytes) (v : bytes) (l : Link) : Link :=
  mkLink (destination l) (networkInterface l) (establishedCallback l) (st l) (initiator l) (prv l)
    (pub l) s v (peerPub l) (peerSigPub l) (hmacKey l) (sessionKey l) (cipher l) (linkID l) (mode l)
    (mtu l) (mdu l) (requestPacket l) (requestTime l) (establishedAt l) (establishmentTimeout l)
    (keepalive l) (staleTime l) (rtt l) (expectedHops l) (rebalanced l) (lastInbound l)
    (lastOutbound l) (lastKeepalive l) (lastDataReceived l) (lastDataSent l) (teardownReason l)
    (remoteIdentity l) (linkDone l) (watchdogDone l) (watchdogActive l) (packetCallback l)
    (pendingPlainData l) (channelGate l) (earlyChannel l) (inboundQ l) (inboundBusy l)
    (cachedProofRaw l) (cachedProofPkt l) (effects l).
Definition set_peer (p s : bytes) (l : Link) : Link :=
  mkLink (destination l) (networkInterface l) (establishedCallback l) (st l) (initiator l) (prv l)
    (pub l) (sigPriv l) (sigPub l) p s (hmacKey l) (sessionKey l) (cipher l) (linkID l) (mode l)
    (mtu l) (mdu l) (requestPacket l) (requestTime l) (establishedAt l) (establishmentTimeout l)
    (keepalive l) (staleTime l) (rtt l) (expectedHops l) (rebalanced l) (lastInbound l)
    (lastOutbound l) (lastKeepalive l) (lastDataReceived l) (lastDataSent l) (teardownReason l)
    (remoteIdentity l) (linkDone l) (watchdogDone l) (watchdogActive l) (packetCallback l)
    (pendingPlainData l) (channelGate l) (earlyChannel l) (inboundQ l) (inboundBusy l)
    (cachedProofRaw l) (cachedProofPkt l) (effects l).
Definition set_session (h s : option bytes) (l : Link) : Link :=
  mkLink (destination l) (networkInterface l) (establishedCallback l) (st l) (initiator l) (prv l)
    (pub l) (sigPriv l) (sigPub l) (peerPub l) (peerSigPub l) h s (cipher l) (linkID l) (mode l)
    (mtu l) (mdu l) (requestPacket l) (requestTime l) (establishedAt l) (establishmentTimeout l)
    (keepalive l) (staleTime l) (rtt l) (expectedHops l) (rebalanced l) (lastInbound l)
    (lastOutbound l) (lastKeepalive l) (lastDataReceived l) (lastDataSent l) (teardownReason l)
    (remoteIdentity l) (linkDone l) (watchdogDone l) (watchdogActive l) (packetCallback l)
    (pendingPlainData l) (channelGate l) (earlyChannel l) (inboundQ l) (inboundBusy l)
    (cachedProofRaw l) (cachedProofPkt l) (effects l).
Definition set_cipher (v : option (bytes * bytes)) (l : Link) : Link :=
  mkLink (destination l) (networkInterface l) (establishedCallback l) (st l) (initiator l) (prv l)
    (pub l) (sigPriv l) (sigPub l) (peerPub l) (peerSigPub l) (hmacKey l) (sessionKey l) v
    (linkID l) (mode l) (mtu l) (mdu l) (requestPacket l) (requestTime l) (establishedAt l)
    (establishmentTimeout l) (keepalive l) (staleTime l) (rtt l) (expectedHops l) (rebalanced l)
    (lastInbound l) (lastOutbound l) (lastKeepalive l) (lastDataReceived l) (lastDataSent l)
    (teardownReason l) (remoteIdentity l) (linkDone l) (watchdogDone l) (watchdogActive l)
    (packetCallback l) (pendingPlainData l) (channelGate l) (earlyChannel l) (inboundQ l)
    (inboundBusy l) (cachedProofRaw l) (cachedProofPkt l) (effects l).
Definition set_linkID (v : bytes) (l : Link) : Link :=
  mkLink (destination l) (networkInterface l) (establishedCallback l) (st l) (initiator l) (prv l)
    (pub l) (sigPriv l) (sigPub l) (peerPub l) (peerSigPub l) (hmacKey l) (sessionKey l) (cipher l)
    v (mode l) (mtu l) (mdu l) (requestPacket l) (requestTime l) (establishedAt l)
    (establishmentTimeout l) (keepalive l) (staleTime l) (rtt l) (expectedHops l) (rebalanced l)
    (lastInbound l) (lastOutbound l) (lastKeepalive l) (lastDataReceived l) (lastDataSent l)
    (teardownReason l) (remoteIdentity l) (linkDone l) (watchdogDone l) (watchdogActive l)
    (packetCallback l) (pendingPlainData l) (channelGate l) (earlyChannel l) (inboundQ l)
    (inboundBusy l) (cachedProofRaw l) (cachedProofPkt l) (effects l).
Definition set_modemtu (m : byte) (n : Z) (l : Link) : Link :=
  mkLink (destination l) (networkInterface l) (establishedCallback l) (st l) (initiator l) (prv l)
    (pub l) (sigPriv l) (sigPub l) (peerPub l) (peerSigPub l) (hmacKey l) (sessionKey l) (cipher l)
    (linkID l) m n (mdu l) (requestPacket l) (requestTime l) (establishedAt l)
    (establishmentTimeout l) (keepalive l) (staleTime l) (rtt l) (expectedHops l) (rebalanced l)
    (lastInbound l) (lastOutbound l) (lastKeepalive l) (lastDataReceived l) (lastDataSent l)
    (teardownReason l) (remoteIdentity l) (linkDone l) (watchdogDone l) (watchdogActive l)
    (packetCallback l) (pendingPlainData l) (channelGate l) (earlyChannel l) (inboundQ l)
    (inboundBusy l) (cachedProofRaw l) (cachedProofPkt l) (effects l).
Definition set_mtumdu (n d : Z) (l : Link) : Link :=
  mkLink (destination l) (networkInterface l) (establishedCallback l) (st l) (initiator l) (prv l)
    (pub l) (sigPriv l) (sigPub l) (peerPub l) (peerSigPub l) (hmacKey l) (sessionKey l) (cipher l)
    (linkID l) (mode l) n d (requestPacket l) (requestTime l) (establishedAt l)
    (establishmentTimeout l) (keepalive l) (staleTime l) (rtt l) (expectedHops l) (rebalanced l)
    (lastInbound l) (lastOutbound l) (lastKeepalive l) (lastDataReceived l) (lastDataSent l)
    (teardownReason l) (remoteIdentity l) (linkDone l) (watchdogDone l) (watchdogActive l)
    (packetCallback l) (pendingPlainData l) (channelGate l) (earlyChannel l) (inboundQ l)
    (inboundBusy l) (cachedProofRaw l) (cachedProofPkt l) (effects l).
Definition set_request (p : option packet) (v : Z) (l : Link) : Link :=
  mkLink (destination l) (networkInterface l) (establishedCallback l) (st l) (initiator l) (prv l)
    (pub l) (sigPriv l) (sigPub l) (peerPub l) (peerSigPub l) (hmacKey l) (sessionKey l) (cipher l)
    (linkID l) (mode l) (mtu l) (mdu l) p v (establishedAt l) (establishmentTimeout l) (keepalive l)
    (staleTime l) (rtt l) (expectedHops l) (rebalanced l) (lastInbound l) (lastOutbound l)
    (lastKeepalive l) (lastDataReceived l) (lastDataSent l) (teardownReason l) (remoteIdentity l)
    (linkDone l) (watchdogDone l) (watchdogActive l) (packetCallback l) (pendingPlainData l)
    (channelGate l) (earlyChannel l) (inboundQ l) (inboundBusy l) (cachedProofRaw l)
    (cachedProofPkt l) (effects l).
Definition set_established (r : Float64.f64) (v : Z) (l : Link) : Link :=
  mkLink (destination l) (networkInterface l) (establishedCallback l) (st l) (initiator l) (prv l)
    (pub l) (sigPriv l) (sigPub l) (peerPub l) (peerSigPub l) (hmacKey l) (sessionKey l) (cipher l)
    (linkID l) (mode l) (mtu l) (mdu l) (requestPacket l) (requestTime l) v (establishmentTimeout l)
    (keepalive l) (staleTime l) r (expectedHops l) (rebalanced l) (lastInbound l) (lastOutbound l)
    (lastKeepalive l) (lastDataReceived l) (lastDataSent l) (teardownReason l) (remoteIdentity l)
    (linkDone l) (watchdogDone l) (watchdogActive l) (packetCallback l) (pendingPlainData l)
    (channelGate l) (earlyChannel l) (inboundQ l) (inboundBusy l) (cachedProofRaw l)
    (cachedProofPkt l) (effects l).
Definition set_establishmentTimeout (v : Z) (l : Link) : Link :=
  mkLink (destination l) (networkInterface l) (establishedCallback l) (st l) (initiator l) (prv l)
    (pub l) (sigPriv l) (sigPub l) (peerPub l) (peerSigPub l) (hmacKey l) (sessionKey l) (cipher l)
    (linkID l) (mode l) (mtu l) (mdu l) (requestPacket l) (requestTime l) (establishedAt l) v
    (keepalive l) (staleTime l) (rtt l) (expectedHops l) (rebalanced l) (lastInbound l)
    (lastOutbound l) (lastKeepalive l) (lastDataReceived l) (lastDataSent l) (teardownReason l)
    (remoteIdentity l) (linkDone l) (watchdogDone l) (watchdogActive l) (packetCallback l)
    (pendingPlainData l) (channelGate l) (earlyChannel l) (inboundQ l) (inboundBusy l)
    (cachedProofRaw l) (cachedProofPkt l) (effects l).
Definition set_keepalive (k s : Z) (l : Link) : Link :=
  mkLink (destination l) (networkInterface l) (establishedCallback l) (st l) (initiator l) (prv l)
    (pub l) (sigPriv l) (sigPub l) (peerPub l) (peerSigPub l) (hmacKey l) (sessionKey l) (cipher l)
    (linkID l) (mode l) (mtu l) (mdu l) (requestPacket l) (requestTime l) (establishedAt l)
    (establishmentTimeout l) k s (rtt l) (expectedHops l) (rebalanced l) (lastInbound l)
    (lastOutbound l) (lastKeepalive l) (lastDataReceived l) (lastDataSent l) (teardownReason l)
    (remoteIdentity l) (linkDone l) (watchdogDone l) (watchdogActive l) (packetCallback l)
    (pendingPlainData l) (channelGate l) (earlyChannel l) (inboundQ l) (inboundBusy l)
    (cachedProofRaw l) (cachedProofPkt l) (effects l).
Definition set_expectedHops (v : byte) (l : Link) : Link :=
  mkLink (destination l) (networkInterface l) (establishedCallback l) (st l) (initiator l) (prv l)
    (pub l) (sigPriv l) (sigPub l) (peerPub l) (peerSigPub l) (hmacKey l) (sessionKey l) (cipher l)
    (linkID l) (mode l) (mtu l) (mdu l) (requestPacket l) (requestTime l) (establishedAt l)
    (establishmentTimeout l) (keepalive l) (staleTime l) (rtt l) v (rebalanced l) (lastInbound l)
    (lastOutbound l) (lastKeepalive l) (lastDataReceived l) (lastDataSent l) (teardownReason l)
    (remoteIdentity l) (linkDone l) (watchdogDone l) (watchdogActive l) (packetCallback l)
    (pendingPlainData l) (channelGate l) (earlyChannel l) (inboundQ l) (inboundBusy l)
    (cachedProofRaw l) (cachedProofPkt l) (effects l).
Definition set_rebalanced (v : Z) (h : byte) (l : Link) : Link :=
  mkLink (destination l) (networkInterface l) (establishedCallback l) (st l) (initiator l) (prv l)
    (pub l) (sigPriv l) (sigPub l) (peerPub l) (peerSigPub l) (hmacKey l) (sessionKey l) (cipher l)
    (linkID l) (mode l) (mtu l) (mdu l) (requestPacket l) (requestTime l) (establishedAt l)
    (establishmentTimeout l) (keepalive l) (staleTime l) (rtt l) h v (lastInbound l)
    (lastOutbound l) (lastKeepalive l) (lastDataReceived l) (lastDataSent l) (teardownReason l)
    (remoteIdentity l) (linkDone l) (watchdogDone l) (watchdogActive l) (packetCallback l)
    (pendingPlainData l) (channelGate l) (earlyChannel l) (inboundQ l) (inboundBusy l)
    (cachedProofRaw l) (cachedProofPkt l) (effects l).
Definition set_inbound (v d : Z) (l : Link) : Link :=
  mkLink (destination l) (networkInterface l) (establishedCallback l) (st l) (initiator l) (prv l)
    (pub l) (sigPriv l) (sigPub l) (peerPub l) (peerSigPub l) (hmacKey l) (sessionKey l) (cipher l)
    (linkID l) (mode l) (mtu l) (mdu l) (requestPacket l) (requestTime l) (establishedAt l)
    (establishmentTimeout l) (keepalive l) (staleTime l) (rtt l) (expectedHops l) (rebalanced l) v
    (lastOutbound l) (lastKeepalive l) d (lastDataSent l) (teardownReason l) (remoteIdentity l)
    (linkDone l) (watchdogDone l) (watchdogActive l) (packetCallback l) (pendingPlainData l)
    (channelGate l) (earlyChannel l) (inboundQ l) (inboundBusy l) (cachedProofRaw l)
    (cachedProofPkt l) (effects l).
Definition set_outbound (v k d : Z) (l : Link) : Link :=
  mkLink (destination l) (networkInterface l) (establishedCallback l) (st l) (initiator l) (prv l)
    (pub l) (sigPriv l) (sigPub l) (peerPub l) (peerSigPub l) (hmacKey l) (sessionKey l) (cipher l)
    (linkID l) (mode l) (mtu l) (mdu l) (requestPacket l) (requestTime l) (establishedAt l)
    (establishmentTimeout l) (keepalive l) (staleTime l) (rtt l) (expectedHops l) (rebalanced l)
    (lastInbound l) v k (lastDataReceived l) d (teardownReason l) (remoteIdentity l) (linkDone l)
    (watchdogDone l) (watchdogActive l) (packetCallback l) (pendingPlainData l) (channelGate l)
    (earlyChannel l) (inboundQ l) (inboundBusy l) (cachedProofRaw l) (cachedProofPkt l) (effects l).
Definition set_teardownReason (v : status) (l : Link) : Link :=
  mkLink (destination l) (networkInterface l) (establishedCallback l) (st l) (initiator l) (prv l)
    (pub l) (sigPriv l) (sigPub l) (peerPub l) (peerSigPub l) (hmacKey l) (sessionKey l) (cipher l)
    (linkID l) (mode l) (mtu l) (mdu l) (requestPacket l) (requestTime l) (establishedAt l)
    (establishmentTimeout l) (keepalive l) (staleTime l) (rtt l) (expectedHops l) (rebalanced l)
    (lastInbound l) (lastOutbound l) (lastKeepalive l) (lastDataReceived l) (lastDataSent l) v
    (remoteIdentity l) (linkDone l) (watchdogDone l) (watchdogActive l) (packetCallback l)
    (pendingPlainData l) (channelGate l) (earlyChannel l) (inboundQ l) (inboundBusy l)
    (cachedProofRaw l) (cachedProofPkt l) (effects l).
Definition set_remoteIdentity (v : option Identity.Identity) (l : Link) : Link :=
  mkLink (destination l) (networkInterface l) (establishedCallback l) (st l) (initiator l) (prv l)
    (pub l) (sigPriv l) (sigPub l) (peerPub l) (peerSigPub l) (hmacKey l) (sessionKey l) (cipher l)
    (linkID l) (mode l) (mtu l) (mdu l) (requestPacket l) (requestTime l) (establishedAt l)
    (establishmentTimeout l) (keepalive l) (staleTime l) (rtt l) (expectedHops l) (rebalanced l)
    (lastInbound l) (lastOutbound l) (lastKeepalive l) (lastDataReceived l) (lastDataSent l)
    (teardownReason l) v (linkDone l) (watchdogDone l) (watchdogActive l) (packetCallback l)
    (pendingPlainData l) (channelGate l) (earlyChannel l) (inboundQ l) (inboundBusy l)
    (cachedProofRaw l) (cachedProofPkt l) (effects l).
Definition set_done (d w : doneChan) (l : Link) : Link :=
  mkLink (destination l) (networkInterface l) (establishedCallback l) (st l) (initiator l) (prv l)
    (pub l) (sigPriv l) (sigPub l) (peerPub l) (peerSigPub l) (hmacKey l) (sessionKey l) (cipher l)
    (linkID l) (mode l) (mtu l) (mdu l) (requestPacket l) (requestTime l) (establishedAt l)
    (establishmentTimeout l) (keepalive l) (staleTime l) (rtt l) (expectedHops l) (rebalanced l)
    (lastInbound l) (lastOutbound l) (lastKeepalive l) (lastDataReceived l) (lastDataSent l)
    (teardownReason l) (remoteIdentity l) d w (watchdogActive l) (packetCallback l)
    (pendingPlainData l) (channelGate l) (earlyChannel l) (inboundQ l) (inboundBusy l)
    (cachedProofRaw l) (cachedProofPkt l) (effects l).
Definition set_watchdog (w : doneChan) (v : bool) (l : Link) : Link :=
  mkLink (destination l) (networkInterface l) (establishedCallback l) (st l) (initiator l) (prv l)
    (pub l) (sigPriv l) (sigPub l) (peerPub l) (peerSigPub l) (hmacKey l) (sessionKey l) (cipher l)
    (linkID l) (mode l) (mtu l) (mdu l) (requestPacket l) (requestTime l) (establishedAt l)
    (establishmentTimeout l) (keepalive l) (staleTime l) (rtt l) (expectedHops l) (rebalanced l)
    (lastInbound l) (lastOutbound l) (lastKeepalive l) (lastDataReceived l) (lastDataSent l)
    (teardownReason l) (remoteIdentity l) (linkDone l) w v (packetCallback l) (pendingPlainData l)
    (channelGate l) (earlyChannel l) (inboundQ l) (inboundBusy l) (cachedProofRaw l)
    (cachedProofPkt l) (effects l).
Definition set_plain (c : bool) (v : bytes) (l : Link) : Link :=
  mkLink (destination l) (networkInterface l) (establishedCallback l) (st l) (initiator l) (prv l)
    (pub l) (sigPriv l) (sigPub l) (peerPub l) (peerSigPub l) (hmacKey l) (sessionKey l) (cipher l)
    (linkID l) (mode l) (mtu l) (mdu l) (requestPacket l) (requestTime l) (establishedAt l)
    (establishmentTimeout l) (keepalive l) (staleTime l) (rtt l) (expectedHops l) (rebalanced l)
    (lastInbound l) (lastOutbound l) (lastKeepalive l) (lastDataReceived l) (lastDataSent l)
    (teardownReason l) (remoteIdentity l) (linkDone l) (watchdogDone l) (watchdogActive l) c v
    (channelGate l) (earlyChannel l) (inboundQ l) (inboundBusy l) (cachedProofRaw l)
    (cachedProofPkt l) (effects l).
Definition set_channel (g : bool) (q : list packet) (l : Link) : Link :=
  mkLink (destination l) (networkInterface l) (establishedCallback l) (st l) (initiator l) (prv l)
    (pub l) (sigPriv l) (sigPub l) (peerPub l) (peerSigPub l) (hmacKey l) (sessionKey l) (cipher l)
    (linkID l) (mode l) (mtu l) (mdu l) (requestPacket l) (requestTime l) (establishedAt l)
    (establishmentTimeout l) (keepalive l) (staleTime l) (rtt l) (expectedHops l) (rebalanced l)
    (lastInbound l) (lastOutbound l) (lastKeepalive l) (lastDataReceived l) (lastDataSent l)
    (teardownReason l) (remoteIdentity l) (linkDone l) (watchdogDone l) (watchdogActive l)
    (packetCallback l) (pendingPlainData l) g q (inboundQ l) (inboundBusy l) (cachedProofRaw l)
    (cachedProofPkt l) (effects l).
Definition set_inboundQ (q : list packet) (b : bool) (l : Link) : Link :=
  mkLink (destination l) (networkInterface l) (establishedCallback l) (st l) (initiator l) (prv l)
    (pub l) (sigPriv l) (sigPub l) (peerPub l) (peerSigPub l) (hmacKey l) (sessionKey l) (cipher l)
    (linkID l) (mode l) (mtu l) (mdu l) (requestPacket l) (requestTime l) (establishedAt l)
    (establishmentTimeout l) (keepalive l) (staleTime l) (rtt l) (expectedHops l) (rebalanced l)
    (lastInbound l) (lastOutbound l) (lastKeepalive l) (lastDataReceived l) (lastDataSent l)
    (teardownReason l) (remoteIdentity l) (linkDone l) (watchdogDone l) (watchdogActive l)
    (packetCallback l) (pendingPlainData l) (channelGate l) (earlyChannel l) q b (cachedProofRaw l)
    (cachedProofPkt l) (effects l).
Definition set_cachedProof (r : bytes) (p : option packet) (l : Link) : Link :=
  mkLink (destination l) (networkInterface l) (establishedCallback l) (st l) (initiator l) (prv l)
    (pub l) (sigPriv l) (sigPub l) (peerPub l) (peerSigPub l) (hmacKey l) (sessionKey l) (cipher l)
    (linkID l) (mode l) (mtu l) (mdu l) (requestPacket l) (requestTime l) (establishedAt l)
    (establishmentTimeout l) (keepalive l) (staleTime l) (rtt l) (expectedHops l) (rebalanced l)
    (lastInbound l) (lastOutbound l) (lastKeepalive l) (lastDataReceived l) (lastDataSent l)
    (teardownReason l) (remoteIdentity l) (linkDone l) (watchdogDone l) (watchdogActive l)
    (packetCallback l) (pendingPlainData l) (channelGate l) (earlyChannel l) (inboundQ l)
    (inboundBusy l) r p (effects l).
Definition emit (e : effect) (l : Link) : Link :=
  mkLink (destination l) (networkInterface l) (establishedCallback l) (st l) (initiator l) (prv l)
    (pub l) (sigPriv l) (sigPub l) (peerPub l) (peerSigPub l) (hmacKey l) (sessionKey l) (cipher l)
    (linkID l) (mode l) (mtu l) (mdu l) (requestPacket l) (requestTime l) (establishedAt l)
    (establishmentTimeout l) (keepalive l) (staleTime l) (rtt l) (expectedHops l) (rebalanced l)
    (lastInbound l) (lastOutbound l) (lastKeepalive l) (lastDataReceived l) (lastDataSent l)
    (teardownReason l) (remoteIdentity l) (linkDone l) (watchdogDone l) (watchdogActive l)
    (packetCallback l) (pendingPlainData l) (channelGate l) (earlyChannel l) (inboundQ l)
    (inboundBusy l) (cachedProofRaw l) (cachedProofPkt l) (effects l ++ [e]).

(** [NewLink]; [iface] is the receiving interface ([Some true] a local client),
    [cb] whether an established callback is set. *)
Definition NewLink (dest : option Destination) (iface : option bool) (cb : bool) : Link :=
  mkLink dest iface cb StatusPending false None [] None [] [] [] None None None [] x00 0 0
    None 0 0 (6 * Second) (Keepalive * Second) (StaleTime * Second) (Float64.of_Z 0) x00 0
    0 0 0 0 0 StatusPending None OpenChan NilChan false false [] false [] [] false [] None [].

(** What the link sees of its surroundings during one operation: the transport,
    the protection engine, the blackhole table, the application's proof callback
    and the msgpack codec of a [float64]. *)
Class LinkEnv := {
  admitHandshake : bool;
  admitCrypto : bool;
  transportSend : packet → bool;
  ifaceSend : bytes → bool;
  hasPath : bytes → bool;
  tryBeginOutboundEstablish : bytes → bool;
  hopsTo : bytes → byte;
  firstHopTimeout : bytes → Float64.f64;
  nextHopInterface : bytes → option bool;
  linkPathRebalanceAllowed : bool;
  rebalancePathHops : bytes → byte → bool;
  blackholed : bytes → bool;
  proofCallback : packet → bool;
  rttMarshal : Float64.f64 → bytes;
  rttUnmarshal : bytes → option Float64.f64
}.

Abbreviation M := (goM Link link_error).

(** The result of a call whose error the caller only logs. *)
Definition attempt {A} (m : M A) : M (outcome link_error A) := λ l,
  match m l with
  | (l, Panic) => (l, Panic)
  | (l, r) => (l, Ok r)
  end.

Section ops.
Context `{X25519.Curve} `{Ed25519.Scheme} `{LinkEnv}.

(** ** The session cipher *)

Definition encryptedPayloadLen (plainLen : Z) : Z :=
  let padding := Crypto.BlockSize - plainLen `mod` Crypto.BlockSize in
  Crypto.BlockSize + plainLen + padding + Crypto.SHA256Size.

(** With the AES and the HMAC key chosen; [rand] is the IV. *)
Definition encryptWithKeysInto (rand : option bytes) (key mac data : bytes) : outcome link_error bytes :=
  signed ← crypt (Crypto.sealCBC rand key data);
  Ok (signed ++ Crypto.ComputeHMAC mac signed).

Definition decryptWithKeys (key mac data : bytes) : outcome link_error bytes :=
  if len data <? Crypto.BlockSize + Crypto.BlockSize + 32 then Err DataTooShort
  else
    signedParts ← go_slice 0 (len data - 32) data;
    receivedMac ← go_slice (len data - 32) (len data) data;
    if negb (Crypto.ValidateHMAC mac signedParts receivedMac) then Err HMACFailed
    else crypt (Crypto.openCBC key signedParts).

(** The copies into two 32-byte arrays. *)
Definition snapshotSessionKeysLocked (l : Link) : option (bytes * bytes) :=
  match sessionKey l, hmacKey l with
  | Some sk, Some hk =>
      if (len sk =? 0) || (len hk =? 0) || (32 <? len sk) || (32 <? len hk) then None
      else Some (Identity.fixed 32 sk, Identity.fixed 32 hk)
  | _, _ => None
  end.

(** The block cipher and the two HMAC states, kept as the keys they hold. *)
Definition refreshAESBlockLocked (l : Link) : Link :=
  match sessionKey l, hmacKey l with
  | Some sk, Some hk =>
      let keys :=
        if bool_decide (mode l = ModeAES128CBC) then
          if (len sk <? 16) || (len hk <? 16) then None else Some (take 16 sk, take 16 hk)
        else if 32 <=? len sk then Some (take 32 sk, hk)
        else if 16 <=? len sk then Some (take 16 sk, hk)
        else None in
      match keys with
      | Some (key, hk) => if len hk =? 0 then set_cipher None l else set_cipher (Some (key, hk)) l
      | None => set_cipher None l
      end
  | _, _ => set_cipher None l
  end.

(** The cached cipher, or the keys themselves. *)
Definition sessionKeys (l : Link) : outcome link_error (bytes * bytes) :=
  match cipher l with
  | Some k => Ok k
  | None =>
      match snapshotSessionKeysLocked l with
      | Some (sk, hk) =>
          Ok (if bool_decide (mode l = ModeAES128CBC) then (take 16 sk, take 16 hk) else (sk, hk))
      | None => Err NoSessionKeys
      end
  end.

Definition encrypt (rand : option bytes) (data : bytes) (l : Link) : outcome link_error bytes :=
  '(key, mac) ← sessionKeys l; encryptWithKeysInto rand key mac data.

Definition decrypt (data : bytes) (l : Link) : outcome link_error bytes :=
  if len data <? Crypto.BlockSize + Crypto.BlockSize + 32 then Err DataTooShort
  else if negb admitCrypto then Err Refused
  else '(key, mac) ← sessionKeys l; decryptWithKeys key mac data.

Definition hasSessionKeys (l : Link) : bool :=
  match sessionKey l, hmacKey l with Some _, Some _ => true | _, _ => false end.

(** The ephemeral key pairs; [x] and [s] are the private keys drawn, [None] when
    the random source fails.  An Ed25519 private key is kept as its seed. *)
Definition generateEphemeralKeys (x s : option bytes) : M () :=
  '(priv, pub) ← lift (ident (Identity.GenerateKeyPair x));
  modify (set_prv (Some priv) pub) ;;
  match s with
  | None => fail (IdentityFailed Identity.RandFailed)
  | Some seed => modify (set_signing (Some seed) (Ed25519.publicKey seed))
  end.

(** [Validate]. *)
Definition Validate (signature message : bytes) (l : Link) : bool :=
  if len (peerSigPub l) =? Ed25519.PublicKeySize then Ed25519.verify (peerSigPub l) message signature
  else match remoteIdentity l with
       | Some id => Identity.Verify id message signature
       | None => false
       end.

Definition bindOwnerSigningKeys (owner : Identity.Identity) : M () :=
  let sp := Identity.verificationKey owner in
  guard_go (len sp =? Ed25519.PublicKeySize) OwnerKey ;;
  l ← mget;
  modify (set_signing (sigPriv l) sp) ;;
  match Identity.GetPrivateKey owner with
  | Ok pk => guard_go (negb (len pk <? 64)) OwnerKey ;; modify (set_signing (Some (slice 32 64 pk)) sp)
  | Err _ => modify (set_signing None sp)
  | Panic => lift Panic
  end.

(** ** Time stamps *)

(** The zero [time.Time], in nanoseconds since the epoch. *)
Definition zeroTime : Z := -62135596800 * Second.
Definition nsToTime (ns : Z) : Z := if ns =? 0 then zeroTime else ns.

Definition recordOutbound (now : Z) (l : Link) : Link :=
  set_outbound now (lastKeepalive l) (lastDataSent l) l.
Definition recordKeepaliveOutbound (now : Z) (l : Link) : Link := set_outbound now now (lastDataSent l) l.
Definition recordOutboundData (now : Z) (l : Link) : Link := set_outbound now (lastKeepalive l) now l.
Definition recordInbound (now : Z) (isData : bool) (l : Link) : Link :=
  set_inbound now (if isData then now else lastDataReceived l) l.

Definition maxFloat (a b : Float64.f64) : Float64.f64 := if Float64.ltb b a then a else b.

Definition updateKeepaliveLocked (l : Link) : Link :=
  if Float64.leb (rtt l) (Float64.of_Z 0) then l
  else
    let keepaliveMax := Float64.of_Z Keepalive in
    let k := Float64.mul (rtt l) (Float64.div keepaliveMax KeepaliveMaxRTT) in
    let k := if Float64.ltb keepaliveMax k then keepaliveMax else k in
    let k := if Float64.ltb k KeepaliveMinSec then KeepaliveMinSec else k in
    let d := Float64.to_int64 (Float64.mul k (Float64.of_Z Second)) in
    set_keepalive d (Float64.to_int64 (Float64.mul (Float64.of_Z d) (Float64.of_Z 2))) l.

Definition keepaliveDue (now inboundActivity lastOutbound keepalive : Z) : bool :=
  (inboundActivity + keepalive <? now) || (lastOutbound + keepalive <? now).

Definition initiatorShouldSendKeepalive (now inboundActivity lastOutbound lastKeepalive keepalive : Z)
    (initiator : bool) : bool :=
  initiator && keepaliveDue now inboundActivity lastOutbound keepalive
  && (lastKeepalive + keepalive <? now).

Definition responderShouldReplyKeepalive (now lastOutbound keepalive : Z) (initiator : bool) : bool :=
  negb initiator && negb (now <? lastOutbound + keepalive).

(** ** Packets *)

Definition linkPacket (ptype ctx dtype : byte) (dest data : bytes) (receipt : bool) : packet :=
  Packet.Packet Packet.HeaderType1 ptype x00 ctx x00 x00 dtype dest None data
    (buf_of []) false false receipt false [] false [].

Definition packed (p : packet) : M packet :=
  match Packet.Pack p with
  | (q, Ok _) => mret q
  | (_, Err e) => fail (PacketFailed e)
  | (_, Panic) => lift Panic
  end.

Definition send (p : packet) : M () := modify (emit (SendPacket p)) ;; guard_go (transportSend p) SendFailed.

(** A packet of the link. *)
Definition sendLinkPacket (record : Link → Link) (ptype ctx : byte) (data : bytes) : M () :=
  l ← mget;
  p ← packed (linkPacket ptype ctx DestTypeLink (linkID l) data false);
  modify record ;;
  send p.

Definition sendKeepalive (now : Z) : M () :=
  sendLinkPacket (recordKeepaliveOutbound now) Packet.PacketTypeData Packet.ContextKeepalive
    [KeepaliveRequestByte].

Definition sendTeardownPacket (rand : option bytes) (now : Z) : M () :=
  l ← mget;
  encrypted ← lift (encrypt rand (linkID l) l);
  sendLinkPacket (recordOutbound now) Packet.PacketTypeData Packet.ContextLinkClose encrypted.

Definition sealEncryptedHT1Locked (rand : option bytes) (p : packet) (data : bytes) : M packet :=
  l ← mget;
  let n := encryptedPayloadLen (len data) in
  match Packet.PrepareHT1Buffer (linkID l) n p with
  | (_, Err e) => fail (PacketFailed e)
  | (_, Panic) => lift Panic
  | (p, Ok _) =>
      out ← lift (encrypt rand data l);
      guard_go (len out =? n) LengthMismatch ;;
      match Packet.CommitPacked (Packet.fill_payload out p) with
      | (p, Ok _) => mret p
      | (_, Err e) => fail (PacketFailed e)
      | (_, Panic) => lift Panic
      end
  end.

Definition SendPacketWithContext (rand : option bytes) (now : Z) (data : bytes) (context : byte) : M () :=
  l ← mget;
  guard_go (bool_decide (st l = StatusActive)) NotActive ;;
  let p d := linkPacket Packet.PacketTypeData context DestTypeLink (linkID l) d true in
  p ← (if bool_decide (context = Packet.ContextResource) || bool_decide (context = Packet.ContextCacheReq)
       then packed (p data)
       else sealEncryptedHT1Locked rand (p []) data);
  modify (recordOutboundData now) ;;
  send p.

Definition isActive (l : Link) : bool := bool_decide (st l = StatusActive).

(** The outlet of the channel: the packet sent, [None] for nil.  Its receipt is
    registered with the transport. *)
Definition Send (rand : option bytes) (now : Z) (data : bytes) : M (option packet) :=
  l ← mget;
  if negb (isActive l) then mret None
  else
    sealed ← attempt (sealEncryptedHT1Locked rand
      (linkPacket Packet.PacketTypeData Packet.ContextChannel DestTypeLink (linkID l) [] false) data);
    match sealed with
    | Ok p =>
        modify (recordOutbound now) ;;
        sent ← attempt (send p);
        match sent with
        | Ok _ => modify (emit (RegisterReceipt p)) ;; mret (Some p)
        | _ => mret None
        end
    | _ => mret None
    end.

(** A packet sent before, [None] for a value that is not a packet.  The status is
    not looked at. *)
Definition Resend (pkt : option packet) : M () :=
  match pkt with
  | None => fail InvalidPacketType
  | Some p => send p
  end.

(** How the answers of the request and resource handlers leave ([sendResponse],
    [rejectResource], [sendResourceAdvertisement]): encrypted, packed, recorded and
    given to the transport.  The status is not looked at. *)
Definition sendSealed (rand : option bytes) (record : Link → Link) (context : byte) (data : bytes) : M () :=
  l ← mget;
  encrypted ← lift (encrypt rand data l);
  sendLinkPacket record Packet.PacketTypeData context encrypted.

(** The last step of [sendIncomingResourceProof]. *)
Definition sendResourceProof (now : Z) (proofData : bytes) : M () :=
  sendLinkPacket (recordOutbound now) Packet.PacketTypeProof Packet.ContextResourcePRF proofData.

Definition ProvePacket (now : Z) (pkt : packet) : M () :=
  l ← mget;
  guard_go (isActive l) NotActive ;;
  match Packet.GetHash pkt with
  | (_, Err e) => fail (PacketFailed e)
  | (_, Panic) => lift Panic
  | (_, Ok hash) =>
      guard_go (negb (len hash =? 0)) EmptyHash ;;
      signature ←
        match (if initiator l then None else destination l ≫= d_identity) with
        | Some id => lift (ident (Identity.Sign id hash))
        | None =>
            match sigPriv l with
            | None => fail NoSigningKey
            | Some seed => mret (Ed25519.sign seed hash)
            end
        end;
      sendLinkPacket (recordOutbound now) Packet.PacketTypeProof Packet.ContextNone (hash ++ signature)
  end.

Definition maybeProveInboundData (now : Z) (pkt : packet) : M () :=
  l ← mget;
  match destination l with
  | None => mret ()
  | Some d =>
      if bool_decide (d_proofStrategy d = x01)
         || (bool_decide (d_proofStrategy d = x02) && proofCallback pkt)
      then _ ← attempt (ProvePacket now pkt); mret ()
      else mret ()
  end.

(** ** Key agreement *)

Definition signallingBytes (mtu : Z) (mode : byte) : bytes :=
  let b0 := z2b (Z.land (Z.shiftr mtu 16) 255) in
  let b1 := z2b (Z.land (Z.shiftr mtu 8) 255) in
  let b2 := z2b (Z.land mtu 255) in
  [b0 ||| (mode <<< 5); b1; b2].

(** The MTU and the mode of three signalling bytes. *)
Definition signalled (b : bytes) : outcome link_error (Z * byte) :=
  b0 ← go_index 0 b; b1 ← go_index 1 b; b2 ← go_index 2 b;
  Ok (Z.lor (Z.lor (Z.shiftl (b2z (b0 &&& x1f)) 16) (Z.shiftl (b2z b1) 8)) (b2z b2),
      (b0 &&& ModeByteMask) >>> 5).

Definition updateMDU (l : Link) : Link :=
  let m := if Packet.MTU <? mtu l then Packet.MTU else mtu l in
  let d := Float64.to_int64 (Float64.div (Float64.of_Z (m - 19 - 1 - TokenOverhead)) (Float64.of_Z 16)) * 16 - 1 in
  set_mtumdu m (if d <? 0 then Z.quot DefaultMTU 15 else d) l.

(** The two halves of the derived key. *)
Definition splitDerivedKey (derivedKey : bytes) (l : Link) : Link :=
  if 64 <=? len derivedKey
  then set_session (Some (take 32 derivedKey)) (Some (slice 32 64 derivedKey)) l
  else if 32 <=? len derivedKey
  then set_session (Some (take 16 derivedKey)) (Some (slice 16 32 derivedKey)) l
  else l.

Definition performHandshakeLocked : M () :=
  l ← mget;
  guard_go (len (peerPub l) =? KeySize) InvalidPeerKey ;;
  match prv l with
  | None => fail MissingEphemeralKey
  | Some priv =>
      sharedSecret ← lift (ident (Identity.DeriveSharedSecret priv (peerPub l)));
      derivedKeyLength ←
        (if bool_decide (mode l = ModeAES128CBC) then mret 32
         else if bool_decide (mode l = ModeAES256CBC) then mret 64
         else fail (InvalidMode (mode l)));
      derivedKey ← lift (crypt (Crypto.implDeriveKey sharedSecret (linkID l) [] derivedKeyLength));
      modify (splitDerivedKey derivedKey) ;;
      modify refreshAESBlockLocked ;;
      modify (set_st StatusHandshake)
  end.

Definition registerLinkPath : M () :=
  l ← mget;
  match networkInterface l with
  | None => mret ()
  | Some _ => modify (emit (RegisterLinkPath (linkID l)))
  end.

(** ** Closing *)

Definition releaseOutboundEstablish (l : Link) : Link :=
  match destination l with
  | Some d => if initiator l then emit (EndOutboundEstablish (d_hash d)) l else l
  | None => l
  end.

Definition invalidateTransportPathAfterInitiatorFailure (l : Link) : Link :=
  match destination l with
  | Some d =>
      if initiator l && (establishedAt l =? 0) && (len (d_hash d) =? 16)
      then emit (ExpirePath (d_hash d)) l else l
  | None => l
  end.

Definition unregister (l : Link) : Link :=
  if 0 <? len (linkID l) then emit (UnregisterLink (linkID l)) l else l.

Definition markInitiatorEstablishmentFailedLocked (l : Link) : Link :=
  if negb (initiator l) then l
  else
    let l := unregister (set_st StatusClosed (set_teardownReason StatusFailed l)) in
    let l := invalidateTransportPathAfterInitiatorFailure (releaseOutboundEstablish l) in
    emit ClosedCallback (emit NotifyClosed l).

(** [close] of a channel: closing a closed one panics. *)
Definition closeChan (c : doneChan) : outcome link_error doneChan :=
  match c with NilChan => Ok NilChan | OpenChan => Ok ClosedChan | ClosedChan => Panic end.

(** True when this call closed the link. *)
Definition closeOnce (reason : status) : M bool :=
  l ← mget;
  if bool_decide (st l = StatusClosed) then mret false
  else
    modify (set_st StatusClosed) ;;
    modify (set_teardownReason reason) ;;
    modify (emit NotifyClosed) ;;
    w ← lift (closeChan (watchdogDone l));
    modify (set_done (linkDone l) w) ;;
    d ← lift (closeChan (linkDone l));
    modify (set_done d w) ;;
    mret true.

(** The transition of [promoteToActive]; the compare-and-swap loop is one step. *)
Definition promoteToActive : M bool :=
  l ← mget;
  match st l with
  | StatusActive | StatusHandshake | StatusPending | StatusStale =>
      modify (set_st StatusActive) ;; modify releaseOutboundEstablish ;; mret true
  | StatusClosed | StatusFailed => mret false
  end.

Definition Teardown (rand : option bytes) (now : Z) : M () :=
  l ← mget;
  if bool_decide (st l = StatusClosed) then mret ()
  else
    closed ← closeOnce StatusClosed;
    if negb closed then mret ()
    else
      _ ← attempt (sendTeardownPacket rand now);
      modify unregister ;;
      modify (emit ClosedCallback).

Definition handleTeardown (plaintext : bytes) : M () :=
  l ← mget;
  if bool_decide (plaintext = linkID l) then
    closed ← closeOnce StatusFailed;
    if negb closed then mret ()
    else
      modify unregister ;;
      modify invalidateTransportPathAfterInitiatorFailure ;;
      modify (emit ClosedCallback)
  else mret ().

Definition finishWatchdogClose (reason : status) (invalidatePath : bool) : M () :=
  closed ← closeOnce reason;
  if negb closed then mret ()
  else
    modify unregister ;;
    modify releaseOutboundEstablish ;;
    (if invalidatePath then modify invalidateTransportPathAfterInitiatorFailure else mret ()) ;;
    modify (emit ClosedCallback).

(** ** The initiator *)

Definition prepareLinkRequestLocked (x s : option bytes) (now : Z) : M () :=
  generateEphemeralKeys x s ;;
  modify (set_modemtu ModeDefault (Z.quot DefaultMTU 3)) ;;
  modify updateMDU ;;
  l ← mget;
  match destination l with
  | None => lift Panic
  | Some d =>
      pkt ← packed (linkPacket Packet.PacketTypeLinkReq Packet.ContextNone (d_type d) (d_hash d)
                      (pub l ++ sigPub l ++ signallingBytes (mtu l) (mode l)) false);
      id ← lift (pack (Packet.LinkIDFromLinkRequest pkt));
      modify (set_linkID id) ;;
      modify (set_request (Some pkt) now) ;;
      modify (set_st StatusPending)
  end.

Definition sendPreparedLinkRequest : M () :=
  l ← mget;
  match requestPacket l with
  | None => fail NotPrepared
  | Some pkt => send pkt
  end.

Definition startWatchdog (l : Link) : Link :=
  if watchdogActive l then l else set_watchdog OpenChan true l.

Definition Establish (x s : option bytes) (now : Z) : M () :=
  l ← mget;
  guard_go (bool_decide (st l = StatusPending)) AlreadySettled ;;
  guard_go (requestTime l =? 0) EstablishBusy ;;
  match destination l with
  | None => fail DestinationRequired
  | Some d =>
      let destHash := d_hash d in
      guard_go (hasPath destHash) NoPath ;;
      guard_go (tryBeginOutboundEstablish destHash) EstablishBusy ;;
      modify (emit (BeginOutboundEstablish destHash)) ;;
      modify (set_initiator true) ;;
      modify (set_st StatusPending) ;;
      modify (set_request (requestPacket l) now) ;;
      let eh := hopsTo destHash in
      modify (set_expectedHops eh) ;;
      let hops := if (b2z eh <? 1) || (b2z HopCountUnreachable <=? b2z eh) then 1 else b2z eh in
      modify (set_establishmentTimeout
        (Float64.to_int64 (Float64.mul
           (Float64.add (firstHopTimeout destHash)
              (Float64.mul (Float64.of_Z hops) EstablishmentTimeoutPerHop))
           (Float64.of_Z Second)))) ;;
      r ← attempt (prepareLinkRequestLocked x s now);
      match r with
      | Ok _ =>
          l ← mget;
          modify (emit (RegisterLink (linkID l))) ;;
          (match networkInterface l with
           | None => modify (set_networkInterface (nextHopInterface destHash))
           | Some _ => mret ()
           end) ;;
          registerLinkPath ;;
          r ← attempt sendPreparedLinkRequest;
          match r with
          | Ok _ => modify startWatchdog
          | Err e => modify markInitiatorEstablishmentFailedLocked ;; fail e
          | Panic => lift Panic
          end
      | Err e =>
          l ← mget;
          modify (set_request (requestPacket l) 0) ;;
          modify (emit (EndOutboundEstablish destHash)) ;;
          fail e
      | Panic => lift Panic
      end
  end.

(** [closeAllSecretKeys]. *)
Definition closeAllSecretKeys (l : Link) : Link :=
  set_cipher None (set_session None None (set_signing None (sigPub l) (set_prv None (pub l) l))).

Definition resetForReconnectLocked (l : Link) : Link :=
  let l := closeAllSecretKeys (set_remoteIdentity None (set_st StatusPending l)) in
  let l := set_request None 0 (set_established (rtt l) 0 l) in
  let l := unregister (set_teardownReason StatusPending l) in
  set_peer [] [] (set_signing (sigPriv l) [] (set_prv (prv l) [] (set_linkID [] l))).

Definition Reestablish (x s : option bytes) (now : Z) : M () :=
  l ← mget;
  match st l with
  | StatusPending | StatusHandshake | StatusActive => fail AlreadySettled
  | _ => modify resetForReconnectLocked ;; Establish x s now
  end.

(** ** The responder *)

Definition GenerateLinkProof (owner : Identity.Identity) : M packet :=
  l ← mget;
  let signalling := signallingBytes (mtu l) (mode l) in
  ownerSigPub ← lift (go_slice KeySize ECPubSize (Identity.GetPublicKey owner));
  let signedData := linkID l ++ pub l ++ ownerSigPub ++ signalling in
  signature ← lift (ident (Identity.Sign owner signedData));
  _ ← lift (go_slice 0 8 signature);
  _ ← lift (go_slice 0 8 (pub l));
  packed (linkPacket Packet.PacketTypeProof Packet.ContextLRProof DestTypeLink (linkID l)
            (signature ++ pub l ++ signalling) false).

Definition sendLinkProof (owner : Identity.Identity) : M () :=
  proofPkt ← GenerateLinkProof owner;
  l ← mget;
  match initiator l, networkInterface l with
  | false, Some _ =>
      modify (set_cachedProof (Packet.raw proofPkt) (cachedProofPkt l)) ;;
      modify (emit (IfaceSend (Packet.raw proofPkt))) ;;
      guard_go (ifaceSend (Packet.raw proofPkt)) SendFailed
  | _, _ =>
      modify (set_cachedProof (cachedProofRaw l) (Some proofPkt)) ;;
      send proofPkt
  end.

Definition HandleLinkRequest (x s : option bytes) (now : Z) (pkt : packet) (owner : Identity.Identity) : M () :=
  let data := Packet.Data pkt in
  guard_go (negb (len data <? ECPubSize)) RequestTooShort ;;
  peerPub ← lift (go_slice 0 KeySize data);
  peerSigPub ← lift (go_slice KeySize ECPubSize data);
  modify (set_peer peerPub peerSigPub) ;;
  id ← lift (pack (Packet.LinkIDFromLinkRequest pkt));
  modify (set_linkID id) ;;
  modify (set_initiator false) ;;
  (if ECPubSize + LinkMTUSize <=? len data then
     mtuBytes ← lift (go_slice ECPubSize (ECPubSize + LinkMTUSize) data);
     '(n, m) ← lift (signalled mtuBytes);
     modify (set_modemtu m n)
   else modify (set_modemtu ModeDefault (Z.quot DefaultMTU 3))) ;;
  generateEphemeralKeys x s ;;
  bindOwnerSigningKeys owner ;;
  performHandshakeLocked ;;
  modify updateMDU ;;
  modify (set_st StatusHandshake) ;;
  modify (recordInbound now false) ;;
  l ← mget;
  modify (set_request (requestPacket l) now) ;;
  let hops := Z.max (b2z (Packet.Hops pkt)) 1 in
  modify (set_establishmentTimeout
    (Float64.to_int64 (Float64.mul (Float64.mul (Float64.of_Z hops) EstablishmentTimeoutPerHop)
       (Float64.of_Z Second)) + keepalive l)) ;;
  modify (emit (RegisterLink (linkID l))) ;;
  registerLinkPath ;;
  sendLinkProof owner.

(** The responder link of an accepted request, after the replay lookup and the
    admission of [HandleIncomingLinkRequest]. *)
Definition HandleIncomingLinkRequest (x s : option bytes) (now : Z) (pkt : packet) (dest : Destination)
    (iface : option bool) (cb : bool) : Link * outcome link_error () :=
  let l := NewLink (Some dest) iface cb in
  if negb admitHandshake then (l, Err Refused)
  else
    match d_identity dest with
    | None => (l, Err NoDestinationIdentity)
    | Some owner => (HandleLinkRequest x s now pkt owner ;; modify startWatchdog) l
    end.

(** False when the caller should make a fresh link. *)
Definition resendProofIfPending (now : Z) : M bool :=
  l ← mget;
  if initiator l then mret true
  else
    match st l with
    | StatusClosed | StatusFailed => mret false
    | _ =>
        let raw := cachedProofRaw l in
        match (if 0 <? len raw then networkInterface l else None), cachedProofPkt l with
        | Some _, _ =>
            modify (emit (IfaceSend raw)) ;;
            (if ifaceSend raw then modify (recordOutbound now) else mret ()) ;; mret true
        | None, Some p =>
            r ← attempt (send p);
            match r with Ok _ => modify (recordOutbound now) ;; mret true | _ => mret true end
        | None, None => mret true
        end
    end.

(** ** The proof *)

Definition AccountInboundHops (wireHops : byte) (iface : option bool) : byte :=
  match iface with
  | None => wireHops
  | Some fromLocalClient => HeaderRewrite.linkRelayAccountedHops wireHops fromLocalClient
  end.

(** The fields of the proof: signature, ephemeral key and signalling bytes. *)
Definition proofSignalling (data : bytes) : outcome link_error (option bytes) :=
  if SigLength + KeySize + LinkMTUSize <=? len data
  then s ← go_slice (SigLength + KeySize) (SigLength + KeySize + LinkMTUSize) data; Ok (Some s)
  else Ok None.

Definition tryTerminusPathRebalanceLocked (now : Z) (pkt : packet) (accounted : byte) : M bool :=
  l ← mget;
  let data := Packet.Data pkt in
  if bool_decide (st l ≠ StatusPending) || negb (rebalanced l =? 0) || negb linkPathRebalanceAllowed
     || (len data <? SigLength + KeySize) then mret false
  else
    signature ← lift (go_slice 0 SigLength data);
    peerPub ← lift (go_slice SigLength (SigLength + KeySize) data);
    sig ← lift (proofSignalling data);
    abort ← match sig with
            | Some s => '(_, m) ← lift (signalled s);
                        mret (bool_decide (mode l ≠ x00) && bool_decide (m ≠ mode l))
            | None => mret false
            end;
    if (abort : bool) then mret false
    else
      match destination l ≫= λ d, (λ id, (d, id)) <$> d_identity d with
      | None => mret false
      | Some (d, id) =>
          let sp := if len (peerSigPub l) =? 0 then slice KeySize ECPubSize (Identity.GetPublicKey id)
                    else peerSigPub l in
          let signedData := linkID l ++ peerPub ++ sp ++ default [x00; x00; x00] sig in
          if negb (Identity.Verify id signedData signature) then mret false
          else if negb (rebalancePathHops (d_hash d) accounted) then mret false
          else modify (set_rebalanced now accounted) ;; mret true
      end.

(** The end of the initiator's establishment callback and of the gate. *)
Definition markChannelReady (l : Link) : Link :=
  match earlyChannel l with
  | [] => set_channel false [] l
  | queued => set_inboundQ (queued ++ inboundQ l) true (set_channel false [] l)
  end.

(** The part before the signature check, with the data to verify. *)
Definition readLinkProof (data : bytes) : M (bytes * bytes) :=
  signature ← lift (go_slice 0 SigLength data);
  peerPub ← lift (go_slice SigLength (SigLength + KeySize) data);
  sig ← lift (proofSignalling data);
  (match sig with
   | Some s => '(n, m) ← lift (signalled s); modify (set_modemtu m n)
   | None => mret ()
   end) ;;
  l ← mget;
  let sp := match destination l ≫= d_identity with
            | Some id => slice KeySize ECPubSize (Identity.GetPublicKey id)
            | None => peerSigPub l
            end in
  modify (set_peer peerPub sp) ;;
  _ ← lift (go_slice 0 8 (linkID l));
  _ ← lift (go_slice 0 8 sp);
  mret (signature, linkID l ++ peerPub ++ sp ++ default [x00; x00; x00] sig).

(** After the handshake: timing, activation, the RTT packet and the callback. *)
Definition activateInitiator (rand : option bytes) (now : Z) : M () :=
  modify updateMDU ;;
  l ← mget;
  modify (set_established (Rate.Seconds (now - requestTime l)) now) ;;
  modify (λ l, if Float64.ltb (Float64.of_Z 0) (rtt l) then updateKeepaliveLocked l else l) ;;
  ok ← promoteToActive;
  if negb ok then modify markInitiatorEstablishmentFailedLocked ;; fail ClosedBeforeActive
  else
    l ← mget;
    modify (emit (RegisterLink (linkID l))) ;;
    registerLinkPath ;;
    r ← attempt (encrypted ← lift (encrypt rand (rttMarshal (rtt l)) l);
                 p ← packed (linkPacket Packet.PacketTypeData Packet.ContextLRRTT DestTypeLink (linkID l)
                               encrypted false);
                 send p);
    (match r with Ok _ => modify (recordOutbound now) | _ => mret () end) ;;
    l ← mget;
    if establishedCallback l then modify (set_channel true (earlyChannel l)) ;; modify (emit Established)
    else modify markChannelReady.

Definition validateLinkProofLocked (rand : option bytes) (now : Z) (pkt : packet) (iface : option bool) : M () :=
  l ← mget;
  if negb (initiator l) then mret ()
  else
    guard_go (bool_decide (st l = StatusPending) || bool_decide (st l = StatusHandshake)) InvalidStatus ;;
    let accounted := AccountInboundHops (Packet.Hops pkt) iface in
    ok ← (if bool_decide (expectedHops l ≠ PathfinderM) && bool_decide (accounted ≠ expectedHops l)
          then tryTerminusPathRebalanceLocked now pkt accounted else mret true);
    guard_go ok (HopMismatch (b2z accounted) (b2z (expectedHops l))) ;;
    let data := Packet.Data pkt in
    guard_go (negb (len data <? SigLength + KeySize)) ProofTooShort ;;
    '(signature, signedData) ← readLinkProof data;
    match destination l ≫= d_identity with
    | None => modify markInitiatorEstablishmentFailedLocked ;; fail NoDestinationIdentity
    | Some id =>
        guard_go (Identity.Verify id signedData signature) ProofSignature ;;
        r ← attempt performHandshakeLocked;
        match r with
        | Ok _ => activateInitiator rand now
        | Err e => modify markInitiatorEstablishmentFailedLocked ;; fail e
        | Panic => lift Panic
        end
    end.

Definition ValidateLinkProof (rand : option bytes) (now : Z) (pkt : packet) (iface : option bool) : M () :=
  guard_go admitHandshake Refused ;; validateLinkProofLocked rand now pkt iface.

(** ** Inbound packets *)

Definition parseRTTPayloadSeconds (payload : bytes) : outcome link_error Float64.f64 :=
  match payload with
  | [] => Err InvalidRTT
  | c :: _ =>
      if bool_decide (c ≠ xca) && bool_decide (c ≠ xcb) then Err InvalidRTT
      else match rttUnmarshal payload with
           | None => Err InvalidRTT
           | Some r => if Float64.ltb r (Float64.of_Z 0) then Err InvalidRTT else Ok r
           end
  end.

Definition handleRTTPacket (now : Z) (pkt : packet) : M () :=
  l ← mget;
  if initiator l || bool_decide (st l ≠ StatusHandshake) then mret ()
  else
    plaintext ← lift (decrypt (Packet.Data pkt) l);
    r ← lift (parseRTTPayloadSeconds plaintext);
    modify (set_established (maxFloat (Rate.Seconds (now - requestTime l)) r) now) ;;
    modify (set_expectedHops (Packet.Hops pkt)) ;;
    modify (λ l, if Float64.ltb (Float64.of_Z 0) (rtt l) then updateKeepaliveLocked l else l) ;;
    ok ← promoteToActive;
    if negb ok then mret ()
    else
      l ← mget;
      modify (emit (RegisterLink (linkID l))) ;;
      registerLinkPath ;;
      (if establishedCallback l then modify (emit Established) else mret ()) ;;
      modify markChannelReady.

Definition Identify (rand : option bytes) (id : Identity.Identity) : M () :=
  l ← mget;
  guard_go (isActive l) NotActive ;;
  let pubKey := Identity.GetPublicKey id in
  signature ← lift (ident (Identity.Sign id (linkID l ++ pubKey)));
  encrypted ← lift (encrypt rand (pubKey ++ signature) l);
  p ← packed (linkPacket Packet.PacketTypeData Packet.ContextLinkIdentify DestTypeLink (linkID l)
                encrypted true);
  send p.

Definition HandleIdentification (rand : option bytes) (now : Z) (data : bytes) : M () :=
  let pubKeySize := Identity.KeySize `div` 8 in
  guard_go (negb (len data <? pubKeySize + Ed25519.SignatureSize)) IdentificationLength ;;
  pubKey ← lift (go_slice 0 pubKeySize data);
  signature ← lift (go_slice pubKeySize (len data) data);
  match Identity.FromPublicKey pubKey with
  | None => fail InvalidRemoteIdentity
  | Some remote =>
      l ← mget;
      guard_go (Identity.Verify remote (linkID l ++ pubKey) signature) InvalidSignature ;;
      if blackholed (Identity.Hash remote) then Teardown rand now ;; fail RemoteBlackholed
      else
        match remoteIdentity l with
        | Some _ => mret ()
        | None => modify (set_remoteIdentity (Some remote)) ;; modify (emit (Identified pubKey))
        end
  end.

Definition SetPacketCallback (callback : bool) (l : Link) : Link :=
  let data := pendingPlainData l in
  let l := set_plain callback [] l in
  if callback && (0 <? len data) then emit (Deliver data) l else l.

Definition deliverOrQueuePlainPacket (plaintext : bytes) (l : Link) : Link :=
  if packetCallback l then emit (Deliver plaintext) l
  else set_plain (packetCallback l) plaintext l.

Definition maxEarlyChannelPackets : Z := 32.

Definition queueEarlyChannel (pkt : packet) (l : Link) : Link :=
  if maxEarlyChannelPackets <=? len (earlyChannel l) then l
  else set_channel (channelGate l) (earlyChannel l ++ [pkt]) l.

Definition handleChannelPacket (now : Z) (pkt : packet) : M () :=
  l ← mget;
  if channelGate l then
    guard_go (bool_decide (st l ≠ StatusClosed)) NotActive ;; modify (queueEarlyChannel pkt)
  else if negb (isActive l) then
    if bool_decide (st l = StatusHandshake) && hasSessionKeys l then modify (queueEarlyChannel pkt)
    else fail NotActive
  else
    plaintext ← lift (decrypt (Packet.Data pkt) l);
    modify (emit (ToChannel plaintext)) ;;
    _ ← attempt (ProvePacket now pkt);
    mret ().

Definition decryptsInternally (ctx : byte) : bool :=
  existsb (Byte.eqb ctx)
    [Packet.ContextChannel; Packet.ContextResourceAdv; Packet.ContextResourceReq; Packet.ContextResourceHMU;
     Packet.ContextResourceICL; Packet.ContextResourceRCL; Packet.ContextLRRTT].

(** What the dispatch receives: the payload itself, the decrypted payload, or
    nothing when the handler decrypts. *)
Definition openPayload (pkt : packet) (l : Link) : outcome link_error (option bytes) :=
  let ctx := Packet.Context pkt in
  let data := Packet.Data pkt in
  let plain := bool_decide (ctx = Packet.ContextResource) || bool_decide (ctx = Packet.ContextCacheReq) in
  if hasSessionKeys l then
    if plain || (bool_decide (ctx = Packet.ContextKeepalive) && (len data <? 64)) then Ok (Some data)
    else if decryptsInternally ctx then Ok None
    else d ← decrypt data l; Ok (Some d)
  else if plain || bool_decide (ctx = Packet.ContextKeepalive) then Ok (Some data)
  else Err RequiresSessionKeys.

(** The contexts handed to the response and resource handlers. *)
Definition handledContexts : list byte :=
  [Packet.ContextResponse; Packet.ContextResourceAdv; Packet.ContextResourceReq; Packet.ContextResourceHMU;
   Packet.ContextResourceICL; Packet.ContextResourceRCL; Packet.ContextResource].

Definition handleDataPacket (rand : option bytes) (now : Z) (pkt : packet) : M () :=
  l ← mget;
  let ctx := Packet.Context pkt in
  guard_go (isActive l || bool_decide (st l = StatusHandshake)) NotActive ;;
  if bool_decide (ctx = Packet.ContextLRRTT) && bool_decide (st l = StatusHandshake) && negb (initiator l)
  then handleRTTPacket now pkt
  else
    opened ← lift (openPayload pkt l);
    let plaintext := default [] opened in
    if bool_decide (ctx = Packet.ContextNone) then
      modify (deliverOrQueuePlainPacket plaintext) ;; maybeProveInboundData now pkt
    else if bool_decide (ctx = Packet.ContextRequest) then
      match destination l ≫= d_maxRequest with
      | Some maxSize => if maxSize <? len plaintext then mret () else modify (emit (Handle ctx opened))
      | None => modify (emit (Handle ctx opened))
      end
    else if bool_decide (ctx = Packet.ContextLinkIdentify) then HandleIdentification rand now plaintext
    else if bool_decide (ctx = Packet.ContextKeepalive) then
      if negb (initiator l) && bool_decide (plaintext = [KeepaliveRequestByte])
         && responderShouldReplyKeepalive now (nsToTime (lastOutbound l)) (keepalive l) (initiator l)
      then sendLinkPacket (recordKeepaliveOutbound now) Packet.PacketTypeData Packet.ContextKeepalive
             [KeepaliveResponseByte]
      else mret ()
    else if bool_decide (ctx = Packet.ContextLinkClose) then handleTeardown plaintext
    else if bool_decide (ctx = Packet.ContextLRRTT) then handleRTTPacket now pkt
    else if bool_decide (ctx = Packet.ContextChannel) then handleChannelPacket now pkt
    else if existsb (Byte.eqb ctx) handledContexts then modify (emit (Handle ctx opened))
    else mret ().

(** The bookkeeping before the dispatch: false for a closed link. *)
Definition beginInbound (now : Z) (isData : bool) : M bool :=
  l ← mget;
  if bool_decide (st l = StatusClosed) then mret false
  else
    modify (recordInbound now isData) ;;
    (if bool_decide (st l = StatusStale) then _ ← promoteToActive; mret () else mret ()) ;;
    mret true.

Definition processInbound (rand : option bytes) (now : Z) (pkt : packet) : M () :=
  let isProof ctx := bool_decide (Packet.PacketType pkt = Packet.PacketTypeProof)
                     && bool_decide (Packet.Context pkt = ctx) in
  let notKeepalive := bool_decide (Packet.Context pkt ≠ Packet.ContextKeepalive) in
  if bool_decide (Packet.PacketType pkt = Packet.PacketTypeData) then
    live ← beginInbound now notKeepalive;
    if negb live then mret () else handleDataPacket rand now pkt
  else if isProof Packet.ContextResourcePRF then
    live ← beginInbound now true;
    if negb live then mret () else modify (emit (ResourceProof (Packet.Data pkt)))
  else if isProof Packet.ContextLRRTT then
    live ← beginInbound now true;
    if negb live then mret () else handleRTTPacket now pkt
  else
    live ← beginInbound now notKeepalive;
    if negb live then mret ()
    else if isProof Packet.ContextLRProof then
      l ← mget; validateLinkProofLocked rand now pkt (networkInterface l)
    else mret ().

(** [HandleInbound]: a copy of the wire bytes is parsed and queued. *)
Definition HandleInbound (raw : bytes) : M () :=
  match Packet.Unpack (Packet.packet_of_raw raw) with
  | (p, Ok _) => l ← mget; modify (set_inboundQ (inboundQ l ++ [p]) true)
  | (_, Err e) => fail (PacketFailed e)
  | (_, Panic) => lift Panic
  end.

Definition popInbound : M (option packet) :=
  l ← mget;
  match inboundQ l with
  | [] => modify (set_inboundQ [] false) ;; mret None
  | p :: q => modify (set_inboundQ q (inboundBusy l)) ;; mret (Some p)
  end.

(** ** The watchdog *)

(** The end of the loop: the watchdog of a closed link may be started again. *)
Definition watchdogExit (l : Link) : Link :=
  if bool_decide (st l = StatusClosed) then set_watchdog (watchdogDone l) false l else l.

Definition WatchdogInterval : Float64.f64 := Float64.ratio 1 10.
Definition WatchdogMinSleep : Float64.f64 := Float64.ratio 25 1000.
Definition shortSleep : Float64.f64 := Float64.ratio 1 1000.
Definition until (t now : Z) : Float64.f64 := Rate.Seconds (t - now).

(** The branch of an active link. *)
Definition watchdogActiveTick (now : Z) : M Float64.f64 :=
  l ← mget;
  let lastOut := nsToTime (lastOutbound l) in
  let lastKa := if lastKeepalive l =? 0 then lastOut else lastKeepalive l in
  let inbound := Z.max (nsToTime (lastInbound l)) (nsToTime (establishedAt l)) in
  (if initiatorShouldSendKeepalive now inbound lastOut lastKa (keepalive l) (initiator l)
   then _ ← attempt (sendKeepalive now); mret () else mret ()) ;;
  if keepaliveDue now inbound lastOut (keepalive l) then
    if inbound + staleTime l <? now then
      modify (set_st StatusStale) ;;
      mret (Float64.add (Float64.mul (rtt l) (Float64.of_Z 4)) (Float64.of_Z 2))
    else mret (Float64.div (Float64.of_Z (keepalive l)) (Float64.of_Z Second))
  else mret (until (Z.min (inbound + keepalive l) (lastOut + keepalive l)) now).

(** One iteration of the loop that holds the lock: the seconds to sleep. *)
Definition watchdogTick (rand : option bytes) (now : Z) : M Float64.f64 :=
  l ← mget;
  sleepTime ←
    match st l with
    | StatusPending | StatusHandshake =>
        let nextCheck := nsToTime (requestTime l) + establishmentTimeout l in
        if nextCheck <? now then finishWatchdogClose StatusFailed true ;; mret shortSleep
        else mret (until nextCheck now)
    | StatusActive => watchdogActiveTick now
    | StatusStale =>
        _ ← attempt (sendTeardownPacket rand now);
        finishWatchdogClose StatusFailed false ;; mret shortSleep
    | StatusClosed | StatusFailed => mret WatchdogInterval
    end;
  let sleepTime := if Float64.leb sleepTime (Float64.of_Z 0) then WatchdogInterval else sleepTime in
  mret (if Float64.ltb (Float64.of_Z 5) sleepTime then Float64.of_Z 5 else sleepTime).

Definition SetRTT (v : Float64.f64) (l : Link) : Link := set_established v (establishedAt l) l.

(** ** The keepalive loop of [Start] *)

Definition sinceLast (now last : Z) : Float64.f64 :=
  if last =? 0 then Float64.of_Z 0 else Rate.Seconds (now - last).
Definition NoDataFor (now : Z) (l : Link) : Float64.f64 :=
  sinceLast now (Z.max (lastDataSent l) (lastDataReceived l)).
Definition InactiveFor (now : Z) (l : Link) : Float64.f64 :=
  sinceLast now (Z.max (lastOutbound l) (lastInbound l)).

(** The body of [maintainLink] when its ticker fires; false ends the loop. *)
Definition maintainTick (rand : option bytes) (now : Z) : M bool :=
  l ← mget;
  if negb (isActive l) then mret false
  else if Float64.ltb (Float64.of_Z StaleTime) (InactiveFor now l) then
    modify (set_teardownReason StatusFailed) ;; Teardown rand now ;; mret false
  else if Float64.ltb (Float64.of_Z Keepalive) (NoDataFor now l) then
    r ← attempt (sendKeepalive now);
    match r with
    | Ok _ => mret true
    | _ => modify (set_teardownReason StatusFailed) ;; Teardown rand now ;; mret false
    end
  else mret true.
End ops.
End Link.
