(* ===== verification/LinkSession.v ===== *)
(** * Link sessions

    What the handshake of [Link.v] achieves: both ends hold the same session,
    what one end seals the other opens, and a proof that was not signed by the
    destination leaves the link pending. *)

From S2P Require Import Prelude.
From S2P Require Import Sha256.
From S2P Require Import Packet.
From S2P Require Import Crypto.
From S2P Require Import HeaderRewrite.
From S2P Require Import Float64.
From S2P Require Import Common.
From S2P Require Import Identity.
From S2P Require Import Rate.
From S2P Require Import Link.

Module Session.
Import Link.
Local Open Scope go_scope.

(** ** The cipher *)

Section cipher.
Context `{LinkEnv}.

(** What one key pair seals it opens, at the announced length. *)
Lemma seal_session key mac iv data :
  len iv = 16 →
  ∃ c, encryptWithKeysInto (Some iv) key mac data = Ok c
    ∧ len c = encryptedPayloadLen (len data) ∧ 64 <= len c
    ∧ decryptWithKeys key mac c = Ok data.
Proof.
  intros Hiv. destruct (Crypto.seal_open key iv data Hiv) as (body & Hs & Hl & Ho).
  pose proof (Crypto.len_sealCBC _ _ _ _ Hiv Hs) as Hlb.
  unfold encryptWithKeysInto, decryptWithKeys. rewrite Hs. cbn [crypt mbind outcome_bind].
  set (m := Crypto.ComputeHMAC mac body).
  assert (Hm : len m = 32) by apply Hmac.len_mac.
  destruct (Identity.mac_slices body m Hm) as [S1 S2].
  exists (body ++ m). rewrite len_app, Hm in *. unfold encryptedPayloadLen, Crypto.BlockSize, Crypto.SHA256Size in *.
  split_and!; [done|lia|lia|]. rewrite (proj2 (Z.ltb_ge _ _)) by lia.
  rewrite !go_slice_Ok by (rewrite ?len_app; lia). cbn [mbind outcome_bind]. rewrite S1, S2.
  unfold Crypto.ValidateHMAC. rewrite bool_decide_eq_true_2 by done. cbn [negb]. by rewrite Ho.
Qed.

(** Two links with the same keys. *)
Lemma decrypt_encrypt a b k iv data :
  sessionKeys a = Ok k → sessionKeys b = Ok k → len iv = 16 → admitCrypto = true →
  ∃ c, encrypt (Some iv) data a = Ok c ∧ len c = encryptedPayloadLen (len data)
    ∧ decrypt c b = Ok data.
Proof.
  destruct k as [key mac]. intros Ha Hb Hiv Hadm.
  destruct (seal_session key mac iv data Hiv) as (c & He & Hl & Hm & Hd).
  exists c. unfold encrypt, decrypt. rewrite Ha, Hb, Hadm. cbn [mbind outcome_bind].
  split_and!; [done..|]. rewrite (proj2 (Z.ltb_ge _ _)) by (unfold Crypto.BlockSize; lia). done.
Qed.
End cipher.

(** ** Key agreement *)

(** The keys of a session: AES key and HMAC key. *)
Definition linkKeys (secret id : bytes) (mode : byte) : bytes * bytes :=
  let prk := Hmac.mac (if len id =? 0 then Crypto.hkdfZeroSalt else id) secret in
  let okm := Crypto.hkdfExpand 2 0 prk [] [] in
  if bool_decide (mode = ModeAES128CBC) then (slice 16 32 okm, take 16 okm)
  else (slice 32 64 okm, take 32 okm).

(** The link without its keys and its status. *)
Definition keyless (l : Link) : Link := set_st StatusPending (set_session None None (set_cipher None l)).

(** An environment in which the network works and admission is granted; the
    msgpack codec reads back the float it wrote, as a [float64]. *)
Class Online `{LinkEnv} := {
  online_send : ∀ p, transportSend p = true;
  online_iface : ∀ r, ifaceSend r = true;
  online_path : ∀ h, hasPath h = true;
  online_slot : ∀ h, tryBeginOutboundEstablish h = true;
  online_handshake : admitHandshake = true;
  online_crypto : admitCrypto = true;
  rtt_decodes : ∀ r, Float64.nonneg r → ∃ r', rttUnmarshal (rttMarshal r) = Some r' ∧ Float64.nonneg r';
  rtt_code : ∀ r, ∃ tail, rttMarshal r = xcb :: tail ∧ len tail = 8
}.

Section handshake.
Context `{X25519.CurveLaws} `{Ed25519.SchemeLaws} `{LinkEnv}.

Lemma derive_link_key secret id n :
  len secret = 32 → (n = 32 ∨ n = 64) →
  Crypto.implDeriveKey secret id [] n
    = Ok (take (Z.to_nat n) (Crypto.hkdfExpand 2 0
            (Hmac.mac (if len id =? 0 then Crypto.hkdfZeroSalt else id) secret) [] [])).
Proof.
  intros Hs Hn. rewrite Crypto.implDeriveKey_Ok; [|by intros ->|lia].
  destruct Hn as [->| ->]; [|reflexivity]. apply f_equal.
  change (Z.to_nat ((32 + 31) `div` 32)) with 1%nat. change (Z.to_nat 32) with 32%nat.
  rewrite take_ge; [symmetry; apply (Crypto.hkdfExpand_prefix 1 2); lia|].
  pose proof (Crypto.len_hkdfExpand 1 0 (Hmac.mac (if len id =? 0 then Crypto.hkdfZeroSalt else id) secret) [] []).
  unfold len in *. lia.
Qed.

(** The two ways of cutting the derived key. *)
Lemma split_derived okm l :
  len okm = 64 →
  splitDerivedKey okm l = set_session (Some (take 32 okm)) (Some (slice 32 64 okm)) l
  ∧ splitDerivedKey (take 32 okm) l = set_session (Some (take 16 okm)) (Some (slice 16 32 okm)) l.
Proof.
  intros Hl. unfold splitDerivedKey. rewrite len_take, Hl. split; [done|].
  change (64 <=? Z.min (Z.of_nat 32) 64) with false. change (32 <=? Z.min (Z.of_nat 32) 64) with true.
  cbv iota. rewrite take_take. do 2 f_equal. unfold slice.
  change (Z.to_nat (32 - 16)) with 16%nat. change (Z.to_nat 16) with 16%nat.
  by rewrite skipn_firstn_comm, take_take.
Qed.

Lemma session_installed l hk sk :
  (mode l = ModeAES128CBC ∧ len sk = 16 ∧ len hk = 16 ∨ mode l = ModeAES256CBC ∧ len sk = 32 ∧ len hk = 32) →
  let l' := set_st StatusHandshake (refreshAESBlockLocked (set_session (Some hk) (Some sk) l)) in
  sessionKeys l' = Ok (sk, hk) ∧ hasSessionKeys l' = true ∧ st l' = StatusHandshake
  ∧ keyless l' = keyless l.
Proof.
  intros Hc. assert (Hr : refreshAESBlockLocked (set_session (Some hk) (Some sk) l)
    = set_cipher (Some (sk, hk)) (set_session (Some hk) (Some sk) l)).
  { unfold refreshAESBlockLocked. change (mode (set_session _ _ _)) with (mode l).
    change (sessionKey (set_session _ _ _)) with (Some sk). change (hmacKey (set_session _ _ _)) with (Some hk).
    cbv beta iota zeta.
    destruct Hc as [(Hm & Hs & Hh)|(Hm & Hs & Hh)]; rewrite Hm, ?Hs, ?Hh.
    - rewrite bool_decide_eq_true_2 by done. cbn [orb Z.ltb Z.compare Pos.compare Pos.compare_cont].
      by rewrite !take_ge, Hh by (unfold len in *; lia).
    - rewrite bool_decide_eq_false_2 by done. cbn [Z.leb Z.compare Pos.compare Pos.compare_cont].
      by rewrite take_ge, Hh by (unfold len in *; lia). }
  cbv zeta. rewrite Hr. split_and!; reflexivity.
Qed.

Lemma performHandshake_run l priv k :
  prv l = Some priv → len (peerPub l) = 32 → X25519.scalarMult priv (peerPub l) = Some k →
  (mode l = ModeAES128CBC ∨ mode l = ModeAES256CBC) →
  ∃ l', performHandshakeLocked l = (l', Ok ()) ∧ sessionKeys l' = Ok (linkKeys k (linkID l) (mode l))
    ∧ hasSessionKeys l' = true ∧ st l' = StatusHandshake ∧ keyless l' = keyless l.
Proof.
  intros Hp Hl Hk Hm. pose proof (X25519.scalarMult_len _ _ _ Hk) as Hlk.
  unfold performHandshakeLocked. autorewrite with goM. rewrite Hl, Hp. change (32 =? KeySize) with true.
  autorewrite with goM. unfold Identity.DeriveSharedSecret. rewrite Hk. cbn [ident]. autorewrite with goM.
  set (prk := Hmac.mac (if len (linkID l) =? 0 then Crypto.hkdfZeroSalt else linkID l) k).
  pose proof (Crypto.len_hkdfExpand 2 0 prk [] []) as Hokm. change (32 * Z.of_nat 2) with 64 in Hokm.
  unfold linkKeys. fold prk.
  pose proof (derive_link_key k (linkID l) 32 Hlk (or_introl eq_refl)) as D32.
  pose proof (derive_link_key k (linkID l) 64 Hlk (or_intror eq_refl)) as D64. fold prk in D32, D64.
  set (okm := Crypto.hkdfExpand 2 0 prk [] []) in *. clearbody okm.
  destruct (split_derived okm l Hokm) as [S64 S32].
  assert (Hlt : ∀ n, (n <= 64)%nat → len (take n okm) = Z.of_nat n) by (intros n ?; rewrite len_take; lia).
  destruct Hm as [Hm|Hm]; rewrite Hm.
  - rewrite bool_decide_eq_true_2 by done. autorewrite with goM. rewrite D32. cbn [crypt].
    change (Z.to_nat 32) with 32%nat. autorewrite with goM. rewrite S32.
    eexists. split; [reflexivity|]. apply session_installed. left.
    rewrite len_slice, Hlt by lia. done.
  - rewrite bool_decide_eq_false_2, bool_decide_eq_true_2 by done. autorewrite with goM. rewrite D64. cbn [crypt].
    change (Z.to_nat 64) with 64%nat. rewrite (take_ge okm 64) by (unfold len in *; lia).
    autorewrite with goM. rewrite S64.
    eexists. split; [reflexivity|]. apply session_installed. right.
    rewrite len_slice, Hlt by lia. done.
Qed.

(** ** What sending leaves alone *)

(** The state of a link apart from its bookkeeping: interface, time stamps,
    watchdog and effects. *)
Definition sess (l : Link) :=
  (destination l, establishedCallback l, st l, initiator l, prv l, pub l, (sigPriv l, sigPub l),
   (peerPub l, peerSigPub l), (hmacKey l, sessionKey l, cipher l), linkID l, (mode l, mtu l, mdu l),
   (requestPacket l, requestTime l), expectedHops l, remoteIdentity l, (packetCallback l, pendingPlainData l),
   (channelGate l, earlyChannel l)).

Lemma sess_keys a b :
  sess a = sess b → sessionKeys a = sessionKeys b ∧ hasSessionKeys a = hasSessionKeys b.
Proof.
  unfold sess, sessionKeys, hasSessionKeys, snapshotSessionKeysLocked. intros [=].
  by repeat match goal with H : ?f a = ?f b |- _ => rewrite H; clear H end.
Qed.

Lemma sess_fields a b :
  sess a = sess b →
  st a = st b ∧ linkID a = linkID b ∧ mode a = mode b ∧ mtu a = mtu b ∧ initiator a = initiator b
  ∧ destination a = destination b ∧ requestTime a = requestTime b ∧ packetCallback a = packetCallback b.
Proof. unfold sess. intros [=]. split_and!; done. Qed.

(** A step that succeeds and changes only the bookkeeping. *)
Definition quiet {A} (m : M A) (a : A) : Prop :=
  ∀ l, ∃ l', m l = (l', Ok a) ∧ sess l' = sess l ∧ networkInterface l' = networkInterface l
    ∧ ∃ es, effects l' = effects l ++ es.

Lemma registerLinkPath_quiet : quiet registerLinkPath ().
Proof.
  intros l. unfold registerLinkPath. autorewrite with goM. destruct (networkInterface l) eqn:E.
  - eexists. split_and!; [reflexivity|reflexivity|exact E|by eexists].
  - exists l. split_and!; [reflexivity|reflexivity|exact E|exists []; by rewrite app_nil_r].
Qed.

Lemma transmit_run `{!Online} p l : send p l = (emit (SendPacket p) l, Ok ()).
Proof. unfold send. autorewrite with goM. unfold guard_go. by rewrite online_send. Qed.

Lemma startWatchdog_sess l : sess (startWatchdog l) = sess l ∧ effects (startWatchdog l) = effects l.
Proof. unfold startWatchdog. by destruct (watchdogActive l). Qed.

(** ** Packets of the link *)

Lemma link_id_ext p q :
  Packet.raw p = Packet.raw q → Packet.HeaderType p = Packet.HeaderType q → Packet.Data p = Packet.Data q →
  Packet.LinkIDFromLinkRequest p = Packet.LinkIDFromLinkRequest q.
Proof.
  intros Hr Hh Hd. unfold Packet.LinkIDFromLinkRequest, Packet.hashableInto. by rewrite Hr, Hh, Hd.
Qed.

(** A packet that was packed, and what a receiver reads of its bytes. *)
Definition on_wire (p p' q : packet) : Prop :=
  Packet.raw p' = Packet.wire p ∧ Packet.Data p' = Packet.Data p
  ∧ HeaderRewrite.parse (Packet.wire p) = Some q
  ∧ Packet.flag_fields q = Packet.flag_fields p ∧ Packet.body_fields q = Packet.body_fields p
  ∧ Packet.LinkIDFromLinkRequest p' = Packet.LinkIDFromLinkRequest q
  ∧ ∃ id, Packet.LinkIDFromLinkRequest q = Ok id ∧ len id = 16.

Lemma packed_run p (l : Link) :
  Packet.Packed p = false → Packet.packet_ok p = true →
  ∃ p' q, packed p l = (l, Ok p') ∧ on_wire p p' q.
Proof.
  intros Hp Hok. destruct (Packet.packet_ok_frame p Hok) as (Hw & Hf & Hm & Ht).
  pose proof Hok as Hfl. unfold Packet.packet_ok in Hfl. rewrite !andb_true_iff in Hfl.
  destruct Hfl as [[[Hpk Hfl] _] _]. apply Packet.headerFlags_decode in Hfl as Hd.
  destruct (Packet.Pack_run p Hp Hpk) as (b & Hb & HP).
  set (r := Packet.wire p) in *.
  set (f := Packet.headerFlags p) in *. set (dh := Packet.DestinationHash p) in *.
  set (tid := default [] (Packet.wireTransportID p)) in *.
  assert (Hlr : len r <= Packet.MaxInboundPacketSize) by (unfold Packet.MTU, Packet.MaxInboundPacketSize in *; lia).
  set (q := Packet.unpacked f (Packet.Hops p) tid dh (Packet.Context p) (Packet.Data p) (Packet.packet_of_raw r)).
  assert (Hq : HeaderRewrite.parse r = Some q).
  { subst q. rewrite Hw in *. by apply HeaderRewrite.parse_frame. }
  exists (Packet.packed b p), q. unfold packed. rewrite HP. split; [done|].
  unfold Packet.flag_fields in Hd. injection Hd as H1' H2' H3' H4' H5'.
  fold (Packet.headerTypeOf f) in H1'.
  assert (Hid : Packet.LinkIDFromLinkRequest q =
    Ok (Packet.identity_TruncatedHash (HeaderRewrite.link_preimage f dh (Packet.Context p) (Packet.Data p)))).
  { subst q. rewrite Hw. by apply HeaderRewrite.link_id_frame. }
  split_and!; [exact Hb|done|exact Hq|..].
  - unfold Packet.flag_fields, q, Packet.unpacked. Packet.packet_simpl. by rewrite H1', H2', H3', H4', H5'.
  - unfold Packet.body_fields, Packet.wireTransportID in *. subst q. unfold Packet.unpacked. Packet.packet_simpl.
    rewrite H1'. destruct (decide _) as [E|E]; [|done]. destruct (Ht E) as [t Et]. subst tid. by rewrite Et.
  - apply link_id_ext; [|by symmetry|done].
    change (Packet.raw (Packet.packed b p)) with (content b). rewrite Hb. symmetry. apply Packet.raw_packet_of_raw.
  - eexists. split; [exact Hid|]. unfold Packet.identity_TruncatedHash.
    rewrite len_take, Sha256.len_Sum256. done.
Qed.

Lemma linkPacket_ok ptype ctx dtype dest data receipt :
  b2z ptype < 4 → b2z dtype < 4 → len dest = 16 → len data <= 481 →
  Packet.packet_ok (linkPacket ptype ctx dtype dest data receipt) = true.
Proof.
  intros Hp Hd Hl Hm. unfold Packet.packet_ok, Packet.packable, Packet.flags_in_range, Packet.wire, linkPacket.
  Packet.packet_simpl. rewrite decide_False by done. rewrite Hl. len_simpl. rewrite Hl.
  rewrite (proj2 (Z.ltb_lt _ _) Hp), (proj2 (Z.ltb_lt _ _) Hd), (proj2 (Z.leb_le _ _)) by (unfold Packet.MTU; lia).
  done.
Qed.

(** ** The request *)

(** The link without what the preparation of a request writes. *)
Definition unprepared (l : Link) : Link :=
  set_prv None [] (set_signing None [] (set_modemtu x00 0 (set_mtumdu 0 0
    (set_linkID [] (set_request None 0 (set_st StatusPending l)))))).

Lemma updateMDU_mtu l : mtu (updateMDU l) = Z.min (mtu l) Packet.MTU.
Proof.
  unfold updateMDU. change (mtu (set_mtumdu ?a _ _)) with a.
  destruct (Z.ltb_spec Packet.MTU (mtu l)); cbn [mtu set_mtumdu]; lia.
Qed.

(** The signalling bytes of the request and of the proof. *)
Lemma signallingBytes_eq n m : signallingBytes n m = HeaderRewrite.signallingBytesMTU n m.
Proof. reflexivity. Qed.

Lemma prepare_run x s now l d :
  destination l = Some d → len x = 32 → b2z (d_type d) < 4 → len (d_hash d) = 16 →
  ∃ l' px req q id, X25519.scalarMult x X25519.basepoint = Some px ∧ len px = 32
    ∧ prepareLinkRequestLocked (Some x) (Some s) now l = (l', Ok ())
    ∧ requestPacket l' = Some req
    ∧ on_wire (linkPacket Packet.PacketTypeLinkReq Packet.ContextNone (d_type d) (d_hash d)
                 (px ++ Ed25519.publicKey s ++ signallingBytes 500 ModeAES256CBC) false) req q
    ∧ Packet.LinkIDFromLinkRequest req = Ok id ∧ len id = 16 ∧ linkID l' = id
    ∧ prv l' = Some x ∧ mode l' = ModeAES256CBC ∧ mtu l' = 500 ∧ requestTime l' = now
    ∧ st l' = StatusPending ∧ unprepared l' = unprepared l.
Proof.
  intros Hd Hx Ht Hh. destruct (X25519.public_key x Hx) as (px & Hpx & Hlpx).
  unfold prepareLinkRequestLocked, generateEphemeralKeys. autorewrite with goM.
  unfold Identity.GenerateKeyPair, Identity.PublicKeyFromPrivate. rewrite Hpx.
  cbn [mbind outcome_bind ident]. autorewrite with goM.
  set (l1 := updateMDU _).
  set (req0 := linkPacket Packet.PacketTypeLinkReq Packet.ContextNone (d_type d) (d_hash d)
                 (px ++ Ed25519.publicKey s ++ signallingBytes 500 ModeAES256CBC) false).
  assert (E1 : destination l1 = Some d) by exact Hd.
  assert (E2 : pub l1 = px) by reflexivity.
  assert (E3 : sigPub l1 = Ed25519.publicKey s) by reflexivity.
  assert (E4 : mtu l1 = 500) by reflexivity.
  assert (E5 : mode l1 = ModeAES256CBC) by reflexivity.
  assert (E6 : prv l1 = Some x) by reflexivity.
  assert (E7 : unprepared l1 = unprepared l) by reflexivity.
  rewrite E1, E2, E3, E4, E5. cbv iota. fold req0. clearbody l1.
  destruct (packed_run req0 l1) as (req & q & HP & HW); [done| |].
  { apply linkPacket_ok; [done..|]. rewrite !len_app, Hlpx, Ed25519.publicKey_len. done. }
  rewrite (run_bind_ok _ _ _ _ _ HP).
  destruct HW as (W1 & W2 & W3 & W4 & W5 & W6 & id & W7 & W8).
  rewrite W6, W7. cbn [pack]. autorewrite with goM.
  eexists _, px, req, q, id. split_and!; try reflexivity; try done; [|by rewrite W6].
  unfold on_wire. fold req0. split_and!; try done. by exists id.
Qed.

(** The initiator's side of the establishment. *)
Lemma Establish_run `{!Online} x s now d iface cb :
  len x = 32 → b2z (d_type d) < 4 → len (d_hash d) = 16 →
  ∃ l' px req q id, X25519.scalarMult x X25519.basepoint = Some px ∧ len px = 32
    ∧ Establish (Some x) (Some s) now (NewLink (Some d) iface cb) = (l', Ok ())
    ∧ SendPacket req ∈ effects l'
    ∧ on_wire (linkPacket Packet.PacketTypeLinkReq Packet.ContextNone (d_type d) (d_hash d)
                 (px ++ Ed25519.publicKey s ++ signallingBytes 500 ModeAES256CBC) false) req q
    ∧ Packet.LinkIDFromLinkRequest req = Ok id ∧ len id = 16 ∧ linkID l' = id
    ∧ prv l' = Some x ∧ mode l' = ModeAES256CBC ∧ requestTime l' = now
    ∧ st l' = StatusPending ∧ destination l' = Some d ∧ initiator l' = true
    ∧ expectedHops l' = hopsTo (d_hash d) ∧ establishedCallback l' = cb.
Proof.
  intros Hx Ht Hh. unfold Establish. autorewrite with goM.
  change (destination (NewLink (Some d) iface cb)) with (Some d). cbv iota zeta.
  rewrite online_path, online_slot. autorewrite with goM.
  set (l1 := set_establishmentTimeout _ _).
  assert (E1 : destination l1 = Some d) by reflexivity.
  assert (E2 : initiator l1 = true) by reflexivity.
  assert (E3 : expectedHops l1 = hopsTo (d_hash d)) by reflexivity.
  assert (E4 : establishedCallback l1 = cb) by reflexivity. clearbody l1.
  destruct (prepare_run x s now l1 d E1 Hx Ht Hh)
    as (l2 & px & req & q & id & Hpx & Hlpx & HP & Hreq & HW & Hid & Hlid & Hl & Hprv & Hm & Hmtu & Hrt & Hst & HF).
  assert (HA : attempt (prepareLinkRequestLocked (Some x) (Some s) now) l1 = (l2, Ok (Ok ())))
    by (unfold attempt; by rewrite HP).
  rewrite (run_bind_ok _ _ _ _ _ HA). cbv iota. autorewrite with goM.
  apply (f_equal destination) in HF as F1. apply (f_equal initiator) in HF as F2.
  apply (f_equal expectedHops) in HF as F3. apply (f_equal establishedCallback) in HF as F4.
  cbn in F1, F2, F3, F4.
  set (l3 := match networkInterface l2 with
             | Some _ => emit (RegisterLink (linkID l2)) l2
             | None => set_networkInterface (nextHopInterface (d_hash d)) (emit (RegisterLink (linkID l2)) l2)
             end).
  assert (R3 : (match networkInterface l2 with
                | Some _ => mret ()
                | None => modify (set_networkInterface (nextHopInterface (d_hash d)))
                end : M ()) (emit (RegisterLink (linkID l2)) l2) = (l3, Ok ())) by (subst l3; by destruct (networkInterface l2)).
  rewrite (run_bind_ok _ _ _ _ _ R3).
  assert (S3 : sess l3 = sess l2) by (subst l3; by destruct (networkInterface l2)). clearbody l3.
  destruct (registerLinkPath_quiet l3) as (l4 & R4 & S4 & _). rewrite (run_bind_ok _ _ _ _ _ R4).
  rewrite S3 in S4. clear R3 S3 R4 l3.
  assert (R5 : attempt sendPreparedLinkRequest l4 = (emit (SendPacket req) l4, Ok (Ok ()))).
  { unfold attempt, sendPreparedLinkRequest. autorewrite with goM.
    assert (requestPacket l4 = Some req) as -> by (unfold sess in S4; congruence). by rewrite transmit_run. }
  rewrite (run_bind_ok _ _ _ _ _ R5). cbv iota.
  destruct (startWatchdog_sess (emit (SendPacket req) l4)) as [S5 E5].
  set (l' := startWatchdog (emit (SendPacket req) l4)) in *.
  assert (R6 : modify (E:=link_error) startWatchdog (emit (SendPacket req) l4) = (l', Ok ())) by reflexivity.
  clearbody l'. change (sess (emit (SendPacket req) l4)) with (sess l4) in S5. rewrite S4 in S5. unfold sess in S5.
  exists l', px, req, q, id. split_and!; try done; [|congruence..].
  rewrite E5. apply elem_of_app. right. constructor.
Qed.

(** ** The responder *)

Lemma len_fixed n l : len (Identity.fixed n l) = Z.of_nat n.
Proof. unfold Identity.fixed. rewrite len_app, len_take, len_replicate. unfold len. lia. Qed.

(** The signing half of a public key. *)
Lemma signing_half id :
  len (Identity.verificationKey id) = 32 →
  slice KeySize ECPubSize (Identity.GetPublicKey id) = Identity.verificationKey id
  ∧ len (Identity.GetPublicKey id) = 64.
Proof.
  intros Hl. unfold Identity.GetPublicKey, Identity.fullPublicKey.
  rewrite (Identity.fixed_exact 32 (Identity.verificationKey id)) by done.
  split; [|rewrite len_app, len_fixed, Hl; done].
  apply slice_app_tail; rewrite len_fixed; [done|]. rewrite Hl. done.
Qed.

(** An identity whose private keys are in memory. *)
Definition full_identity (owner : Identity.Identity) (seed : bytes) : Prop :=
  Identity.externalSigner owner = None ∧ Identity.signingSeed owner = Some seed ∧ len seed = 32
  ∧ (∃ k, Identity.privateKey owner = Some k ∧ len k = 32)
  ∧ Identity.verificationKey owner = Ed25519.publicKey seed.

Lemma bindOwner_run owner seed l :
  full_identity owner seed →
  bindOwnerSigningKeys owner l
    = (set_signing (Some seed) (Ed25519.publicKey seed)
         (set_signing (sigPriv l) (Ed25519.publicKey seed) l), Ok ()).
Proof.
  intros (He & Hs & Hls & (k & Hk & Hlk) & Hv). unfold bindOwnerSigningKeys.
  rewrite Hv, Ed25519.publicKey_len. change (Ed25519.PublicKeySize =? Ed25519.PublicKeySize) with true.
  autorewrite with goM. unfold Identity.GetPrivateKey, Identity.hasExportablePrivate.
  rewrite He, Hk, Hs, Hlk, Hls. cbn [andb Z.eqb Pos.eqb]. rewrite len_app, Hlk, Hls.
  change (negb (32 + 32 <? 64)) with true. autorewrite with goM.
  rewrite slice_app_tail by (rewrite ?Hlk, ?Hls; done). reflexivity.
Qed.

Definition proofData (seed id py sig : bytes) : bytes :=
  Ed25519.sign seed (id ++ py ++ Ed25519.publicKey seed ++ sig) ++ py ++ sig.

Lemma GenerateLinkProof_run owner seed l :
  full_identity owner seed → len (linkID l) = 16 → len (pub l) = 32 →
  let sig := signallingBytes (mtu l) (mode l) in
  ∃ p q, GenerateLinkProof owner l = (l, Ok p)
    ∧ on_wire (linkPacket Packet.PacketTypeProof Packet.ContextLRProof DestTypeLink (linkID l)
                 (proofData seed (linkID l) (pub l) sig) false) p q.
Proof.
  intros (He & Hs & Hls & (k & Hk & Hlk) & Hv) Hid Hpub sig. unfold GenerateLinkProof. autorewrite with goM.
  destruct (signing_half owner) as [Hsh Hlen]; [by rewrite Hv, Ed25519.publicKey_len|].
  rewrite (go_slice_Ok KeySize ECPubSize) by (rewrite ?Hlen; unfold KeySize, ECPubSize; lia). rewrite Hsh, Hv. autorewrite with goM.
  unfold Identity.Sign. rewrite He, Hs. cbn [ident]. autorewrite with goM.
  rewrite !go_slice_Ok by (rewrite ?Ed25519.sign_len, ?Hpub; unfold Ed25519.SignatureSize; lia). autorewrite with goM.
  edestruct (packed_run (linkPacket Packet.PacketTypeProof Packet.ContextLRProof DestTypeLink (linkID l)
                 (proofData seed (linkID l) (pub l) sig) false) l) as (p & q & HP & HW); [done| |].
  { apply linkPacket_ok; [done..|]. unfold proofData. rewrite !len_app, Ed25519.sign_len, Hpub. done. }
  exists p, q. split; [|exact HW]. exact HP.
Qed.

Lemma sendLinkProof_run `{!Online} owner seed l b :
  full_identity owner seed → len (linkID l) = 16 → len (pub l) = 32 →
  initiator l = false → networkInterface l = Some b →
  ∃ l' p q, sendLinkProof owner l = (l', Ok ()) ∧ sess l' = sess l
    ∧ IfaceSend (Packet.raw p) ∈ effects l'
    ∧ on_wire (linkPacket Packet.PacketTypeProof Packet.ContextLRProof DestTypeLink (linkID l)
                 (proofData seed (linkID l) (pub l) (signallingBytes (mtu l) (mode l))) false) p q.
Proof.
  intros Ho Hid Hpub Hi Hn. destruct (GenerateLinkProof_run owner seed l Ho Hid Hpub) as (p & q & HG & HW).
  unfold sendLinkProof. rewrite (run_bind_ok _ _ _ _ _ HG). autorewrite with goM. rewrite Hi, Hn.
  autorewrite with goM. unfold guard_go. rewrite online_iface.
  eexists _, p, q. split_and!; [reflexivity|reflexivity| |exact HW].
  change (IfaceSend (Packet.raw p) ∈ effects l ++ [IfaceSend (Packet.raw p)]). apply elem_of_app. right. constructor.
Qed.

(** The mode and MTU a proof or a request can signal. *)
Lemma signalled_bytes n m :
  0 <= n < 2 ^ 21 → b2z m < 8 → signalled (signallingBytes n m) = Ok (n, m).
Proof.
  intros Hn Hm. pose proof (HeaderRewrite.signalling_decode (replicate 64 x00) n m eq_refl Hn Hm) as HD.
  rewrite <- signallingBytes_eq in HD. unfold signallingBytes in *.
  rewrite HeaderRewrite.mtuFromLRData_sig in HD by done.
  injection HD as HD1 HD2.
  set (b0 := z2b (Z.land (Z.shiftr n 16) 255) ||| (m <<< 5)) in *.
  set (b1 := z2b (Z.land (Z.shiftr n 8) 255)) in *. set (b2 := z2b (Z.land n 255)) in *. clearbody b0 b1 b2.
  change (signalled [b0; b1; b2]) with
    (Ok (E:=link_error) (Z.lor (Z.lor (Z.shiftl (b2z (b0 &&& x1f)) 16) (Z.shiftl (b2z b1) 8)) (b2z b2),
       (b0 &&& xe0) >>> 5)). by rewrite HD1, HD2.
Qed.

(** The responder's link after a request it accepts. *)
Lemma HandleLinkRequest_run `{!Online} y t now pkt owner seed d b cb px ps n m id k :
  full_identity owner seed → len y = 32 → len px = 32 → len ps = 32 →
  Packet.Data pkt = px ++ ps ++ signallingBytes n m →
  0 <= n < 2 ^ 21 → (m = ModeAES128CBC ∨ m = ModeAES256CBC) →
  Packet.LinkIDFromLinkRequest pkt = Ok id → len id = 16 →
  X25519.scalarMult y px = Some k →
  let n' := Z.min n 500 in
  ∃ l' py p q, X25519.scalarMult y X25519.basepoint = Some py ∧ len py = 32
    ∧ HandleLinkRequest (Some y) (Some t) now pkt owner (NewLink (Some d) (Some b) cb) = (l', Ok ())
    ∧ IfaceSend (Packet.raw p) ∈ effects l'
    ∧ on_wire (linkPacket Packet.PacketTypeProof Packet.ContextLRProof DestTypeLink id
                 (proofData seed id py (signallingBytes n' m)) false) p q
    ∧ linkID l' = id ∧ st l' = StatusHandshake ∧ initiator l' = false
    ∧ sessionKeys l' = Ok (linkKeys k id m) ∧ hasSessionKeys l' = true
    ∧ mode l' = m ∧ mtu l' = n' ∧ requestTime l' = now ∧ destination l' = Some d
    ∧ establishedCallback l' = cb.
Proof.
  intros Ho Hy Hpx Hps Hdata Hn Hm Hid Hlid Hk n'.
  destruct (X25519.public_key y Hy) as (py & Hpy & Hlpy).
  unfold HandleLinkRequest. rewrite Hdata, Hid. cbv zeta.
  assert (Hl : len (px ++ ps ++ signallingBytes n m) = 67) by (rewrite !len_app, Hpx, Hps; done).
  rewrite Hl. change (negb (67 <? ECPubSize)) with true. change (ECPubSize + LinkMTUSize <=? 67) with true.
  autorewrite with goM. cbv iota. cbn [pack].
  rewrite !go_slice_Ok by (rewrite ?Hl; unfold KeySize, ECPubSize, LinkMTUSize; lia).
  rewrite slice_0, (take_app_mid px) by (unfold len, KeySize in *; lia).
  rewrite (slice_app_mid px ps _ KeySize ECPubSize) by (rewrite ?Hpx, ?Hps; done).
  rewrite (app_assoc px ps), (slice_app_tail (px ++ ps)) by (rewrite len_app, Hpx, Hps; done).
  autorewrite with goM. rewrite signalled_bytes by (destruct Hm as [->| ->]; done).
  autorewrite with goM. cbv beta iota. autorewrite with goM.
  unfold generateEphemeralKeys, Identity.GenerateKeyPair, Identity.PublicKeyFromPrivate. rewrite Hpy.
  cbn [mbind outcome_bind ident]. autorewrite with goM. cbv beta iota. autorewrite with goM.
  rewrite (run_bind_ok _ _ _ _ _ (bindOwner_run owner seed _ Ho)).
  set (l1 := set_signing (Some seed) _ _).
  destruct (performHandshake_run l1 y k) as (l2 & R2 & K2 & K2' & S2 & F2);
    [done..|].
  rewrite (run_bind_ok _ _ _ _ _ R2). clear R2. autorewrite with goM.
  assert (E : linkID l2 = id ∧ pub l2 = py ∧ initiator l2 = false ∧ networkInterface l2 = Some b
    ∧ destination l2 = Some d ∧ establishedCallback l2 = cb ∧ mode l2 = m ∧ mtu l2 = n).
  { subst l1. split_and!; [apply (f_equal linkID F2)|apply (f_equal pub F2)|apply (f_equal initiator F2)
      |apply (f_equal networkInterface F2)|apply (f_equal destination F2)|apply (f_equal establishedCallback F2)
      |apply (f_equal mode F2)|apply (f_equal mtu F2)]. }
  assert (K1 : linkID l1 = id ∧ mode l1 = m) by done. destruct K1 as [K1 K1']. rewrite K1, K1' in K2.
  clear F2 K1 K1'. clearbody l1. destruct E as (E1 & E2 & E3 & E4 & E5 & E6 & E7 & E8).
  set (l3 := emit _ _).
  assert (E : linkID l3 = id ∧ pub l3 = py ∧ initiator l3 = false ∧ networkInterface l3 = Some b
    ∧ destination l3 = Some d ∧ establishedCallback l3 = cb ∧ mode l3 = m ∧ requestTime l3 = now
    ∧ st l3 = StatusHandshake ∧ sessionKeys l3 = sessionKeys l2 ∧ hasSessionKeys l3 = hasSessionKeys l2)
    by (split_and!; done).
  assert (E9 : mtu l3 = n').
  { change (mtu l3) with (mtu (updateMDU l2)). by rewrite updateMDU_mtu, E8. }
  clearbody l3. clear E1 E2 E3 E4 E5 E6 E7 E8 S2.
  destruct E as (E1 & E2 & E3 & E4 & E5 & E6 & E7 & E8 & E10 & E11 & E12). rewrite K2 in E11. rewrite K2' in E12.
  destruct (registerLinkPath_quiet l3) as (l4 & R4 & S4 & N4 & _). rewrite (run_bind_ok _ _ _ _ _ R4).
  destruct (sess_keys _ _ S4) as [Y4 Z4]. pose proof S4 as S4'. unfold sess in S4'.
  destruct (sendLinkProof_run owner seed l4 b) as (l5 & p & q & R5 & S5 & I5 & W5);
    [done|congruence..|].
  destruct (sess_keys _ _ S5) as [Y5 Z5]. exists l5, py, p, q. unfold sess in S5.
  assert (X4 : linkID l4 = id ∧ pub l4 = py ∧ mtu l4 = n' ∧ mode l4 = m) by (split_and!; congruence).
  destruct X4 as (X1 & X2 & X3 & X4). rewrite X1, X2, X3, X4 in W5.
  split_and!; try done; congruence.
Qed.

(** ** The initiator's validation *)

Lemma readLinkProof_run seed id py n m l d pid :
  len py = 32 → 0 <= n < 2 ^ 21 → b2z m < 8 → linkID l = id → len id = 16 →
  destination l = Some d → d_identity d = Some pid → Identity.verificationKey pid = Ed25519.publicKey seed →
  readLinkProof (proofData seed id py (signallingBytes n m)) l
    = (set_peer py (Ed25519.publicKey seed) (set_modemtu m n l),
       Ok (Ed25519.sign seed (id ++ py ++ Ed25519.publicKey seed ++ signallingBytes n m),
           id ++ py ++ Ed25519.publicKey seed ++ signallingBytes n m)).
Proof.
  intros Hpy Hn Hm Hid Hlid Hd Hpid Hv. unfold readLinkProof, proofSignalling, proofData.
  set (sig := signallingBytes n m). assert (Hsig : len sig = 3) by done.
  assert (Hs : signalled sig = Ok (n, m)) by (by apply signalled_bytes). clearbody sig.
  set (sg := Ed25519.sign _ _). assert (Hsg : len sg = 64) by apply Ed25519.sign_len. clearbody sg.
  assert (Hl : len (sg ++ py ++ sig) = 99) by (rewrite !len_app, Hsg, Hpy, Hsig; done). rewrite Hl.
  change (SigLength + KeySize + LinkMTUSize <=? 99) with true. cbv iota.
  rewrite !go_slice_Ok by (rewrite ?Hl; unfold SigLength, KeySize, LinkMTUSize; lia).
  rewrite slice_0, (take_app_mid sg) by (unfold len, SigLength in *; lia).
  rewrite (slice_app_mid sg py _ SigLength) by (rewrite ?Hsg, ?Hpy; done).
  rewrite (app_assoc sg py), (slice_app_tail (sg ++ py)) by (rewrite len_app, Hsg, Hpy, ?Hsig; done).
  cbn [mbind outcome_bind]. autorewrite with goM. rewrite Hs. autorewrite with goM. cbv beta iota. autorewrite with goM.
  change (destination (set_modemtu m n l)) with (destination l). change (linkID (set_modemtu m n l)) with (linkID l).
  rewrite Hd. cbn [mbind option_bind]. rewrite Hpid, Hid.
  destruct (signing_half pid) as [-> _]; [by rewrite Hv, Ed25519.publicKey_len|]. rewrite Hv.
  rewrite !go_slice_Ok by (rewrite ?Hlid, ?Ed25519.publicKey_len; unfold Ed25519.PublicKeySize; lia).
  autorewrite with goM. reflexivity.
Qed.

Lemma promote_run l :
  st l = StatusHandshake →
  ∃ l', promoteToActive l = (l', Ok true) ∧ sess l' = sess (set_st StatusActive l)
    ∧ rtt l' = rtt l.
Proof.
  intros Hs. unfold promoteToActive. autorewrite with goM. rewrite Hs. autorewrite with goM.
  unfold releaseOutboundEstablish. change (destination (set_st _ l)) with (destination l).
  change (initiator (set_st _ l)) with (initiator l).
  destruct (destination l) as [d|]; [destruct (initiator l)|]; eexists; split_and!; reflexivity.
Qed.

Lemma updateKeepalive_sess l : sess (updateKeepaliveLocked l) = sess l.
Proof. unfold updateKeepaliveLocked. by destruct (Float64.leb _ _). Qed.

(** The callback gate and the queues of a link. *)
Definition ungated (l : Link) : Link := set_channel false [] l.

(** The end of the establishment: the callback, or the release of the gate. *)
Lemma open_gate l :
  ∃ l', ((if establishedCallback l then modify (set_channel true (earlyChannel l)) ;; modify (emit Established)
          else modify markChannelReady) : M ()) l = (l', Ok ())
    ∧ effects l ⊆ effects l' ∧ sess (ungated l') = sess (ungated l).
Proof.
  destruct (establishedCallback l).
  - eexists. split; [reflexivity|]. split; [|reflexivity].
    change (effects l ⊆ effects l ++ [Established]). set_solver.
  - eexists. split; [reflexivity|]. unfold markChannelReady. by destruct (earlyChannel l).
Qed.

Lemma activate_run `{!Online} iv now l keys :
  len iv = 16 → st l = StatusHandshake → sessionKeys l = Ok keys → len (linkID l) = 16 →
  let r := Rate.Seconds (now - requestTime l) in
  ∃ l' c p q, activateInitiator (Some iv) now l = (l', Ok ())
    ∧ encrypt (Some iv) (rttMarshal r) l = Ok c
    ∧ SendPacket p ∈ effects l'
    ∧ on_wire (linkPacket Packet.PacketTypeData Packet.ContextLRRTT DestTypeLink (linkID l) c false) p q
    ∧ sess (ungated l') = sess (ungated (set_st StatusActive (updateMDU l))).
Proof.
  intros Hiv Hst Hk Hid r. unfold activateInitiator. autorewrite with goM.
  set (l1 := if Float64.ltb _ _ then _ else _).
  assert (S1 : sess l1 = sess (updateMDU l)).
  { subst l1. destruct (Float64.ltb _ _); [rewrite updateKeepalive_sess|]; reflexivity. }
  assert (Hr : rtt l1 = r).
  { subst l1. destruct (Float64.ltb _ _); [|reflexivity]. unfold updateKeepaliveLocked. by destruct (Float64.leb _ _). }
  clearbody l1. destruct (promote_run l1) as (l2 & R2 & S2 & N2).
  { transitivity (st (updateMDU l)); [unfold sess in S1; congruence|exact Hst]. }
  rewrite (run_bind_ok _ _ _ _ _ R2). cbn [negb]. autorewrite with goM. rewrite N2, Hr.
  assert (S2' : sess l2 = sess (set_st StatusActive (updateMDU l))) by (unfold sess in *; cbn in *; congruence).
  clear S2 R2 N2 Hr. destruct (sess_keys _ _ S2') as [Y2 _].
  change (sessionKeys (set_st _ (updateMDU l))) with (sessionKeys l) in Y2.
  assert (Hid2 : linkID l2 = linkID l) by (unfold sess in S2'; cbn in S2'; congruence).
  destruct (registerLinkPath_quiet (emit (RegisterLink (linkID l2)) l2)) as (l3 & R3 & S3 & _ & _).
  change (sess (emit _ l2)) with (sess l2) in S3.
  rewrite (run_bind_ok _ _ _ _ _ R3). clear R3.
  destruct (rtt_code r) as (tl & Htl & Hltl).
  destruct (decrypt_encrypt l l keys iv (rttMarshal r) Hk Hk Hiv online_crypto) as (c & Hc & Hlc & _).
  assert (Hc2 : encrypt (Some iv) (rttMarshal r) l2 = Ok c) by (unfold encrypt in *; by rewrite Y2).
  destruct (packed_run (linkPacket Packet.PacketTypeData Packet.ContextLRRTT DestTypeLink (linkID l) c false) l3)
    as (p & q & HP & HW); [done| |].
  { apply linkPacket_ok; [done..|]. rewrite Hlc, Htl, len_cons, Hltl. done. }
  rewrite Hc2, Hid2.
  assert (R4 : attempt (lift (Ok c) ≫= (λ encrypted,
      packed (linkPacket Packet.PacketTypeData Packet.ContextLRRTT DestTypeLink (linkID l) encrypted false)
      ≫= send)) l3 = (emit (SendPacket p) l3, Ok (Ok ()))).
  { unfold attempt. autorewrite with goM. by rewrite (run_bind_ok _ _ _ _ _ HP), transmit_run. }
  rewrite (run_bind_ok _ _ _ _ _ R4). cbv iota. autorewrite with goM.
  set (l4 := recordOutbound now (emit (SendPacket p) l3)).
  assert (S4 : sess l4 = sess l2) by exact S3. assert (I4 : SendPacket p ∈ effects l4).
  { change (SendPacket p ∈ effects l3 ++ [SendPacket p]). apply elem_of_app. right. constructor. }
  clearbody l4. rewrite S2' in S4. destruct (open_gate l4) as (l5 & R5 & I5 & S5).
  exists l5, c, p, q. split_and!; [exact R5|done|by apply I5|done|].
  rewrite S5. unfold sess in *. cbn in *. congruence.
Qed.

(** The initiator accepts the proof of the owner of the destination. *)
Lemma ValidateLinkProof_run `{!Online} iv now pf iface l d pid seed id x py k n m :
  len iv = 16 → len py = 32 → 0 <= n <= Packet.MTU → (m = ModeAES128CBC ∨ m = ModeAES256CBC) →
  initiator l = true → st l = StatusPending → linkID l = id → len id = 16 → prv l = Some x →
  destination l = Some d → d_identity d = Some pid → Identity.verificationKey pid = Ed25519.publicKey seed →
  (expectedHops l = PathfinderM ∨ AccountInboundHops (Packet.Hops pf) iface = expectedHops l) →
  Packet.Data pf = proofData seed id py (signallingBytes n m) →
  X25519.scalarMult x py = Some k →
  let r := Rate.Seconds (now - requestTime l) in
  ∃ l' c p q, ValidateLinkProof (Some iv) now pf iface l = (l', Ok ())
    ∧ st l' = StatusActive ∧ sessionKeys l' = Ok (linkKeys k id m) ∧ hasSessionKeys l' = true ∧ linkID l' = id
    ∧ mode l' = m ∧ mtu l' = n
    ∧ encrypt (Some iv) (rttMarshal r) l' = Ok c ∧ SendPacket p ∈ effects l'
    ∧ on_wire (linkPacket Packet.PacketTypeData Packet.ContextLRRTT DestTypeLink id c false) p q.
Proof.
  intros Hiv Hpy Hn Hm Hi Hst Hid Hlid Hprv Hd Hpid Hv Hhops Hdata Hk r.
  unfold ValidateLinkProof. rewrite online_handshake. autorewrite with goM.
  unfold validateLinkProofLocked. autorewrite with goM. rewrite Hi, Hst. cbn [negb].
  autorewrite with goM.
  assert (Hgate : bool_decide (expectedHops l ≠ PathfinderM)
      && bool_decide (AccountInboundHops (Packet.Hops pf) iface ≠ expectedHops l) = false).
  { destruct Hhops as [->| ->]; [done|]. rewrite (bool_decide_eq_false_2 (expectedHops l ≠ expectedHops l)) by naive_solver.
    apply andb_false_r. }
  cbv zeta. rewrite Hgate. autorewrite with goM. rewrite Hdata.
  assert (Hl : len (proofData seed id py (signallingBytes n m)) = 99)
    by (unfold proofData; rewrite !len_app, Ed25519.sign_len, Hpy; done).
  rewrite Hl. change (negb (99 <? SigLength + KeySize)) with true. autorewrite with goM.
  rewrite (run_bind_ok _ _ _ _ _ (readLinkProof_run seed id py n m l d pid Hpy
    ltac:(unfold Packet.MTU in Hn; lia) ltac:(destruct Hm as [->| ->]; done) Hid Hlid Hd Hpid Hv)).
  cbv beta iota. rewrite Hd. cbn [mbind option_bind]. rewrite Hpid.
  unfold Identity.Verify. rewrite Hv, Ed25519.verify_sign. autorewrite with goM.
  set (l1 := set_peer _ _ _).
  destruct (performHandshake_run l1 x k) as (l2 & R2 & K2 & K2' & S2 & F2); [done..|].
  assert (R2' : attempt performHandshakeLocked l1 = (l2, Ok (Ok ()))) by (unfold attempt; by rewrite R2).
  rewrite (run_bind_ok _ _ _ _ _ R2'). cbv iota. clear R2 R2'.
  assert (E : linkID l2 = id ∧ mode l2 = m ∧ mtu l2 = n ∧ requestTime l2 = requestTime l).
  { subst l1. split_and!; [etransitivity; [apply (f_equal linkID F2)|exact Hid]|apply (f_equal mode F2)
      |apply (f_equal mtu F2)|apply (f_equal requestTime F2)]. }
  destruct E as (E1 & E2 & E3 & E4). assert (X1 : linkID l1 = id ∧ mode l1 = m) by done.
  destruct X1 as [X1 X2]. rewrite X1, X2 in K2. clear F2 X1 X2. clearbody l1.
  destruct (activate_run iv now l2 _ Hiv S2 K2 ltac:(by rewrite E1)) as (l3 & c & p & q & R3 & C3 & I3 & W3 & S3).
  rewrite E4 in C3. rewrite E1 in W3.
  destruct (sess_keys _ _ S3) as [Y3 Z3]. change (sessionKeys (ungated _)) with (sessionKeys l3) in Y3 at 1.
  change (sessionKeys (ungated _)) with (sessionKeys l2) in Y3. rewrite K2 in Y3.
  change (hasSessionKeys (ungated _)) with (hasSessionKeys l3) in Z3 at 1.
  change (hasSessionKeys (ungated _)) with (hasSessionKeys l2) in Z3. rewrite K2' in Z3.
  destruct (sess_fields _ _ S3) as (F1 & F2 & F3 & F4 & _).
  change (mtu (updateMDU l2)) with (mtu (ungated (set_st StatusActive (updateMDU l2)))) in F4.
  assert (M3 : mtu l3 = n).
  { transitivity (mtu (updateMDU l2)); [exact F4|]. by rewrite updateMDU_mtu, E3, Z.min_l by lia. }
  exists l3, c, p, q. split_and!; [exact R3|exact F1|exact Y3|exact Z3|transitivity (linkID l2); [exact F2|exact E1]
    |transitivity (mode l2); [exact F3|exact E2]|exact M3| |exact I3|exact W3].
  unfold encrypt in *. by rewrite Y3, <- K2.
Qed.

(** ** The responder's activation *)

(** What a receiver sees of a link packet. *)
Lemma received_link ptype ctx id data receipt p q :
  on_wire (linkPacket ptype ctx DestTypeLink id data receipt) p q →
  Packet.PacketType q = ptype ∧ Packet.Context q = ctx ∧ Packet.Data q = data ∧ Packet.Hops q = x00
  ∧ HeaderRewrite.parse (Packet.raw p) = Some q.
Proof.
  intros (W1 & W2 & W3 & W4 & W5 & _). unfold Packet.flag_fields, Packet.body_fields in *.
  rewrite <- W1 in W3. injection W4 as _ _ _ _ ->. injection W5 as -> _ _ -> ->. by split_and!.
Qed.

Lemma parse_rtt `{!Online} r : Float64.nonneg r → ∃ r', parseRTTPayloadSeconds (rttMarshal r) = Ok r'.
Proof.
  intros Hr. unfold parseRTTPayloadSeconds. destruct (rtt_decodes r Hr) as (r' & Hd & Hr'). exists r'.
  destruct (rtt_code r) as (tl & Htl & _). rewrite Htl in *. rewrite Hd, Float64.ltb_zero by done. done.
Qed.

Lemma handleRTT_run `{!Online} now pkt l r :
  st l = StatusHandshake → initiator l = false → decrypt (Packet.Data pkt) l = Ok (rttMarshal r) →
  Float64.nonneg r →
  ∃ l', handleRTTPacket now pkt l = (l', Ok ())
    ∧ sess (ungated l') = sess (ungated (set_expectedHops (Packet.Hops pkt) (set_st StatusActive l))).
Proof.
  intros Hst Hi Hd Hr. unfold handleRTTPacket. autorewrite with goM. rewrite Hi, Hst.
  change (false || bool_decide (StatusHandshake ≠ StatusHandshake)) with false. cbv iota.
  rewrite Hd. destruct (parse_rtt r Hr) as [r' Hr']. autorewrite with goM. rewrite Hr'. autorewrite with goM.
  set (l1 := if Float64.ltb _ _ then _ else _).
  assert (S1 : sess l1 = sess (set_expectedHops (Packet.Hops pkt) l)).
  { subst l1. destruct (Float64.ltb _ _); [rewrite updateKeepalive_sess|]; reflexivity. }
  destruct (sess_fields _ _ S1) as (F1 & _). clearbody l1.
  destruct (promote_run l1) as (l2 & R2 & S2 & _); [rewrite F1; exact Hst|].
  rewrite (run_bind_ok _ _ _ _ _ R2). cbn [negb]. autorewrite with goM.
  destruct (registerLinkPath_quiet (emit (RegisterLink (linkID l2)) l2)) as (l3 & R3 & S3 & _).
  rewrite (run_bind_ok _ _ _ _ _ R3). change (sess (emit _ l2)) with (sess l2) in S3.
  set (l4 := if establishedCallback l2 then emit Established l3 else l3).
  assert (R4 : ((if establishedCallback l2 then modify (emit Established) else mret ()) : M ()) l3 = (l4, Ok ()))
    by (subst l4; by destruct (establishedCallback l2)).
  assert (S4 : sess l4 = sess l3) by (subst l4; by destruct (establishedCallback l2)). clearbody l4.
  rewrite (run_bind_ok _ _ _ _ _ R4). eexists. split; [reflexivity|].
  assert (S5 : sess (ungated (markChannelReady l4)) = sess (ungated l4))
    by (unfold markChannelReady; by destruct (earlyChannel l4)).
  rewrite S5. rewrite S3, S2 in S4. clear -S4 S1. unfold sess in *. cbn in *. congruence.
Qed.

Lemma rtt_run `{!Online} rand now pkt l la keys iv r c :
  st l = StatusHandshake → initiator l = false → sessionKeys l = Ok keys →
  sessionKeys la = Ok keys → len iv = 16 → encrypt (Some iv) (rttMarshal r) la = Ok c → Float64.nonneg r →
  Packet.PacketType pkt = Packet.PacketTypeData → Packet.Context pkt = Packet.ContextLRRTT → Packet.Data pkt = c →
  ∃ l', processInbound rand now pkt l = (l', Ok ())
    ∧ sess (ungated l') = sess (ungated (set_expectedHops (Packet.Hops pkt) (set_st StatusActive l))).
Proof.
  intros Hst Hi Hk Hka Hiv Hc Hr Hpt Hctx Hd.
  destruct (decrypt_encrypt la l keys iv (rttMarshal r) Hka Hk Hiv online_crypto) as (c' & Hc' & _ & Hdec).
  assert (c' = c) as -> by congruence.
  unfold processInbound. rewrite Hpt, bool_decide_eq_true_2 by done. unfold beginInbound.
  autorewrite with goM. rewrite Hst. rewrite bool_decide_eq_false_2 by done. autorewrite with goM.
  set (l1 := recordInbound now _ l). rewrite bool_decide_eq_false_2 by done. autorewrite with goM. cbn [negb].
  assert (E1 : sess l1 = sess l) by reflexivity. clearbody l1.
  destruct (sess_fields _ _ E1) as (F1 & _ & _ & _ & F5 & _). destruct (sess_keys _ _ E1) as [Y1 _].
  unfold handleDataPacket. autorewrite with goM. unfold isActive. rewrite F1, F5, Hst, Hctx, Hi.
  autorewrite with goM. change (bool_decide (Packet.ContextLRRTT = Packet.ContextLRRTT)
    && bool_decide (StatusHandshake = StatusHandshake) && negb false) with true. cbv iota.
  destruct (handleRTT_run now pkt l1 r) as (l2 & R2 & S2); [congruence..| |done|].
  { rewrite Hd. unfold decrypt in *. by rewrite Y1. }
  exists l2. split; [exact R2|]. rewrite S2. clear -E1. unfold sess in *. cbn in *. congruence.
Qed.

(** ** Establishment *)

(** Two ends of one session. *)
Definition linked (a b : Link) : Prop :=
  st a = StatusActive ∧ st b = StatusActive ∧ linkID a = linkID b ∧ len (linkID a) = 16
  ∧ mode a = mode b ∧ mtu a = mtu b ∧ hasSessionKeys a = true ∧ hasSessionKeys b = true
  ∧ ∃ keys, sessionKeys a = Ok keys ∧ sessionKeys b = Ok keys.

Lemma linked_intro a r b keys h :
  st a = StatusActive → linkID a = linkID r → len (linkID a) = 16 → mode a = mode r → mtu a = mtu r →
  hasSessionKeys a = true → hasSessionKeys r = true → sessionKeys a = Ok keys → sessionKeys r = Ok keys →
  sess (ungated b) = sess (ungated (set_expectedHops h (set_st StatusActive r))) → linked a b.
Proof.
  intros Hst Hid Hl Hm Hn Ha Hr Ka Kr S.
  destruct (sess_fields _ _ S) as (B1 & B2 & B3 & B4 & _). destruct (sess_keys _ _ S) as [B5 B6].
  assert (K : sessionKeys b = Ok keys) by (transitivity (sessionKeys r); [exact B5|exact Kr]).
  assert (Hb : hasSessionKeys b = true) by (transitivity (hasSessionKeys r); [exact B6|exact Hr]).
  split_and!; [exact Hst|exact B1|etrans; [exact Hid|symmetry; exact B2]|exact Hl|etrans; [exact Hm|symmetry; exact B3]
    |etrans; [exact Hn|symmetry; exact B4]|exact Ha|exact Hb|by exists keys].
Qed.

Lemma incoming_run `{!Online} y t now pkt dr owner iface cb l' :
  d_identity dr = Some owner →
  HandleLinkRequest (Some y) (Some t) now pkt owner (NewLink (Some dr) iface cb) = (l', Ok ()) →
  HandleIncomingLinkRequest (Some y) (Some t) now pkt dr iface cb = (startWatchdog l', Ok ()).
Proof.
  intros Ho HR. unfold HandleIncomingLinkRequest. rewrite online_handshake, Ho. cbn [negb].
  by rewrite (run_bind_ok _ _ _ _ _ HR).
Qed.

(** C1.  The handshake establishes a session: on a working network the
    initiator's request, the responder's answer to it (also when relays lowered
    the MTU it offers), and the initiator's check of the proof all succeed, the
    round-trip packet activates the responder, and then both ends are active
    with the same link id, mode, MTU (the lowered one, at most 500) and session
    keys.  The request itself offers 500. *)
Theorem link_establishment `{!Online} d pid dr owner seed x s y t iv t0 t1 t2 ifi ifp b cbi cbr :
  len x = 32 → len y = 32 → len iv = 16 → t0 <= t2 →
  b2z (d_type d) < 4 → len (d_hash d) = 16 →
  d_identity d = Some pid → Identity.verificationKey pid = Ed25519.publicKey seed →
  d_identity dr = Some owner → full_identity owner seed →
  ∃ li req, Establish (Some x) (Some s) t0 (NewLink (Some d) ifi cbi) = (li, Ok ())
    ∧ SendPacket req ∈ effects li
    ∧ Packet.Data req = take 64 (Packet.Data req) ++ signallingBytes 500 ModeAES256CBC
    ∧ ∀ pkt n, Packet.LinkIDFromLinkRequest pkt = Packet.LinkIDFromLinkRequest req →
        Packet.Data pkt = take 64 (Packet.Data req) ++ signallingBytes n ModeAES256CBC → 0 <= n < 2 ^ 21 →
      ∃ lr proof pf, HandleIncomingLinkRequest (Some y) (Some t) t1 pkt dr (Some b) cbr = (lr, Ok ())
        ∧ IfaceSend proof ∈ effects lr ∧ HeaderRewrite.parse proof = Some pf
        ∧ ∀ pf', Packet.Data pf' = Packet.Data pf →
            (hopsTo (d_hash d) = PathfinderM ∨ AccountInboundHops (Packet.Hops pf') ifp = hopsTo (d_hash d)) →
          ∃ la rtt q, ValidateLinkProof (Some iv) t2 pf' ifp li = (la, Ok ())
            ∧ SendPacket rtt ∈ effects la ∧ HeaderRewrite.parse (Packet.raw rtt) = Some q
            ∧ ∀ q' rand t3, Packet.PacketType q' = Packet.PacketType q → Packet.Context q' = Packet.Context q →
                Packet.Data q' = Packet.Data q →
              ∃ lb, processInbound rand t3 q' lr = (lb, Ok ()) ∧ linked la lb ∧ mtu la = Z.min n 500.
Proof.
  intros Hx Hy Hiv Ht Hdt Hdh Hpid Hv Hown Ho.
  destruct (Establish_run x s t0 d ifi cbi Hx Hdt Hdh) as (li & px & req & q0 & id & Hpx & Hlpx & RE & IE & WE
    & Hid & Hlid & Eid & Eprv & Emode & Ert & Est & Ed & Ei & Eh & _).
  assert (Hreq : take 64 (Packet.Data req) = px ++ Ed25519.publicKey s).
  { destruct WE as (_ & -> & _). cbn [Packet.Data linkPacket]. rewrite app_assoc. apply take_app_mid.
    rewrite length_app. pose proof (Ed25519.publicKey_len s). unfold len, Ed25519.PublicKeySize in *. lia. }
  exists li, req. split_and!; [done|done| |].
  { rewrite Hreq. destruct WE as (_ & -> & _). cbn [Packet.Data linkPacket]. by rewrite app_assoc. }
  intros pkt n Hpid' Hdata Hn.
  destruct (X25519.public_key y Hy) as (py0 & Hpy0 & _).
  destruct (X25519.agreement x y px py0 Hx Hy Hpx Hpy0) as (k & Hkx & Hky).
  rewrite Hreq, <- app_assoc in Hdata. rewrite Hid in Hpid'.
  destruct (HandleLinkRequest_run y t t1 pkt owner seed dr b cbr px (Ed25519.publicKey s) n ModeAES256CBC id k)
    as (lr & py & p & pf & Hpy & Hlpy & RH & IH & WH & Fid & Fst & Fi & Fk & Fh & Fm & Fmtu & _);
    try done; [apply Ed25519.publicKey_len|by right|].
  assert (py0 = py) as -> by congruence.
  destruct (received_link _ _ _ _ _ _ _ WH) as (_ & _ & Dpf & _ & Ppf).
  destruct (startWatchdog_sess lr) as [SW EW].
  exists (startWatchdog lr), (Packet.raw p), pf. split_and!; [by apply incoming_run with owner|by rewrite EW|done|].
  intros pf' Hpf' Hh. rewrite Dpf in Hpf'.
  destruct (ValidateLinkProof_run iv t2 pf' ifp li d pid seed id x py k (Z.min n 500) ModeAES256CBC)
    as (la & c & rtt & q & RV & Vst & Vk & Vh & Vid & Vm & Vmtu & Vc & Vi & Vw);
    try done; [unfold Packet.MTU; lia|by right|by rewrite Eh|].
  destruct (received_link _ _ _ _ _ _ _ Vw) as (Pq & Cq & Dq & _ & PPq).
  exists la, rtt, q. split_and!; [done..|]. intros q' rand t3 HP HC HD.
  destruct (sess_fields _ _ SW) as (W1 & W2 & W3 & W4 & W5 & _). destruct (sess_keys _ _ SW) as [W6 W7].
  destruct (rtt_run rand t3 q' (startWatchdog lr) la (linkKeys k id ModeAES256CBC) iv
              (Rate.Seconds (t2 - requestTime li)) c) as (lb & RB & SB); try congruence.
  { rewrite Ert. apply Rate.Seconds_nonneg. lia. }
  exists lb. split_and!; [exact RB| |exact Vmtu].
  apply (linked_intro la (startWatchdog lr) lb (linkKeys k id ModeAES256CBC) (Packet.Hops q')); try exact SB; congruence.
Qed.

(** ** Data *)

Lemma seal_run `{!Online} iv ctx data l keys :
  len iv = 16 → sessionKeys l = Ok keys → len (linkID l) = 16 → encryptedPayloadLen (len data) <= 481 →
  ∃ c p q, encrypt (Some iv) data l = Ok c
    ∧ sealEncryptedHT1Locked (Some iv) (linkPacket Packet.PacketTypeData ctx DestTypeLink (linkID l) [] true) data l
      = (l, Ok p)
    ∧ HeaderRewrite.parse (Packet.raw p) = Some q
    ∧ Packet.PacketType q = Packet.PacketTypeData ∧ Packet.Context q = ctx ∧ Packet.Data q = c.
Proof.
  intros Hiv Hk Hid Hm.
  destruct (decrypt_encrypt l l keys iv data Hk Hk Hiv online_crypto) as (c & Hc & Hlc & _).
  set (p0 := linkPacket Packet.PacketTypeData ctx DestTypeLink (linkID l) [] true).
  destruct (packed_run (linkPacket Packet.PacketTypeData ctx DestTypeLink (linkID l) c true) l)
    as (p1 & q & _ & W); [done|apply linkPacket_ok; [done..|lia]|].
  pose proof (received_link _ _ _ _ _ _ _ W) as (Q1 & Q2 & Q3 & _ & _). destruct W as (_ & _ & W3 & _).
  destruct (Packet.PrepareHT1Buffer_run p0 (linkID l) (len c)) as (rest & Hrest & HP);
    [done|done|apply len_nonneg|rewrite Hlc; unfold Packet.HeaderType1Overhead, Packet.TruncatedHashLength, Packet.MTU; lia|].
  unfold sealEncryptedHT1Locked. autorewrite with goM. rewrite <- Hlc, HP, Hc. autorewrite with goM.
  rewrite Z.eqb_refl. autorewrite with goM.
  set (p2 := Packet.invalidateHash _).
  assert (Hraw : Packet.raw (Packet.fill_payload c p2)
      = Packet.wire (linkPacket Packet.PacketTypeData ctx DestTypeLink (linkID l) c true)).
  { transitivity (Packet.ht1_header p0 (linkID l) ++ c).
    - eapply Packet.fill_payload_content; [by apply Packet.ht1_header_length| |exact Hrest|reflexivity].
      unfold Packet.HeaderType1Overhead, Packet.TruncatedHashLength, len. lia.
    - unfold Packet.wire, Packet.ht1_header. cbn [Packet.HeaderType linkPacket]. rewrite decide_False by done.
      by rewrite <- !app_assoc. }
  rewrite Packet.CommitPacked_run; cycle 1.
  { rewrite Hraw. apply Packet.wire_nonempty. }
  { rewrite Hraw. unfold Packet.wire. cbn [Packet.HeaderType linkPacket]. rewrite decide_False by done.
    cbn [Packet.DestinationHash linkPacket Packet.Data]. len_simpl. rewrite Hid. unfold Packet.MTU. lia. }
  eexists c, _, q. split_and!; [done|reflexivity| |done..].
  change (HeaderRewrite.parse (Packet.raw (Packet.fill_payload c p2)) = Some q). by rewrite Hraw.
Qed.

(** ** Proofs of delivery *)

(** Bookkeeping on top of a given state. *)
Definition deliveries (l : Link) : list bytes :=
  omap (λ e, match e with Deliver d => Some d | _ => None end) (effects l).

Definition same_session (l l' : Link) : Prop := sess l' = sess l ∧ deliveries l' = deliveries l.

Lemma attempt_safe {A} I (m : M A) : safe I m → safe I (attempt m).
Proof.
  intros Hm l Hl. destruct (Hm l Hl) as [H1' H2']. unfold attempt. destruct (m l) as [l' [a|e|]]; done.
Qed.

Lemma packed_safe I p : safe I (packed p).
Proof.
  intros l Hl. unfold packed. pose proof (Packet.Pack_no_panic p). by destruct (Packet.Pack p) as [q [a|e|]].
Qed.

Lemma send_safe I p : (∀ l, I l → I (emit (SendPacket p) l)) → safe I (send p).
Proof. intros He. unfold send. safe_auto. by apply safe_modify. Qed.

Lemma sendLinkPacket_safe I f ptype ctx data :
  (∀ l, I l → I (f l)) → (∀ l p, I l → I (emit (SendPacket p) l)) → safe I (sendLinkPacket f ptype ctx data).
Proof.
  intros Hf He. unfold sendLinkPacket. safe_auto.
  - apply packed_safe.
  - by apply safe_modify.
  - apply send_safe. auto.
Qed.

Lemma Sign_no_panic id data : Identity.Sign id data ≠ Panic.
Proof. unfold Identity.Sign. repeat case_match; done. Qed.

Lemma ident_no_panic {A} (r : outcome Identity.identity_error A) : r ≠ Panic → ident r ≠ Panic.
Proof. by destruct r. Qed.

Lemma ProvePacket_safe I now pkt h :
  (Packet.GetHash pkt).2 = Ok h → (∀ l, I l → I (recordOutbound now l)) → (∀ l p, I l → I (emit (SendPacket p) l)) →
  safe I (ProvePacket now pkt).
Proof.
  intros Hh Hf He. unfold ProvePacket. destruct (Packet.GetHash pkt) as [p' r]. cbn in Hh. subst r.
  safe_auto; [by apply safe_lift, ident_no_panic, Sign_no_panic|by apply sendLinkPacket_safe..].
Qed.

Lemma maybeProve_safe I now pkt h :
  (Packet.GetHash pkt).2 = Ok h → (∀ l, I l → I (recordOutbound now l)) → (∀ l p, I l → I (emit (SendPacket p) l)) →
  safe I (maybeProveInboundData now pkt).
Proof. intros. unfold maybeProveInboundData. safe_auto. by eapply attempt_safe, ProvePacket_safe. Qed.

Lemma maybeProve_ok now pkt l :
  ∃ l', maybeProveInboundData now pkt l = (l', Ok ()) ∨ maybeProveInboundData now pkt l = (l', Panic).
Proof.
  unfold maybeProveInboundData. autorewrite with goM. destruct (destination l) as [d|]; [|eauto].
  case_match; [|eauto]. unfold attempt, mbind, goM_bind. destruct (ProvePacket now pkt l) as [? [?|?|]]; eauto.
Qed.

(** ** Delivery *)

Lemma deliveries_emit e l :
  deliveries (emit e l) = deliveries l ++ match e with Deliver d => [d] | _ => [] end.
Proof. unfold deliveries. cbn [effects emit]. rewrite omap_app. by destruct e. Qed.

Lemma same_session_sent l0 l p : same_session l0 l → same_session l0 (emit (SendPacket p) l).
Proof. intros [Hs He]. split; [exact Hs|]. by rewrite deliveries_emit, app_nil_r. Qed.

Lemma same_session_record l0 l now : same_session l0 l → same_session l0 (recordOutbound now l).
Proof. done. Qed.

Lemma GetHash_parsed r q : HeaderRewrite.parse r = Some q → (Packet.GetHash q).2 = Ok (Packet.PacketHash q).
Proof.
  intros Hq. apply HeaderRewrite.parse_Some in Hq as (f & h & tid & dh & ctx & data & _ & _ & _ & ->). done.
Qed.

(** What the receiver of a plain data packet does. *)
Lemma plain_data_run `{!Online} rand now pkt r l keys data :
  HeaderRewrite.parse r = Some pkt → st l = StatusActive → sessionKeys l = Ok keys → hasSessionKeys l = true →
  Packet.PacketType pkt = Packet.PacketTypeData → Packet.Context pkt = Packet.ContextNone →
  decrypt (Packet.Data pkt) l = Ok data →
  ∃ l', processInbound rand now pkt l = (l', Ok ())
    ∧ same_session (deliverOrQueuePlainPacket data (recordInbound now true l)) l'.
Proof.
  intros Hr Hst Hk Hh Hpt Hctx Hd.
  unfold processInbound. rewrite Hpt, bool_decide_eq_true_2 by done. unfold beginInbound.
  autorewrite with goM. rewrite Hst. rewrite bool_decide_eq_false_2 by done. autorewrite with goM.
  rewrite Hctx. change (bool_decide (Packet.ContextNone ≠ Packet.ContextKeepalive)) with true.
  set (l1 := recordInbound now true l). rewrite bool_decide_eq_false_2 by done. autorewrite with goM. cbn [negb].
  assert (E1 : sess l1 = sess l) by reflexivity.
  destruct (sess_fields _ _ E1) as (F1 & _). destruct (sess_keys _ _ E1) as [Y1 Z1].
  unfold handleDataPacket. autorewrite with goM. unfold isActive. rewrite F1, Hst, Hctx.
  autorewrite with goM. change (bool_decide (Packet.ContextNone = Packet.ContextLRRTT)) with false.
  cbn [andb]. cbv iota.
  assert (HO : openPayload pkt l1 = Ok (Some data)).
  { unfold openPayload. rewrite Z1, Hh, Hctx.
    change (bool_decide (Packet.ContextNone = Packet.ContextResource)
      || bool_decide (Packet.ContextNone = Packet.ContextCacheReq)
      || bool_decide (Packet.ContextNone = Packet.ContextKeepalive) && (len (Packet.Data pkt) <? 64)) with false.
    change (decryptsInternally Packet.ContextNone) with false. cbv iota zeta.
    assert (decrypt (Packet.Data pkt) l1 = Ok data) as -> by (unfold decrypt in *; by rewrite Y1). done. }
  rewrite HO. autorewrite with goM. change (bool_decide (Packet.ContextNone = Packet.ContextNone)) with true.
  cbv iota. autorewrite with goM. cbn [default].
  set (l2 := deliverOrQueuePlainPacket data l1).
  pose proof (maybeProve_safe (same_session l2) now pkt _ (GetHash_parsed _ _ Hr)
    (λ l Hl, same_session_record l2 l now Hl) (λ l p Hl, same_session_sent l2 l p Hl) l2) as [S2 N2]; [done|].
  destruct (maybeProve_ok now pkt l2) as [l' [E|E]]; rewrite E in *; [|done].
  exists l'. by split.
Qed.

Lemma linked_sym a b : linked a b → linked b a.
Proof. intros (? & ? & E & ? & ? & ? & ? & ? & keys & ? & ?). rewrite E in *. repeat split; eauto. Qed.

Lemma linked_sess a b a' b' : sess a' = sess a → sess b' = sess b → linked a b → linked a' b'.
Proof.
  intros Ea Eb (A1 & A2 & A3 & A4 & A5 & A6 & A7 & A8 & keys & A9 & A10).
  destruct (sess_fields _ _ Ea) as (F1 & F2 & F3 & F4 & _), (sess_fields _ _ Eb) as (G1 & G2 & G3 & G4 & _).
  destruct (sess_keys _ _ Ea) as [F5 F6], (sess_keys _ _ Eb) as [G5 G6].
  repeat split; try congruence. exists keys. split; congruence.
Qed.

(** One payload carried from [s] to [r]: it is sent as exactly one packet and
    nothing else happens at the sender; the packet is put on the wire, parsed and
    handled at the other end. *)
Definition carry (iv : bytes) (now : Z) (data : bytes) (s r : Link) : option (Link * Link) :=
  match SendPacketWithContext (Some iv) now data Packet.ContextNone s with
  | (s', Ok _) =>
      match drop (length (effects s)) (effects s') with
      | [SendPacket p] =>
          match HeaderRewrite.parse (Packet.raw p) with
          | Some q =>
              match processInbound None now q r with
              | (r', Ok _) => Some (s', r')
              | _ => None
              end
          | None => None
          end
      | _ => None
      end
  | _ => None
  end.

Record message := { m_first : bool; m_iv : bytes; m_at : Z; m_data : bytes }.

(** Messages in both directions, [m_first] those of the first end. *)
Fixpoint conversation (ms : list message) (a b : Link) : option (Link * Link) :=
  match ms with
  | [] => Some (a, b)
  | m :: ms =>
      if m_first m
      then '(a, b) ← carry (m_iv m) (m_at m) (m_data m) a b; conversation ms a b
      else '(b, a) ← carry (m_iv m) (m_at m) (m_data m) b a; conversation ms a b
  end.

Definition said (first : bool) (ms : list message) : list bytes :=
  m_data <$> filter (λ m, m_first m = first) ms.

Definition sendable (m : message) : Prop := len (m_iv m) = 16 ∧ encryptedPayloadLen (len (m_data m)) <= 481.

Lemma send_data `{!Online} iv now data s :
  st s = StatusActive → len (linkID s) = 16 → (∃ keys, sessionKeys s = Ok keys) →
  len iv = 16 → encryptedPayloadLen (len data) <= 481 →
  ∃ s' p q c, SendPacketWithContext (Some iv) now data Packet.ContextNone s = (s', Ok ())
    ∧ effects s' = effects s ++ [SendPacket p] ∧ sess s' = sess s ∧ deliveries s' = deliveries s
    ∧ HeaderRewrite.parse (Packet.raw p) = Some q ∧ encrypt (Some iv) data s = Ok c
    ∧ Packet.PacketType q = Packet.PacketTypeData ∧ Packet.Context q = Packet.ContextNone ∧ Packet.Data q = c.
Proof.
  intros Hst Hid [keys Hk] Hiv Hlen.
  destruct (seal_run iv Packet.ContextNone data s keys Hiv Hk Hid Hlen) as (c & p & q & Hc & HR & Hq & Q1 & Q2 & Q3).
  exists (emit (SendPacket p) (recordOutboundData now s)), p, q, c. split_and!; try done.
  - unfold SendPacketWithContext. autorewrite with goM. rewrite Hst.
    change (bool_decide (StatusActive = StatusActive)) with true. autorewrite with goM.
    rewrite (run_bind_ok _ _ _ _ _ HR). autorewrite with goM. apply transmit_run.
  - rewrite deliveries_emit, app_nil_r. done.
Qed.

Lemma carry_run `{!Online} iv now data s r :
  linked s r → packetCallback r = true → len iv = 16 → encryptedPayloadLen (len data) <= 481 →
  ∃ s' r', carry iv now data s r = Some (s', r') ∧ sess s' = sess s ∧ sess r' = sess r
    ∧ deliveries s' = deliveries s ∧ deliveries r' = deliveries r ++ [data].
Proof.
  intros (Hs & Hr & _ & Hid & _ & _ & _ & Hh & keys & Ks & Kr) Hcb Hiv Hlen.
  destruct (send_data iv now data s) as (s' & p & q & c & HR & HL & Ss & Ds & Hq & Hc & Q1 & Q2 & Q3); eauto.
  destruct (decrypt_encrypt s r keys iv data Ks Kr Hiv online_crypto) as (c' & Hc' & _ & Hd).
  assert (c' = c) as -> by congruence. rewrite <- Q3 in Hd.
  destruct (plain_data_run None now q _ r keys data Hq Hr Kr Hh Q1 Q2 Hd) as (r' & HP & Sr & Dr).
  exists s', r'. unfold carry. rewrite HR, HL, drop_app_length, Hq, HP.
  assert (E : deliverOrQueuePlainPacket data (recordInbound now true r) = emit (Deliver data) (recordInbound now true r))
    by (unfold deliverOrQueuePlainPacket; change (packetCallback (recordInbound now true r)) with (packetCallback r);
        by rewrite Hcb).
  rewrite E in *. rewrite deliveries_emit in Dr. done.
Qed.

(** C2.  Over an established link, whatever the two ends say to each other in
    whatever order arrives: each payload that fits a packet is sealed, framed,
    parsed, authenticated and delivered to the other end's packet callback,
    unchanged, once and in order, and the session stays as it was, also when
    the destination asks for proofs of delivery. *)
Theorem link_conversation `{!Online} ms a b :
  linked a b → packetCallback a = true → packetCallback b = true → Forall sendable ms →
  ∃ a' b', conversation ms a b = Some (a', b') ∧ linked a' b'
    ∧ deliveries b' = deliveries b ++ said true ms ∧ deliveries a' = deliveries a ++ said false ms.
Proof.
  intros HL Ca Cb Hms. revert a b HL Ca Cb. induction Hms as [|m ms [Hiv Hlen] _ IH]; intros a b HL Ca Cb.
  { exists a, b. cbn. by rewrite !app_nil_r. }
  cbn [conversation]. destruct (m_first m) eqn:Em.
  - destruct (carry_run (m_iv m) (m_at m) (m_data m) a b) as (a1 & b1 & -> & Sa & Sb & Da & Db); try done.
    destruct (IH a1 b1) as (a' & b' & HC & HL' & Db' & Da');
      [by eapply linked_sess|by rewrite <- Ca; apply sess_fields|by rewrite <- Cb; apply sess_fields|].
    exists a', b'. split_and!; [exact HC|done|rewrite Db', Db|rewrite Da', Da];
      unfold said; rewrite filter_cons, Em; [by rewrite <- app_assoc|done].
  - destruct (carry_run (m_iv m) (m_at m) (m_data m) b a) as (b1 & a1 & -> & Sb & Sa & Db & Da);
      [by apply linked_sym|done..|].
    destruct (IH a1 b1) as (a' & b' & HC & HL' & Db' & Da');
      [by eapply linked_sess|by rewrite <- Ca; apply sess_fields|by rewrite <- Cb; apply sess_fields|].
    exists a', b'. split_and!; [exact HC|done|rewrite Db', Db|rewrite Da', Da];
      unfold said; rewrite filter_cons, Em; [done|by rewrite <- app_assoc].
Qed.

End handshake.

(** ** The payload size *)

Definition mdu_of (m : Z) : Z := mdu (updateMDU (set_modemtu x00 m (NewLink None None false))).

Lemma updateMDU_of l : mdu (updateMDU l) = mdu_of (Z.min (mtu l) 500) ∧ mtu (updateMDU l) = Z.min (mtu l) 500.
Proof.
  split; [|apply updateMDU_mtu]. unfold mdu_of, updateMDU. cbn [mdu mtu set_mtumdu set_modemtu].
  change Packet.MTU with 500. destruct (Z.ltb_spec 500 (mtu l)) as [Hm|Hm].
  - by rewrite Z.min_r by lia.
  - by rewrite Z.min_l, (proj2 (Z.ltb_ge 500 (mtu l))) by lia.
Qed.

(** What the MDU should be for an MTU. *)
Definition mdu_right (m : Z) : bool :=
  if 84 <=? m
  then (20 + encryptedPayloadLen (mdu_of m) <=? m) && (m <? 20 + encryptedPayloadLen (mdu_of m + 1))
  else (mdu_of m =? 100) && (m <? 19 + encryptedPayloadLen (mdu_of m)).

Lemma mdu_table m : 0 <= m <= 500 → mdu_right m = true.
Proof.
  intros Hm. assert (HF : forallb (λ n, mdu_right (Z.of_nat n)) (seq 0 501) = true) by (vm_compute; reflexivity).
  rewrite forallb_forall in HF. specialize (HF (Z.to_nat m)). rewrite Z2Nat.id in HF by lia. apply HF, in_seq. lia.
Qed.

(** The MDU of a link is exact: with a negotiated MTU of at least 84 bytes
    (cut to 500) a payload of MDU bytes, encrypted and framed with header and
    interface authentication byte, fits the MTU, and one byte more does not;
    below 84 bytes the code falls back to an MDU of 100 bytes, whose packet is
    larger than the MTU. *)
Theorem link_mdu_exact l :
  0 <= mtu l →
  let l' := updateMDU l in
  mtu l' = Z.min (mtu l) 500
  ∧ (84 <= mtu l → 20 + encryptedPayloadLen (mdu l') <= mtu l' < 20 + encryptedPayloadLen (mdu l' + 1))
  ∧ (mtu l < 84 → mdu l' = 100 ∧ mtu l' < 19 + encryptedPayloadLen (mdu l')).
Proof.
  intros Hm l'. destruct (updateMDU_of l) as [E1 E2]. unfold l'. rewrite E1, E2. split; [done|].
  pose proof (mdu_table (Z.min (mtu l) 500) ltac:(lia)) as HT. unfold mdu_right in HT.
  destruct (Z.leb_spec 84 (Z.min (mtu l) 500)); apply andb_true_iff in HT as [T1 T2]; lia.
Qed.

Lemma link_mdu_exact_witness :
  let l' := updateMDU (set_modemtu x00 262144 (NewLink None None false)) in
  20 + encryptedPayloadLen (mdu l') <= mtu l' < 20 + encryptedPayloadLen (mdu l' + 1).
Proof.
  apply (link_mdu_exact (set_modemtu x00 262144 (NewLink None None false))); vm_compute; discriminate.
Defined.

(** ** A concrete network *)

(** A network on which every send succeeds; its codec keeps the type byte and
    the length of an encoded number. *)
#[local] Instance demo_env : LinkEnv := {|
  admitHandshake := true;
  admitCrypto := true;
  transportSend _ := true;
  ifaceSend _ := true;
  hasPath _ := true;
  tryBeginOutboundEstablish _ := true;
  hopsTo _ := PathfinderM;
  firstHopTimeout _ := Float64.of_Z 6;
  nextHopInterface _ := None;
  linkPathRebalanceAllowed := false;
  rebalancePathHops _ _ := false;
  blackholed _ := false;
  proofCallback _ := false;
  rttMarshal _ := xcb :: replicate 8 x00;
  rttUnmarshal _ := Some (Float64.of_Z 0)
|}.

#[local] Instance demo_online : Online.
Proof. by split; try done; intros r; eexists. Qed.

#[local] Existing Instances X25519.additive Ed25519.hashScheme.

Definition demo_seed : bytes := replicate 32 x02.
Definition demo_owner : Identity.Identity :=
  Identity.mkIdentity (replicate 32 x05) (Ed25519.publicKey demo_seed) (Some (replicate 32 x01)) (Some demo_seed)
    None ∅ ∅.
Definition demo_dest : Destination := mkDest (replicate 16 x07) x00 (Some demo_owner) x01 None.

Lemma link_establishment_witness :
  ∃ li lr la lb pkt pf rtt, Establish (Some (replicate 32 x03)) (Some (replicate 32 x04)) 1000
      (NewLink (Some demo_dest) None true) = (li, Ok ())
    ∧ HandleIncomingLinkRequest (Some (replicate 32 x06)) (Some (replicate 32 x08)) 2000 pkt demo_dest (Some false) false
      = (lr, Ok ())
    ∧ ValidateLinkProof (Some (replicate 16 x09)) 3000 pf None li = (la, Ok ())
    ∧ processInbound None 4000 rtt lr = (lb, Ok ())
    ∧ linked la lb ∧ mtu la = 500.
Proof.
  destruct (@link_establishment X25519.additive X25519.additive_laws Ed25519.hashScheme Ed25519.hashScheme_laws
    demo_env demo_online demo_dest demo_owner demo_dest demo_owner demo_seed (replicate 32 x03) (replicate 32 x04)
    (replicate 32 x06) (replicate 32 x08) (replicate 16 x09) 1000 2000 3000 None None false true false)
    as (li & req & HE & _ & Hd & HR); try reflexivity; [discriminate|..].
  { split_and!; try reflexivity. by eexists. }
  destruct (HR req 500 eq_refl Hd) as (lr & proof & pf & HI & _ & _ & HV); [split; [discriminate|reflexivity]|].
  destruct (HV pf eq_refl) as (la & rtt & q & HA & _ & _ & HP); [left; reflexivity|].
  destruct (HP q None 4000 eq_refl eq_refl eq_refl) as (lb & HB & HL & HM).
  exists li, lr, la, lb, req, pf, q. by split_and!.
Defined.

Definition demo_link : Link :=
  set_session (Some (replicate 32 x0a)) (Some (replicate 32 x0b))
    (set_linkID (replicate 16 x0c) (set_st StatusActive (set_plain true [] (NewLink (Some demo_dest) None false)))).

Definition demo_messages : list message :=
  [{| m_first := true; m_iv := replicate 16 x01; m_at := 10; m_data := [x68; x69] |};
   {| m_first := false; m_iv := replicate 16 x02; m_at := 20; m_data := [x79; x6f] |};
   {| m_first := true; m_iv := replicate 16 x03; m_at := 30; m_data := [] |}].

Lemma link_conversation_witness :
  ∃ a b, conversation demo_messages demo_link demo_link = Some (a, b)
    ∧ deliveries b = [[x68; x69]; []] ∧ deliveries a = [[x79; x6f]].
Proof.
  destruct (@link_conversation X25519.additive Ed25519.hashScheme
    demo_env demo_online demo_messages demo_link demo_link) as (a & b & HC & _ & Db & Da);
    [..|exists a, b; split_and!; [exact HC|exact Db|exact Da]]; try reflexivity.
  - repeat split; try reflexivity. by eexists.
  - repeat constructor; vm_compute; discriminate.
Defined.

End Session.
