(* ===== verification/LinkLife.v ===== *)
(** * The life of a link

    The operations of [Link] as one labelled step, the histories they make, and
    what holds along every history: session keys behind every status that uses
    them, closed links that stay closed and, three senders that do not look at
    the status apart, silent, activation only by an authenticated packet,
    deliveries only of authenticated payloads.  Two histories show where the code
    departs from what it means to do: a re-established link panics when it is
    closed, and a link torn down while pending keeps its establishment slot. *)

From S2P Require Import Prelude Sha256 Packet Crypto HeaderRewrite Float64 Common Identity Rate Link LinkSession.
From stdpp Require Import list.

Open Scope Z_scope.

Module Life.
Import Link Session.

Section life.
Context `{X25519.Curve} `{Ed25519.Scheme} `{LinkEnv}.

(** ** The operations *)

Inductive op :=
  | OpEstablish (x s : option bytes) (now : Z)
  | OpReestablish (x s : option bytes) (now : Z)
  | OpTeardown (rand : option bytes) (now : Z)
  | OpSend (rand : option bytes) (now : Z) (data : bytes) (context : byte)
  | OpIdentify (rand : option bytes) (id : Identity.Identity)
  | OpProof (rand : option bytes) (now : Z) (pkt : packet) (iface : option bool)
  | OpInbound (rand : option bytes) (now : Z) (pkt : packet)
  | OpReceive (raw : bytes)
  | OpPop
  | OpCallback (callback : bool)
  | OpResendProof (now : Z)
  | OpTick (rand : option bytes) (now : Z)
  | OpWatchdogExit
  | OpSendChannel (rand : option bytes) (now : Z) (data : bytes)
  | OpProvePacket (now : Z) (pkt : packet)
  | OpMaintain (rand : option bytes) (now : Z)
  | OpSetRTT (v : Float64.f64)
  | OpResend (pkt : option packet)
  | OpAnswer (rand : option bytes) (now : Z) (isData : bool) (context : byte) (data : bytes)
  | OpResourceProof (now : Z) (proofData : bytes).

Definition step (o : op) : M () :=
  match o with
  | OpEstablish x s now => Establish x s now
  | OpReestablish x s now => Reestablish x s now
  | OpTeardown rand now => Teardown rand now
  | OpSend rand now data context => SendPacketWithContext rand now data context
  | OpIdentify rand id => Identify rand id
  | OpProof rand now pkt iface => ValidateLinkProof rand now pkt iface
  | OpInbound rand now pkt => processInbound rand now pkt
  | OpReceive raw => HandleInbound raw
  | OpPop => popInbound ;; mret ()
  | OpCallback callback => modify (SetPacketCallback callback)
  | OpResendProof now => resendProofIfPending now ;; mret ()
  | OpTick rand now => watchdogTick rand now ;; mret ()
  | OpWatchdogExit => modify watchdogExit
  | OpSendChannel rand now data => Send rand now data ;; mret ()
  | OpProvePacket now pkt => ProvePacket now pkt
  | OpMaintain rand now => maintainTick rand now ;; mret ()
  | OpSetRTT v => modify (SetRTT v)
  | OpResend pkt => Resend pkt
  | OpAnswer rand now isData context data =>
      sendSealed rand (if isData then recordOutboundData now else recordOutbound now) context data
  | OpResourceProof now proofData => sendResourceProof now proofData
  end.

(** [processInboundSafe] recovers from a panic of [processInbound]. *)
Definition recovers (o : op) : bool := match o with OpInbound _ _ _ => true | _ => false end.

(** The operations one after the other; a panic ends the history, unless it is
    recovered from: then the link is left as the panic left it. *)
Fixpoint run (os : list op) (l : Link) : option Link :=
  match os with
  | [] => Some l
  | o :: os =>
      match step o l with
      | (l, Panic) => if recovers o then run os l else None
      | (l, _) => run os l
      end
  end.

(** How a link begins: made by the initiator, or for an incoming request. *)
Inductive born : Link → Prop :=
  | born_new dest iface cb : born (NewLink dest iface cb)
  | born_incoming x s now pkt dest iface cb l :
      HandleIncomingLinkRequest x s now pkt dest iface cb = (l, Ok ()) → born l.

Lemma run_app os1 os2 l : run (os1 ++ os2) l = run os1 l ≫= run os2.
Proof.
  revert l. induction os1 as [|o os1 IH]; intros l; [done|]. cbn.
  destruct (step o l) as [l' [[]|e|]]; [apply IH..|]. by destruct (recovers o).
Qed.

(** A property of the state that every step keeps holds along a history. *)
Lemma run_invariant (I : Link → Prop) os l l' :
  (∀ o s, o ∈ os → I s → I (step o s).1) → I l → run os l = Some l' → I l'.
Proof.
  revert l. induction os as [|o os IH]; intros l HI Hl HR; [by simplify_eq/=|].
  cbn in HR. pose proof (HI o l ltac:(by left) Hl) as H1'. destruct (step o l) as [l1 r]. cbn [fst] in H1'.
  assert (HR' : run os l1 = Some l') by (destruct r; [done..|]; by destruct (recovers o)).
  eapply IH; [|exact H1'|done]. intros. apply HI; [by right|done].
Qed.

(** ** Operations beside the life of the link *)

(** What the application has received, or will when it sets a callback. *)
Definition received (l : Link) := (packetCallback l, pendingPlainData l, deliveries l).

(** What the life of a link is made of. *)
Definition life (l : Link) :=
  (st l, (hmacKey l, sessionKey l, cipher l), (linkDone l, watchdogDone l), received l).

Lemma life_emit e l : match e with Deliver _ => False | _ => True end → life (emit e l) = life l.
Proof. intros He. unfold life, received. rewrite deliveries_emit. destruct e; try done; by rewrite app_nil_r. Qed.

Lemma attempt_keeps {A} I (m : M A) : keeps I m → keeps I (attempt m).
Proof. intros Hm l Hl. pose proof (Hm l Hl). unfold attempt. by destruct (m l) as [l' [a|e|]]. Qed.
#[local] Hint Resolve attempt_keeps : keeps.

(** The operations that leave the life of the link alone. *)
Definition steady c (l : Link) : Prop := life l = c.

Ltac steady := keeps_auto;
  try match goal with H : steady _ ?l |- steady _ _ =>
    unfold steady in *; rewrite <- H; try reflexivity; by apply life_emit end.

Lemma packed_steady c p : keeps (steady c) (packed p).
Proof. unfold packed. steady. Qed.
Lemma send_steady c p : keeps (steady c) (send p).
Proof. unfold send. steady. Qed.
#[local] Hint Resolve packed_steady send_steady : keeps.

Lemma sendLinkPacket_steady c f ptype ctx data :
  (∀ l, life (f l) = life l) → keeps (steady c) (sendLinkPacket f ptype ctx data).
Proof. intros Hf. unfold sendLinkPacket. steady. unfold steady. by rewrite Hf. Qed.
#[local] Hint Extern 1 (keeps _ (sendLinkPacket _ _ _ _)) => (apply sendLinkPacket_steady; reflexivity) : keeps.

Lemma sendKeepalive_steady c now : keeps (steady c) (sendKeepalive now).
Proof. unfold sendKeepalive. steady. Qed.
Lemma sendTeardownPacket_steady c rand now : keeps (steady c) (sendTeardownPacket rand now).
Proof. unfold sendTeardownPacket. steady. Qed.
Lemma seal_steady c rand p data : keeps (steady c) (sealEncryptedHT1Locked rand p data).
Proof. unfold sealEncryptedHT1Locked. steady. Qed.
#[local] Hint Resolve sendKeepalive_steady sendTeardownPacket_steady seal_steady : keeps.
Lemma SendPacketWithContext_steady c rand now data ctx : keeps (steady c) (SendPacketWithContext rand now data ctx).
Proof. unfold SendPacketWithContext. steady. Qed.
Lemma ProvePacket_steady c now pkt : keeps (steady c) (ProvePacket now pkt).
Proof. unfold ProvePacket. steady. Qed.
Lemma Send_steady c rand now data : keeps (steady c) (Send rand now data).
Proof. unfold Send. steady. Qed.
Lemma Resend_steady c pkt : keeps (steady c) (Resend pkt).
Proof. unfold Resend. steady. Qed.
Lemma sendSealed_steady c rand f ctx data :
  (∀ l, life (f l) = life l) → keeps (steady c) (sendSealed rand f ctx data).
Proof. intros Hf. unfold sendSealed. steady. by apply sendLinkPacket_steady. Qed.
Lemma resourceProof_steady c now data : keeps (steady c) (sendResourceProof now data).
Proof. unfold sendResourceProof. steady. Qed.
#[local] Hint Resolve ProvePacket_steady Send_steady Resend_steady resourceProof_steady : keeps.
Lemma maybeProve_steady c now pkt : keeps (steady c) (maybeProveInboundData now pkt).
Proof. unfold maybeProveInboundData. steady. Qed.
Lemma registerLinkPath_steady c : keeps (steady c) registerLinkPath.
Proof. unfold registerLinkPath. steady. Qed.
Lemma generateEphemeralKeys_steady c x s : keeps (steady c) (generateEphemeralKeys x s).
Proof. unfold generateEphemeralKeys. steady. Qed.
Lemma sendPrepared_steady c : keeps (steady c) sendPreparedLinkRequest.
Proof. unfold sendPreparedLinkRequest. steady. Qed.
Lemma Identify_steady c rand id : keeps (steady c) (Identify rand id).
Proof. unfold Identify. steady. Qed.
Lemma resend_steady c now : keeps (steady c) (resendProofIfPending now).
Proof. unfold resendProofIfPending. steady. Qed.
Lemma rebalance_steady c now pkt h : keeps (steady c) (tryTerminusPathRebalanceLocked now pkt h).
Proof. unfold tryTerminusPathRebalanceLocked. steady. Qed.
Lemma HandleInbound_steady c raw : keeps (steady c) (HandleInbound raw).
Proof. unfold HandleInbound. steady. Qed.
Lemma popInbound_steady c : keeps (steady c) popInbound.
Proof. unfold popInbound. steady. Qed.
Lemma readLinkProof_steady c data : keeps (steady c) (readLinkProof data).
Proof. unfold readLinkProof. steady. Qed.
#[local] Hint Resolve maybeProve_steady registerLinkPath_steady generateEphemeralKeys_steady sendPrepared_steady
  Identify_steady resend_steady rebalance_steady HandleInbound_steady popInbound_steady readLinkProof_steady : keeps.

(** These leave the life of the link alone. *)
Definition beside (o : op) : bool :=
  match o with
  | OpSend _ _ _ _ | OpIdentify _ _ | OpReceive _ | OpPop | OpResendProof _ | OpSendChannel _ _ _
  | OpProvePacket _ _ | OpSetRTT _ | OpResend _ | OpAnswer _ _ _ _ _ | OpResourceProof _ _ => true
  | _ => false
  end.

Lemma step_beside c o : beside o = true → keeps (steady c) (step o).
Proof.
  intros Ho. destruct o; try discriminate Ho; cbn [step].
  - apply SendPacketWithContext_steady.
  - apply Identify_steady.
  - apply HandleInbound_steady.
  - apply keeps_bind; [apply popInbound_steady|intros; apply keeps_ret].
  - apply keeps_bind; [apply resend_steady|intros; apply keeps_ret].
  - apply keeps_bind; [apply Send_steady|intros; apply keeps_ret].
  - apply ProvePacket_steady.
  - by apply keeps_modify.
  - apply Resend_steady.
  - apply sendSealed_steady. by destruct isData.
  - apply resourceProof_steady.
Qed.

(** ** The invariant *)

Definition keyed (l : Link) : Prop :=
  match st l with
  | StatusHandshake | StatusActive | StatusStale => hasSessionKeys l = true
  | StatusFailed => False
  | StatusPending | StatusClosed => True
  end.

Definition closable (l : Link) : Prop :=
  st l ≠ StatusClosed → linkDone l = OpenChan ∧ watchdogDone l ≠ ClosedChan.

(** [again]: the link may have been re-established. *)
Definition inv (again : bool) (l : Link) : Prop := keyed l ∧ (again = false → closable l).

(** *** Properties of the life of a link *)

Class LifeProp (I : Link → Prop) := life_prop l l' : life l' = life l → I l → I l'.

#[local] Instance steady_life c : LifeProp (steady c).
Proof. unfold steady. by intros l l' ->. Qed.

Lemma keeps_life I `{!LifeProp I} {A} (m : M A) : (∀ c, keeps (steady c) m) → keeps I m.
Proof. intros Hm l Hl. eapply life_prop; [|exact Hl]. by apply (Hm (life l)). Qed.
#[local] Hint Extern 2 (keeps ?I _) =>
  (lazymatch I with steady _ => fail | _ => apply keeps_life; [apply _|intros; solve [auto with keeps]] end) : keeps.

Lemma wp_then {A B} I J (m : M A) (k : A → M B) l :
  keeps I m → (∀ l, I l → J l) → (∀ a, keeps J (k a)) → I l → wp (m ≫= k) (λ _, J) l.
Proof.
  intros Hm HJ Hk Hl. apply wp_bind. apply (wp_keeps _ _ _ _ Hm Hl).
  intros [a|e|] l' Hl'; [by apply Hk, HJ|by apply HJ..].
Qed.

Lemma life_unregister l : life (unregister l) = life l.
Proof. unfold unregister. case_match; [by apply life_emit|done]. Qed.
Lemma life_release l : life (releaseOutboundEstablish l) = life l.
Proof. unfold releaseOutboundEstablish. repeat case_match; [by apply life_emit|done..]. Qed.
Lemma life_invalidate l : life (invalidateTransportPathAfterInitiatorFailure l) = life l.
Proof. unfold invalidateTransportPathAfterInitiatorFailure. repeat case_match; [by apply life_emit|done..]. Qed.
Lemma life_keepalive l : life (updateKeepaliveLocked l) = life l.
Proof. unfold updateKeepaliveLocked. by case_match. Qed.
Lemma life_ready l : life (markChannelReady l) = life l.
Proof. unfold markChannelReady. by case_match. Qed.
Lemma life_timed (r : Float64.f64) l :
  life (if Float64.ltb r (rtt l) then updateKeepaliveLocked l else l) = life l.
Proof. case_match; [apply life_keepalive|done]. Qed.
#[local] Hint Resolve life_unregister life_release life_invalidate life_keepalive life_ready life_timed : life.
#[local] Hint Extern 1 (life (emit _ _) = _) => (by apply life_emit) : life.
#[local] Hint Extern 9 (life _ = life _) => reflexivity : life.

Ltac life_auto :=
  repeat first [keeps_step | lazymatch goal with |- keeps _ (attempt _) => apply attempt_keeps end];
  try match goal with H : _ ?l |- _ (_ ?l) => eapply life_prop; [|exact H]; solve [auto with life] end.

(** Properties that closing a link keeps as well. *)
Class Tame (I : Link → Prop) := {
  tame_life :: LifeProp I;
  tame_close l l' : I l → st l' = StatusClosed → received l' = received l → I l'
}.

Lemma received_emit e l :
  match e with Deliver _ => False | _ => True end → received (emit e l) = received l.
Proof. intros He. unfold received. rewrite deliveries_emit. destruct e; try done; by rewrite app_nil_r. Qed.

Section tame.
Context (I : Link → Prop) `{!Tame I}.

Lemma closeOnce_tame r : keeps I (closeOnce r).
Proof.
  intros l Hl. change (wp (closeOnce r) (λ _, I) l). unfold closeOnce.
  pose proof (received_emit NotifyClosed (set_teardownReason r (set_st StatusClosed l)) Logic.I) as E.
  repeat wp_step; [exact Hl|..]; (eapply tame_close; [exact Hl|reflexivity|exact E]).
Qed.

Lemma failed_tame l : I l → I (markInitiatorEstablishmentFailedLocked l).
Proof.
  intros Hl. unfold markInitiatorEstablishmentFailedLocked. destruct (initiator l); [|done]. cbn [negb]. cbv iota zeta.
  set (l1 := set_st StatusClosed _). assert (H1' : I l1) by (by eapply tame_close). clearbody l1.
  eapply life_prop; [|exact H1'].
  by rewrite !life_emit, life_invalidate, life_release, life_unregister.
Qed.
End tame.
#[local] Hint Resolve closeOnce_tame : keeps.
#[local] Hint Extern 0 (Tame _) => (apply _) : keeps.
#[local] Hint Extern 0 (LifeProp _) => (apply _) : keeps.

Section preparing.
Context (I : Link → Prop) `{!LifeProp I}.

Lemma Pending_life l : st l = StatusPending → life (set_st StatusPending l) = life l.
Proof. unfold life. by intros ->. Qed.

Definition pending (l : Link) : Prop := I l ∧ st l = StatusPending.
#[export] Instance pending_life : LifeProp pending.
Proof. intros l l' E [HI Hst]. split; [by eapply life_prop|by injection E as ->]. Qed.

Lemma prepare_tame x s now : keeps pending (prepareLinkRequestLocked x s now).
Proof.
  unfold prepareLinkRequestLocked. life_auto.
  eapply life_prop; [apply Pending_life|done]. by destruct H2.
Qed.

(** The state in which the request is prepared. *)
Lemma request_pending l d f now h t :
  I l → st l = StatusPending →
  pending (set_establishmentTimeout t (set_expectedHops h (set_request f now
    (set_st StatusPending (set_initiator true (emit (BeginOutboundEstablish d) l)))))).
Proof.
  intros Hl Hst. split; [|reflexivity]. eapply life_prop; [|exact Hl]. rewrite <- (Pending_life l Hst).
  apply (life_emit _ (set_st StatusPending l)). done.
Qed.
End preparing.

Section tame_ops.
Context (I : Link → Prop) `{!Tame I}.

Lemma Teardown_tame rand now : keeps I (Teardown rand now).
Proof. unfold Teardown. life_auto. Qed.
Lemma maintain_tame rand now : keeps I (maintainTick rand now).
Proof.
  unfold maintainTick. life_auto; try by apply Teardown_tame.
Qed.
Lemma handleTeardown_tame p : keeps I (handleTeardown p).
Proof. unfold handleTeardown. life_auto. Qed.
Lemma finishWatchdogClose_tame r i : keeps I (finishWatchdogClose r i).
Proof. unfold finishWatchdogClose. life_auto. Qed.

Lemma Establish_tame x s now : (∀ l, I l → I (startWatchdog l)) → keeps I (Establish x s now).
Proof.
  intros Hw l Hl. change (wp (Establish x s now) (λ _, I) l). unfold Establish.
  repeat wp_step; try exact Hl.
  match goal with E : bool_decide (st l = _) = true |- _ => apply bool_decide_eq_true in E as Hst end.
  eapply wp_then;
    [apply attempt_keeps, (prepare_tame I)|by intros ? []| |apply (request_pending I); [exact Hl|exact Hst]].
  clear H2 H3 H4 H5 Heqo. intros a. life_auto.
  by apply failed_tame.
Qed.
End tame_ops.
#[local] Hint Resolve Teardown_tame handleTeardown_tame finishWatchdogClose_tame Establish_tame : keeps.

(** *** Activation *)

Lemma promote_wp l :
  wp promoteToActive (λ r l',
    (r = Ok true ∧ st l ≠ StatusClosed ∧ st l ≠ StatusFailed ∧ life l' = life (set_st StatusActive l))
    ∨ (r = Ok false ∧ l' = l ∧ (st l = StatusClosed ∨ st l = StatusFailed))) l.
Proof. unfold promoteToActive. repeat wp_step; rewrite ?life_release; auto. Qed.

(** The steps after a promotion that succeeds. *)
Lemma promoted_wp {A} (k : bool → M A) l :
  st l = StatusHandshake ∨ st l = StatusStale → (∀ c, keeps (steady c) (k true)) →
  wp (promoteToActive ≫= k) (λ _ l', life l' = life (set_st StatusActive l)) l.
Proof.
  intros Hst Hk. apply wp_bind. eapply wp_mono; [apply promote_wp|].
  intros r l' [(-> & _ & _ & E)|(_ & _ & [E|E])]; [|rewrite E in Hst; naive_solver..].
  cbn. by apply (Hk (life (set_st StatusActive l))).
Qed.

Lemma set_st_life v l l' : life l' = life l → life (set_st v l') = life (set_st v l).
Proof.
  unfold life. intros [=]. change (received (set_st v ?x)) with (received x). cbn. unfold received. congruence.
Qed.

Lemma activate_wp rand now l :
  st l = StatusHandshake → wp (activateInitiator rand now) (λ _ l', life l' = life (set_st StatusActive l)) l.
Proof.
  intros Hst. unfold activateInitiator. do 4 wp_step.
  match goal with |- wp _ _ ?l1 => assert (E : life l1 = life l) by (rewrite life_timed; reflexivity) end.
  match goal with |- wp _ _ ?l1 => revert E; generalize l1 end. intros l1 E.
  eapply wp_mono; [apply promoted_wp|].
  - left. injection E as -> _. done.
  - intros c. cbn [negb]. cbv iota. life_auto.
  - cbn. intros _ l' ->. by apply set_st_life.
Qed.

Lemma handleRTT_wp now pkt l :
  wp (handleRTTPacket now pkt) (λ _ l',
    life l' = life l
    ∨ (initiator l = false ∧ st l = StatusHandshake
       ∧ (∃ payload r, decrypt (Packet.Data pkt) l = Ok payload ∧ parseRTTPayloadSeconds payload = Ok r)
       ∧ life l' = life (set_st StatusActive l))) l.
Proof.
  unfold handleRTTPacket. repeat wp_step; try (by left).
  match goal with |- wp _ _ ?l1 => assert (E : life l1 = life l) by (rewrite life_timed; reflexivity) end.
  match goal with |- wp _ _ ?l1 => revert E; generalize l1 end. intros l1 E.
  apply orb_false_iff in Heqb as [Hi Hst]. apply bool_decide_eq_false, dec_stable in Hst.
  eapply wp_mono; [apply promoted_wp|].
  - left. injection E as -> _. done.
  - intros c. cbn [negb]. cbv iota. life_auto.
  - cbn. intros _ l' El. right. split_and!; [done..|by eauto|]. rewrite El. by apply set_st_life.
Qed.

(** *** The handshake *)

Lemma crypt_Ok {A} (o : outcome Crypto.crypto_error A) a : crypt o = Ok a → o = Ok a.
Proof. destruct o; cbn; congruence. Qed.
Lemma ident_Ok {A} (o : outcome Identity.identity_error A) a : ident o = Ok a → o = Ok a.
Proof. destruct o; cbn; congruence. Qed.

(** The keys that the two ephemeral keys and the link id give. *)
Definition agreed (l : Link) (k : bytes) : Prop :=
  ∃ priv shared, prv l = Some priv ∧ Identity.DeriveSharedSecret priv (peerPub l) = Ok shared
    ∧ Crypto.implDeriveKey shared (linkID l) [] (len k) = Ok k ∧ 32 <= len k.

Definition keyed_by (k : bytes) (l : Link) : Link :=
  set_st StatusHandshake (refreshAESBlockLocked (splitDerivedKey k l)).

Lemma performHandshake_wp l :
  wp performHandshakeLocked (λ r l', match r with
    | Ok _ => ∃ k, agreed l k ∧ l' = keyed_by k l
    | _ => l' = l
    end) l.
Proof.
  unfold performHandshakeLocked. repeat wp_step; try exact (eq_refl l).
  all: match goal with E : crypt _ = Ok ?k |- _ => apply crypt_Ok in E; exists k;
         pose proof (Crypto.implDeriveKey_len _ _ _ _ _ E) as Hk end.
  all: split; [|reflexivity]; eexists _, _; split_and!; [eassumption|by apply ident_Ok| |lia]; by rewrite Hk.
Qed.

(** *** The proof *)

(** The part of the state that a proof is checked against. *)
Definition role (l : Link) := (life l, initiator l, destination l, prv l, linkID l).

(** The packet carries the destination's signature over the link id, an
    ephemeral key and the signalling bytes. *)
Definition proven (pkt : packet) (peer : bytes) (l : Link) : Prop :=
  ∃ id sig rest, destination l ≫= d_identity = Some id ∧ Packet.Data pkt = sig ++ peer ++ rest
    ∧ len sig = SigLength ∧ len peer = KeySize
    ∧ Identity.Verify id (linkID l ++ peer ++ slice KeySize ECPubSize (Identity.GetPublicKey id)
        ++ (if LinkMTUSize <=? len rest then take 3 rest else [x00; x00; x00])) sig = true.

Lemma rebalance_role c now pkt h : keeps (λ l, role l = c) (tryTerminusPathRebalanceLocked now pkt h).
Proof. unfold tryTerminusPathRebalanceLocked. keeps_auto; by rewrite <- H2. Qed.

Lemma readLinkProof_role c data : keeps (λ l, role l = c) (readLinkProof data).
Proof. unfold readLinkProof. keeps_auto; by rewrite <- H2. Qed.

Lemma proofSignalling_parts sig peer rest s :
  len sig = SigLength → len peer = KeySize → proofSignalling (sig ++ peer ++ rest) = Ok s →
  default [x00; x00; x00] s = if LinkMTUSize <=? len rest then take 3 rest else [x00; x00; x00].
Proof.
  intros Hs Hp. unfold proofSignalling. rewrite !len_app.
  replace (SigLength + KeySize + LinkMTUSize <=? len sig + (len peer + len rest)) with (LinkMTUSize <=? len rest)
    by (destruct (Z.leb_spec LinkMTUSize (len rest)), (Z.leb_spec (SigLength + KeySize + LinkMTUSize) (len sig + (len peer + len rest))); lia).
  destruct (Z.leb_spec LinkMTUSize (len rest)) as [Hr|Hr]; [|by intros [= <-]].
  rewrite go_slice_Ok by (rewrite ?len_app; unfold LinkMTUSize, SigLength, KeySize in *; lia).
  intros [= <-]. cbn [default]. rewrite <- (take_drop 3 rest) at 1. rewrite app_assoc.
  apply slice_app_mid; rewrite len_app, ?len_take; unfold LinkMTUSize in *; lia.
Qed.

Lemma split_proof (data : bytes) :
  SigLength + KeySize <= len data →
  ∃ sig peer rest, data = sig ++ peer ++ rest ∧ len sig = SigLength ∧ len peer = KeySize.
Proof.
  intros Hd. exists (take 64 data), (take 32 (drop 64 data)), (drop 32 (drop 64 data)).
  rewrite !take_drop. rewrite !len_take, len_drop. unfold SigLength, KeySize in *. split_and!; [done|lia..].
Qed.

Lemma readLinkProof_wp data l id :
  destination l ≫= d_identity = Some id → SigLength + KeySize <= len data →
  wp (readLinkProof data) (λ r l', ∀ p, r = Ok p →
    ∃ peer rest, data = p.1 ++ peer ++ rest ∧ len p.1 = SigLength ∧ len peer = KeySize ∧ peerPub l' = peer
      ∧ p.2 = linkID l ++ peer ++ slice KeySize ECPubSize (Identity.GetPublicKey id)
          ++ (if LinkMTUSize <=? len rest then take 3 rest else [x00; x00; x00])) l.
Proof.
  intros Hid Hlen. destruct (split_proof data Hlen) as (sig & peer & rest & -> & Hs & Hp). unfold readLinkProof.
  rewrite (go_slice_Ok 0 SigLength), (go_slice_Ok SigLength)
    by (rewrite ?len_app; unfold SigLength, KeySize in *; pose proof (len_nonneg rest); lia).
  rewrite slice_0, take_app_mid, (slice_app_mid sig peer) by (unfold len in *; lia).
  repeat wp_step; try done.
  all: injection H2 as <-; injection H3 as <-.
  all: match goal with E : proofSignalling _ = Ok _ |- _ =>
         apply proofSignalling_parts in E; [|done..] end.
  all: intros p [= <-]; exists peer, rest; split_and!; [done..|]; cbn [snd].
  all: rewrite <- H4, Hid; reflexivity.
Qed.

Lemma life_st l l' : life l' = life l → st l' = st l.
Proof. intros E. exact (f_equal (λ x, x.1.1.1) E). Qed.
Lemma life_received l l' : life l' = life l → received l' = received l.
Proof. intros E. exact (f_equal snd E). Qed.
Lemma role_life l l' : role l' = role l → life l' = life l.
Proof. intros E. exact (f_equal (λ x, x.1.1.1.1) E). Qed.

Lemma role_initiator l l' : role l' = role l → initiator l' = initiator l.
Proof. intros E. exact (f_equal (λ x, x.1.1.1.2) E). Qed.
Lemma role_linkID l l' : role l' = role l → linkID l' = linkID l.
Proof. intros E. exact (f_equal snd E). Qed.

(** The session a proof sets up: the keys come from the link's own ephemeral
    key, the ephemeral key in the proof and the link id. *)
Definition session_of (peer k : bytes) (l : Link) : Prop :=
  ∃ priv shared, prv l = Some priv ∧ Identity.DeriveSharedSecret priv peer = Ok shared
    ∧ Crypto.implDeriveKey shared (linkID l) [] (len k) = Ok k ∧ 32 <= len k.

Definition activated (pkt : packet) (l l' : Link) : Prop :=
  initiator l = true ∧ (st l = StatusPending ∨ st l = StatusHandshake)
  ∧ ∃ peer k l1, proven pkt peer l ∧ session_of peer k l ∧ life l1 = life l
      ∧ life l' = life (set_st StatusActive (keyed_by k l1)).

Definition failed (l l' : Link) : Prop := st l' = StatusClosed ∧ received l' = received l.

Lemma mark_failed l :
  initiator l = true → failed l (markInitiatorEstablishmentFailedLocked l).
Proof.
  intros Hi. unfold markInitiatorEstablishmentFailedLocked. rewrite Hi. cbn [negb]. cbv iota zeta.
  set (l1 := set_st StatusClosed _).
  match goal with |- failed _ ?l' => assert (E : life l' = life l1)
    by (by rewrite !life_emit, life_invalidate, life_release, life_unregister) end.
  split; [by rewrite (life_st _ _ E)|by rewrite (life_received _ _ E)].
Qed.

Lemma wp_attempt {A} (m : M A) (Q : outcome link_error (outcome link_error A) → Link → Prop) l :
  wp m (λ r l', match r with Panic => Q Panic l' | _ => Q (Ok r) l' end) l → wp (attempt m) Q l.
Proof. unfold wp, attempt. by destruct (m l) as [l' [a|e|]]. Qed.

Lemma keyed_by_st k l : st (keyed_by k l) = StatusHandshake.
Proof. done. Qed.

Lemma wp_pair {A} (m : M A) P (I : Link → Prop) l : wp m P l → keeps I m → I l → wp m (λ r s, P r s ∧ I s) l.
Proof. intros HP HI Hl. split; [exact HP|by apply HI]. Qed.

(** After the signature check. *)
Lemma handshake_wp rand now pkt peer l l2 :
  initiator l = true → st l = StatusPending ∨ st l = StatusHandshake → role l2 = role l → peerPub l2 = peer →
  proven pkt peer l →
  wp (r ← attempt performHandshakeLocked;
      match r with
      | Ok _ => activateInitiator rand now
      | Err e => modify markInitiatorEstablishmentFailedLocked ;; fail e
      | Panic => lift Panic
      end) (λ _ l', life l' = life l ∨ failed l l' ∨ activated pkt l l') l2.
Proof.
  intros Hi Hst Hr Hp HP. apply wp_bind, wp_attempt. eapply wp_mono; [apply performHandshake_wp|].
  injection Hr as Hst2 Hk1 Hk2 Hk3 Hd1 Hd2 Hr1 Hr2 Hr3 Hi2 Hdst Hprv Hid.
  intros [[]|e|] l3; cbn [ends].
  - intros (k & (priv & shared & K1 & K2 & K3 & K4) & ->). eapply wp_mono; [apply activate_wp, keyed_by_st|].
    intros ? l' E. right; right. split_and!; [done..|]. exists peer, k, l2. split_and!; [done| | |exact E].
    + exists priv, shared. split_and!; congruence.
    + unfold life, received. congruence.
  - intros ->. do 2 wp_step. right; left. destruct (mark_failed l2) as [F1 F2]; [congruence|].
    split; [done|]. rewrite F2. unfold received. congruence.
  - intros ->. left. unfold life, received. congruence.
Qed.

Lemma validate_wp rand now pkt iface l :
  wp (validateLinkProofLocked rand now pkt iface)
    (λ _ l', life l' = life l ∨ failed l l' ∨ activated pkt l l') l.
Proof.
  unfold validateLinkProofLocked. do 2 wp_step; [by left|]. wp_step; [|by left]. cbv zeta.
  apply negb_false_iff in Heqb as Hi. apply orb_true_iff in H2 as Hst. rewrite !bool_decide_eq_true in Hst.
  apply wp_bind. eapply (wp_keeps _ (λ l1, role l1 = role l)); [keeps_auto; apply rebalance_role|done|].
  intros [ok|e|] l1 E1; [cbn|left; by apply role_life..].
  wp_step; [|left; by apply role_life]. wp_step; [|left; by apply role_life].
  assert (Hid1 : destination l1 = destination l) by exact (f_equal (λ x, x.1.1.2) E1).
  destruct (destination l ≫= d_identity) as [id|] eqn:Eid.
  - apply negb_true_iff, Z.ltb_ge in H4.
    pose proof (readLinkProof_wp (Packet.Data pkt) l1 id ltac:(by rewrite Hid1) H4) as HR.
    apply wp_bind. eapply wp_mono; [exact (wp_pair _ _ _ _ HR (readLinkProof_role (role l) _) E1)|].
    intros [[sig sd]|e|] l2 [HP E2]; [cbn [ends]|left; by apply role_life..].
    wp_step; [|left; by apply role_life].
    destruct (HP _ eq_refl) as (peer & rest & Hd & Hs & Hp & Hpp & Hsd). cbn [fst snd] in *.
    apply handshake_wp with peer; [done..|]. exists id, sig, rest. split_and!; [done..|].
    rewrite <- (role_linkID _ _ E1), <- Hsd. done.
  - apply wp_bind. eapply (wp_keeps _ (λ l1, role l1 = role l)); [apply readLinkProof_role|done|].
    intros [[sig sd]|e|] l2 E2; [cbn [ends]|left; by apply role_life..]. do 2 wp_step.
    right; left. destruct (mark_failed l2) as [F1 F2]; [by rewrite (role_initiator _ _ E2)|]. split; [done|].
    rewrite F2. apply life_received. by apply role_life.
Qed.

(** *** Inbound packets *)

(** What one packet does to the life of a link. *)
Inductive reacts (pkt : packet) (l l' : Link) : Prop :=
  | reacts_none : life l' = life l → reacts pkt l l'
  | reacts_close : failed l l' → reacts pkt l l'
  | reacts_proof : activated pkt l l' → reacts pkt l l'
  | reacts_rtt payload r :
      initiator l = false → st l = StatusHandshake →
      decrypt (Packet.Data pkt) l = Ok payload → parseRTTPayloadSeconds payload = Ok r →
      life l' = life (set_st StatusActive l) → reacts pkt l l'
  | reacts_deliver data :
      Packet.PacketType pkt = Packet.PacketTypeData → Packet.Context pkt = Packet.ContextNone →
      hasSessionKeys l = true → decrypt (Packet.Data pkt) l = Ok data →
      life l' = life (deliverOrQueuePlainPacket data l) → reacts pkt l l'.

(** Unchanged or closed. *)
Definition calm (l l' : Link) : Prop := life l' = life l ∨ failed l l'.
#[local] Instance calm_tame l : Tame (calm l).
Proof.
  split.
  - intros l1 l2 E [HL|[F1 F2]]; [left; congruence|right; split].
    + by rewrite (life_st _ _ E).
    + by rewrite (life_received _ _ E).
  - intros l1 l2 [HL|[F1 F2]] Hst Hr; right; (split; [done|]); rewrite Hr; [by apply life_received|done].
Qed.

Lemma calm_reacts pkt l l' : calm l l' → reacts pkt l l'.
Proof. intros [?|?]; [by apply reacts_none|by apply reacts_close]. Qed.

Lemma calm_refl l : calm l l.
Proof. by left. Qed.

Lemma HandleIdentification_tame I `{!Tame I} rand now data : keeps I (HandleIdentification rand now data).
Proof. unfold HandleIdentification. life_auto. Qed.

Lemma handleChannelPacket_tame I `{!LifeProp I} now pkt : keeps I (handleChannelPacket now pkt).
Proof.
  unfold handleChannelPacket. life_auto.
  all: eapply life_prop; [|exact H2]; unfold queueEarlyChannel; by case_match.
Qed.
#[local] Hint Resolve HandleIdentification_tame handleChannelPacket_tame : keeps.

Lemma openPayload_plain pkt l p :
  Packet.Context pkt = Packet.ContextNone → openPayload pkt l = Ok p →
  hasSessionKeys l = true ∧ ∃ data, p = Some data ∧ decrypt (Packet.Data pkt) l = Ok data.
Proof.
  intros Hc. unfold openPayload. rewrite Hc. destruct (hasSessionKeys l); [|done].
  change (_ || _) with false. cbv iota. change (decryptsInternally Packet.ContextNone) with false. cbv iota.
  destruct (decrypt (Packet.Data pkt) l) as [d|e|]; intros [= <-]. eauto.
Qed.

Lemma wp_calm {A} (m : M A) pkt l : keeps (calm l) m → wp m (λ _ l', reacts pkt l l') l.
Proof. intros Hm. by apply calm_reacts, Hm, calm_refl. Qed.

Lemma RTT_reacts now pkt l : wp (handleRTTPacket now pkt) (λ _ l', reacts pkt l l') l.
Proof.
  eapply wp_mono; [apply handleRTT_wp|]. cbn.
  intros _ l' [E|(Hi & Hst & (pl & r & Hd & Hr) & E)]; [by apply reacts_none|by eapply reacts_rtt].
Qed.

Lemma handleData_wp rand now pkt l :
  Packet.PacketType pkt = Packet.PacketTypeData →
  wp (handleDataPacket rand now pkt) (λ _ l', reacts pkt l l') l.
Proof.
  intros Hpt. unfold handleDataPacket. do 2 wp_step; [|by apply reacts_none]. wp_step; [apply RTT_reacts|].
  wp_step; [|by apply reacts_none..]. cbv zeta. wp_step.
  - apply bool_decide_eq_true in Heqb0. destruct (openPayload_plain pkt l a Heqb0 H3) as (Hk & d & -> & Hd). wp_step.
    eapply (wp_keeps _ (steady (life (deliverOrQueuePlainPacket d l)))); [apply maybeProve_steady|done|].
    intros _ l' E. by eapply reacts_deliver.
  - repeat (lazymatch goal with |- wp (if _ then _ else _) _ _ => wp_step end);
      solve [apply RTT_reacts | apply wp_calm; life_auto].
Qed.

Lemma validate_reacts rand now pkt iface l :
  wp (validateLinkProofLocked rand now pkt iface) (λ _ l', reacts pkt l l') l.
Proof.
  eapply wp_mono; [apply validate_wp|]. cbn.
  intros _ l' [E|[E|E]]; [by apply reacts_none|by apply reacts_close|by apply reacts_proof].
Qed.

(** The bookkeeping before the dispatch. *)
Definition awake (l l1 : Link) : Prop :=
  (initiator l1, destination l1, prv l1, linkID l1, mode l1) = (initiator l, destination l, prv l, linkID l, mode l)
  ∧ (life l1 = life l ∨ (st l = StatusStale ∧ life l1 = life (set_st StatusActive l))).

Lemma beginInbound_wp now isData l :
  wp (beginInbound now isData) (λ r l1, match r with
    | Ok true => st l ≠ StatusClosed ∧ awake l l1 | Ok false => st l = StatusClosed ∧ l1 = l | _ => False end) l.
Proof.
  unfold beginInbound. repeat wp_step.
  - apply bool_decide_eq_true in Heqb. done.
  - apply bool_decide_eq_true in Heqb0. unfold promoteToActive. wp_step. wp_step.
    change (st (recordInbound now isData l)) with (st l). rewrite Heqb0. repeat wp_step. split; [done|].
    set (l1 := set_st StatusActive (recordInbound now isData l)). split.
    + unfold releaseOutboundEstablish. by repeat case_match.
    + right. split; [done|]. rewrite life_release. reflexivity.
  - apply bool_decide_eq_false in Heqb. split; [done|]. split; [done|]. by left.
Qed.

Lemma processInbound_wp rand now pkt l :
  wp (processInbound rand now pkt) (λ _ l',
    l' = l ∧ st l = StatusClosed ∨ ∃ l1, st l ≠ StatusClosed ∧ awake l l1 ∧ reacts pkt l1 l') l.
Proof.
  unfold processInbound. cbv zeta.
  repeat (lazymatch goal with |- wp (if _ then _ else _) _ _ => wp_step end);
    (apply wp_bind; eapply wp_mono; [apply beginInbound_wp|]);
    (intros [[]|e|] l1; [|by intros [? ->]; left|done..]); intros [Hst Ha]; cbn [ends negb]; right; cbv iota;
    exists l1; (split; [exact Hst|]); (split; [exact Ha|]).
  - apply handleData_wp. by apply bool_decide_eq_true in Heqb.
  - apply reacts_none. by apply life_emit.
  - apply RTT_reacts.
  - case_match; [|by apply reacts_none]. apply validate_reacts.
Qed.

(** *** The watchdog *)

Lemma activeTick_wp now l :
  wp (watchdogActiveTick now) (λ _ l', life l' = life l ∨ life l' = life (set_st StatusStale l)) l.
Proof.
  unfold watchdogActiveTick. wp_step. cbv zeta. apply wp_bind.
  eapply (wp_keeps _ (steady (life l))); [life_auto|done|].
  intros [[]|e|] l1 E; cbn [ends]; [|by left..].
  repeat wp_step; [right|by left..]. by apply set_st_life.
Qed.

Lemma tick_wp rand now l :
  wp (watchdogTick rand now) (λ _ l',
    calm l l' ∨ (st l = StatusActive ∧ life l' = life (set_st StatusStale l))) l.
Proof.
  unfold watchdogTick. wp_step. apply wp_bind.
  eapply (wp_mono _ (λ _ l', calm l l' ∨ (st l = StatusActive ∧ life l' = life (set_st StatusStale l))));
    [|by intros [] l' Hl'].
  destruct (st l) eqn:Hst; try (apply (wp_keeps _ (calm l)); [solve [life_auto]|apply calm_refl|by left]).
  eapply wp_mono; [apply activeTick_wp|]. cbn. intros _ l' [E|E]; [left; by left|by right].
Qed.

(** *** The invariant of histories *)

#[local] Instance inv_tame b : Tame (inv b).
Proof.
  split; [|intros l l' _ E _; unfold inv, keyed, closable; by rewrite E].
  unfold inv, keyed, closable, hasSessionKeys. intros l l' [=] HI.
  by repeat match goal with H : ?f l' = ?f l |- _ => rewrite H; clear H end.
Qed.

Lemma startWatchdog_inv b l : inv b l → inv b (startWatchdog l).
Proof.
  intros [HK HC]. unfold startWatchdog. destruct (watchdogActive l); [done|]. split; [done|]. intros Hb Hst.
  by destruct (HC Hb Hst).
Qed.

Lemma splitDerivedKey_keys k l : 32 <= len k → hasSessionKeys (splitDerivedKey k l) = true.
Proof.
  intros Hk. unfold splitDerivedKey. destruct (64 <=? len k); [done|]. by rewrite (proj2 (Z.leb_le 32 _)).
Qed.

Lemma refresh_keys l : hasSessionKeys (refreshAESBlockLocked l) = hasSessionKeys l.
Proof. unfold refreshAESBlockLocked, hasSessionKeys. repeat case_match; by simplify_eq/=. Qed.

(** What the session keys leave. *)
Lemma keyed_by_rest k l :
  linkDone (keyed_by k l) = linkDone l ∧ watchdogDone (keyed_by k l) = watchdogDone l
  ∧ received (keyed_by k l) = received l.
Proof. unfold keyed_by, refreshAESBlockLocked, splitDerivedKey. repeat case_match; done. Qed.

Lemma keyed_by_inv b k l : 32 <= len k → inv b l → st l ≠ StatusClosed → inv b (keyed_by k l).
Proof.
  intros Hk [HK HC] Hst. split.
  - pose proof (splitDerivedKey_keys k l Hk) as E. rewrite <- refresh_keys in E. exact E.
  - intros Hb _. destruct (HC Hb Hst) as [E1 E2], (keyed_by_rest k l) as (F1 & F2 & _).
    rewrite F1, F2. done.
Qed.

(** A status change that needs keys. *)
Lemma status_inv b v l :
  inv b l → st l ≠ StatusClosed → hasSessionKeys l = true → v = StatusActive ∨ v = StatusStale → inv b (set_st v l).
Proof. intros [HK HC] Hst Hk Hv. split; [by destruct Hv as [-> | ->]|]. intros Hb _. by apply HC. Qed.

Lemma inv_keys b l : inv b l → st l = StatusHandshake ∨ st l = StatusActive ∨ st l = StatusStale → hasSessionKeys l = true.
Proof. intros [HK _] [E|[E|E]]; unfold keyed in HK; by rewrite E in HK. Qed.

Lemma activated_inv b pkt l l' : activated pkt l l' → inv b l → inv b l'.
Proof.
  intros (_ & Hst & peer & k & l1 & _ & (_ & _ & _ & _ & _ & Hk) & E1 & E) HI.
  assert (H1' : inv b l1) by (by eapply life_prop).
  assert (Hs1 : st l1 ≠ StatusClosed) by (rewrite (life_st _ _ E1); by destruct Hst as [-> | ->]).
  eapply life_prop; [exact E|]. pose proof (keyed_by_inv b k l1 Hk H1' Hs1) as HK.
  apply status_inv; [done|done|by eapply inv_keys; [|left]|by left].
Qed.

Lemma reacts_inv b pkt l l' : reacts pkt l l' → inv b l → inv b l'.
Proof.
  intros HR HI. destruct HR as [E|[F1 F2]|HA|payload r Hi Hst Hd Hr E|data _ _ Hk Hd E].
  - by eapply life_prop.
  - by eapply tame_close.
  - by eapply activated_inv.
  - eapply life_prop; [exact E|]. apply status_inv; [done|by rewrite Hst|by eapply inv_keys; [|left]|by left].
  - eapply life_prop; [exact E|]. unfold deliverOrQueuePlainPacket. by case_match.
Qed.

Lemma awake_inv b l l1 : awake l l1 → inv b l → inv b l1.
Proof.
  intros [_ [E|[Hst E]]] HI; (eapply life_prop; [exact E|]); [done|].
  apply status_inv; [done|by rewrite Hst|by eapply inv_keys; [|right; right]|by left].
Qed.

Lemma st_reset l : st (resetForReconnectLocked l) = StatusPending.
Proof.
  unfold resetForReconnectLocked. cbv zeta. set (l1 := set_teardownReason _ _).
  transitivity (st (unregister l1)); [reflexivity|]. rewrite (life_st _ _ (life_unregister l1)). reflexivity.
Qed.

Lemma Reestablish_inv x s now : keeps (inv true) (Reestablish x s now).
Proof.
  assert (Hr : ∀ l, inv true (resetForReconnectLocked l)) by (intros l; split; [unfold keyed; by rewrite st_reset|done]).
  unfold Reestablish. keeps_auto; try by apply Hr. all: by apply Establish_tame; [apply _|apply startWatchdog_inv].
Qed.

Definition reestablishes (o : op) : bool := match o with OpReestablish _ _ _ => true | _ => false end.

Lemma tick_keeps I `{!Tame I} rand now :
  (∀ l, I l → st l = StatusActive → I (set_st StatusStale l)) → keeps I (watchdogTick rand now ;; mret ()).
Proof.
  intros Hs. apply keeps_bind; [|intros; apply keeps_ret]. intros l HI.
  destruct (tick_wp rand now l) as [[E|[F1 F2]]|[Hst E]]; [by eapply life_prop|by eapply tame_close|].
  eapply life_prop; [exact E|]. by apply Hs.
Qed.

Lemma step_inv b o l : (b = false → reestablishes o = false) → inv b l → inv b (step o l).1.
Proof.
  intros Hb HI. destruct (beside o) eqn:Ho.
  { by apply (keeps_life (inv b)); [intros; apply step_beside|]. }
  destruct o; try discriminate Ho; cbn [step].
  - by apply Establish_tame; [apply _|apply startWatchdog_inv|].
  - destruct b; [by apply Reestablish_inv|by specialize (Hb eq_refl)].
  - by apply Teardown_tame; [apply _|].
  - unfold ValidateLinkProof. apply (keeps_bind (inv b)); [apply keeps_guard| |done]. intros _ l1 H1'.
    by eapply reacts_inv; [apply validate_reacts|].
  - pose proof (processInbound_wp rand now pkt l) as [[E _]|(l1 & _ & Ha & Hr)]; [by rewrite E|].
    by eapply reacts_inv, awake_inv.
  - unfold SetPacketCallback. cbn. by case_match.
  - apply (tick_keeps (inv b)); [|done]. intros l1 HI1 Hst.
    apply status_inv; [done|by rewrite Hst|by eapply inv_keys; [|right; left]|by right].
  - cbn. unfold watchdogExit. by case_match.
  - apply (keeps_bind (inv b)); [apply maintain_tame, _|intros; apply keeps_ret|done].
Qed.

(** *** How a link begins *)

Definition fresh (l : Link) : Prop := inv false l ∧ received l = (false, [], []).

#[local] Instance fresh_life : LifeProp fresh.
Proof. intros l l' E [HI Hr]. split; [by eapply life_prop|by rewrite (life_received _ _ E)]. Qed.

Definition fresh_pending (l : Link) : Prop := fresh l ∧ st l = StatusPending.
#[local] Instance fresh_pending_life : LifeProp fresh_pending.
Proof. intros l l' E [HI Hst]. split; [by eapply life_prop|by rewrite (life_st _ _ E)]. Qed.

Lemma bindOwner_steady c owner : keeps (steady c) (bindOwnerSigningKeys owner).
Proof. unfold bindOwnerSigningKeys. steady. Qed.
Lemma GenerateLinkProof_steady c owner : keeps (steady c) (GenerateLinkProof owner).
Proof. unfold GenerateLinkProof. steady. Qed.
#[local] Hint Resolve bindOwner_steady GenerateLinkProof_steady : keeps.
Lemma sendLinkProof_steady c owner : keeps (steady c) (sendLinkProof owner).
Proof. unfold sendLinkProof. steady. Qed.
#[local] Hint Resolve sendLinkProof_steady : keeps.

Lemma handshake_fresh {A} (k : () → M A) :
  (∀ c, c.1.1.1 = StatusHandshake → keeps (steady c) (k ())) →
  ∀ l, fresh_pending l → fresh ((performHandshakeLocked ≫= k) l).1.
Proof.
  intros Hk l [Hf Hst]. apply (wp_bind _ _ (λ _, fresh)). eapply wp_mono; [apply performHandshake_wp|].
  intros [[]|e|] l'; cbn [ends]; [|by intros ->..]. intros (key & (_ & _ & _ & _ & _ & Hlen) & ->).
  change (fresh (k () (keyed_by key l)).1). eapply life_prop; [by apply (Hk (life (keyed_by key l)))|]. destruct Hf as [HI Hr]. split.
  - apply keyed_by_inv; [done..|by rewrite Hst].
  - rewrite <- Hr. apply keyed_by_rest.
Qed.

Lemma wp_steady {A B} I J `{!LifeProp I} (m : M A) (k : A → M B) l :
  (∀ c, keeps (steady c) m) → (∀ l, I l → J l) → (∀ a l', I l' → wp (k a) (λ _, J) l') → I l →
  wp (m ≫= k) (λ _, J) l.
Proof.
  intros Hm HJ Hk Hl. apply wp_bind. apply (wp_keeps _ I); [by apply keeps_life|done|].
  intros [a|e|] l' Hl'; [by apply Hk|by apply HJ..].
Qed.

Lemma request_fresh x s now pkt owner l :
  fresh_pending l → fresh (HandleLinkRequest x s now pkt owner l).1.
Proof.
  intros Hl. change (wp (HandleLinkRequest x s now pkt owner) (λ _, fresh) l). unfold HandleLinkRequest.
  assert (HR : ∀ l1, life l1 = life l → fresh l1) by (intros l1 E; apply (life_prop l l1 E), Hl).
  repeat wp_step; try (by apply HR).
  all: eapply (wp_steady fresh_pending fresh);
    [intros; apply generateEphemeralKeys_steady|by intros ? []| |by eapply life_prop; [|exact Hl]].
  all: intros [] l1 H1'; eapply (wp_steady fresh_pending fresh);
    [intros; apply bindOwner_steady|by intros ? []| |exact H1'].
  all: clear l1 H1'; intros [] l1 H1'; apply handshake_fresh; [|exact H1']; clear; intros c Hc; cbv beta zeta;
    apply keeps_bind; [life_auto|intros _]; apply keeps_bind; [|intros _; life_auto].
  all: apply keeps_modify; unfold steady; intros l <-; unfold life in *; cbn in Hc; by rewrite Hc.
Qed.

Lemma born_fresh l : born l → fresh l.
Proof.
  intros [dest iface cb|x s now pkt dest iface cb l' HR]; [done|]. unfold HandleIncomingLinkRequest in HR.
  destruct (negb admitHandshake); [done|]. destruct (d_identity dest) as [owner|]; [|done].
  pose proof (request_fresh x s now pkt owner (NewLink (Some dest) iface cb)) as HF.
  unfold mbind, goM_bind in HR. destruct (HandleLinkRequest _ _ _ _ _ _) as [l1 [[]|e|]]; [|done..].
  injection HR as <-. cbn in HF. destruct HF as [HI Hr]; [done|]. split; [by apply startWatchdog_inv|].
  rewrite <- Hr. unfold startWatchdog. by case_match.
Qed.

(** ** What holds along every history *)

Lemma inv_weaken b l : inv false l → inv b l.
Proof. intros [HK HC]. split; [done|]. intros _. by apply HC. Qed.

Lemma existsb_absent {A} (f : A → bool) x xs : x ∈ xs → existsb f xs = false → f x = false.
Proof.
  intros Hx Hf. apply not_true_is_false. intros Ht. apply (not_false_iff_true (existsb f xs)); [|done].
  apply existsb_exists. exists x. by split; [apply list_elem_of_In|].
Qed.

(** C9.  In every history of a link, made by the initiator or for an incoming
    request, a link that is in the handshake, active or stale has its session
    keys, and as long as it was not re-established a link that is not closed
    can be closed: neither of the channels that closing closes is closed. *)
Theorem link_history_invariant os l0 l :
  born l0 → run os l0 = Some l →
  keyed l ∧ (existsb reestablishes os = false → closable l).
Proof.
  intros Hb HR. apply (run_invariant (inv (existsb reestablishes os)) os l0 l); [|by apply inv_weaken, born_fresh|done].
  intros o s Ho HI. apply step_inv; [|done]. by apply existsb_absent.
Qed.

(** The packets and proofs sent. *)
Definition sent (l : Link) : list effect :=
  omap (λ e, match e with SendPacket _ | IfaceSend _ => Some e | _ => None end) (effects l).

(** The senders that do not look at the status of the link. *)
Definition unguarded (o : op) : bool :=
  match o with OpResend _ | OpAnswer _ _ _ _ _ | OpResourceProof _ _ => true | _ => false end.

Lemma sent_send p l : sent (emit (SendPacket p) l) = sent l ++ [SendPacket p].
Proof. unfold sent. cbn [effects emit]. by rewrite omap_app. Qed.

(** At most one packet more. *)
Definition sends_one (l l' : Link) : Prop := sent l' = sent l ∨ ∃ p, sent l' = sent l ++ [SendPacket p].

Lemma send_one p l0 l :
  st l = st l0 → sent l = sent l0 → wp (send p) (λ _ l', st l' = st l0 ∧ sends_one l0 l') l.
Proof.
  intros Hst Hs. unfold send. wp_step.
  apply (wp_keeps _ (λ l', st l' = st l0 ∧ sends_one l0 l')); [apply keeps_guard| |done].
  split; [done|]. right. exists p. by rewrite sent_send, Hs.
Qed.

Lemma sendLinkPacket_one f ptype ctx data l :
  (∀ l, sent (f l) = sent l ∧ st (f l) = st l) →
  wp (sendLinkPacket f ptype ctx data) (λ _ l', st l' = st l ∧ sends_one l l') l.
Proof.
  intros Hf. unfold sendLinkPacket, packed. repeat wp_step; try (split; [done|by left]).
  destruct (Hf l). by apply send_one.
Qed.

(** What the unguarded senders do, on any link. *)
Lemma unguarded_sends o l :
  unguarded o = true → wp (step o) (λ _ l', st l' = st l ∧ sends_one l l') l.
Proof.
  intros Ho. destruct o; try discriminate Ho; cbn [step].
  - unfold Resend. destruct pkt as [p|]; [by apply send_one|]. repeat wp_step. split; [done|by left].
  - unfold sendSealed. repeat wp_step; try (split; [done|by left]). apply sendLinkPacket_one. by destruct isData.
  - by apply sendLinkPacket_one.
Qed.

(** C11.  A closed link stays closed: whatever is done to it short of
    re-establishing it, and whatever arrives for it, its status stays closed.
    And it is silent: no operation sends a packet on it, three apart that do
    not look at the status, [Resend] of an earlier packet and the last steps of
    the handlers of requests and resources (a handler that is still running
    when the link is closed), each of which sends at most one packet. *)
Theorem closed_link_is_final o l l' r :
  st l = StatusClosed → reestablishes o = false → step o l = (l', r) →
  st l' = StatusClosed
  ∧ (unguarded o = false → sent l' = sent l)
  ∧ (unguarded o = true → sent l' = sent l ∨ ∃ p, sent l' = sent l ++ [SendPacket p]).
Proof.
  intros Hst Ho. destruct (unguarded o) eqn:Hu.
  { intros E. destruct (wp_intro _ _ _ _ _ (unguarded_sends o l Hu) E) as [-> Hs]. done. }
  intros E. cut (st l' = StatusClosed ∧ sent l' = sent l); [naive_solver|]. revert E.
  apply (wp_intro _ (λ _ l', st l' = StatusClosed ∧ sent l' = sent l)). clear l' r.
  destruct o; try discriminate Hu; cbn [step]; try done.
  - unfold Establish. do 2 wp_step; [|done]. by rewrite Hst in *.
  - unfold Teardown. do 2 wp_step; [done|]. by rewrite Hst in *.
  - unfold SendPacketWithContext. do 2 wp_step; [|done]. by rewrite Hst in *.
  - unfold Identify. do 2 wp_step; [|done]. unfold isActive in *. by rewrite Hst in *.
  - unfold ValidateLinkProof, validateLinkProofLocked. wp_step; [|done]. do 2 wp_step; [done|]. wp_step; [|done].
    by rewrite Hst in *.
  - destruct (processInbound_wp rand now pkt l) as [[E _]|(l1 & E & _)]; [unfold wp; by rewrite E|done].
  - unfold HandleInbound. by repeat wp_step.
  - unfold popInbound. by repeat wp_step.
  - unfold SetPacketCallback. wp_step. case_match; [|done]. split; [done|]. unfold sent. cbn [effects emit].
    by rewrite omap_app, app_nil_r.
  - unfold resendProofIfPending. by repeat wp_step; simplify_eq.
  - unfold watchdogTick. do 2 wp_step. rewrite Hst. by repeat wp_step.
  - unfold watchdogExit. wp_step. by case_match.
  - unfold Send, isActive. do 2 wp_step. rewrite Hst. by repeat wp_step.
  - unfold ProvePacket, isActive. wp_step. rewrite Hst. by repeat wp_step.
  - unfold maintainTick, isActive. do 2 wp_step. rewrite Hst. by repeat wp_step.
Qed.

(** ** Authenticity *)

(** The payload carries the session's HMAC and decrypts to [p]. *)
Definition sealed (data : bytes) (l : Link) (p : bytes) : Prop :=
  ∃ key mac body, sessionKeys l = Ok (key, mac) ∧ data = body ++ Crypto.ComputeHMAC mac body
    ∧ decryptWithKeys key mac data = Ok p.

Lemma decryptWithKeys_mac key mac data p :
  decryptWithKeys key mac data = Ok p → ∃ body, data = body ++ Crypto.ComputeHMAC mac body.
Proof.
  unfold decryptWithKeys. destruct (Z.ltb_spec (len data) (Crypto.BlockSize + Crypto.BlockSize + 32)) as [_|Hl]; [done|].
  unfold Crypto.BlockSize in Hl. rewrite (go_slice_Ok 0), (go_slice_Ok (len data - 32)) by lia. cbn.
  unfold Crypto.ValidateHMAC. destruct (bool_decide _) eqn:E; [|done]. apply bool_decide_eq_true in E. intros _.
  exists (slice 0 (len data - 32) data). rewrite <- E, slice_0, slice_to_end by lia.
  by rewrite take_drop.
Qed.

Lemma decrypt_sealed data l p : decrypt data l = Ok p → sealed data l p.
Proof.
  unfold decrypt. destruct (_ <? _); [done|]. destruct admitCrypto; [|done]. cbn [negb].
  destruct (sessionKeys l) as [[key mac]|e|] eqn:Hk; [|done..]. cbn. intros HD.
  destruct (decryptWithKeys_mac _ _ _ _ HD) as [body Hb]. by exists key, mac, body.
Qed.

Lemma awake_keys l l1 : awake l l1 → sessionKeys l1 = sessionKeys l.
Proof.
  intros [Er El].
  assert (Ek : (hmacKey l1, sessionKey l1, cipher l1) = (hmacKey l, sessionKey l, cipher l)).
  { destruct El as [E|[_ E]]; exact (f_equal (λ x, x.1.1.2) E). }
  injection Ek as E1 E2 E3. injection Er as _ _ _ _ E4.
  unfold sessionKeys, snapshotSessionKeysLocked. by rewrite E1, E2, E3, E4.
Qed.

Lemma awake_sealed l l1 data p : awake l l1 → sealed data l1 p → sealed data l p.
Proof. intros Ha. unfold sealed. by rewrite (awake_keys _ _ Ha). Qed.

Definition live (l : Link) : Prop := st l = StatusActive ∨ st l = StatusStale.
Definition idle (l : Link) : Prop := ¬ live l.
#[local] Instance idle_tame : Tame idle.
Proof.
  split; unfold idle, live; [intros l l' E; by rewrite (life_st _ _ E)|].
  intros l l' _ -> _ [?|?]; done.
Qed.

Definition arrives (o : op) (pkt : packet) : Prop :=
  match o with OpProof _ _ p _ | OpInbound _ _ p => p = pkt | _ => False end.

(** The session keys are the halves of [k]. *)
Definition holds_key (k : bytes) (l l' : Link) : Prop :=
  hmacKey l' = hmacKey (splitDerivedKey k l) ∧ sessionKey l' = sessionKey (splitDerivedKey k l).

Lemma keyed_by_holds k l l1 : 32 <= len k → holds_key k l (keyed_by k l1).
Proof.
  intros Hk. unfold holds_key, keyed_by, refreshAESBlockLocked, splitDerivedKey.
  destruct (64 <=? len k); [|rewrite (proj2 (Z.leb_le 32 _)) by done]; repeat case_match; done.
Qed.

Definition activation (pkt : packet) (l l' : Link) : Prop :=
  (initiator l = true ∧ ∃ peer k, proven pkt peer l ∧ session_of peer k l ∧ holds_key k l l')
  ∨ (initiator l = false ∧ ∃ payload, sealed (Packet.Data pkt) l payload).

Lemma awake_idle l l1 : awake l l1 → idle l → idle l1.
Proof.
  intros [_ [E|[Hst _]]] Hi; [by eapply life_prop|]. destruct Hi. by right.
Qed.

Lemma reacts_activation pkt l l' : reacts pkt l l' → idle l → live l' → activation pkt l l'.
Proof.
  intros HR Hi Hl. destruct HR as [E|[F1 F2]|(Hin & _ & peer & k & l1 & HP & HS & _ & E)|payload r Hin _ Hd _ _|data _ _ _ _ E].
  - destruct Hi. unfold live in *. by rewrite (life_st _ _ E) in Hl.
  - unfold live in Hl. rewrite F1 in Hl. by destruct Hl.
  - left. split; [done|]. exists peer, k. split_and!; [done..|]. pose proof HS as (_ & _ & _ & _ & _ & Hk).
    destruct (keyed_by_holds k l l1 Hk) as [K1 K2]. unfold holds_key. rewrite <- K1, <- K2.
    split; [exact (f_equal (λ x, x.1.1.2.1.1) E)|exact (f_equal (λ x, x.1.1.2.1.2) E)].
  - right. split; [done|]. exists payload. by apply decrypt_sealed.
  - destruct Hi. unfold live in *. rewrite (life_st _ _ E) in Hl. unfold deliverOrQueuePlainPacket in Hl. by case_match.
Qed.

Lemma holds_key_of k l l1 l' : 32 <= len k → holds_key k l1 l' → holds_key k l l'.
Proof.
  unfold holds_key. intros Hk [-> ->]. unfold splitDerivedKey.
  destruct (64 <=? len k); [done|]. by rewrite (proj2 (Z.leb_le 32 _)).
Qed.

(** What activates a link depends on its role, ids, keys and mode only. *)
Lemma awake_activation pkt l l1 l' : awake l l1 → activation pkt l1 l' → activation pkt l l'.
Proof.
  intros Ha [(Hi & peer & k & HP & HS & HK)|(Hi & p & Hp)]; pose proof Ha as [[= E1 E2 E3 E4 E5] _].
  - left. split; [congruence|]. exists peer, k. split_and!.
    + unfold proven in *. by rewrite <- E2, <- E4.
    + unfold session_of in *. by rewrite <- E3, <- E4.
    + destruct HS as (_ & _ & _ & _ & _ & Hk). by eapply holds_key_of.
  - right. split; [congruence|]. exists p. by eapply awake_sealed.
Qed.

Lemma startWatchdog_idle l : idle l → idle (startWatchdog l).
Proof. unfold idle, live, startWatchdog. by case_match. Qed.

Lemma Reestablish_idle x s now : keeps idle (Reestablish x s now).
Proof.
  assert (Hr : ∀ l, idle (resetForReconnectLocked l)) by (intros l; unfold idle, live; rewrite st_reset; naive_solver).
  unfold Reestablish. keeps_auto; try by apply Hr. all: by apply Establish_tame; [apply _|apply startWatchdog_idle].
Qed.

(** The other operations on an idle link. *)
Lemma idle_step o : (∀ pkt, ¬ arrives o pkt) → keeps idle (step o).
Proof.
  intros Ha. destruct (beside o) eqn:Ho.
  { apply (keeps_life idle). intros; by apply step_beside. }
  destruct o; try discriminate Ho; cbn [step]; try (by destruct (Ha pkt)).
  - apply Establish_tame; [apply _|apply startWatchdog_idle].
  - apply Reestablish_idle.
  - apply Teardown_tame, _.
  - apply keeps_modify. unfold SetPacketCallback, idle, live. intros s. by case_match.
  - apply (tick_keeps idle). intros l Hi Hst. destruct Hi. by left.
  - apply keeps_modify. unfold watchdogExit, idle, live. intros s. by case_match.
  - apply keeps_bind; [apply maintain_tame, _|intros; apply keeps_ret].
Qed.

Lemma idle_arrival o pkt l l' r :
  arrives o pkt → step o l = (l', r) → idle l → live l' → activation pkt l l'.
Proof.
  intros Ha HR Hi Hl. destruct o; try done; cbn in Ha; subst pkt0; cbn [step] in HR.
  - revert HR. unfold ValidateLinkProof. destruct admitHandshake; [|intros [= <- _]; done]. intros HR.
    eapply (reacts_activation pkt l l'); [|done..].
    exact (wp_intro _ _ _ _ _ (validate_reacts rand now pkt iface l) HR).
  - destruct (wp_intro _ _ _ _ _ (processInbound_wp rand now pkt l) HR) as [[-> _]|(l1 & _ & Hw & Hr)]; [done|].
    eapply awake_activation; [exact Hw|]. eapply reacts_activation; [exact Hr| |done]. by eapply awake_idle.
Qed.

Lemma reacts_not_stale pkt l l' : reacts pkt l l' → st l ≠ StatusStale → st l' ≠ StatusStale.
Proof.
  intros HR Hs. destruct HR as [E|[F1 F2]|(_ & _ & _ & k & l1 & _ & _ & _ & E)|payload r _ _ _ _ E|data _ _ _ _ E];
    rewrite ?(life_st _ _ E); try done; [by rewrite F1|]. unfold deliverOrQueuePlainPacket. by case_match.
Qed.

Lemma idle_not_stale o l : idle l → st (step o l).1 ≠ StatusStale.
Proof.
  intros Hi. assert (Hs : st l ≠ StatusStale) by (intros E; apply Hi; by right).
  assert (Hdec : (∀ pkt, ¬ arrives o pkt) → st (step o l).1 ≠ StatusStale).
  { intros Hn E. apply (idle_step o Hn l Hi). by right. }
  destruct o; try (apply Hdec; by intros ? []); cbn [step].
  - unfold ValidateLinkProof. destruct admitHandshake; [|done]. eapply reacts_not_stale; [apply validate_reacts|done].
  - destruct (processInbound_wp rand now pkt l) as [[E _]|(l1 & _ & Ha & Hr)]; [by rewrite E|].
    eapply reacts_not_stale; [exact Hr|]. destruct Ha as [_ [E|[Hst _]]]; [by rewrite (life_st _ _ E)|done].
Qed.

Lemma idle_activation o l l' r :
  step o l = (l', r) → idle l → live l' → ∃ pkt, arrives o pkt ∧ activation pkt l l'.
Proof.
  intros HR Hi Hl.
  assert (Hdec : (∃ pkt, arrives o pkt) ∨ ∀ pkt, ¬ arrives o pkt).
  { destruct o; try (right; intros ? []; fail); left; by eexists. }
  destruct Hdec as [[pkt Ha]|Hn].
  - exists pkt. split; [done|]. by eapply idle_arrival.
  - destruct (idle_step o Hn l Hi). by rewrite HR.
Qed.

(** The status and the session of an established link, unless it is closed. *)
Definition settled (v : status) (l0 l : Link) : Prop :=
  st l = StatusClosed
  ∨ (st l, hmacKey l, sessionKey l, cipher l) = (v, hmacKey l0, sessionKey l0, cipher l0).
#[local] Instance settled_tame v l0 : Tame (settled v l0).
Proof.
  split; unfold settled; [|by left]. intros l l' E. rewrite (life_st _ _ E). injection E as _ -> -> -> _. done.
Qed.

Lemma reacts_settled pkt v l0 l l' :
  v = StatusActive ∨ v = StatusStale → settled v l0 l → reacts pkt l l' → settled v l0 l'.
Proof.
  intros Hv Hl HR. destruct HR as [E|[F1 F2]|(_ & Hst & _)|payload r Hi Hst _ _ _|data _ _ _ _ E].
  - by eapply life_prop.
  - by left.
  - destruct Hl as [Hl|[= Hl _ _ _]]; rewrite Hl in Hst; destruct Hv as [-> | ->]; by destruct Hst.
  - destruct Hl as [Hl|[= Hl _ _ _]]; rewrite Hl in Hst; by destruct Hv as [-> | ->].
  - eapply life_prop; [exact E|]. unfold deliverOrQueuePlainPacket. by case_match.
Qed.

Lemma Establish_settled v l0 x s now : keeps (settled v l0) (Establish x s now).
Proof. apply Establish_tame; [apply _|]. intros l. unfold settled, startWatchdog. by case_match. Qed.

Lemma Reestablish_settled x s now v l :
  settled v l l → settled v l (Reestablish x s now l).1 ∨ idle (Reestablish x s now l).1.
Proof.
  intros Hl. change (wp (Reestablish x s now) (λ _ l', settled v l l' ∨ idle l') l).
  assert (Hr : idle (resetForReconnectLocked l)) by (unfold idle, live; rewrite st_reset; naive_solver).
  unfold Reestablish. repeat wp_step; try (by left); right;
    (apply Establish_tame; [apply _|apply startWatchdog_idle|exact Hr]).
Qed.

(** What an operation does to an established link, by its status [v]. *)
Lemma established_step o l :
  live l →
  let l' := (step o l).1 in
  settled (st l) l l' ∨ idle l'
  ∨ (st l = StatusStale ∧ (∃ rand now pkt, o = OpInbound rand now pkt) ∧ settled StatusActive l l')
  ∨ (st l = StatusActive ∧ (∃ rand now, o = OpTick rand now) ∧ st l' = StatusStale).
Proof.
  intros Hl l'. subst l'. assert (H0' : settled (st l) l l) by (by right).
  assert (HK : ∀ m : M (), keeps (settled (st l) l) m → settled (st l) l (m l).1) by auto.
  assert (Hv : st l = StatusActive ∨ st l = StatusStale) by exact Hl.
  destruct (beside o) eqn:Ho; [left; apply HK, keeps_life; [apply _|intros; by apply step_beside]|].
  destruct o; try discriminate Ho; cbn [step].
  - left. apply HK, Establish_settled.
  - destruct (Reestablish_settled x s now (st l) l H0'); [by left|by right; left].
  - left. apply HK, Teardown_tame, _.
  - left. unfold ValidateLinkProof. apply (keeps_bind (settled (st l) l)); [apply keeps_guard| |done].
    intros _ l1 H1'. by eapply reacts_settled; [exact Hv|exact H1'|apply validate_reacts].
  - destruct (processInbound_wp rand now pkt l) as [[E _]|(l1 & _ & Ha & Hr)]; [rewrite E; by left|].
    destruct Ha as [_ [E|[Hst E]]].
    + left. eapply reacts_settled; [exact Hv| |exact Hr]. by eapply life_prop.
    + right; right; left. split_and!; [done|by eauto|]. eapply reacts_settled; [by left| |exact Hr].
      eapply life_prop; [exact E|]. by right.
  - left. apply HK, keeps_modify. intros s. unfold settled, SetPacketCallback. by case_match.
  - unfold mbind, goM_bind. pose proof (tick_wp rand now l) as HT. unfold wp in HT.
    destruct (watchdogTick rand now l) as [l1 r1]. cbn [fst snd] in HT.
    assert (E1 : (match r1 with Ok _ => (l1, Ok ()) | Err e => (l1, Err e) | Panic => (l1, Panic) end
      : Link * outcome link_error ()).1 = l1) by (by destruct r1).
    destruct HT as [[E|[F1 _]]|[Hst E]].
    + left. destruct r1; cbn [fst]; by eapply life_prop.
    + left. destruct r1; by left.
    + right; right; right. split_and!; [done|by eauto|]. transitivity (st l1); [by destruct r1|]. by rewrite (life_st _ _ E).
  - left. apply HK, keeps_modify. intros s. unfold settled, watchdogExit. by case_match.
  - left. apply HK, keeps_bind; [apply maintain_tame, _|intros; apply keeps_ret].
Qed.


(** Deliveries *)

Definition unheard (c : bool * bytes * list bytes) (l : Link) : Prop := received l = c.
#[local] Instance unheard_tame c : Tame (unheard c).
Proof.
  split; unfold unheard; [intros l l' E; by rewrite (life_received _ _ E)|by intros l l' <- _ ->].
Qed.

Lemma startWatchdog_unheard c l : unheard c l → unheard c (startWatchdog l).
Proof. unfold unheard, startWatchdog. by case_match. Qed.

Lemma reset_unheard c l : unheard c l → unheard c (resetForReconnectLocked l).
Proof.
  intros <-. unfold unheard, resetForReconnectLocked. cbv zeta. set (l1 := set_teardownReason _ _).
  transitivity (received (unregister l1)); [reflexivity|]. rewrite (life_received _ _ (life_unregister l1)). reflexivity.
Qed.

Lemma Reestablish_unheard c x s now : keeps (unheard c) (Reestablish x s now).
Proof.
  unfold Reestablish. keeps_auto; try by apply reset_unheard.
  all: by apply Establish_tame; [apply _|apply startWatchdog_unheard].
Qed.

(** The packet is a plain data packet sealed under the session. *)
Definition plain_sealed (pkt : packet) (l : Link) (data : bytes) : Prop :=
  Packet.PacketType pkt = Packet.PacketTypeData ∧ Packet.Context pkt = Packet.ContextNone
  ∧ sealed (Packet.Data pkt) l data.

(** What the application is given: what it had, its pending payload, or the
    payload of the packet. *)
Definition heard (o : op) (l l' : Link) : Prop :=
  ∀ data, data ∈ deliveries l' ∨ (data = pendingPlainData l' ∧ data ≠ []) →
    data ∈ deliveries l ∨ (data = pendingPlainData l ∧ data ≠ [])
    ∨ ∃ rand now pkt, o = OpInbound rand now pkt ∧ plain_sealed pkt l data.

Lemma unheard_heard o l l' : received l' = received l → heard o l l'.
Proof. intros [= _ E1 E2] d. rewrite E1, E2. tauto. Qed.

Lemma deliver_received data l :
  received (deliverOrQueuePlainPacket data l) =
    if packetCallback l then (true, pendingPlainData l, deliveries l ++ [data]) else (false, data, deliveries l).
Proof.
  unfold deliverOrQueuePlainPacket, received. destruct (packetCallback l) eqn:E; [|done].
  rewrite deliveries_emit. cbn. by rewrite E.
Qed.

Lemma reacts_heard rand now pkt l l1 l' : awake l l1 → reacts pkt l1 l' → heard (OpInbound rand now pkt) l l'.
Proof.
  intros Ha HR. assert (E1 : received l1 = received l).
  { destruct Ha as [_ [E|[_ E]]]; exact (f_equal snd E). }
  destruct HR as [E|[F1 F2]|(_ & _ & peer & k & l2 & _ & _ & E2 & E)|payload r _ _ _ _ E|data Hp Hc _ Hd E].
  1-4: apply unheard_heard; rewrite <- E1; try done; try apply (life_received _ _ E).
  - rewrite (life_received _ _ E), <- (life_received _ _ E2). apply keyed_by_rest.
  - assert (HP : ∃ rand0 now0 pkt0, OpInbound rand now pkt = OpInbound rand0 now0 pkt0 ∧ plain_sealed pkt0 l data).
    { exists rand, now, pkt. split; [done|]. split_and!; [done..|]. eapply awake_sealed, decrypt_sealed; done. }
    pose proof (life_received _ _ E) as Er. rewrite deliver_received in Er. injection E1 as E3 E4 E5.
    intros d. destruct (packetCallback l1); injection Er as _ -> ->; rewrite ?E4, ?E5, ?elem_of_app, ?list_elem_of_singleton;
      intros; destruct_or!; destruct_and?; subst; tauto.
Qed.

Lemma step_heard o l : heard o l (step o l).1.
Proof.
  assert (HK : ∀ m : M (), keeps (unheard (received l)) m → heard o l (m l).1).
  { intros m Hm. by apply unheard_heard, Hm. }
  destruct (beside o) eqn:Ho; [apply HK, keeps_life; [apply _|intros; by apply step_beside]|].
  destruct o; try discriminate Ho; cbn [step]; [apply HK|apply HK|apply HK| | | |apply HK..].
  - apply Establish_tame; [apply _|apply startWatchdog_unheard].
  - apply Reestablish_unheard.
  - apply Teardown_tame, _.
  - apply unheard_heard. unfold ValidateLinkProof. destruct admitHandshake; [|done].
    destruct (validate_wp rand now pkt iface l) as [E|[[_ E]|(_ & _ & _ & k & l2 & _ & _ & E2 & E)]];
      [by apply life_received|exact E|].
    pose proof (life_received _ _ E) as E'. transitivity (received (keyed_by k l2)); [exact E'|].
    rewrite <- (life_received _ _ E2). apply keyed_by_rest.
  - destruct (processInbound_wp rand now pkt l) as [[E _]|(l1 & _ & Ha & Hr)]; [rewrite E; by apply unheard_heard|].
    by eapply reacts_heard.
  - cbn. intros d. unfold SetPacketCallback. case_match; [|cbn; tauto]. rewrite deliveries_emit.
    cbn [pendingPlainData emit set_plain deliveries]. rewrite elem_of_app, list_elem_of_singleton.
    apply andb_true_iff in H2 as [_ Hl%Z.ltb_lt]. intros [[Hd| ->]|[-> ?]]; [by left| |done].
    right; left. split; [done|]. intros E. by rewrite E in Hl.
  - by apply tick_keeps; [apply _|].
  - apply keeps_modify. unfold watchdogExit, unheard. intros s. by case_match.
  - apply keeps_bind; [apply maintain_tame, _|intros; apply keeps_ret].
Qed.

(** C5.  Nothing unauthenticated reaches the application: along every history of
    a link, each payload delivered to the packet callback, or kept for it, came
    in a plain data packet whose payload carried the HMAC of the session keys
    the link had when the packet arrived, and is its decryption under those
    keys.  Requests, resources and channel messages have handlers of their own. *)
Theorem link_delivery_authentic os l0 l data :
  born l0 → run os l0 = Some l → data ∈ deliveries l ∨ (data = pendingPlainData l ∧ data ≠ []) →
  ∃ pre rand now pkt post l1,
    os = pre ++ OpInbound rand now pkt :: post ∧ run pre l0 = Some l1 ∧ plain_sealed pkt l1 data.
Proof.
  intros Hb. revert l data. induction os as [|o os IH] using rev_ind; intros l data HR Hd.
  - injection HR as <-. destruct (born_fresh l0 Hb) as [_ [= _ E1 E2]]. rewrite E1, E2 in Hd.
    destruct Hd as [Hd%not_elem_of_nil|[? ?]]; done.
  - rewrite run_app in HR. destruct (run os l0) as [l1|] eqn:E1; [|done]. cbn in HR.
    assert (El : l = (step o l1).1) by (destruct (step o l1) as [l2 [[]|e|]]; [by simplify_eq/=..|]; destruct (recovers o); by simplify_eq/=). subst l.
    assert (HI : data ∈ deliveries l1 ∨ (data = pendingPlainData l1 ∧ data ≠ []) →
      ∃ pre rand now pkt post l2, os ++ [o] = pre ++ OpInbound rand now pkt :: post ∧ run pre l0 = Some l2
        ∧ plain_sealed pkt l2 data).
    { intros HD. destruct (IH l1 data eq_refl HD) as (pre & rand & now & pkt & post & l2 & -> & HR2 & HP).
      exists pre, rand, now, pkt, (post ++ [o]), l2. split; [by rewrite <- app_assoc|done]. }
    destruct (step_heard o l1 data Hd) as [HD|[HD|(rand & now & pkt & -> & HP)]]; [by apply HI; left|by apply HI; right|].
    by exists os, rand, now, pkt, [], l1.
Qed.

(** ** Where the code departs from what it means to do *)

Definition done_is (v : doneChan) (l : Link) : Prop := linkDone l = v.
#[local] Instance done_is_life v : LifeProp (done_is v).
Proof. unfold done_is. intros l l' E <-. exact (f_equal (λ x, x.1.2.1) E). Qed.

Lemma wp_pending {A B} I (m : M A) (k : A → M B) (Q : outcome link_error B → Link → Prop) l :
  keeps I m → I l → (∀ e l, Q (Err e) l) ∧ (∀ l, Q Panic l) → (∀ a l, I l → wp (k a) Q l) → wp (m ≫= k) Q l.
Proof.
  intros Hm Hl [HE HP] Hk. apply wp_bind, (wp_keeps _ _ _ _ Hm Hl). intros [a|e|] l' Hl'; cbn; auto.
Qed.

Lemma Establish_ok v x s now l :
  done_is v l →
  wp (Establish x s now) (λ r l', r = Ok () → done_is v l' ∧ st l' = StatusPending) l.
Proof.
  intros Hl. unfold Establish. repeat wp_step; try done.
  match goal with E : bool_decide (st l = _) = true |- _ => apply bool_decide_eq_true in E as Hst end.
  apply wp_bind. eapply (wp_keeps _ (pending (done_is v)));
    [apply attempt_keeps, prepare_tame, _|apply (request_pending _); [exact Hl|exact Hst]|].
  intros [[[]|e|]|e|] l1 HP; cbn [ends]; [|by repeat wp_step|done..].
  do 2 wp_step.
  eapply (wp_pending (pending (done_is v))); [life_auto|by eapply life_prop; [by apply life_emit|]|done|].
  intros _ l2 HP2. eapply (wp_pending (pending (done_is v)));
    [apply keeps_life; [apply _|intros; apply registerLinkPath_steady]|exact HP2|done|].
  intros _ l3 HP3. apply wp_bind. eapply (wp_keeps _ (pending (done_is v)));
    [apply attempt_keeps, keeps_life; [apply _|intros; apply sendPrepared_steady]|exact HP3|].
  intros [[[]|e|]|e|] l4 HP4; cbn [ends]; [|by repeat wp_step..|done|done].
  wp_step. intros _. unfold startWatchdog. by case_match.
Qed.

Lemma closeOnce_done r l :
  st l ≠ StatusClosed → linkDone l = OpenChan →
  wp (closeOnce r) (λ o l', ∀ c, o = Ok c → c = true ∧ done_is ClosedChan l') l.
Proof.
  intros Hst Hl. unfold closeOnce. do 2 wp_step; [by apply bool_decide_eq_true in Heqb|]. repeat wp_step; try done.
  intros c [= <-]. split; [done|]. unfold done_is. rewrite Hl in *. by simplify_eq/=.
Qed.

Lemma Teardown_done rand now l :
  st l ≠ StatusClosed → linkDone l = OpenChan →
  wp (Teardown rand now) (λ r l', r = Ok () → done_is ClosedChan l') l.
Proof.
  intros Hst Hl. unfold Teardown. do 2 wp_step; [by apply bool_decide_eq_true in Heqb|]. apply wp_bind.
  eapply wp_mono; [by apply closeOnce_done|]. intros [c|e|] l' HC; cbn [ends]; [|done..].
  destruct (HC c eq_refl) as [-> Hd]. cbn [negb]. cbv iota.
  eapply (wp_keeps _ (done_is ClosedChan)); [life_auto|exact Hd|done].
Qed.

Lemma reset_done v l : done_is v l → done_is v (resetForReconnectLocked l).
Proof.
  intros <-. unfold done_is, resetForReconnectLocked. cbv zeta. set (l1 := set_teardownReason _ _).
  transitivity (linkDone (unregister l1)); [reflexivity|].
  apply (life_prop (I:=done_is (linkDone l1)) l1 (unregister l1)); [apply life_unregister|done].
Qed.

Lemma Reestablish_done v x s now l :
  done_is v l → wp (Reestablish x s now) (λ r l', r = Ok () → done_is v l' ∧ st l' = StatusPending) l.
Proof.
  intros Hl. unfold Reestablish. repeat wp_step; try done; by apply Establish_ok, reset_done.
Qed.

(** Closing a link whose [linkDone] is closed. *)
Lemma closeOnce_panics r l :
  st l ≠ StatusClosed → linkDone l = ClosedChan → (closeOnce r l).2 = Panic.
Proof.
  intros Hst Hl. change (wp (closeOnce r) (λ o _, o = Panic) l). unfold closeOnce. do 2 wp_step.
  { by apply bool_decide_eq_true in Heqb. }
  repeat wp_step; rewrite ?Hl in *; try done. by destruct (watchdogDone l).
Qed.

(** A link that was torn down and re-established cannot be closed again:
    [closeOnce] closes [linkDone], which re-establishing does not make anew, so
    the next teardown, by the application or by the watchdog, closes a closed
    channel and panics. *)
Theorem reestablished_link_close_panics l rand1 t1 l1 x s t2 l2 rand3 t3 reason path :
  st l ≠ StatusClosed → linkDone l = OpenChan →
  Teardown rand1 t1 l = (l1, Ok ()) → Reestablish x s t2 l1 = (l2, Ok ()) →
  (Teardown rand3 t3 l2).2 = Panic ∧ (finishWatchdogClose reason path l2).2 = Panic.
Proof.
  intros Hst Hl HT HR.
  pose proof (wp_intro _ _ _ _ _ (Teardown_done rand1 t1 l Hst Hl) HT eq_refl) as H1'.
  destruct (wp_intro _ _ _ _ _ (Reestablish_done _ x s t2 l1 H1') HR eq_refl) as [H2' Hs2].
  assert (HP : ∀ r, (closeOnce r l2).2 = Panic) by (intros r; apply closeOnce_panics; [by rewrite Hs2|done]).
  unfold Teardown, finishWatchdogClose, mbind, goM_bind, mget. rewrite Hs2.
  change (bool_decide (StatusPending = StatusClosed)) with false. cbv iota.
  split; [specialize (HP StatusClosed)|specialize (HP reason)]; by destruct (closeOnce _ l2) as [l3 [c|e|]].
Qed.

(** Whether the transport holds the establishment slot of a destination, which
    [TryBeginOutboundEstablish] refuses to give twice. *)
Definition slot_after (dest : bytes) (held : bool) (e : effect) : bool :=
  match e with
  | BeginOutboundEstablish d => bool_decide (d = dest) || held
  | EndOutboundEstablish d => negb (bool_decide (d = dest)) && held
  | _ => held
  end.
Definition slot (dest : bytes) (l : Link) : bool := foldl (slot_after dest) false (effects l).

Lemma slot_emit dest e l : slot dest (emit e l) = slot_after dest (slot dest l) e.
Proof. unfold slot. cbn [effects emit]. by rewrite foldl_app. Qed.

Definition holds_slot (dest : bytes) (l : Link) : Prop := slot dest l = true.

Lemma holds_slot_emit dest e l :
  match e with EndOutboundEstablish _ => False | _ => True end → holds_slot dest l → holds_slot dest (emit e l).
Proof. unfold holds_slot. rewrite slot_emit. intros He ->. destruct e; try done. cbn. apply orb_true_r. Qed.

Ltac slot_auto :=
  repeat first [keeps_step | lazymatch goal with |- keeps _ (attempt _) => apply attempt_keeps end];
  try match goal with H : holds_slot _ _ |- _ => first [exact H | by apply holds_slot_emit] end.

Lemma packed_slot d p : keeps (holds_slot d) (packed p).
Proof. unfold packed. slot_auto. Qed.
Lemma send_slot d p : keeps (holds_slot d) (send p).
Proof. unfold send. slot_auto. Qed.
#[local] Hint Resolve packed_slot send_slot : keeps.
Lemma sendTeardownPacket_slot d rand now : keeps (holds_slot d) (sendTeardownPacket rand now).
Proof. unfold sendTeardownPacket, sendLinkPacket. slot_auto. Qed.
Lemma closeOnce_slot d r : keeps (holds_slot d) (closeOnce r).
Proof. unfold closeOnce. slot_auto. Qed.
Lemma prepare_slot d x s now : keeps (holds_slot d) (prepareLinkRequestLocked x s now).
Proof. unfold prepareLinkRequestLocked, generateEphemeralKeys. slot_auto. Qed.
#[local] Hint Resolve sendTeardownPacket_slot closeOnce_slot prepare_slot : keeps.
Lemma Teardown_slot d rand now : keeps (holds_slot d) (Teardown rand now).
Proof. unfold Teardown. slot_auto. unfold unregister. case_match; [by apply holds_slot_emit|done]. Qed.

Lemma Establish_slot d x s now l :
  destination l = Some d →
  wp (Establish x s now) (λ r l', r = Ok () → holds_slot (d_hash d) l') l.
Proof.
  intros Hd. unfold Establish. repeat wp_step; try done. simplify_eq.
  eapply (wp_pending (holds_slot (d_hash d))); [apply attempt_keeps, prepare_slot| |done|].
  { unfold holds_slot. change (slot (d_hash d) (emit (BeginOutboundEstablish (d_hash d)) l) = true).
    rewrite slot_emit. cbn. by rewrite bool_decide_eq_true_2. }
  intros [[]|e|] l1 H1'; [|by repeat wp_step..].
  do 2 wp_step. apply (wp_pending (holds_slot (d_hash d))); [slot_auto|by apply holds_slot_emit|done|].
  intros _ l2 H2'. apply (wp_pending (holds_slot (d_hash d))); [unfold registerLinkPath; slot_auto|done|done|].
  intros _ l3 H3'.
  apply (wp_pending (holds_slot (d_hash d))); [unfold sendPreparedLinkRequest; slot_auto|done|done|].
  intros [[]|e|] l4 H4'; [|by repeat wp_step..].
  wp_step. intros _. unfold startWatchdog. by case_match.
Qed.

(** Tearing down a link that is still being established leaks its
    establishment slot: after a successful [Establish] and any [Teardown] before
    the proof arrives, the transport still counts the handshake as in flight, so
    every later link to that destination is refused as busy. *)
Theorem torn_down_link_keeps_slot d iface cb x s t0 l1 rand t1 l2 r :
  Establish x s t0 (NewLink (Some d) iface cb) = (l1, Ok ()) → Teardown rand t1 l1 = (l2, r) →
  st l1 = StatusPending ∧ slot (d_hash d) l2 = true.
Proof.
  intros HE HT.
  destruct (wp_intro _ _ _ _ _ (Establish_ok OpenChan x s t0 (NewLink (Some d) iface cb) eq_refl) HE eq_refl) as [_ Hst].
  split; [done|].
  pose proof (wp_intro _ _ _ _ _ (Establish_slot d x s t0 (NewLink (Some d) iface cb) eq_refl) HE eq_refl) as HS.
  pose proof (Teardown_slot (d_hash d) rand t1 l1 HS) as H2'. by rewrite HT in H2'.
Qed.

End life.

(** ** Concrete histories *)

#[local] Existing Instances X25519.additive Ed25519.hashScheme demo_env.

Lemma outcome_of {A B} (p : A * B) o : p.2 = o → p = (p.1, o).
Proof. intros <-. apply surjective_pairing. Qed.

Definition demo_new : Link := NewLink (Some demo_dest) None true.
Definition demo_establish : op := OpEstablish (Some (replicate 32 x03)) (Some (replicate 32 x04)) 1000.
Definition demo_pending : Link := (step demo_establish demo_new).1.

Lemma link_history_invariant_witness :
  let os := [demo_establish; OpCallback true; OpTeardown None 2000] in
  ∃ l, run os demo_new = Some l ∧ st l = StatusClosed ∧ keyed l ∧ closable l.
Proof.
  intros os.
  assert (HS : st <$> run os demo_new = Some StatusClosed) by (vm_compute; reflexivity).
  destruct (run os demo_new) as [l|] eqn:E; [|discriminate]. injection HS as HS. exists l.
  destruct (link_history_invariant os demo_new l (born_new _ _ _) E) as [HK HC]. split_and!; [done..|by apply HC].
Defined.

Lemma closed_link_is_final_witness :
  let l := set_st StatusClosed demo_pending in
  st (step (OpTeardown None 2000) l).1 = StatusClosed ∧ sent (step (OpTeardown None 2000) l).1 = sent l.
Proof.
  intros l. destruct (closed_link_is_final (OpTeardown None 2000) l (step (OpTeardown None 2000) l).1 (step (OpTeardown None 2000) l).2) as (H1 & H2 & _);
    [reflexivity..|apply surjective_pairing|]. split; [exact H1|by apply H2].
Defined.

(** A responder's link, its initiator's round-trip packet and a data packet. *)
Definition demo_packet (ctx : byte) (data : bytes) : packet :=
  let p := linkPacket Packet.PacketTypeData ctx DestTypeLink (replicate 16 x0c) data false in
  default p (HeaderRewrite.parse (Packet.raw (Packet.Pack p).1)).
Definition demo_request : packet :=
  let p := linkPacket Packet.PacketTypeLinkReq Packet.ContextNone x00 (replicate 16 x07)
             (X25519.addBytes (replicate 32 x03) (replicate 32 x09) ++ replicate 32 x04 ++ signallingBytes 500 ModeAES256CBC) false in
  (Packet.Pack p).1.
Definition demo_born : Link :=
  (HandleIncomingLinkRequest (Some (replicate 32 x06)) (Some (replicate 32 x08)) 2000 demo_request demo_dest
     (Some false) false).1.
Definition demo_seal (data : bytes) : bytes :=
  match encrypt (Some (replicate 16 x09)) data demo_born with Ok c => c | _ => [] end.
Definition demo_rtt : op := OpInbound None 3000 (demo_packet Packet.ContextLRRTT (demo_seal (rttMarshal (Float64.of_Z 0)))).
Definition demo_data : op := OpInbound None 4000 (demo_packet Packet.ContextNone (demo_seal [x68; x69])).


Lemma link_delivery_authentic_witness :
  let os := [OpCallback true; demo_rtt; demo_data] in
  ∃ l pre rand now pkt post l1, run os demo_born = Some l ∧ deliveries l = [[x68; x69]]
    ∧ os = pre ++ OpInbound rand now pkt :: post ∧ run pre demo_born = Some l1 ∧ plain_sealed pkt l1 [x68; x69].
Proof.
  intros os.
  assert (HS : deliveries <$> run os demo_born = Some [[x68; x69]]) by (vm_compute; reflexivity).
  assert (HB : born demo_born) by (eapply born_incoming, outcome_of; vm_compute; reflexivity).
  destruct (run os demo_born) as [l|] eqn:E; [|discriminate]. injection HS as HS.
  destruct (link_delivery_authentic os demo_born l [x68; x69] HB E) as (pre & rand & now & pkt & post & l1 & HD);
    [left; rewrite HS; by left|].
  exists l, pre, rand, now, pkt, post, l1. split; [exact eq_refl|]. split; [exact HS|exact HD].
Defined.

Lemma reestablished_link_close_panics_witness :
  let l1 := (Teardown None 2000 demo_pending).1 in
  let l2 := (Reestablish (Some (replicate 32 x0d)) (Some (replicate 32 x0e)) 3000 l1).1 in
  st l2 = StatusPending ∧ (Teardown None 4000 l2).2 = Panic.
Proof.
  intros l1 l2. split; [vm_compute; reflexivity|].
  refine (proj1 (reestablished_link_close_panics demo_pending None 2000 l1 (Some (replicate 32 x0d))
           (Some (replicate 32 x0e)) 3000 l2 None 4000 StatusFailed true _ _ (outcome_of _ _ _) (outcome_of _ _ _)));
    vm_compute; (discriminate || reflexivity).
Defined.

Lemma torn_down_link_keeps_slot_witness :
  slot (replicate 16 x07) demo_pending = true ∧ slot (replicate 16 x07) (Teardown None 2000 demo_pending).1 = true.
Proof.
  split; [vm_compute; reflexivity|].
  refine (proj2 (torn_down_link_keeps_slot demo_dest None true (Some (replicate 32 x03)) (Some (replicate 32 x04)) 1000
           demo_pending None 2000 _ _ (outcome_of _ _ _) (surjective_pairing _))).
  vm_compute. reflexivity.
Defined.

End Life.
