(* ===== verification/LinkEngine.v ===== *)
(** * Requests and resources on a link

    [pkg/link/request_receipt.go], [request_unpack.go], [request_timestamp.go],
    [link_resource.go] and [incoming_resource.go]: the handlers of a link for
    requests, responses and resource transfers, on top of the link as a carrier of
    packets ([Carrier], [CarrierLaws]).  Goroutines that a handler starts are
    recorded as tasks and are operations of their own, as are the removal of
    callbacks and whatever the link below does by itself. *)

From Stdlib Require Import Strings.String.
From stdpp Require Import pretty.
From S2P Require Import Prelude.
From S2P Require Import Sha256.
From S2P Require Import Float64.
From S2P Require Import Packet.
From S2P Require Import Rate.
From S2P Require Import Resource.
From S2P Require Import ResourceRx.
From S2P Require Import SplitResource.

Module Engine.
Module R := Resource.
Local Open Scope go_scope.

Definition MaxPendingRequests : Z := 8.
Definition MaxPendingResourceSends : Z := 8.
Definition MinRequestDataLen : Z := 3.
Definition MinResponseDataLen : Z := 2.
Definition RequestTimestampMaxSkewPast : Z := 300.
Definition RequestTimestampMaxSkewFuture : Z := 60.
Definition incomingResourceMaxStallRetries : Z := 16.
Definition AcceptNone : byte := x00.
Definition AcceptAll : byte := x01.
Definition AcceptApp : byte := x02.
Definition Second : Z := 1000000000.

(** ** The link below *)

(** What a transfer uses of its link: the session cipher, packets of the link
    with a context, and its end.  [io] is the moment and the random bytes of a
    packet. *)
Record IO := mkIO { io_now : Z; io_rand : option bytes }.

Class Carrier := {
  Lk : Type;
  c_active : Lk → bool;
  c_linkID : Lk → bytes;
  c_mtu : Lk → Z;
  c_mdu : Lk → Z;
  c_rtt : Lk → Float64.f64;
  c_encrypt : option bytes → bytes → Lk → option bytes;
  c_decrypt : bytes → Lk → option bytes;
  (** [SendPacketWithContext]; false is an error. *)
  c_send : IO → bytes → byte → Lk → Lk * bool;
  (** A packet of the link with the given type, context and payload: packing it,
      its truncated hash, the record of the activity and the transport. *)
  Pkt : Type;
  c_pack : byte → byte → bytes → Lk → option Pkt;
  c_truncatedHash : Pkt → bytes;
  c_record : Z → bool → Lk → Lk;
  c_sendPacket : Pkt → Lk → Lk * bool;
  (** [teardownReason = StatusFailed] *)
  c_failed : Lk → Lk;
  (** [Teardown]: whether this call has closed the link, or [None] when closing it
      panics. *)
  c_teardown : IO → Lk → Lk * option bool
}.

(** A link that can be closed, whatever is sent on it before. *)
Class CarrierLaws `{Carrier} := {
  c_closable : Lk → Prop;
  closable_send : ∀ io d ctx l, c_closable l → c_closable (c_send io d ctx l).1;
  closable_sendPacket : ∀ p l, c_closable l → c_closable (c_sendPacket p l).1;
  closable_record : ∀ now isData l, c_closable l → c_closable (c_record now isData l);
  closable_failed : ∀ l, c_closable l → c_closable (c_failed l);
  closable_teardown : ∀ io l, c_closable l → c_closable (c_teardown io l).1 ∧ is_Some (c_teardown io l).2
}.

(** ** Messages *)

(** Decoded msgpack values. *)
Inductive value :=
  | VNil | VBool (b : bool) | VInt (k : R.ikind) (z : Z) | VFloat (f : Float64.f64)
  | VBytes (b : bytes) | VString (b : bytes) | VList (l : list value) | VOther (raw : bytes).

Class Codec := {
  marshal : value → option bytes;
  unmarshal : bytes → option value;
  (** Into a slice of raw messages, a byte slice, a [map[any]any] and a
      [map[string]any]. *)
  unmarshalRaw : bytes → option (list bytes);
  unmarshalBytes : bytes → option bytes;
  unmarshalAnyMap : bytes → option (list (value * value));
  unmarshalStrMap : bytes → option (gmap bytes value);
  (** [fmt.Sprint] *)
  sprint : value → bytes
}.

(** Metadata of split resources is decoded into a [map[string]any]. *)
#[global] Instance engineMeta `{Codec} : Split.MetaCodec := {|
  Split.Metadata := gmap bytes value;
  Split.unmarshalMeta := unmarshalStrMap
|}.

Definition itoa (z : Z) : bytes := list_byte_of_string (pretty z).

Definition metadataMapKey `{Codec} (k : value) : bytes :=
  match k with
  | VString x => x
  | VInt R.Kuint64 z => if R.MaxInt64 <? z then sprint k else itoa z
  | VInt _ z => itoa z
  | _ => sprint k
  end.
Definition normalizeMetadataMap `{Codec} (raw : list (value * value)) : gmap bytes value :=
  foldl (λ m kv, <[metadataMapKey kv.1 := kv.2]> m) ∅ raw.
Definition unpackResourceMetadata `{Codec} (packed : bytes) : option (gmap bytes value) :=
  match unmarshalAnyMap packed with
  | Some (kv :: raw) => Some (normalizeMetadataMap (kv :: raw))
  | _ => unmarshalStrMap packed
  end.

(** What a request handler of the application answers. *)
Inductive response := NoResponse | FileResponse (data packed : bytes) (auto : bool) | Respond (v : value).

(** What the link sees of its surroundings: its destination, the protection
    engine and the callbacks of the application. *)
Class EngineEnv := {
  hasDestination : bool;
  hasRequestHandlers : bool;
  maxRequestSize : option Z;
  requestHandler : bytes → option (bytes → bytes → Z → response);
  admitResource : Z → bool;
  resourceCallback : option (R.ResourceAdvertisement → bool);
  resourceStartedCallback : bool
}.

(** ** State *)

Inductive rstatus := RPending | RReceiving | RActive | RFailed.
#[global] Instance rstatus_eq_dec : EqDecision rstatus.
Proof. solve_decision. Defined.

Record RequestReceipt := mkReceipt {
  q_requestID : bytes;
  q_pathHash : bytes;
  q_status : rstatus;
  q_sentAt : Z;
  q_receivedAt : Z;
  q_response : option bytes;
  q_responseValue : value;
  q_metadata : option (gmap bytes value);
  q_timeout : Z;
  q_bytesReceived : Z;
  q_totalBytes : Z;
  q_maxResponseSize : Z;
  q_responseCb : bool;
  q_failedCb : bool;
  q_progressCb : bool;
  q_done : bool
}.

(** What becomes visible to the application. *)
Inductive event :=
  | Responded (i : nat)
  | FailedRequest (i : nat)
  | Progressed (i : nat)
  | StartedRaw (plaintext : bytes)
  | StartedAdv (adv : R.ResourceAdvertisement)
  | ConcludedResource (data : bytes) (metadata : option (gmap bytes value)) (hash : bytes)
  | CancelledResource (r : R.Resource)
  | Served (pathHash payload requestID : bytes).

(** Who sends a resource: the application, the answer to a request, or the request
    with the given receipt. *)
Inductive sender := App | Reply | Requester (i : nat).

(** A goroutine that has been started, or that waits. *)
Inductive task :=
  | ReqNext | Prefetch | Watch (k : nat) | Timeout (i : nat) (unbound : option Z)
  | SendRes (r : R.Resource) (s : sender) | AwaitRes (s : sender).

Record Engine `{Carrier} := mkEngine {
  lk : Lk;
  resourceStrategy : byte;
  outgoingRes : option R.Resource;
  outgoingReceiverMinPart : Z;
  (** The channel a caller of [SendResource] waits on, and whether it has been
      signalled. *)
  outgoingResComplete : option bool;
  reqLimiter : option Rate.Limiter;
  incomingRx : option Rx.incomingResourceAsm;
  lastResourceWindow : Z;
  receipts : list RequestReceipt;
  pendingRequests : list nat;
  resSendInflight : Z;
  conf : Split.Conf;
  store : Split.Store;
  entropy : list (option bytes);
  events : list event;
  tasks : list task;
  (** The identity of [incomingRx], and whether [resourceSendMu] is held. *)
  rxSerial : nat;
  sendMu : bool
}.

Arguments mkEngine {_}.

Section setters.
Context `{Carrier}.
Definition set_lk (v0 : Lk) (e : Engine) : Engine :=
  mkEngine v0 (resourceStrategy e) (outgoingRes e) (outgoingReceiverMinPart e) (outgoingResComplete e)
    (reqLimiter e) (incomingRx e) (lastResourceWindow e) (receipts e) (pendingRequests e) (resSendInflight e)
    (conf e) (store e) (entropy e) (events e) (tasks e) (rxSerial e) (sendMu e).
Definition set_outgoing (v0 : option R.Resource) (v1 : Z) (v2 : option bool) (e : Engine) : Engine :=
  mkEngine (lk e) (resourceStrategy e) v0 v1 v2 (reqLimiter e) (incomingRx e) (lastResourceWindow e) (receipts
    e) (pendingRequests e) (resSendInflight e) (conf e) (store e) (entropy e) (events e) (tasks e) (rxSerial
    e) (sendMu e).
Definition set_limiter (v0 : option Rate.Limiter) (e : Engine) : Engine :=
  mkEngine (lk e) (resourceStrategy e) (outgoingRes e) (outgoingReceiverMinPart e) (outgoingResComplete e) v0
    (incomingRx e) (lastResourceWindow e) (receipts e) (pendingRequests e) (resSendInflight e) (conf e) (store
    e) (entropy e) (events e) (tasks e) (rxSerial e) (sendMu e).
Definition set_rx (v0 : option Rx.incomingResourceAsm) (e : Engine) : Engine :=
  mkEngine (lk e) (resourceStrategy e) (outgoingRes e) (outgoingReceiverMinPart e) (outgoingResComplete e)
    (reqLimiter e) v0 (lastResourceWindow e) (receipts e) (pendingRequests e) (resSendInflight e) (conf e)
    (store e) (entropy e) (events e) (tasks e) (rxSerial e) (sendMu e).
Definition set_lastWindow (v0 : Z) (e : Engine) : Engine :=
  mkEngine (lk e) (resourceStrategy e) (outgoingRes e) (outgoingReceiverMinPart e) (outgoingResComplete e)
    (reqLimiter e) (incomingRx e) v0 (receipts e) (pendingRequests e) (resSendInflight e) (conf e) (store e)
    (entropy e) (events e) (tasks e) (rxSerial e) (sendMu e).
Definition set_receipts (v0 : list RequestReceipt) (e : Engine) : Engine :=
  mkEngine (lk e) (resourceStrategy e) (outgoingRes e) (outgoingReceiverMinPart e) (outgoingResComplete e)
    (reqLimiter e) (incomingRx e) (lastResourceWindow e) v0 (pendingRequests e) (resSendInflight e) (conf e)
    (store e) (entropy e) (events e) (tasks e) (rxSerial e) (sendMu e).
Definition set_pending (v0 : list nat) (e : Engine) : Engine :=
  mkEngine (lk e) (resourceStrategy e) (outgoingRes e) (outgoingReceiverMinPart e) (outgoingResComplete e)
    (reqLimiter e) (incomingRx e) (lastResourceWindow e) (receipts e) v0 (resSendInflight e) (conf e) (store
    e) (entropy e) (events e) (tasks e) (rxSerial e) (sendMu e).
Definition set_inflight (v0 : Z) (e : Engine) : Engine :=
  mkEngine (lk e) (resourceStrategy e) (outgoingRes e) (outgoingReceiverMinPart e) (outgoingResComplete e)
    (reqLimiter e) (incomingRx e) (lastResourceWindow e) (receipts e) (pendingRequests e) v0 (conf e) (store
    e) (entropy e) (events e) (tasks e) (rxSerial e) (sendMu e).
Definition set_store (v0 : Split.Store) (e : Engine) : Engine :=
  mkEngine (lk e) (resourceStrategy e) (outgoingRes e) (outgoingReceiverMinPart e) (outgoingResComplete e)
    (reqLimiter e) (incomingRx e) (lastResourceWindow e) (receipts e) (pendingRequests e) (resSendInflight e)
    (conf e) v0 (entropy e) (events e) (tasks e) (rxSerial e) (sendMu e).
Definition set_entropy (v0 : list (option bytes)) (e : Engine) : Engine :=
  mkEngine (lk e) (resourceStrategy e) (outgoingRes e) (outgoingReceiverMinPart e) (outgoingResComplete e)
    (reqLimiter e) (incomingRx e) (lastResourceWindow e) (receipts e) (pendingRequests e) (resSendInflight e)
    (conf e) (store e) v0 (events e) (tasks e) (rxSerial e) (sendMu e).
Definition set_events (v0 : list event) (e : Engine) : Engine :=
  mkEngine (lk e) (resourceStrategy e) (outgoingRes e) (outgoingReceiverMinPart e) (outgoingResComplete e)
    (reqLimiter e) (incomingRx e) (lastResourceWindow e) (receipts e) (pendingRequests e) (resSendInflight e)
    (conf e) (store e) (entropy e) v0 (tasks e) (rxSerial e) (sendMu e).
Definition set_tasks (v0 : list task) (e : Engine) : Engine :=
  mkEngine (lk e) (resourceStrategy e) (outgoingRes e) (outgoingReceiverMinPart e) (outgoingResComplete e)
    (reqLimiter e) (incomingRx e) (lastResourceWindow e) (receipts e) (pendingRequests e) (resSendInflight e)
    (conf e) (store e) (entropy e) (events e) v0 (rxSerial e) (sendMu e).
Definition set_serial (v0 : nat) (e : Engine) : Engine :=
  mkEngine (lk e) (resourceStrategy e) (outgoingRes e) (outgoingReceiverMinPart e) (outgoingResComplete e)
    (reqLimiter e) (incomingRx e) (lastResourceWindow e) (receipts e) (pendingRequests e) (resSendInflight e)
    (conf e) (store e) (entropy e) (events e) (tasks e) v0 (sendMu e).
Definition set_sendMu (v0 : bool) (e : Engine) : Engine :=
  mkEngine (lk e) (resourceStrategy e) (outgoingRes e) (outgoingReceiverMinPart e) (outgoingResComplete e)
    (reqLimiter e) (incomingRx e) (lastResourceWindow e) (receipts e) (pendingRequests e) (resSendInflight e)
    (conf e) (store e) (entropy e) (events e) (tasks e) (rxSerial e) v0.
End setters.

Inductive engine_error :=
  | LinkNotActive | RequestBusy | RequestDuplicate | PackFailed | SendFailed | EncryptFailed | DecryptFailed
  | SlotsExhausted | NoDestination | UnpackFailed | InvalidFormat | InvalidRequestedAt | RequestIDNotBytes
  | ResourceFailed (e : R.resource_error) | RxFailed (e : Rx.rx_error) | BeginFailed (e : Rx.begin_error)
  | SplitFailed (e : Split.split_error)
  | Refused | TooShort | InvalidDataSize | ExceedsAutoCompress | DecompressFailed | ExceedsDataSize | ExceedsBound
  | LinkError | HashMismatch | BadResourceHash | BadRandomHash | MapHashMismatch | EmptyUpdate | TransferTimeout.

Section requests.
Context `{Carrier} `{Codec} `{EngineEnv}.

Notation M := (goM Engine engine_error).

(** ** Effects *)

Definition draw : M (option bytes) :=
  e ← mget;
  match entropy e with
  | [] => mret None
  | r :: _ => modify (λ e, set_entropy (tail (entropy e)) e) ;; mret r
  end.
Definition notify (v : event) : M () := modify (λ e, set_events (events e ++ [v]) e).
Definition spawn (t : task) : M () := modify (λ e, set_tasks (tasks e ++ [t]) e).

Definition encryptM (data : bytes) : M bytes :=
  r ← draw; e ← mget;
  match c_encrypt r data (lk e) with Some c => mret c | None => fail EncryptFailed end.
Definition decryptM (data : bytes) : M bytes :=
  e ← mget;
  match c_decrypt data (lk e) with Some p => mret p | None => fail DecryptFailed end.
Definition packM (ptype ctx : byte) (data : bytes) : M Pkt :=
  e ← mget;
  match c_pack ptype ctx data (lk e) with Some p => mret p | None => fail PackFailed end.
Definition sendPacket (p : Pkt) : M () :=
  e ← mget;
  let r := c_sendPacket p (lk e) in
  modify (set_lk r.1) ;; guard_go r.2 SendFailed.
Definition sendWithContext (now : Z) (data : bytes) (ctx : byte) : M () :=
  r ← draw; e ← mget;
  let s := c_send (mkIO now r) data ctx (lk e) in
  modify (set_lk s.1) ;; guard_go s.2 SendFailed.
Definition recordM (now : Z) (isData : bool) : M () := modify (λ e, set_lk (c_record now isData (lk e)) e).

(** The result of a call whose error is only logged. *)
Definition attempt {A} (m : M A) : M (option A) := λ e,
  match m e with
  | (e, Ok a) => (e, Ok (Some a))
  | (e, Err _) => (e, Ok None)
  | (e, Panic) => (e, Panic)
  end.

(** ** Receipts *)

Definition set_status (v : rstatus) (d : bool) (q : RequestReceipt) : RequestReceipt :=
  mkReceipt (q_requestID q) (q_pathHash q) v (q_sentAt q) (q_receivedAt q) (q_response q) (q_responseValue q) (q_metadata q)
    (q_timeout q) (q_bytesReceived q) (q_totalBytes q) (q_maxResponseSize q) (q_responseCb q) (q_failedCb q) (q_progressCb q) d.
Definition set_progress (v : rstatus) (received total : Z) (q : RequestReceipt) : RequestReceipt :=
  mkReceipt (q_requestID q) (q_pathHash q) v (q_sentAt q) (q_receivedAt q) (q_response q) (q_responseValue q) (q_metadata q)
    (q_timeout q) received total (q_maxResponseSize q) (q_responseCb q) (q_failedCb q) (q_progressCb q) (q_done q).
(** A response has arrived; the receipt is concluded and its waiter released. *)
Definition set_response (now : Z) (response : option bytes) (v : value) (metadata : option (gmap bytes value))
    (q : RequestReceipt) : RequestReceipt :=
  let n := len (default [] response) in
  mkReceipt (q_requestID q) (q_pathHash q) RActive (q_sentAt q) now response v metadata
    (q_timeout q) n n (q_maxResponseSize q) (q_responseCb q) (q_failedCb q) (q_progressCb q) true.
Definition set_callbacks (r f p : bool) (q : RequestReceipt) : RequestReceipt :=
  mkReceipt (q_requestID q) (q_pathHash q) (q_status q) (q_sentAt q) (q_receivedAt q) (q_response q) (q_responseValue q)
    (q_metadata q) (q_timeout q) (q_bytesReceived q) (q_totalBytes q) (q_maxResponseSize q) r f p (q_done q).

Definition unconcluded (q : RequestReceipt) : bool :=
  bool_decide (q_status q = RPending) || bool_decide (q_status q = RReceiving).
Definition Concluded (q : RequestReceipt) : bool :=
  bool_decide (q_status q = RActive) || bool_decide (q_status q = RFailed).

Definition updReceipt (i : nat) (f : RequestReceipt → RequestReceipt) : M () :=
  modify (λ e, set_receipts (alter f i (receipts e)) e).

Definition registerPendingRequest (q : RequestReceipt) : M nat :=
  e ← mget;
  guard_go (negb (MaxPendingRequests <=? len (pendingRequests e))) RequestBusy ;;
  guard_go (negb ((0 <? len (q_pathHash q))
      && existsb (λ i, match receipts e !! i with
                       | Some p => bool_decide (q_pathHash p = q_pathHash q) | None => false end) (pendingRequests e))) RequestDuplicate ;;
  let i := length (receipts e) in
  modify (set_receipts (receipts e ++ [q])) ;;
  modify (λ e, set_pending (pendingRequests e ++ [i]) e) ;;
  mret i.

Fixpoint removeFirst (i : nat) (l : list nat) : list nat :=
  match l with
  | [] => []
  | j :: l => if bool_decide (i = j) then l else j :: removeFirst i l
  end.
Definition removePendingRequest (i : nat) : M () := modify (λ e, set_pending (removeFirst i (pendingRequests e)) e).

Definition failPendingRequest (i : nat) : M () :=
  e ← mget;
  match receipts e !! i with
  | None => mret ()
  | Some q =>
      if negb (unconcluded q) then mret ()
      else
        updReceipt i (set_status RFailed true) ;;
        removePendingRequest i ;;
        (if q_failedCb q then notify (FailedRequest i) else mret ())
  end.

Definition failAllPendingRequests : M () :=
  e ← mget;
  foldl (λ m i, m ;; failPendingRequest i) (mret ()) (pendingRequests e).

(** The receipt takes a response, unless it is concluded already; [progress]
    tells whether the progress callback is called as well. *)
Definition concludeReceipt (now : Z) (i : nat) (response : option bytes) (v : value) (metadata : option (gmap bytes value))
    (progress : bool) : M () :=
  e ← mget;
  match receipts e !! i with
  | None => mret ()
  | Some q =>
      if negb (unconcluded q) then mret ()
      else
        updReceipt i (set_response now response v metadata) ;;
        removePendingRequest i ;;
        (if progress && q_progressCb q then notify (Progressed i) else mret ()) ;;
        (if q_responseCb q then notify (Responded i) else mret ())
  end.

(** The bytes and the value of a response delivered as a resource. *)
Definition resourceResponse (payload : bytes) (metadata : option (gmap bytes value)) : bytes * value :=
  match metadata, unmarshal payload with
  | None, Some (VList (_ :: v :: _)) =>
      (match v with
       | VBytes b | VString b => b
       | _ => default payload (marshal v)
       end, v)
  | _, _ => (payload, VBytes payload)
  end.
Definition completeRequestWithResourcePayload (now : Z) (i : nat) (payload : bytes) (metadata : option (gmap bytes value)) : M () :=
  let r := resourceResponse payload metadata in
  concludeReceipt now i (Some r.1) r.2 metadata true.

(** The first pending receipt with a request identifier. *)
Definition matchRequest (requestID : bytes) (e : Engine) : option nat :=
  find (λ i, match receipts e !! i with Some q => bool_decide (q_requestID q = requestID) | None => false end)
    (pendingRequests e).

Definition SetResponseCallback (i : nat) (cb : bool) : M () :=
  e ← mget;
  match receipts e !! i with
  | None => mret ()
  | Some q =>
      updReceipt i (λ q, set_callbacks cb (q_failedCb q) (q_progressCb q) q) ;;
      (if bool_decide (q_status q = RActive) && cb && negb (q_responseCb q) then notify (Responded i) else mret ())
  end.
Definition SetFailedCallback (i : nat) (cb : bool) : M () :=
  e ← mget;
  match receipts e !! i with
  | None => mret ()
  | Some q =>
      updReceipt i (λ q, set_callbacks (q_responseCb q) cb (q_progressCb q) q) ;;
      (if bool_decide (q_status q = RFailed) && cb && negb (q_failedCb q) then notify (FailedRequest i) else mret ())
  end.
Definition SetProgressCallback (i : nat) (cb : bool) : M () :=
  updReceipt i (λ q, set_callbacks (q_responseCb q) (q_failedCb q) cb q).

(** ** Requests *)

(** [math.Round] and conversion to [int64]: to the nearest integer, halves away
    from zero. *)
Definition roundInt64 (x : Float64.f64) : Z :=
  match x with
  | SpecFloat.S754_finite s m e =>
      if 0 <=? e then Float64.to_int64 x
      else
        let v := (Z.pos m + 2 ^ (- e - 1)) `div` 2 ^ (- e) in
        if s then - v else v
  | _ => Float64.to_int64 x
  end.

Definition parseRequestedAt (v : value) : outcome engine_error Z :=
  match v with
  | VFloat f =>
      match f with
      | SpecFloat.S754_nan | SpecFloat.S754_infinity _ => Err InvalidRequestedAt
      | _ =>
          let sec := Float64.to_int64 f in
          Ok (sec * Second + roundInt64 (Float64.mul (Float64.sub f (Float64.of_Z sec)) (Float64.of_Z Second)))
      end
  | VInt R.Kuint64 z => if R.MaxInt64 <? z then Err InvalidRequestedAt else Ok (z * Second)
  | VInt R.Kint64 z | VInt R.Kint z | VInt R.Kint32 z | VInt R.Kuint32 z => Ok (z * Second)
  | _ => Err InvalidRequestedAt
  end.
Definition requestTimestampValid (requestedAt now : Z) : bool :=
  (now - RequestTimestampMaxSkewPast * Second <=? requestedAt)
  && (requestedAt <=? now + RequestTimestampMaxSkewFuture * Second).

Definition linkRequestPayload (decoded : value) (raw : bytes) : bytes :=
  match decoded with VNil => [] | VBytes b | VString b => b | _ => raw end.

(** The time, the path and the payload of a request. *)
Definition unpackLinkRequest (plaintext : bytes) : outcome engine_error (Z * bytes * bytes) :=
  match unmarshalRaw plaintext with
  | None => Err UnpackFailed
  | Some (p0 :: p1 :: p2 :: _) =>
      match unmarshal p0 with
      | None => Err UnpackFailed
      | Some ts =>
          requestedAt ← parseRequestedAt ts;
          match unmarshalBytes p1 with
          | None => Err UnpackFailed
          | Some pathHash =>
              let payload := match p2 with
                             | [] => []
                             | _ => match unmarshal p2 with None => p2 | Some v => linkRequestPayload v p2 end
                             end in
              Ok (requestedAt, pathHash, payload)
          end
      end
  | Some _ => Err InvalidFormat
  end.

Definition acquireResourceSendSlot : M bool :=
  e ← mget;
  if MaxPendingResourceSends <=? resSendInflight e then mret false
  else modify (set_inflight (resSendInflight e + 1)) ;; mret true.
Definition releaseResourceSendSlot : M () := modify (λ e, set_inflight (resSendInflight e - 1) e).

Definition startSend (r : R.Resource) (s : sender) : M () :=
  ok ← acquireResourceSendSlot;
  guard_go ok SlotsExhausted ;;
  spawn (SendRes r s).

Definition sendResponse (now : Z) (requestID : bytes) (r : response) : M () :=
  match r with
  | NoResponse => mret ()
  | FileResponse data packed auto =>
      let res := R.New (Some data) auto in
      match (if 0 <? len packed then R.SetMetadataPacked packed res else (res, Ok ())) with
      | (res, Ok _) => startSend (R.set_request (Some requestID) true res) Reply
      | (_, Err x) => fail (ResourceFailed x)
      | (_, Panic) => lift Panic
      end
  | Respond v =>
      match marshal (VList [VBytes requestID; v]) with
      | None => fail PackFailed
      | Some packedResponse =>
          e ← mget;
          if len packedResponse <=? c_mdu (lk e) then
            encrypted ← encryptM packedResponse;
            p ← packM Packet.PacketTypeData Packet.ContextResponse encrypted;
            recordM now true ;;
            sendPacket p
          else startSend (R.set_request (Some requestID) true (R.New (Some packedResponse) false)) Reply
      end
  end.

Definition handleRequest (now : Z) (plaintext requestID : bytes) : M () :=
  guard_go hasDestination NoDestination ;;
  if match maxRequestSize with Some maxSize => maxSize <? len plaintext | None => false end then mret ()
  else
    '(requestedAt, pathHash, payload) ← lift (unpackLinkRequest plaintext);
    if negb (requestTimestampValid requestedAt now) then mret ()
    else
      match requestHandler pathHash with
      | None => mret ()
      | Some handler =>
          notify (Served pathHash payload requestID) ;;
          sendResponse now requestID (handler payload requestID requestedAt)
      end.

Definition responseBytes (v : value) : option bytes :=
  match v with
  | VBytes b | VString b => Some b
  | VNil | VBool _ | VInt _ _ => None
  | _ => marshal v
  end.
Definition handleResponse (now : Z) (plaintext : bytes) : M () :=
  match unmarshal plaintext with
  | Some (VList (VBytes requestID :: v :: _)) =>
      let payload := responseBytes v in
      e ← mget;
      match matchRequest requestID e with
      | None => mret ()
      | Some i =>
          match receipts e !! i with
          | None => mret ()
          | Some q =>
              if (0 <? q_maxResponseSize q) && (q_maxResponseSize q <? len (default [] payload)) then failPendingRequest i
              else concludeReceipt now i payload v None false
          end
      end
  | Some (VList (_ :: _ :: _)) => fail RequestIDNotBytes
  | Some (VList _) => fail InvalidFormat
  | Some VNil => fail InvalidFormat
  | _ => fail UnpackFailed
  end.

Definition TruncatedHash (b : bytes) : bytes := take 16 (Sha256.Sum256 b).

Definition newReceipt (now timeout maxResponseSize : Z) (requestID pathHash : bytes) : RequestReceipt :=
  mkReceipt requestID pathHash RPending now 0 None VNil None timeout 0 0 maxResponseSize false false false false.

(** The receipt is a reference: its index is the result. *)
Definition RequestLimited (now : Z) (path : bytes) (data : value) (timeout maxResponseSize : Z) : M nat :=
  e ← mget;
  guard_go (c_active (lk e)) LinkNotActive ;;
  let pathHash := TruncatedHash path in
  match marshal (VList [VInt R.Kint64 (now `div` Second); VBytes pathHash; data]) with
  | None => fail PackFailed
  | Some packedRequest =>
      let timeout :=
        if timeout <=? 0 then
          Float64.to_int64 (Float64.mul (Float64.mul (c_rtt (lk e)) (Float64.of_Z 6)) (Float64.of_Z Second)) + 11250000000
        else timeout in
      if len packedRequest <=? c_mdu (lk e) then
        packM Packet.PacketTypeData Packet.ContextRequest packedRequest ;;
        encrypted ← encryptM packedRequest;
        p ← packM Packet.PacketTypeData Packet.ContextRequest encrypted;
        i ← registerPendingRequest (newReceipt now timeout maxResponseSize (c_truncatedHash p) pathHash);
        sent ← attempt (sendPacket p);
        match sent with
        | None => failPendingRequest i ;; fail SendFailed
        | Some _ => spawn (Timeout i None) ;; mret i
        end
      else
        let requestID := TruncatedHash packedRequest in
        let res := R.set_request (Some requestID) false (R.New (Some packedRequest) false) in
        i ← registerPendingRequest (newReceipt now timeout maxResponseSize requestID pathHash);
        ok ← acquireResourceSendSlot;
        if ok : bool then spawn (SendRes res (Requester i)) ;; mret i
        else failPendingRequest i ;; fail SlotsExhausted
  end.
End requests.

(** ** Incoming resources *)

Section transfers.
Context `{Carrier} `{Codec} `{EngineEnv} `{R.Bzip2Stream} `{R.Msgpack}.

Notation M := (goM Engine engine_error).

Definition resourceSDU (l : Lk) : Z :=
  if (0 <? c_mtu l) && (0 <? c_mtu l - 35 - 1) then c_mtu l - 35 - 1 else c_mdu l.

Definition onRx (f : Rx.incomingResourceAsm → Rx.incomingResourceAsm) : M () :=
  modify (λ e, set_rx (f <$> incomingRx e) e).

Definition rejectResource (now : Z) (resourceHash : bytes) : M () :=
  encrypted ← encryptM resourceHash;
  p ← packM Packet.PacketTypeData Packet.ContextResourceRCL encrypted;
  recordM now false ;;
  sendPacket p.
(** A rejection whose failure is ignored, on an active link. *)
Definition rejectIfActive (now : Z) (resourceHash : bytes) : M () :=
  e ← mget;
  if c_active (lk e) && (len resourceHash =? 32) then _ ← attempt (rejectResource now resourceHash); mret () else mret ().

Definition sendIncomingResourceProof (now : Z) (payload resourceHash : bytes) : M () :=
  guard_go (len resourceHash =? 32) BadResourceHash ;;
  p ← packM Packet.PacketTypeProof Packet.ContextResourcePRF (resourceHash ++ Sha256.Sum256 (payload ++ resourceHash));
  recordM now false ;;
  sendPacket p.

(** The transfer is given up, and the request it was answering fails. *)
Definition resetIncomingResource : M () :=
  e ← mget;
  match incomingRx e with
  | None => mret ()
  | Some x =>
      modify (set_rx None) ;;
      match Rx.rx_request x with Some i => failPendingRequest i | None => mret () end
  end.

Definition abortResponseResourceFor (now : Z) (i : nat) : M () :=
  e ← mget;
  match incomingRx e with
  | None => mret ()
  | Some x =>
      if negb (bool_decide (Rx.rx_request x = Some i)) then mret ()
      else
        modify (set_rx None) ;;
        failPendingRequest i ;;
        rejectIfActive now (R.a_Hash (Rx.rx_adv x))
  end.

Definition bindIncomingResponseRequest (now : Z) (i : nat) : M () :=
  onRx (Rx.set_request (Some i)) ;;
  e ← mget;
  match receipts e !! i with
  | None => mret ()
  | Some q => if unconcluded q then mret () else abortResponseResourceFor now i
  end.

Definition queueIncomingResourceReqNext : M () := spawn ReqNext.
Definition queueIncomingResourceHMUPrefetch : M () := spawn Prefetch.

Definition beginIncomingResource (now : Z) (adv : R.ResourceAdvertisement) : M () :=
  e ← mget;
  match Rx.checkAdvertisement (resourceSDU (lk e)) (admitResource (R.a_TransferSize adv)) adv with
  | Err x => fail (BeginFailed x)
  | Panic => lift Panic
  | Ok _ =>
      let rx := Rx.newIncoming now (c_mdu (lk e)) (lastResourceWindow e) adv in
      let old := incomingRx e in
      modify (set_rx (Some rx)) ;;
      modify (λ e, set_serial (S (rxSerial e)) e) ;;
      match old ≫= Rx.rx_request with Some i => failPendingRequest i | None => mret () end ;;
      e ← mget;
      spawn (Watch (rxSerial e)) ;;
      queueIncomingResourceReqNext
  end.

Definition sendIncomingResourceReqNext (now : Z) : M () :=
  e ← mget;
  match incomingRx e with
  | None => mret ()
  | Some x =>
      match Rx.nextRequest x with
      | Ok None => mret ()
      | Ok (Some (body, pns, exhausted, x)) =>
          modify (set_rx (Some x)) ;;
          sent ← attempt (sendWithContext now body Packet.ContextResourceReq);
          match sent with
          | Some _ => mret ()
          | None => onRx (Rx.unrequest pns exhausted) ;; fail SendFailed
          end
      | Err x => fail (RxFailed x)
      | Panic => lift Panic
      end
  end.

Definition sendIncomingResourceHMUPrefetch (now : Z) : M () :=
  e ← mget;
  match incomingRx e with
  | None => mret ()
  | Some x =>
      match Rx.prefetchRequest x with
      | Ok None => mret ()
      | Ok (Some (body, x)) =>
          modify (set_rx (Some x)) ;;
          sent ← attempt (sendWithContext now body Packet.ContextResourceReq);
          match sent with
          | Some _ => mret ()
          | None => onRx (Rx.set_waiting false) ;; fail SendFailed
          end
      | Err x => fail (RxFailed x)
      | Panic => lift Panic
      end
  end.

(** One tick of the watchdog of the transfer [k]; false when it ends. *)
Definition tickIncomingResourceWatchdog (now : Z) (k : nat) : M bool :=
  e ← mget;
  match incomingRx e with
  | None => mret false
  | Some x =>
      if negb (bool_decide (rxSerial e = k)) then mret false
      else if now - Rx.lastProgressAt x <? Rx.incomingResourceStallGrace then mret true
      else if (Rx.outstandingParts x =? 0) && negb (Rx.waitingForHmu x) then mret true
      else
        let x := Rx.stallIncoming x in
        modify (set_rx (Some x)) ;;
        if incomingResourceMaxStallRetries <=? Rx.consecutiveStalls x then
          resetIncomingResource ;;
          rejectIfActive now (R.a_Hash (Rx.rx_adv x)) ;;
          mret false
        else
          sent ← attempt (sendIncomingResourceReqNext now);
          match sent with
          | Some _ => mret true
          | None => resetIncomingResource ;; mret false
          end
  end.

Definition started (v : event) : M () := if resourceStartedCallback then notify v else mret ().

Definition applyIncomingHashmapUpdate (now : Z) (resHash : bytes) (segment : Z) (hashmap : bytes) : M () :=
  e ← mget;
  match incomingRx e with
  | None => mret ()
  | Some x =>
      if negb (bool_decide (resHash = R.a_Hash (Rx.rx_adv x))) then mret ()
      else if negb (Rx.waitingForHmu x) then mret ()
      else if len hashmap `quot` R.MapHashLen <? 1 then
        resetIncomingResource ;;
        rejectIfActive now (R.a_Hash (Rx.rx_adv x)) ;;
        fail EmptyUpdate
      else
        modify (set_rx (Some (Rx.learn now x (Some (segment, hashmap))))) ;;
        queueIncomingResourceReqNext
  end.

Definition wireInt (v : value) : option Z :=
  match v with
  | VInt R.Kuint64 z => if R.MaxInt64 <? z then None else Some z
  | VInt _ z => Some z
  | _ => None
  end.

Definition handleResourceHashmapUpdate (now : Z) (data : bytes) : M () :=
  plaintext ← decryptM data;
  if len plaintext <? 32 then started (StartedRaw plaintext)
  else
    match unmarshal (drop 32 plaintext) with
    | Some (VList (v :: VBytes hm :: _)) =>
        match wireInt v with
        | Some seg => applyIncomingHashmapUpdate now (take 32 plaintext) seg hm ;; started (StartedRaw plaintext)
        | None => started (StartedRaw plaintext)
        end
    | _ => started (StartedRaw plaintext)
    end.

(** *** Completion *)

Definition assembleIncomingPayload (inner : bytes) (adv : R.ResourceAdvertisement) : M bytes :=
  innerPlain ← (if R.a_Encrypted adv then decryptM inner else mret inner);
  guard_go (negb (len innerPlain <? R.RandomHashSize)) TooShort ;;
  let data := drop (Z.to_nat R.RandomHashSize) innerPlain in
  data ←
    (if R.a_Compressed adv then
       guard_go (negb (R.a_DataSize adv <=? 0)) InvalidDataSize ;;
       guard_go (R.a_Split adv || negb (R.AutoCompressMaxSize <? R.a_DataSize adv)) ExceedsAutoCompress ;;
       let bound := Z.min (R.a_DataSize adv) R.AutoCompressMaxSize in
       match R.bzip2Read data (bound + 1) with
       | None => fail DecompressFailed
       | Some decompressed =>
           guard_go (negb (R.a_DataSize adv <? len decompressed)) ExceedsDataSize ;;
           guard_go (negb (R.AutoCompressMaxSize <? len decompressed)) ExceedsBound ;;
           mret decompressed
       end
     else mret data);
  guard_go (bool_decide (Sha256.Sum256 (data ++ R.a_RandomHash adv) = R.a_Hash adv)) HashMismatch ;;
  mret data.

Definition splitResourceMetadata (payload : bytes) (adv : R.ResourceAdvertisement) : bytes * option (gmap bytes value) :=
  if negb (R.a_HasMetadata adv) then (payload, None)
  else
    match Split.metaRegion payload with
    | Ok (meta, body) => (body, unpackResourceMetadata meta)
    | _ => (payload, None)
    end.

Definition handOver (now : Z) (d : Split.delivery) : M () :=
  match d with
  | Split.Requested data => handleRequest now data (TruncatedHash data)
  | Split.Answered i data metadata => completeRequestWithResourcePayload now i data metadata
  | Split.Concluded data metadata hash => notify (ConcludedResource data metadata hash)
  end.

Definition splitSegment (payload : bytes) (adv : R.ResourceAdvertisement) (pending : option nat) : M (option Split.delivery) := λ e,
  match Split.handleSplitSegmentComplete (conf e) payload adv pending (store e) with
  | (s, Ok d) => (set_store s e, Ok d)
  | (s, Err x) => (set_store s e, Err (SplitFailed x))
  | (s, Panic) => (set_store s e, Panic)
  end.

Definition deliverIncomingResource (now : Z) (inner : bytes) (adv : R.ResourceAdvertisement) (pending : option nat) : M () :=
  payload ← assembleIncomingPayload inner adv;
  if R.a_Split adv && (1 <? R.a_TotalSegments adv) then
    sendIncomingResourceProof now payload (R.a_Hash adv) ;;
    d ← splitSegment payload adv pending;
    match d with Some d => handOver now d | None => mret () end
  else if R.a_IsRequest adv then
    sendIncomingResourceProof now payload (R.a_Hash adv) ;;
    handleRequest now payload (TruncatedHash payload)
  else
    let r := splitResourceMetadata payload adv in
    match pending with
    | Some i =>
        sendIncomingResourceProof now payload (R.a_Hash adv) ;;
        completeRequestWithResourcePayload now i r.1 r.2
    | None =>
        e ← mget;
        (if Split.concludedCallback (conf e) then notify (ConcludedResource r.1 r.2 (R.a_Hash adv)) else mret ()) ;;
        _ ← attempt (sendIncomingResourceProof now payload (R.a_Hash adv));
        mret ()
    end.

(** *** Parts *)

Definition received (x : Rx.incomingResourceAsm) : Z :=
  foldr (λ s n, len (default [] s) + n) 0 (Rx.partSlots x).
Definition reportIncomingResourceProgress (x : Rx.incomingResourceAsm) : M () :=
  match Rx.rx_request x with
  | None => mret ()
  | Some i =>
      e ← mget;
      updReceipt i (λ q, set_progress (if bool_decide (q_status q = RPending) then RReceiving else q_status q)
                           (received x) (q_totalBytes q) q) ;;
      match receipts e !! i with
      | Some q => if q_progressCb q then notify (Progressed i) else mret ()
      | None => mret ()
      end
  end.

(** All parts are there: the transfer is taken off the link and delivered. *)
Definition finishIncoming (now : Z) (x : Rx.incomingResourceAsm) : M () :=
  modify (set_lastWindow (Rx.window x)) ;;
  modify (set_rx None) ;;
  deliverIncomingResource now (Rx.concatIncomingParts x) (Rx.rx_adv x) (Rx.rx_request x).

Definition appendIncomingResourcePart (now : Z) (data : bytes) : M () :=
  e ← mget;
  match incomingRx e with
  | None => mret ()
  | Some x =>
      if len data =? 0 then (if Rx.incomingTransferComplete x then finishIncoming now x else mret ())
      else
        guard_go (len (R.a_RandomHash (Rx.rx_adv x)) =? R.RandomHashSize) BadRandomHash ;;
        match Rx.takePart now data x with
        | None =>
            if Rx.isDuplicate (R.mapHash (R.a_RandomHash (Rx.rx_adv x)) data) x then mret () else fail MapHashMismatch
        | Some x =>
            modify (set_rx (Some x)) ;;
            reportIncomingResourceProgress x ;;
            if Rx.incomingTransferComplete x then finishIncoming now x
            else
              let '(prefetch, refill, x) := Rx.afterPart x in
              modify (set_rx (Some x)) ;;
              (if prefetch : bool then queueIncomingResourceHMUPrefetch else mret ()) ;;
              (if refill : bool then queueIncomingResourceReqNext else mret ())
        end
  end.

Definition handleResourcePart (now : Z) (data : bytes) : M () :=
  e ← mget;
  match incomingRx e with
  | Some _ => appendIncomingResourcePart now data
  | None => if len data =? 0 then mret () else started (StartedRaw data)
  end.

Definition handleResourceCancel (now : Z) (data : bytes) : M () :=
  plaintext ← decryptM data;
  resetIncomingResource ;;
  e ← mget;
  if c_active (lk e) && (32 <=? len plaintext)
  then _ ← attempt (rejectResource now (take 32 plaintext)); mret () else mret ().

(** *** Advertisements *)

(** A resource for the application, by the strategy of the link. *)
Definition application (now : Z) (adv : R.ResourceAdvertisement) : M () :=
  e ← mget;
  if bool_decide (resourceStrategy e = AcceptNone) then _ ← attempt (rejectResource now (R.a_Hash adv)); mret ()
  else
    let allowed :=
      if bool_decide (resourceStrategy e = AcceptAll) then true
      else if bool_decide (resourceStrategy e = AcceptApp) then
        match resourceCallback with Some accept => accept adv | None => false end
      else false in
    if allowed then beginIncomingResource now adv ;; started (StartedAdv adv)
    else _ ← attempt (rejectResource now (R.a_Hash adv)); mret ().

Definition processResourceAdvertisement (now : Z) (plaintext : bytes) : M () :=
  match R.UnpackResourceAdvertisement plaintext with
  | Err x => fail (ResourceFailed x)
  | Panic => lift Panic
  | Ok adv =>
      e ← mget;
      match R.a_RequestID adv with
      | Some requestID =>
          if R.a_IsRequest adv then
            if negb hasRequestHandlers then mret ()
            else if match maxRequestSize with Some maxSize => maxSize <? R.a_TransferSize adv | None => false end then mret ()
            else beginIncomingResource now adv
          else if R.a_IsResponse adv then
            match matchRequest requestID e with
            | None => mret ()
            | Some i =>
                match receipts e !! i with
                | None => mret ()
                | Some q =>
                    if (0 <? q_maxResponseSize q) && (q_maxResponseSize q <? R.a_TransferSize adv) then failPendingRequest i
                    else
                      updReceipt i (λ q, set_progress (q_status q) (q_bytesReceived q) (R.a_TransferSize adv) q) ;;
                      beginIncomingResource now adv ;;
                      bindIncomingResponseRequest now i
                end
            end
          else application now adv
      | None => application now adv
      end
  end.

(** ** Outgoing resources *)

Definition signalOutgoingResourceComplete : M () :=
  modify (λ e, set_outgoing None 0 (match outgoingResComplete e with Some _ => Some true | None => None end) e).
Definition abandonOutgoing : M () := modify (set_outgoing None 0 None).

Definition sendResourceAdvertisement (now : Z) (r : R.Resource) : M () :=
  e ← mget;
  match R.Pack 0 (c_mdu (lk e)) (R.NewResourceAdvertisement r) with
  | Err x => fail (ResourceFailed x)
  | Panic => lift Panic
  | Ok advData =>
      encrypted ← encryptM advData;
      p ← packM Packet.PacketTypeData Packet.ContextResourceAdv encrypted;
      recordM now false ;;
      sendPacket p
  end.

(** [res.PrepareOutboundForLink] and [out.PrepareNextOutboundSegment] with the
    cipher of the link. *)
Definition prepareM (prepare : (bytes → option bytes) → option bytes → Z → R.Resource → R.Resource * outcome R.resource_error ())
    (r : R.Resource) : M R.Resource :=
  random ← draw; iv ← draw; e ← mget;
  match prepare (λ d, c_encrypt iv d (lk e)) random (resourceSDU (lk e)) r with
  | (r, Ok _) => mret r
  | (_, Err x) => fail (ResourceFailed x)
  | (_, Panic) => lift Panic
  end.

Definition failedM : M () := modify (λ e, set_lk (c_failed (lk e)) e).

(** [SendResource] until it waits for the end of the transfer; true when there is
    nothing to wait for. *)
Definition SendResource (now : Z) (r : R.Resource) : M bool :=
  e ← mget;
  (if c_active (lk e) then mret () else failedM ;; fail LinkNotActive) ;;
  r ← prepareM R.PrepareOutboundForLink r;
  let r := R.Activate r in
  modify (set_outgoing (Some r) 0 (Some false)) ;;
  sent ← attempt (sendResourceAdvertisement now r);
  match sent with
  | None => abandonOutgoing ;; failedM ;; fail SendFailed
  | Some _ =>
      if R.segments r =? 0 then
        sent ← attempt (sendWithContext now [] Packet.ContextResource);
        match sent with
        | None => abandonOutgoing ;; fail SendFailed
        | Some _ => signalOutgoingResourceComplete ;; mret true
        end
      else mret false
  end.
(** The wait ends: with the signal, or after ten minutes. *)
Definition awaitResource : M bool :=
  e ← mget;
  match outgoingResComplete e with
  | Some true => modify (λ e, set_outgoing (outgoingRes e) (outgoingReceiverMinPart e) None e) ;; mret true
  | _ => mret false
  end.
Definition resourceTimeout : M () := abandonOutgoing ;; failedM ;; fail TransferTimeout.

Definition handleResourceProof (now : Z) (data : bytes) : M () :=
  if len data <? 64 then mret ()
  else
    e ← mget;
    match outgoingRes e with
    | None => mret ()
    | Some out =>
        if negb (bool_decide (R.hash out = take 32 data)) then mret ()
        else if negb (bool_decide (R.ExpectedProof out = Some (slice 32 64 data))) then mret ()
        else if R.split out && (R.segmentIndex out <? R.totalSegments out) then
          next ← attempt (prepareM R.PrepareNextOutboundSegment out);
          match next with
          | None => signalOutgoingResourceComplete ;; fail SendFailed
          | Some out =>
              let out := R.Activate out in
              modify (λ e, set_outgoing (Some out) 0 (outgoingResComplete e) e) ;;
              sent ← attempt (sendResourceAdvertisement now out);
              match sent with
              | None => signalOutgoingResourceComplete ;; fail SendFailed
              | Some _ => mret ()
              end
          end
        else signalOutgoingResourceComplete
    end.

(** The requested parts, until one cannot be sent. *)
Fixpoint sendParts (now sdu : Z) (indexes : list Z) (out : R.Resource) : M bool :=
  match indexes with
  | [] => mret true
  | i :: indexes =>
      let part := R.OutboundCiphertextSlice i sdu out in
      if len part =? 0 then sendParts now sdu indexes out
      else
        sent ← attempt (sendWithContext now part Packet.ContextResource);
        match sent with
        | None => mret false
        | Some _ =>
            let out := (R.MarkOutboundPartSent i out).1 in
            modify (λ e, set_outgoing (Some out) (outgoingReceiverMinPart e) (outgoingResComplete e) e) ;;
            sendParts now sdu indexes out
        end
  end.

(** The segment of the hash map after the anchor; [None] when nothing was sent. *)
Definition sendResourceHashmapUpdate (now : Z) (out : R.Resource) (mdu : Z) (anchor : bytes) (receiverMinPart : Z) : M (option Z) :=
  match Rx.chooseHashmapUpdateSegment out mdu anchor receiverMinPart with
  | None => mret None
  | Some (segment, nextMin) =>
      let hashmap := R.HashmapSegment mdu segment out in
      if len hashmap =? 0 then
        notify (CancelledResource (R.Cancel out)) ;; signalOutgoingResourceComplete ;; fail EmptyUpdate
      else
        match marshal (VList [VInt R.Kint segment; VBytes hashmap]) with
        | None => fail PackFailed
        | Some update =>
            sendWithContext now (R.hash out ++ update) Packet.ContextResourceHMU ;;
            mret (Some nextMin)
        end
  end.

Definition dispatchOutgoingResourceRequests (now : Z) (plaintext : bytes) : M () :=
  e ← mget;
  match outgoingRes e with
  | None => mret ()
  | Some out =>
      match Rx.parseRequest plaintext out with
      | None => mret ()
      | Some (anchor, reqHashes) =>
          let lo := outgoingReceiverMinPart e in
          ok ← sendParts now (resourceSDU (lk e)) (Rx.selectRequestedPartIndexes out reqHashes lo) out;
          match ok, anchor with
          | true, Some h =>
              e' ← mget;
              next ← attempt (sendResourceHashmapUpdate now (default out (outgoingRes e')) (c_mdu (lk e)) h lo);
              match next with
              | Some (Some nextMin) =>
                  modify (λ e, match outgoingRes e with
                               | Some out => set_outgoing (Some out) nextMin (outgoingResComplete e) e
                               | None => e
                               end)
              | _ => mret ()
              end
          | _, _ => mret ()
          end
      end
  end.

Definition resourceReqRate : Float64.f64 := Float64.of_Z 128.
Definition resourceReqBurst : Float64.f64 := Float64.of_Z 384.
Definition resourceReqAllowed (now : Z) : M bool :=
  e ← mget;
  let rl := default (Rate.NewLimiter now resourceReqRate resourceReqBurst) (reqLimiter e) in
  let r := Rate.Allow now rl in
  modify (set_limiter (Some r.1)) ;; mret r.2.

Definition handleResourceRequest (now : Z) (data : bytes) : M () :=
  plaintext ← decryptM data;
  e ← mget;
  if bool_decide (is_Some (outgoingRes e)) && (33 <=? len plaintext) then
    ok ← resourceReqAllowed now;
    if ok : bool then dispatchOutgoingResourceRequests now plaintext else mret ()
  else started (StartedRaw plaintext).

Definition handleResourceReject (data : bytes) : M () :=
  plaintext ← decryptM data;
  if len plaintext <? 32 then mret ()
  else
    e ← mget;
    match outgoingRes e with
    | Some out => if bool_decide (R.hash out = take 32 plaintext) then notify (CancelledResource (R.Cancel out)) ;; signalOutgoingResourceComplete else mret ()
    | None => mret ()
    end.

(** ** The end of the link, and tasks *)

(** What [closeOnce] does for requests and resources; between the two steps it
    closes the channels of the link, which may panic. *)
Definition dropAssemblies : M () := modify (λ e, set_store (Split.dropSplitAssemblies (conf e) (store e)).1 e).
Definition closing : M () :=
  dropAssemblies ;;
  failAllPendingRequests ;;
  signalOutgoingResourceComplete.
Definition interrupted : M () := dropAssemblies ;; lift Panic.
Definition Teardown (now : Z) : M () :=
  r ← draw; e ← mget;
  let t := c_teardown (mkIO now r) (lk e) in
  modify (set_lk t.1) ;;
  match t.2 with
  | None => interrupted
  | Some closed => (if closed : bool then closing else mret ()) ;; resetIncomingResource
  end.

(** A bad advertisement closes the link. *)
Definition orTeardown (now : Z) (m : M ()) : M () := λ e,
  match m e with
  | (e, Err x) => let t := Teardown now e in (t.1, match t.2 with Panic => Panic | _ => Err x end)
  | r => r
  end.
Definition handleResourceAdvertisement (now : Z) (data : bytes) : M () :=
  plaintext ← decryptM data;
  orTeardown now (processResourceAdvertisement now plaintext).

(** One look of the goroutine that waits for a request to end, after its timeout;
    the result is the goroutine if it goes on. *)
Definition timeoutStep (now : Z) (i : nat) (unbound : option Z) : M (option task) :=
  e ← mget;
  match receipts e !! i with
  | None => mret None
  | Some q =>
      match q_status q with
      | RPending => abortResponseResourceFor now i ;; failPendingRequest i ;; mret None
      | RReceiving =>
          if bool_decide (incomingRx e ≫= Rx.rx_request = Some i) then mret (Some (Timeout i None))
          else
            match unbound with
            | None => mret (Some (Timeout i (Some now)))
            | Some t =>
                if q_timeout q <? now - t then failPendingRequest i ;; mret None
                else mret (Some (Timeout i (Some t)))
            end
      | _ => mret None
      end
  end.


(** ** Histories of a link *)

(** The end of a send: the mutex is released, a request whose resource could not be
    sent fails and one whose resource has arrived waits for its response, and the
    slot is given back. *)
Definition finishSend (s : sender) (ok : bool) : M () :=
  modify (set_sendMu false) ;;
  match s with
  | App => mret ()
  | Reply => releaseResourceSendSlot
  | Requester i => (if ok then spawn (Timeout i None) else failPendingRequest i) ;; releaseResourceSendSlot
  end.
(** A sender waits for [resourceSendMu], then sends. *)
Definition runSend (now : Z) (r : R.Resource) (s : sender) : M () :=
  e ← mget;
  if sendMu e then spawn (SendRes r s)
  else
    modify (set_sendMu true) ;;
    sent ← attempt (SendResource now r);
    match sent with
    | Some false => spawn (AwaitRes s)
    | Some true => finishSend s true
    | None => finishSend s false
    end.
(** A sender that waits; [late] when its timer is taken. *)
Definition runAwait (late : bool) (s : sender) : M () :=
  if late then _ ← attempt resourceTimeout; finishSend s false
  else
    signalled ← awaitResource;
    if signalled : bool then finishSend s true else spawn (AwaitRes s).

Definition runTask (now : Z) (late : bool) (t : task) : M () :=
  match t with
  | ReqNext => _ ← attempt (sendIncomingResourceReqNext now); mret ()
  | Prefetch => _ ← attempt (sendIncomingResourceHMUPrefetch now); mret ()
  | Watch k => again ← tickIncomingResourceWatchdog now k; if again : bool then spawn (Watch k) else mret ()
  | Timeout i unbound => next ← timeoutStep now i unbound; match next with Some t => spawn t | None => mret () end
  | SendRes r s => runSend now r s
  | AwaitRes s => runAwait late s
  end.

(** What can happen on a link: calls of the application (a callback is set or, with
    nil, removed), packets of the peer, steps of the goroutines, and what the link
    below does by itself: it changes, or its peer or its watchdog closes it. *)
Inductive op :=
  | Request (path : bytes) (data : value) (timeout maxResponseSize : Z)
  | Send (r : R.Resource)
  | OnResponded (i : nat) (cb : bool) | OnFailed (i : nat) (cb : bool) | OnProgress (i : nat) (cb : bool)
  | InRequest (plaintext requestID : bytes) | InResponse (plaintext : bytes)
  | InAdvertisement (data : bytes) | InHashmapUpdate (data : bytes) | InPart (data : bytes) | InCancel (data : bytes)
  | InPartRequest (data : bytes) | InReject (data : bytes) | InProof (data : bytes)
  | Close
  | Below (l : Lk) (closed : bool)
  | Run (k : nat) (late : bool).

Definition perform (now : Z) (o : op) : M () :=
  match o with
  | Request path data timeout maxResponseSize => _ ← RequestLimited now path data timeout maxResponseSize; mret ()
  | Send r => spawn (SendRes r App)
  | OnResponded i cb => SetResponseCallback i cb
  | OnFailed i cb => SetFailedCallback i cb
  | OnProgress i cb => SetProgressCallback i cb
  | InRequest plaintext requestID => handleRequest now plaintext requestID
  | InResponse plaintext => handleResponse now plaintext
  | InAdvertisement data => handleResourceAdvertisement now data
  | InHashmapUpdate data => handleResourceHashmapUpdate now data
  | InPart data => handleResourcePart now data
  | InCancel data => handleResourceCancel now data
  | InPartRequest data => handleResourceRequest now data
  | InReject data => handleResourceReject data
  | InProof data => handleResourceProof now data
  | Close => Teardown now
  | Below l closed => modify (set_lk l) ;; (if closed then closing else mret ())
  | Run k late =>
      e ← mget;
      match tasks e !! k with
      | None => mret ()
      | Some t => modify (λ e, set_tasks (delete k (tasks e)) e) ;; runTask now late t
      end
  end.

(** The link after a sequence of operations, each at its moment. *)
Definition run (ops : list (Z * op)) (e : Engine) : Engine := foldl (λ e o, (perform o.1 o.2 e).1) e ops.
End transfers.

(** ** Theorems *)

(** *** The requests of a link *)

Definition answers (i : nat) (v : event) : bool := match v with Responded j => bool_decide (i = j) | _ => false end.
Definition fails (i : nat) (v : event) : bool := match v with FailedRequest j => bool_decide (i = j) | _ => false end.
Definition tally (p : event → bool) (evs : list event) : nat := length (filter (λ v, p v) evs).

(** How often the callbacks of a receipt have been called. *)
Definition answered (q : RequestReceipt) : nat := if bool_decide (q_status q = RActive) && q_responseCb q then 1 else 0.
Definition failed (q : RequestReceipt) : nat := if bool_decide (q_status q = RFailed) && q_failedCb q then 1 else 0.

(** What holds of the receipts [rs], the pending ones [ps] and the events: the
    pending requests are the unconcluded ones, at most eight and for different
    paths; who waits for a receipt is released exactly when it is concluded; the
    callbacks have fired once for a receipt concluded their way, unless they may
    have been removed ([D]), and never for another. *)
Record reqs (D : nat → bool) (rs : list RequestReceipt) (ps : list nat) (evs : list event) : Prop := {
  k_nodup : NoDup ps;
  k_few : len ps <= MaxPendingRequests;
  k_pending : ∀ i, i ∈ ps ↔ ∃ q, rs !! i = Some q ∧ unconcluded q = true;
  k_paths : ∀ i j p q, i ∈ ps → j ∈ ps → rs !! i = Some p → rs !! j = Some q → q_pathHash p = q_pathHash q → i = j;
  k_hashed : ∀ i q, rs !! i = Some q → q_pathHash q ≠ [];
  k_done : ∀ i q, rs !! i = Some q → q_done q = Concluded q;
  k_answers : ∀ i, D i = false → tally (answers i) evs = from_option answered 0%nat (rs !! i);
  k_fails : ∀ i, D i = false → tally (fails i) evs = from_option failed 0%nat (rs !! i);
  k_unanswered : ∀ i, (∀ q, rs !! i = Some q → q_status q ≠ RActive) → tally (answers i) evs = 0%nat;
  k_unfailed : ∀ i, (∀ q, rs !! i = Some q → q_status q ≠ RFailed) → tally (fails i) evs = 0%nat
}.

Lemma tally_app p a b : tally p (a ++ b) = (tally p a + tally p b)%nat.
Proof. unfold tally. by rewrite list.filter_app, length_app. Qed.

Lemma removeFirst_subset i j l : j ∈ removeFirst i l → j ∈ l.
Proof. induction l as [|k l IH]; simpl; [done|]. case_bool_decide; rewrite ?elem_of_cons; naive_solver. Qed.
Lemma removeFirst_other i j l : i ≠ j → j ∈ l → j ∈ removeFirst i l.
Proof. intros Hne. induction l as [|k l IH]; simpl; [done|]. case_bool_decide; rewrite ?elem_of_cons; naive_solver. Qed.
Lemma removeFirst_nodup i l : NoDup l → NoDup (removeFirst i l) ∧ i ∉ removeFirst i l.
Proof.
  induction l as [|k l IH]; simpl; [intros _; split; [constructor|by intros ?%elem_of_nil]|]. intros [Hk Hl]%list.NoDup_cons.
  destruct (IH Hl) as [H1 H2]. case_bool_decide as E; [by subst|]. split.
  - constructor; [|done]. by intros ?%removeFirst_subset.
  - rewrite elem_of_cons. naive_solver.
Qed.
Lemma removeFirst_len i l : len (removeFirst i l) <= len l.
Proof. induction l as [|k l IH]; simpl; [done|]. case_bool_decide; rewrite ?len_cons; lia. Qed.

Lemma lookup_alter_if {A} (f : A → A) (i : nat) (l : list A) (j : nat) :
  alter f i l !! j = (λ a, if bool_decide (i = j) then f a else a) <$> l !! j.
Proof.
  case_bool_decide; [subst; by rewrite list_lookup_alter_eq|rewrite list_lookup_alter_ne by done]. by destruct (l !! j).
Qed.

Lemma unconcluded_negb q : Concluded q = negb (unconcluded q).
Proof. unfold unconcluded, Concluded. by destruct (q_status q). Qed.
Lemma unconcluded_status q : unconcluded q = true → q_status q ≠ RActive ∧ q_status q ≠ RFailed.
Proof. unfold unconcluded. by destruct (q_status q). Qed.
Lemma owes_status q : (q_status q ≠ RActive → answered q = 0%nat) ∧ (q_status q ≠ RFailed → failed q = 0%nat).
Proof. unfold answered, failed. by destruct (q_status q). Qed.
Lemma unconcluded_owes q : unconcluded q = true → answered q = 0%nat ∧ failed q = 0%nat.
Proof. unfold unconcluded, answered, failed. by destruct (q_status q). Qed.

Section reqs.
Context (D : nat → bool).

(** The calls [h] of a receipt, of which there are [g], after the receipt [i] has
    been changed by [f] with the events [new]. *)
Lemma tally_changed (h : nat → event → bool) g (rs : list RequestReceipt) evs i q f new :
  rs !! i = Some q → (g q <= g (f q))%nat → (∀ j, tally (h j) new = if bool_decide (i = j) then g (f q) - g q else 0)%nat →
  ∀ j, tally (h j) evs = from_option g 0%nat (rs !! j) → tally (h j) (evs ++ new) = from_option g 0%nat (alter f i rs !! j).
Proof.
  intros Hi Hle HN j E. rewrite tally_app, E, HN, lookup_alter_if. destruct (bool_decide_reflect (i = j)) as [<-|].
  - rewrite Hi. simpl. lia.
  - by rewrite option_fmap_id, Nat.add_0_r.
Qed.
Lemma tally_silent (h : nat → event → bool) g st (rs : list RequestReceipt) evs i q f new :
  rs !! i = Some q → (unconcluded q = false → q_status (f q) = q_status q) → st = RActive ∨ st = RFailed →
  (q_status (f q) ≠ st → g (f q) = 0%nat) → (∀ j, tally (h j) new = if bool_decide (i = j) then g (f q) - g q else 0)%nat →
  (∀ j, (∀ p, rs !! j = Some p → q_status p ≠ st) → tally (h j) evs = 0%nat) →
  ∀ j, (∀ p, alter f i rs !! j = Some p → q_status p ≠ st) → tally (h j) (evs ++ new) = 0%nat.
Proof.
  intros Hi Hst Hs Hg HN Hold j Hj. rewrite lookup_alter_if in Hj. destruct (decide (i = j)) as [Ej|Hne].
  - subst j. rewrite Hi in Hj. rewrite bool_decide_eq_true_2 in Hj by done.
    pose proof (Hj (f q) eq_refl) as Hf. rewrite tally_app, HN, bool_decide_eq_true_2, Hg by done. rewrite Hold; [done|].
    intros p Hp Ha. assert (p = q) as -> by congruence. apply Hf. rewrite Hst; [done|]. unfold unconcluded. rewrite Ha. by destruct Hs as [-> | ->].
  - rewrite bool_decide_eq_false_2, option_fmap_id in Hj by done. by rewrite tally_app, HN, bool_decide_eq_false_2, Hold.
Qed.

(** The receipt [i] is changed by [f], with the events [new]; [ps'] are the pending
    ones then. *)
Lemma reqs_change rs ps ps' evs i q f new :
  rs !! i = Some q → (unconcluded q = false → q_status (f q) = q_status q) → q_done (f q) = Concluded (f q) →
  q_pathHash (f q) = q_pathHash q →
  (∀ j, tally (answers j) new = if bool_decide (i = j) then answered (f q) - answered q else 0)%nat →
  (∀ j, tally (fails j) new = if bool_decide (i = j) then failed (f q) - failed q else 0)%nat →
  (answered q <= answered (f q) ∧ failed q <= failed (f q))%nat →
  ps' = (if unconcluded q && negb (unconcluded (f q)) then removeFirst i ps else ps) →
  reqs D rs ps evs → reqs D (alter f i rs) ps' (evs ++ new).
Proof.
  intros Hi Hst Hd Hp HA HF Hle Hps []. pose proof (lookup_alter_if f i rs) as Hr.
  assert (Hu : unconcluded (f q) = true → unconcluded q = true).
  { intros Hf. destruct (unconcluded q) eqn:Eq; [done|]. unfold unconcluded in Hf, Eq. rewrite Hst in Hf by done. congruence. }
  assert (Hsub : NoDup ps' ∧ len ps' <= len ps ∧ ∀ j, j ∈ ps' → j ∈ ps).
  { subst ps'. destruct (_ && _); [|split_and!; done || lia].
    split_and!; [by apply removeFirst_nodup|apply removeFirst_len|intros j; apply removeFirst_subset]. }
  destruct Hsub as (Hnd & Hlen & Hsub).
  assert (Hl : ∀ j p, alter f i rs !! j = Some p → i = j ∧ p = f q ∨ i ≠ j ∧ rs !! j = Some p).
  { intros j p. rewrite Hr. intros (p0 & Hp0 & ->)%fmap_Some. destruct (bool_decide_reflect (i = j)) as [<-|]; [left|by right].
    by simplify_eq. }
  assert (Hl' : ∀ j p, alter f i rs !! j = Some p → ∃ p', rs !! j = Some p' ∧ q_pathHash p = q_pathHash p').
  { intros j p [[<- ->]|[_ HS]]%Hl; eauto. }
  split; try done.
  - lia.
  - intros j. destruct (decide (i = j)) as [<-|Hne].
    + transitivity (unconcluded (f q) = true).
      * subst ps'. destruct (unconcluded q) eqn:Eq, (unconcluded (f q)) eqn:Ef; simpl.
        -- split; [done|]. intros _. apply k_pending0. eauto.
        -- split; [|done]. intros Hin. by apply (proj2 (removeFirst_nodup i ps k_nodup0)) in Hin.
        -- by discriminate Hu.
        -- split; [|done]. intros (? & ? & ?)%k_pending0. congruence.
      * split; [intros Hx; exists (f q); split; [|done]; rewrite Hr, Hi, bool_decide_eq_true_2 by done; done|].
        intros (p & [[_ ->]|[? _]]%Hl & Hp2); done.
    + transitivity (j ∈ ps).
      * split; [apply Hsub|]. subst ps'. destruct (_ && _); [by apply removeFirst_other|done].
      * rewrite k_pending0, Hr, bool_decide_eq_false_2, option_fmap_id by done. done.
  - intros j k p p' Hj%Hsub Hk%Hsub (p1 & Hp1 & ->)%Hl' (p2 & Hp2 & ->)%Hl'. by eapply k_paths0.
  - intros j p (p1 & Hp1 & ->)%Hl'. by eapply k_hashed0.
  - intros j p [[_ ->]|[_ HS]]%Hl; [done|by eapply k_done0].
  - intros j HD. eapply tally_changed; [done|lia|exact HA|by apply k_answers0].
  - intros j HD. eapply tally_changed; [done|lia|exact HF|by apply k_fails0].
  - eapply tally_silent; [done|done|by left|apply owes_status|exact HA|done].
  - eapply tally_silent; [done|done|by right|apply owes_status|exact HF|done].
Qed.

(** A callback of [i] is removed. *)
Lemma reqs_remove rs ps evs i r f p :
  D i = true → reqs D rs ps evs → reqs D (alter (λ q, set_callbacks (r q) (f q) (p q) q) i rs) ps evs.
Proof.
  intros HDi []. pose proof (lookup_alter_if (λ q, set_callbacks (r q) (f q) (p q) q) i rs) as Hr.
  set (g := λ q, set_callbacks (r q) (f q) (p q) q) in *.
  assert (Hg : ∀ j q, alter g i rs !! j = Some q → ∃ q0, rs !! j = Some q0 ∧ q_status q = q_status q0
    ∧ q_pathHash q = q_pathHash q0 ∧ q_done q = q_done q0).
  { intros j q. rewrite Hr. intros (q0 & Hq0 & ->)%fmap_Some. exists q0. by case_bool_decide. }
  assert (Hg' : ∀ j q0, rs !! j = Some q0 → ∃ q, alter g i rs !! j = Some q ∧ q_status q = q_status q0).
  { intros j q0 Hq0. rewrite Hr, Hq0. simpl. eexists. split; [done|]. by case_bool_decide. }
  assert (Hj : ∀ j, D j = false → alter g i rs !! j = rs !! j).
  { intros j HDj. rewrite Hr, bool_decide_eq_false_2 by congruence. by rewrite option_fmap_id. }
  split; try done.
  - intros j. rewrite k_pending0. split.
    + intros (q0 & Hq0 & Hu). destruct (Hg' j q0 Hq0) as (q & Hq & Es). exists q. split; [done|]. unfold unconcluded in *. by rewrite Es.
    + intros (q & Hq & Hu). destruct (Hg j q Hq) as (q0 & Hq0 & Es & _). exists q0. split; [done|]. unfold unconcluded in *. by rewrite <- Es.
  - intros a b qa qb Ha Hb (qa0 & Hqa & _ & -> & _)%Hg (qb0 & Hqb & _ & -> & _)%Hg. by eapply k_paths0.
  - intros a q (q0 & Hq & _ & -> & _)%Hg. by eapply k_hashed0.
  - intros a q (q0 & Hq & Es & _ & ->)%Hg. rewrite (k_done0 a q0) by done. unfold Concluded. by rewrite Es.
  - intros j HDj. rewrite Hj by done. by apply k_answers0.
  - intros j HDj. rewrite Hj by done. by apply k_fails0.
  - intros j Hn. apply k_unanswered0. intros q0 Hq0. destruct (Hg' j q0 Hq0) as (q & Hq & <-). by apply Hn.
  - intros j Hn. apply k_unfailed0. intros q0 Hq0. destruct (Hg' j q0 Hq0) as (q & Hq & <-). by apply Hn.
Qed.

(** Events that are no outcome of a request. *)
Lemma reqs_events rs ps evs new :
  (∀ i, tally (answers i) new = 0%nat ∧ tally (fails i) new = 0%nat) → reqs D rs ps evs → reqs D rs ps (evs ++ new).
Proof.
  intros Hn []. split; try done; intros i; rewrite tally_app; destruct (Hn i) as [E1 E2]; rewrite ?E1, ?E2, Nat.add_0_r; auto.
Qed.

(** A new receipt, for a path no pending request has. *)
Lemma reqs_register rs ps evs q :
  len ps < MaxPendingRequests → unconcluded q = true → q_done q = false → q_pathHash q ≠ [] →
  (∀ i p, i ∈ ps → rs !! i = Some p → q_pathHash p ≠ q_pathHash q) →
  reqs D rs ps evs → reqs D (rs ++ [q]) (ps ++ [length rs]) evs.
Proof.
  intros Hl Hu Hd Hp Hpath []. pose proof (λ j, lookup_app_Some rs [q] j) as Happ.
  assert (Hbound : ∀ i, i ∈ ps → (i < length rs)%nat) by (intros i (? & ?%lookup_lt_Some & _)%k_pending0; done).
  assert (Hlk : ∀ j p, (rs ++ [q]) !! j = Some p → rs !! j = Some p ∨ (j = length rs ∧ p = q ∧ rs !! j = None)).
  { intros j p. rewrite lookup_app. destruct (rs !! j) as [p0|] eqn:E; [intros [= <-]; by left|].
    intros HE. right. apply lookup_ge_None_1 in E as Hge. pose proof (lookup_lt_Some _ _ _ HE) as Hlt. simpl in Hlt.
    assert (Hj : j = length rs) by lia. split; [done|]. split; [|done]. subst j. rewrite Nat.sub_diag in HE. by injection HE. }
  split; try done.
  - apply list.NoDup_app. split_and!; [done| |apply NoDup_singleton]. intros i Hi%Hbound ->%list_elem_of_singleton. lia.
  - rewrite len_app. change (len [length rs]) with 1. lia.
  - intros i. rewrite elem_of_app, list_elem_of_singleton. split.
    + intros [(p & Hp1 & Hp2)%k_pending0| ->]; [exists p|exists q]; (split; [|done]).
      * by apply lookup_app_l_Some.
      * by rewrite lookup_app_r, Nat.sub_diag by lia.
    + intros (p & [Hp1|(-> & -> & _)]%Hlk & Hp2); [left|by right]. apply k_pending0. eauto.
  - assert (Hin : ∀ i p, i ∈ ps ++ [length rs] → (rs ++ [q]) !! i = Some p → i = length rs ∧ p = q ∨ i ∈ ps ∧ rs !! i = Some p).
    { intros i p Hi [HS|(-> & -> & _)]%Hlk; [|by left]. right. split; [|done].
      apply elem_of_app in Hi as [?| ->%list_elem_of_singleton]; [done|]. apply lookup_lt_Some in HS. lia. }
    intros i j p p' Hi Hj Hip Hjp Heq. destruct (Hin i p Hi Hip) as [[-> ->]|[Hi1 Hi2]], (Hin j p' Hj Hjp) as [[-> ->]|[Hj1 Hj2]].
    + done.
    + by destruct (Hpath j p').
    + by destruct (Hpath i p).
    + by eapply k_paths0.
  - intros i p [HS|(_ & -> & _)]%Hlk; [by eapply k_hashed0|done].
  - intros i p [HS|(_ & -> & _)]%Hlk; [by eapply k_done0|]. rewrite Hd. revert Hu. unfold unconcluded, Concluded. by destruct (q_status q).
  - intros i HD. rewrite k_answers0 by done. destruct (rs !! i) as [p|] eqn:E; [by rewrite (lookup_app_l_Some _ _ _ _ E)|].
    destruct ((rs ++ [q]) !! i) as [p|] eqn:E1; [|done]. apply Hlk in E1 as [?|(_ & -> & _)]; [congruence|].
    simpl. by destruct (unconcluded_owes q Hu).
  - intros i HD. rewrite k_fails0 by done. destruct (rs !! i) as [p|] eqn:E; [by rewrite (lookup_app_l_Some _ _ _ _ E)|].
    destruct ((rs ++ [q]) !! i) as [p|] eqn:E1; [|done]. apply Hlk in E1 as [?|(_ & -> & _)]; [congruence|].
    simpl. by destruct (unconcluded_owes q Hu).
  - intros i Hn. apply k_unanswered0. intros p Hp1. apply Hn. by apply lookup_app_l_Some.
  - intros i Hn. apply k_unfailed0. intros p Hp1. apply Hn. by apply lookup_app_l_Some.
Qed.

(** A receipt is concluded. *)
Lemma reqs_settle rs ps evs i q f new :
  rs !! i = Some q → unconcluded q = true → unconcluded (f q) = false → q_done (f q) = true → q_pathHash (f q) = q_pathHash q →
  (∀ j, tally (answers j) new = if bool_decide (i = j) then answered (f q) else 0)%nat →
  (∀ j, tally (fails j) new = if bool_decide (i = j) then failed (f q) else 0)%nat →
  reqs D rs ps evs → reqs D (alter f i rs) (removeFirst i ps) (evs ++ new).
Proof.
  intros Hi Hu Hc Hd Hp HA HF. destruct (unconcluded_owes q Hu) as [Ha Hf]. eapply reqs_change; try done.
  - congruence.
  - by rewrite Hd, unconcluded_negb, Hc.
  - intros j. by rewrite HA, Ha, Nat.sub_0_r.
  - intros j. by rewrite HF, Hf, Nat.sub_0_r.
  - rewrite Ha, Hf. lia.
  - by rewrite Hu, Hc.
Qed.

(** A change of receipts that concludes none. *)
Definition unaffected (f : RequestReceipt → RequestReceipt) (q : RequestReceipt) : Prop :=
  (unconcluded q = false → q_status (f q) = q_status q) ∧ unconcluded (f q) = unconcluded q
  ∧ answered (f q) = answered q ∧ failed (f q) = failed q ∧ q_pathHash (f q) = q_pathHash q ∧ q_done (f q) = q_done q.

Lemma reqs_update rs ps evs i f :
  (∀ q, rs !! i = Some q → unaffected f q) →
  reqs D rs ps evs → reqs D (alter f i rs) ps evs.
Proof.
  intros Hf HR. destruct (rs !! i) as [q|] eqn:E.
  - destruct (Hf q eq_refl) as (H0 & H1 & H2 & H3 & H4 & H5). rewrite <- (app_nil_r evs). eapply reqs_change; try done.
    + rewrite H5, unconcluded_negb, H1, <- unconcluded_negb. by eapply k_done.
    + intros j. rewrite H2, Nat.sub_diag. by case_bool_decide.
    + intros j. rewrite H3, Nat.sub_diag. by case_bool_decide.
    + by rewrite H2, H3.
    + rewrite H1. by destruct (unconcluded q).
  - replace (alter f i rs) with rs; [done|]. apply list_eq. intros j. rewrite lookup_alter_if.
    destruct (bool_decide_reflect (i = j)) as [<-|]; [by rewrite E|by rewrite option_fmap_id].
Qed.

End reqs.

Section histories.
Context `{CarrierLaws} `{Codec} `{EngineEnv} `{R.Bzip2Stream} `{R.Msgpack}.
(** The receipts whose callbacks may be removed. *)
Context (D : nat → bool).
Notation M := (goM Engine engine_error).

Lemma keeps_attempt {A} (I : Engine → Prop) (m : M A) : keeps I m → keeps I (attempt m).
Proof. intros Hm e He. specialize (Hm e He). unfold attempt. by destruct (m e) as [e' [a|x|]]. Qed.

(** A predicate of the receipts, the pending ones and the events alone is kept by
    what changes none of them. *)
Definition reqs_ok (e : Engine) : Prop := reqs D (receipts e) (pendingRequests e) (events e).

Lemma notify_reqs v : (∀ i, answers i v = false ∧ fails i v = false) → keeps reqs_ok (notify v).
Proof.
  intros Hv. apply keeps_modify. intros e. apply reqs_events. intros i. destruct (Hv i) as [E1 E2].
  unfold tally. rewrite !filter_cons, E1, E2. done.
Qed.

Lemma failPendingRequest_reqs i : keeps reqs_ok (failPendingRequest i).
Proof.
  intros e He. unfold failPendingRequest. unfold mbind at 1, goM_bind, mget. simpl.
  destruct (receipts e !! i) as [q|] eqn:Ei; [|done]. destruct (unconcluded q) eqn:Eu; simpl; [|done].
  assert (HR : reqs D (alter (set_status RFailed true) i (receipts e)) (removeFirst i (pendingRequests e))
                 (events e ++ if q_failedCb q then [FailedRequest i] else [])).
  { eapply reqs_settle; try done; intros j; unfold failed; simpl; destruct (q_failedCb q); try (by case_bool_decide).
    unfold tally. rewrite filter_cons. simpl. rewrite (bool_decide_ext (i = j) (j = i)) by done. by case_bool_decide. }
  destruct (q_failedCb q); [done|]. by rewrite app_nil_r in HR.
Qed.

Lemma concludeReceipt_reqs now i response v meta progress : keeps reqs_ok (concludeReceipt now i response v meta progress).
Proof.
  intros e He. unfold concludeReceipt. unfold mbind at 1, goM_bind, mget. simpl.
  destruct (receipts e !! i) as [q|] eqn:Ei; [|done]. destruct (unconcluded q) eqn:Eu; simpl; [|done].
  assert (HR : reqs D (alter (set_response now response v meta) i (receipts e)) (removeFirst i (pendingRequests e))
                 (events e ++ (if progress && q_progressCb q then [Progressed i] else []) ++ if q_responseCb q then [Responded i] else [])).
  { eapply reqs_settle; try done; intros j; rewrite tally_app; unfold answered; simpl; destruct (progress && q_progressCb q), (q_responseCb q); try (by case_bool_decide).
    all: unfold tally; rewrite !filter_cons; simpl. all: rewrite (bool_decide_ext (i = j) (j = i)) by done; by case_bool_decide. }
  revert HR. destruct (progress && q_progressCb q), (q_responseCb q); rewrite ?app_nil_l, ?app_nil_r, ?app_assoc; intros HR; exact HR.
Qed.

Lemma updReceipt_reqs i f :
  (∀ q, unaffected f q) → keeps reqs_ok (updReceipt i f).
Proof. intros Hf. apply keeps_modify. intros e. apply reqs_update. intros q _. apply Hf. Qed.

Lemma callback_reqs (m : M ()) i f v (c : RequestReceipt → bool) :
  m = (e ← mget; match receipts e !! i with
                 | None => mret ()
                 | Some q => updReceipt i f ;; (if c q then notify v else mret ())
                 end) →
  (∀ q, q_status (f q) = q_status q ∧ q_pathHash (f q) = q_pathHash q ∧ q_done (f q) = q_done q
        ∧ answered (f q) = (answered q + if c q && answers i v then 1 else 0)%nat
        ∧ failed (f q) = (failed q + if c q && fails i v then 1 else 0)%nat) →
  (∀ j, i ≠ j → answers j v = false ∧ fails j v = false) → keeps reqs_ok m.
Proof.
  intros -> Hf Hv e He. unfold mbind at 1, goM_bind, mget. simpl. destruct (receipts e !! i) as [q|] eqn:Ei; [|done].
  destruct (Hf q) as (F0 & F2 & F3 & F4 & F5).
  assert (F1 : unconcluded (f q) = unconcluded q) by (unfold unconcluded; by rewrite F0).
  assert (HR : reqs D (alter f i (receipts e)) (pendingRequests e) (events e ++ if c q then [v] else [])).
  { eapply reqs_change; try done.
    - rewrite F3, unconcluded_negb, F1, <- unconcluded_negb. by eapply k_done.
    - intros j. destruct (bool_decide_reflect (i = j)) as [<-|Hne]; [rewrite F4|destruct (Hv j Hne) as [E1 E2]]; unfold tally;
        destruct (c q); simpl; rewrite ?filter_cons, ?E1; simpl; destruct (answers i v); simpl; lia.
    - intros j. destruct (bool_decide_reflect (i = j)) as [<-|Hne]; [rewrite F5|destruct (Hv j Hne) as [E1 E2]]; unfold tally;
        destruct (c q); simpl; rewrite ?filter_cons, ?E2; simpl; destruct (fails i v); simpl; lia.
    - lia.
    - rewrite F1. by destruct (unconcluded q). }
  destruct (c q); [done|]. by rewrite app_nil_r in HR.
Qed.

Lemma SetResponseCallback_reqs i cb : cb = true ∨ D i = true → keeps reqs_ok (SetResponseCallback i cb).
Proof.
  destruct cb; cycle 1.
  { intros [?|HD]; [done|]. intros e He. unfold SetResponseCallback. unfold mbind at 1, goM_bind, mget. simpl.
    destruct (receipts e !! i) as [q|]; [|done]. rewrite andb_false_r. simpl.
    exact (reqs_remove D _ _ _ i (λ _, false) q_failedCb q_progressCb HD He). }
  intros _. eapply (callback_reqs _ i _ (Responded i) (λ q, bool_decide (q_status q = RActive) && true && negb (q_responseCb q))); [done| |].
  - intros q. split_and!; try done; unfold answered, failed; simpl; rewrite ?(bool_decide_eq_true_2 (i = i)) by done.
    + rewrite !andb_true_r. case_bool_decide; by destruct (q_responseCb q).
    + rewrite !andb_false_r. simpl. lia.
  - intros j Hne. simpl. by rewrite bool_decide_eq_false_2 by congruence.
Qed.
Lemma SetFailedCallback_reqs i cb : cb = true ∨ D i = true → keeps reqs_ok (SetFailedCallback i cb).
Proof.
  destruct cb; cycle 1.
  { intros [?|HD]; [done|]. intros e He. unfold SetFailedCallback. unfold mbind at 1, goM_bind, mget. simpl.
    destruct (receipts e !! i) as [q|]; [|done]. rewrite andb_false_r. simpl.
    exact (reqs_remove D _ _ _ i q_responseCb (λ _, false) q_progressCb HD He). }
  intros _. eapply (callback_reqs _ i _ (FailedRequest i) (λ q, bool_decide (q_status q = RFailed) && true && negb (q_failedCb q))); [done| |].
  - intros q. split_and!; try done; unfold answered, failed; simpl; rewrite ?(bool_decide_eq_true_2 (i = i)) by done.
    + rewrite !andb_false_r. simpl. lia.
    + rewrite !andb_true_r. case_bool_decide; by destruct (q_failedCb q).
  - intros j Hne. simpl. by rewrite bool_decide_eq_false_2 by congruence.
Qed.

Lemma registerPendingRequest_reqs q :
  q_status q = RPending → q_done q = false → q_pathHash q ≠ [] → keeps reqs_ok (registerPendingRequest q).
Proof.
  intros Hs Hd Hp e He. unfold registerPendingRequest. unfold mbind at 1, goM_bind, mget. simpl.
  destruct (Z.leb_spec MaxPendingRequests (len (pendingRequests e))) as [|Hlt]; simpl; [done|].
  destruct (_ && _) eqn:Ed; simpl; [done|].
  apply (reqs_register D (receipts e) (pendingRequests e) (events e) q); try done; [unfold unconcluded; by rewrite Hs|].
  intros i p Hi HS Heq. apply andb_false_iff in Ed as [Ed|Ed].
  - apply Z.ltb_ge in Ed. destruct (q_pathHash q); [done|]. rewrite len_cons in Ed. pose proof (len_nonneg l). lia.
  - apply not_true_iff_false in Ed. apply Ed, existsb_exists. exists i. split; [by apply list_elem_of_In|].
    rewrite HS. by apply bool_decide_eq_true.
Qed.

(** *** The whole link *)

(** The goroutines that see to the end of the request [i], hold a slot, and hold the
    mutex of the senders. *)
Definition watches (i : nat) (t : task) : bool :=
  match t with
  | Timeout j _ | SendRes _ (Requester j) | AwaitRes (Requester j) => bool_decide (i = j)
  | _ => false
  end.
Definition holdsSlot (t : task) : bool :=
  match t with SendRes _ App | AwaitRes App => false | SendRes _ _ | AwaitRes _ => true | _ => false end.
Definition awaits (t : task) : bool := match t with AwaitRes _ => true | _ => false end.
Definition number (p : task → bool) (ts : list task) : Z := len (filter (λ t, p t) ts).

(** Inside an operation the requests [ex] may be unwatched, [k] slots and [m] times
    the mutex be held by the goroutine that runs; [held] when a transfer is under way whose
    sender has not been told of its end. *)
Record inv (ex : list nat) (k m : Z) (held : bool) (e : Engine) : Prop := {
  v_reqs : reqs_ok e;
  v_watched : ∀ i, i ∈ pendingRequests e → i ∉ ex → Exists (λ t, watches i t = true) (tasks e);
  v_slots : resSendInflight e = number holdsSlot (tasks e) + k;
  v_few : resSendInflight e <= MaxPendingResourceSends;
  v_mutex : number awaits (tasks e) + m = if sendMu e then 1 else 0;
  v_out : is_Some (outgoingRes e) → sendMu e = true;
  v_signalled : outgoingResComplete e = Some true → outgoingRes e = None;
  v_held : held = true → sendMu e = true ∧ outgoingResComplete e ≠ Some true;
  v_rx : ∀ x, incomingRx e = Some x → Rx.rx_ok x;
  v_closable : c_closable (lk e)
}.

Lemma number_app p a b : number p (a ++ b) = number p a + number p b.
Proof. unfold number. by rewrite list.filter_app, len_app. Qed.
Lemma number_one p t : number p [t] = if p t then 1 else 0.
Proof. unfold number. rewrite filter_cons. by destruct (p t). Qed.

Section kept.
Context (ex : list nat) (k m : Z) (held : bool).
Notation I := (inv ex k m held).

(** What the invariant does not look at. *)
Lemma set_lk_inv v e : c_closable v → I e → I (set_lk v e).
Proof. intros Hv []. by split. Qed.
Lemma draw_inv : keeps I draw.
Proof. unfold draw. keeps_reading. match goal with HI : I _ |- _ => destruct HI end. by split. Qed.
Lemma encryptM_inv d : keeps I (encryptM d).
Proof. unfold encryptM. pose proof draw_inv. keeps_reading. Qed.
Lemma decryptM_inv d : keeps I (decryptM d).
Proof. unfold decryptM. keeps_reading. Qed.
Lemma packM_inv t c d : keeps I (packM t c d).
Proof. unfold packM. keeps_reading. Qed.
Lemma sendPacket_inv p : keeps I (sendPacket p).
Proof. intros e HI. by apply set_lk_inv; [apply closable_sendPacket, HI|]. Qed.
Lemma recordM_inv now b : keeps I (recordM now b).
Proof. intros e HI. by apply set_lk_inv; [apply closable_record, HI|]. Qed.
Lemma failedM_inv : keeps I failedM.
Proof. intros e HI. by apply set_lk_inv; [apply closable_failed, HI|]. Qed.
Lemma sendWithContext_inv now d c : keeps I (sendWithContext now d c).
Proof.
  unfold sendWithContext. apply keeps_bind; [apply draw_inv|]. intros rd e HI.
  by apply set_lk_inv; [apply closable_send, HI|].
Qed.

Lemma notify_inv v : (∀ i, answers i v = false ∧ fails i v = false) → keeps I (notify v).
Proof. intros Hv e []. pose proof (notify_reqs v Hv e v_reqs0). by split. Qed.

(** The receipts change and pending ones may go; nothing else does. *)
Definition rest (e : Engine) :=
  (resSendInflight e, tasks e, sendMu e, outgoingRes e, outgoingResComplete e, incomingRx e, lk e).
Definition narrowed (e0 e : Engine) : Prop := rest e = rest e0 ∧ ∀ i, i ∈ pendingRequests e → i ∈ pendingRequests e0.

Lemma keeps_requests {A} (f : M A) : keeps reqs_ok f → (∀ e0, keeps (narrowed e0) f) → keeps I f.
Proof.
  intros Hk Hf e []. destruct (Hf e e) as [E Hsub]; [by split|]. specialize (Hk e v_reqs0). injection E as E1 E2 E3 E4 E5 E6 E7.
  split; rewrite ?E1, ?E2, ?E3, ?E4, ?E5, ?E6, ?E7; try done. intros i Hi%Hsub. by apply v_watched0.
Qed.
Lemma updReceipt_inv i f :
  (∀ q, unaffected f q) → keeps I (updReceipt i f).
Proof. intros Hf. apply keeps_requests; [by apply updReceipt_reqs|]. intros e0. apply keeps_modify. by intros e []. Qed.

Lemma removePendingRequest_narrowed e0 i : keeps (narrowed e0) (removePendingRequest i).
Proof. apply keeps_modify. intros e [E Hs]. split; [done|]. intros j Hj%removeFirst_subset. by apply Hs. Qed.
Lemma failPendingRequest_narrowed e0 i : keeps (narrowed e0) (failPendingRequest i).
Proof. unfold failPendingRequest, notify, updReceipt. pose proof removePendingRequest_narrowed. keeps_auto; done. Qed.
Lemma failPendingRequest_inv i : keeps I (failPendingRequest i).
Proof. apply keeps_requests; [apply failPendingRequest_reqs|]. intros e0. apply failPendingRequest_narrowed. Qed.
Lemma concludeReceipt_inv now i response v meta progress : keeps I (concludeReceipt now i response v meta progress).
Proof.
  apply keeps_requests; [apply concludeReceipt_reqs|]. intros e0. unfold concludeReceipt, notify, updReceipt.
  pose proof removePendingRequest_narrowed. keeps_auto; done.
Qed.
Lemma SetResponseCallback_inv i cb : cb = true ∨ D i = true → keeps I (SetResponseCallback i cb).
Proof.
  intros Hcb. apply keeps_requests; [by apply SetResponseCallback_reqs|]. intros e0. unfold SetResponseCallback, notify, updReceipt.
  keeps_auto; done.
Qed.
Lemma SetFailedCallback_inv i cb : cb = true ∨ D i = true → keeps I (SetFailedCallback i cb).
Proof.
  intros Hcb. apply keeps_requests; [by apply SetFailedCallback_reqs|]. intros e0. unfold SetFailedCallback, notify, updReceipt.
  keeps_auto; done.
Qed.
Lemma SetProgressCallback_inv i cb : keeps I (SetProgressCallback i cb).
Proof. by apply updReceipt_inv. Qed.

(** New goroutines. *)
Lemma spawn_inv t : holdsSlot t = false → awaits t = false → keeps I (spawn t).
Proof.
  intros Hs Ha. apply keeps_modify. intros e []. split; try done; simpl.
  - intros i Hi Hx. apply Exists_app. left. by apply v_watched0.
  - rewrite number_app, number_one, Hs. lia.
  - rewrite number_app, number_one, Ha. lia.
Qed.
Lemma startSend_inv r s : s ≠ App → keeps I (startSend r s).
Proof.
  intros Hs e HI. cbv [startSend acquireResourceSendSlot mbind goM_bind mget].
  destruct (Z.leb_spec MaxPendingResourceSends (resSendInflight e)) as [|Hlt]; simpl; [done|].
  destruct HI. split; try done; simpl.
  - intros i Hi Hx. apply Exists_app. left. by apply v_watched0.
  - rewrite number_app, number_one. destruct s; [done| |]; simpl; lia.
  - unfold MaxPendingResourceSends in *. lia.
  - rewrite number_app, number_one. simpl. lia.
Qed.

(** The incoming transfer. *)
Lemma set_rx_inv o e : (∀ x, o = Some x → Rx.rx_ok x) → I e → I (set_rx o e).
Proof. intros Ho []. by split. Qed.
Lemma store_rx_inv x e : Rx.rx_ok x → I e → I (set_rx (Some x) e).
Proof. intros Hx HI. apply set_rx_inv; [|done]. by intros ? [= <-]. Qed.
Lemma clear_rx_inv e : I e → I (set_rx None e).
Proof. intros HI. by apply set_rx_inv. Qed.
Lemma onRx_inv f : (∀ x, Rx.rx_ok x → Rx.rx_ok (f x)) → keeps I (onRx f).
Proof.
  intros Hf. apply keeps_modify. intros e HI. apply set_rx_inv; [|done].
  intros x (y & Hy & ->)%fmap_Some. by eapply Hf, v_rx.
Qed.
(** The outgoing one ends. *)
Lemma abandon_inv : keeps I abandonOutgoing.
Proof.
  apply keeps_modify. intros e []. split; try done; [by intros [? ?]|]. intros Hh. simpl. split; [by apply v_held0|done].
Qed.
Lemma inv_unheld e : I e → inv ex k m false e.
Proof. intros []. by split. Qed.
End kept.

(** The end of an outgoing transfer is told to its sender. *)
Definition leads {A} (I J : Engine → Prop) (f : M A) : Prop := ∀ e, I e → J (f e).1.
Lemma signal_leads ex k m held : leads (inv ex k m held) (inv ex k m false) signalOutgoingResourceComplete.
Proof. intros e []. split; try done. by intros [? ?]. Qed.
Lemma signal_inv ex k m : keeps (inv ex k m false) signalOutgoingResourceComplete.
Proof. apply signal_leads. Qed.
Lemma leads_bind {A B} (I J : Engine → Prop) (f : M A) (g : A → M B) :
  keeps I f → (∀ e, I e → J e) → (∀ a, leads I J (g a)) → leads I J (f ≫= g).
Proof.
  intros Hf HIJ Hg e He. specialize (Hf e He). unfold mbind, goM_bind. destruct (f e) as [e' [a|x|]]; [by apply Hg|by apply HIJ|by apply HIJ].
Qed.
Lemma leads_then {A B} (I J : Engine → Prop) (f : M A) (g : A → M B) :
  leads I J f → (∀ a, keeps J (g a)) → leads I J (f ≫= g).
Proof. intros Hf Hg e He. specialize (Hf e He). unfold mbind, goM_bind. destruct (f e) as [e' [a|x|]]; [by apply Hg|done|done]. Qed.
Lemma leads_attempt {A} (I J : Engine → Prop) (f : M A) : leads I J f → leads I J (attempt f).
Proof. intros Hm e He. specialize (Hm e He). unfold attempt. by destruct (f e) as [e' [a|x|]]. Qed.
Lemma leads_keeps {A} (I J : Engine → Prop) (f : M A) : keeps I f → (∀ e, I e → J e) → leads I J f.
Proof. intros Hf HIJ e He. by apply HIJ, Hf. Qed.

#[local] Hint Resolve draw_inv encryptM_inv decryptM_inv packM_inv sendPacket_inv recordM_inv failedM_inv sendWithContext_inv
  failPendingRequest_inv concludeReceipt_inv keeps_attempt signal_inv abandon_inv : keeps.
#[local] Hint Extern 2 (keeps (inv _ _ _ _) (notify _)) => apply notify_inv; done : keeps.
#[local] Hint Extern 2 (keeps (inv _ _ _ _) (spawn _)) => apply spawn_inv; done : keeps.
#[local] Hint Extern 2 (keeps (inv _ _ _ _) (updReceipt _ _)) => apply updReceipt_inv; done : keeps.
#[local] Hint Extern 2 (keeps (inv _ _ _ _) (startSend _ _)) => apply startSend_inv; done : keeps.

Section handlers.
Context (ex : list nat) (k m : Z) (held : bool).
Notation I := (inv ex k m held).

Lemma rx_of e x : incomingRx e = Some x → I e → Rx.rx_ok x.
Proof. intros Hx HI. by eapply v_rx. Qed.

Lemma sendResponse_inv now id r : keeps I (sendResponse now id r).
Proof. unfold sendResponse. keeps_reading. Qed.
#[local] Hint Resolve sendResponse_inv : keeps.
Lemma handleRequest_inv now d id : keeps I (handleRequest now d id).
Proof. unfold handleRequest. keeps_reading. Qed.
Lemma handleResponse_inv now d : keeps I (handleResponse now d).
Proof. unfold handleResponse. keeps_reading. Qed.
Lemma failAllPendingRequests_inv : keeps I failAllPendingRequests.
Proof.
  unfold failAllPendingRequests. apply keeps_get_bind. intros e _. generalize (pendingRequests e). intros l.
  assert (Hm : keeps I (mret () : M ())) by auto with keeps. revert Hm. generalize (mret () : M ()).
  induction l as [|i l IH]; intros f Hf; simpl; [done|]. apply IH. keeps_auto.
Qed.
Lemma started_inv v : (∀ i, answers i v = false ∧ fails i v = false) → keeps I (started v).
Proof. intros Hv. unfold started. case_match; [by apply notify_inv|auto with keeps]. Qed.
#[local] Hint Extern 2 (keeps _ (started _)) => apply started_inv; done : keeps.
#[local] Hint Resolve handleRequest_inv failAllPendingRequests_inv : keeps.

Lemma rejectResource_inv now h : keeps I (rejectResource now h).
Proof. unfold rejectResource. keeps_reading. Qed.
#[local] Hint Resolve rejectResource_inv : keeps.
Lemma rejectIfActive_inv now h : keeps I (rejectIfActive now h).
Proof. unfold rejectIfActive. keeps_reading. Qed.
Lemma sendIncomingResourceProof_inv now p h : keeps I (sendIncomingResourceProof now p h).
Proof. unfold sendIncomingResourceProof. keeps_reading. Qed.
Lemma resetIncomingResource_inv : keeps I resetIncomingResource.
Proof. unfold resetIncomingResource. keeps_reading. by apply clear_rx_inv. Qed.
#[local] Hint Resolve rejectIfActive_inv sendIncomingResourceProof_inv resetIncomingResource_inv : keeps.
Lemma abortResponseResourceFor_inv now i : keeps I (abortResponseResourceFor now i).
Proof. unfold abortResponseResourceFor. keeps_reading. by apply clear_rx_inv. Qed.
#[local] Hint Resolve abortResponseResourceFor_inv : keeps.
Lemma bindIncomingResponseRequest_inv now i : keeps I (bindIncomingResponseRequest now i).
Proof. unfold bindIncomingResponseRequest. pose proof (onRx_inv ex k m held _ (Rx.set_request_ok (Some i))). keeps_reading. Qed.
Lemma beginIncomingResource_inv now adv : keeps I (beginIncomingResource now adv).
Proof.
  unfold beginIncomingResource, queueIncomingResourceReqNext. keeps_reading.
  - apply store_rx_inv; [|done]. match goal with u : () |- _ => destruct u end. by eapply Rx.newIncoming_ok.
  - match goal with HI : I _ |- _ => destruct HI end. by split.
Qed.
#[local] Hint Resolve bindIncomingResponseRequest_inv beginIncomingResource_inv : keeps.

Lemma sendIncomingResourceReqNext_inv now : keeps I (sendIncomingResourceReqNext now).
Proof.
  unfold sendIncomingResourceReqNext. keeps_reading.
  - apply store_rx_inv; [|done]. eapply Rx.nextRequest_ok; [|done]; by eapply rx_of.
  - apply onRx_inv. intros. by apply Rx.unrequest_ok.
Qed.
Lemma sendIncomingResourceHMUPrefetch_inv now : keeps I (sendIncomingResourceHMUPrefetch now).
Proof.
  unfold sendIncomingResourceHMUPrefetch. keeps_reading.
  - apply store_rx_inv; [|done]. eapply Rx.prefetchRequest_ok; [|done]; by eapply rx_of.
  - apply onRx_inv. intros. by apply Rx.set_waiting_ok.
Qed.
#[local] Hint Resolve sendIncomingResourceReqNext_inv : keeps.
Lemma tickIncomingResourceWatchdog_inv now j : keeps I (tickIncomingResourceWatchdog now j).
Proof.
  unfold tickIncomingResourceWatchdog. keeps_reading.
  apply store_rx_inv; [|done]. by eapply Rx.stallIncoming_ok, rx_of.
Qed.
Lemma applyIncomingHashmapUpdate_inv now h j hm : keeps I (applyIncomingHashmapUpdate now h j hm).
Proof.
  unfold applyIncomingHashmapUpdate, queueIncomingResourceReqNext. keeps_reading.
  apply store_rx_inv; [|done]. by eapply Rx.learn_ok, rx_of.
Qed.
#[local] Hint Resolve applyIncomingHashmapUpdate_inv : keeps.
Lemma handleResourceHashmapUpdate_inv now d : keeps I (handleResourceHashmapUpdate now d).
Proof. unfold handleResourceHashmapUpdate. keeps_reading. Qed.

Lemma assembleIncomingPayload_inv d adv : keeps I (assembleIncomingPayload d adv).
Proof. unfold assembleIncomingPayload. keeps_reading. Qed.
Lemma handOver_inv now d : keeps I (handOver now d).
Proof. unfold handOver, completeRequestWithResourcePayload. keeps_reading. Qed.
Lemma splitSegment_inv p adv i : keeps I (splitSegment p adv i).
Proof. intros e []. unfold splitSegment. destruct (Split.handleSplitSegmentComplete _ _ _ _ _) as [s [| |]]; by split. Qed.
#[local] Hint Resolve assembleIncomingPayload_inv handOver_inv splitSegment_inv : keeps.
Lemma deliverIncomingResource_inv now d adv i : keeps I (deliverIncomingResource now d adv i).
Proof. unfold deliverIncomingResource, completeRequestWithResourcePayload. keeps_reading. Qed.
#[local] Hint Resolve deliverIncomingResource_inv : keeps.
Lemma reportIncomingResourceProgress_inv x : keeps I (reportIncomingResourceProgress x).
Proof.
  unfold reportIncomingResourceProgress. keeps_reading.
  apply updReceipt_inv. intros q. unfold unaffected, unconcluded, answered, failed, set_progress. simpl. by destruct (q_status q).
Qed.
Lemma finishIncoming_inv now x : keeps I (finishIncoming now x).
Proof.
  unfold finishIncoming. keeps_reading; [|by apply clear_rx_inv].
  match goal with HI : I _ |- _ => destruct HI end. by split.
Qed.
#[local] Hint Resolve reportIncomingResourceProgress_inv finishIncoming_inv : keeps.
Lemma appendIncomingResourcePart_inv now d : keeps I (appendIncomingResourcePart now d).
Proof.
  unfold appendIncomingResourcePart, queueIncomingResourceHMUPrefetch, queueIncomingResourceReqNext. keeps_reading.
  - apply store_rx_inv; [|done]. eapply Rx.takePart_ok; [| |done]; [intros ->; done|]. by eapply rx_of.
  - apply store_rx_inv; [|done]. replace i1 with (Rx.afterPart i0).2 by (by rewrite Heqp). apply Rx.afterPart_ok.
    eapply Rx.takePart_ok; [| |done]; [intros ->; done|]. by eapply rx_of.
Qed.
#[local] Hint Resolve appendIncomingResourcePart_inv : keeps.
Lemma handleResourcePart_inv now d : keeps I (handleResourcePart now d).
Proof. unfold handleResourcePart. keeps_reading. Qed.
Lemma handleResourceCancel_inv now d : keeps I (handleResourceCancel now d).
Proof. unfold handleResourceCancel. keeps_reading. Qed.
Lemma processResourceAdvertisement_inv now d : keeps I (processResourceAdvertisement now d).
Proof. unfold processResourceAdvertisement, application. keeps_reading. Qed.
Lemma timeoutStep_inv now i u : keeps I (timeoutStep now i u).
Proof. unfold timeoutStep. keeps_reading. Qed.

Lemma sendResourceAdvertisement_inv now r : keeps I (sendResourceAdvertisement now r).
Proof. unfold sendResourceAdvertisement. keeps_reading. Qed.
Lemma prepareM_inv f r : keeps I (prepareM f r).
Proof. unfold prepareM. keeps_reading. Qed.
Lemma awaitResource_inv : keeps I awaitResource.
Proof. unfold awaitResource. keeps_reading. match goal with HI : I ?e |- I (set_outgoing _ _ _ ?e) => destruct HI end.
  split; try done. intros Hh. split; [by apply v_held0|done].
Qed.
Lemma resourceTimeout_inv : keeps I resourceTimeout.
Proof. unfold resourceTimeout. keeps_reading. Qed.
Lemma resourceReqAllowed_inv now : keeps I (resourceReqAllowed now).
Proof. unfold resourceReqAllowed. keeps_reading. match goal with HI : I ?e |- I (set_limiter _ ?e) => destruct HI end. by split. Qed.
End handlers.

#[local] Hint Resolve sendResourceAdvertisement_inv prepareM_inv awaitResource_inv resourceTimeout_inv resourceReqAllowed_inv
  failAllPendingRequests_inv resetIncomingResource_inv : keeps.

Ltac leads_auto :=
  repeat lazymatch goal with
  | |- leads _ _ (match ?x with _ => _ end) => destruct x eqn:?
  | |- leads _ _ (signalOutgoingResourceComplete ≫= _) => apply leads_then; [apply signal_leads|intros ?; keeps_reading]
  | |- leads _ _ signalOutgoingResourceComplete => apply signal_leads
  | |- leads _ _ (_ ≫= _) => apply leads_bind; [solve [keeps_reading]|intros ?; apply inv_unheld|intros ?]
  | |- leads _ _ (let _ := _ in _) => cbv zeta
  | |- leads _ _ _ => apply leads_keeps; [solve [keeps_reading]|intros ?; apply inv_unheld]
  end.

Section senders.
Context (ex : list nat) (k m : Z).
Notation I := (inv ex k m true).
Notation J := (inv ex k m false).

(** The end of the link. *)
Lemma closing_inv : keeps J closing.
Proof. unfold closing, dropAssemblies. keeps_reading. match goal with HI : J _ |- _ => destruct HI end. by split. Qed.
#[local] Hint Resolve closing_inv : keeps.
Lemma Teardown_inv now : keeps J (Teardown now).
Proof.
  unfold Teardown. apply keeps_bind; [apply draw_inv|]. intros rd e HI. rewrite run_get. cbv zeta. rewrite run_modify.
  destruct (closable_teardown (mkIO now rd) (lk e) (v_closable _ _ _ _ _ HI)) as [Hc [closed Ht]]. rewrite Ht.
  pose proof (set_lk_inv ex k m false _ e Hc HI) as HI1. revert HI1. generalize (set_lk (c_teardown (mkIO now rd) (lk e)).1 e).
  change (keeps J ((if closed then closing else mret ()) ;; resetIncomingResource)). destruct closed; keeps_reading.
Qed.
Lemma handleResourceAdvertisement_inv now d : keeps J (handleResourceAdvertisement now d).
Proof.
  unfold handleResourceAdvertisement. apply keeps_bind; [auto with keeps|]. intros p e He. unfold orTeardown.
  pose proof (processResourceAdvertisement_inv ex k m false now p e He) as Hp. destruct (processResourceAdvertisement now p e) as [e' [| |]]; try done.
  by apply Teardown_inv.
Qed.
Lemma handleResourceReject_inv d : keeps J (handleResourceReject d).
Proof. unfold handleResourceReject. keeps_reading. Qed.

Lemma set_outgoing_inv o lo c e : c ≠ Some true → I e → I (set_outgoing o lo c e).
Proof. intros Hc []. split; try done. intros _. by apply v_held0. intros _. split; [by apply v_held0|done]. Qed.
Lemma same_channel_inv o lo e : I e → I (set_outgoing o lo (outgoingResComplete e) e).
Proof. intros HI. apply set_outgoing_inv; [|done]. by eapply v_held. Qed.
Lemma advance_inv o lo : keeps I (modify (λ e, set_outgoing o lo (outgoingResComplete e) e) : M ()).
Proof. apply keeps_modify. intros e. apply same_channel_inv. Qed.
#[local] Hint Resolve advance_inv : keeps.
Lemma sendParts_inv now sdu l : ∀ out, keeps I (sendParts now sdu l out).
Proof. induction l as [|i l IH]; intros out; simpl; [auto with keeps|]. keeps_reading. by apply same_channel_inv. Qed.
#[local] Hint Resolve sendParts_inv : keeps.
Lemma sendResourceHashmapUpdate_leads held now out mdu h lo : leads (inv ex k m held) J (sendResourceHashmapUpdate now out mdu h lo).
Proof. unfold sendResourceHashmapUpdate. leads_auto. Qed.

(** A handler that does something only while a resource is sent. *)
Lemma keeps_sending {A} (f : Engine → R.Resource → M A) (a : A) :
  (∀ e out, leads I J (f e out)) →
  keeps J (e ← mget; match outgoingRes e with None => mret a | Some out => f e out end).
Proof.
  intros Hf e HI. unfold mbind, goM_bind, mget. destruct (outgoingRes e) as [out|] eqn:Eo; [|done].
  apply Hf. destruct HI. split; try done. intros _. split; [apply v_out0; by rewrite Eo|]. intros Hs%v_signalled0. congruence.
Qed.
Lemma dispatch_inv now d : keeps J (dispatchOutgoingResourceRequests now d).
Proof.
  apply keeps_sending. intros e out. leads_auto. apply leads_then; [apply leads_attempt, sendResourceHashmapUpdate_leads|].
  intros [[nextMin|]|]; [|auto with keeps|auto with keeps]. apply keeps_modify. intros e1 HI.
  destruct (outgoingRes e1) as [o1|] eqn:Eo; [|done]. destruct HI. split; try done; simpl.
  - intros _. apply v_out0. by rewrite Eo.
  - intros ?%v_signalled0. congruence.
Qed.
Lemma handleResourceProof_inv now d : keeps J (handleResourceProof now d).
Proof.
  unfold handleResourceProof. case_match; [auto with keeps|]. apply keeps_sending. intros e out. leads_auto.
Qed.
Lemma handleResourceRequest_inv now d : keeps J (handleResourceRequest now d).
Proof. unfold handleResourceRequest. pose proof dispatch_inv. pose proof started_inv. keeps_reading. Qed.
End senders.

(** *** Goroutines and requests *)

Lemma failPendingRequest_removes i e : reqs_ok e → i ∉ pendingRequests (failPendingRequest i e).1.
Proof.
  intros HI Hj. pose proof (failPendingRequest_reqs i e HI) as HR.
  apply (k_pending _ _ _ _ HR) in Hj as (q & Hq & Hu). revert Hq. unfold failPendingRequest. unfold mbind at 1, goM_bind, mget. simpl.
  destruct (receipts e !! i) as [p|] eqn:Ep; [|simpl; intros; congruence]. destruct (unconcluded p) eqn:Eu; simpl; [|intros; congruence].
  intros Hq. assert (Hl : Some (set_status RFailed true p) = Some q).
  { rewrite <- Hq. destruct (q_failedCb p); simpl; by rewrite list_lookup_alter_eq, Ep. }
  by injection Hl as <-.
Qed.

Section requesters.
Context (ex : list nat) (k m : Z) (held : bool).
Notation I := (inv ex k m held).

(** A registered request is unwatched until its goroutine is started, or it fails. *)
Lemma keeps_register {A} q (f : nat → M A) :
  q_status q = RPending → q_done q = false → q_pathHash q ≠ [] →
  (∀ i e, inv (i :: ex) k m held e → I (f i e).1) → keeps I (registerPendingRequest q ≫= f).
Proof.
  intros Hs Hd Hp Hf e HI. pose proof (registerPendingRequest_reqs q Hs Hd Hp e (v_reqs _ _ _ _ e HI)) as HR.
  destruct HI as [_ HW HS HF HM HO HG HH HX]. revert HR. unfold registerPendingRequest.
  cbv [mbind goM_bind mget guard_go lift check mret goM_ret modify].
  destruct (negb (MaxPendingRequests <=? _)); [|by intros HR; split].
  destruct (negb (_ && _)); [|by intros HR; split]. simpl. intros HR. apply Hf. split; try done.
  simpl. intros i [Hi| ->%list_elem_of_singleton]%elem_of_app Hx.
  - apply HW; [done|]. intros Hin. apply Hx, elem_of_cons. by right.
  - destruct Hx. apply elem_of_cons. by left.
Qed.

Lemma failPendingRequest_ends i e : inv (i :: ex) k m held e → I (failPendingRequest i e).1.
Proof.
  intros HI. pose proof (failPendingRequest_inv (i :: ex) k m held i e HI) as [HR HW HS HF HM HO HG HH HX]. split; try done.
  intros j Hj Hx. apply HW; [done|]. intros [->|?]%elem_of_cons; [|done].
  by apply (failPendingRequest_removes i e (v_reqs _ _ _ _ e HI)) in Hj.
Qed.

Lemma spawn_adopts i t e : watches i t = true → holdsSlot t = false → awaits t = false → inv (i :: ex) k m held e → I (spawn t e).1.
Proof.
  intros Hw Hs Ha HI. pose proof (spawn_inv (i :: ex) k m held t Hs Ha e HI) as [HR HW HS HF HM HO HG HH HX]. split; try done.
  intros j Hj Hx. destruct (decide (j = i)) as [->|Hne]; [|apply HW; [done|rewrite elem_of_cons; naive_solver]].
  apply Exists_app. right. by apply Exists_cons_hd.
Qed.

End requesters.

(** What the goroutine of a task holds. *)
Definition owner (t : task) : list nat :=
  match t with Timeout i _ | SendRes _ (Requester i) | AwaitRes (Requester i) => [i] | _ => [] end.
Definition one (b : bool) : Z := if b then 1 else 0.
Notation holding t := (inv (owner t) (one (holdsSlot t)) (one (awaits t)) false).
Notation whole := (inv [] 0 0 false).

Lemma owner_watches i t : watches i t = true → owner t = [i].
Proof. destruct t as [| | |j ?|? [| |j]|[| |j]]; simpl; try done; by intros ->%bool_decide_eq_true. Qed.
Lemma watches_owner i t : i ∈ owner t → watches i t = true.
Proof. destruct t as [| | |j ?|? [| |j]|[| |j]]; simpl; intros Hi; try (by apply elem_of_nil in Hi); apply list_elem_of_singleton in Hi as ->; by apply bool_decide_eq_true. Qed.

(** A task that runs has left the table; what it held is held by the goroutine. *)
Lemma run_task j t e : tasks e !! j = Some t → whole e → holding t (set_tasks (delete j (tasks e)) e).
Proof.
  intros Ht [HR HW HS HF HM HO HG _ HX].
  assert (Hn : ∀ p, number p (tasks e) = number p (delete j (tasks e)) + one (p t)).
  { intros p. rewrite <- (take_drop_middle _ _ _ Ht) at 1. rewrite delete_take_drop, (cons_middle t), !number_app, number_one. unfold one. lia. }
  split; try done; simpl.
  - intros i Hi Hx. specialize (HW i Hi ltac:(by intros ?%elem_of_nil)).
    rewrite <- (take_drop_middle _ _ _ Ht), Exists_app, Exists_cons in HW. rewrite delete_take_drop, Exists_app.
    destruct HW as [?|[Hw|?]]; [by left| |by right]. destruct Hx. rewrite (owner_watches i t Hw). by apply list_elem_of_singleton.
  - rewrite HS, Hn. lia.
  - rewrite <- HM, Hn. lia.
Qed.

(** A task that goes on. *)
Lemma respawn t e : holding t e → whole (spawn t e).1.
Proof.
  intros [HR HW HS HF HM HO HG _ HX]. split; try done; simpl.
  - intros i Hi _. apply Exists_app. destruct (decide (i ∈ owner t)) as [Hin|Hni]; [right|left; by apply HW].
    apply Exists_cons_hd. by apply watches_owner.
  - rewrite number_app, number_one. unfold one in *. lia.
  - rewrite number_app, number_one. unfold one in *. lia.
Qed.

(** A goroutine ends without having held anything. *)
Lemma gone i e : inv [i] 0 0 false e → i ∉ pendingRequests e → whole e.
Proof.
  intros [] Hi. split; try done. intros j Hj _. apply v_watched0; [done|]. intros ->%list_elem_of_singleton. done.
Qed.

Lemma number_nonneg p ts : 0 <= number p ts.
Proof. apply len_nonneg. Qed.

(** The mutex and the slot are given back. *)
Lemma unlock ex k e : inv ex k 1 false e → outgoingRes e = None → inv ex k 0 false (set_sendMu false e).
Proof.
  intros [] Ho. pose proof (number_nonneg awaits (tasks e)). split; try done; simpl.
  - destruct (sendMu e); lia.
  - rewrite Ho. by intros [? ?].
Qed.
Lemma release ex e : inv ex 1 0 false e → inv ex 0 0 false (releaseResourceSendSlot e).1.
Proof. intros []. split; try done; simpl; lia. Qed.

Lemma after_ok {A B} (f : M A) (g : A → M B) e a : (f e).2 = Ok a → (f ≫= g) e = g a (f e).1.
Proof. unfold mbind, goM_bind. destruct (f e) as [e' o]. simpl. by intros ->. Qed.
Lemma failPendingRequest_Ok i e : (failPendingRequest i e).2 = Ok ().
Proof.
  unfold failPendingRequest. unfold mbind at 1, goM_bind, mget. simpl. destruct (receipts e !! i) as [q|]; [|done].
  destruct (unconcluded q); [|done]. simpl. by destruct (q_failedCb q).
Qed.

Lemma finishSend_inv s ok e :
  inv (owner (AwaitRes s)) (one (holdsSlot (AwaitRes s))) 1 false e → outgoingRes e = None → whole (finishSend s ok e).1.
Proof.
  intros HI Ho. apply unlock in HI; [|done]. unfold finishSend. destruct s as [| |i]; simpl in HI; [done|by apply release|].
  change (whole (((if ok then spawn (Timeout i None) else failPendingRequest i) ;; releaseResourceSendSlot) (set_sendMu false e)).1).
  destruct ok.
  - apply release. apply (spawn_adopts [] 1 0 false i); [by apply bool_decide_eq_true|done|done|done].
  - rewrite (after_ok _ _ _ () (failPendingRequest_Ok i _)). apply release. by apply failPendingRequest_ends.
Qed.

(** *** No panic *)

(** Whatever the link is in, an operation returns or fails. *)
Notation T := (λ _ : Engine, True).
Lemma quiet_attempt {A} (f : M A) : safe T f → safe T (attempt f).
Proof. intros Hf e _. destruct (Hf e I) as [_ Hp]. unfold attempt. by destruct (f e) as [e' [a|x|]]. Qed.
#[local] Hint Resolve quiet_attempt : safe.
#[local] Hint Extern 1 (safe (λ _, True) (modify _)) => apply safe_modify; done : safe.
#[local] Hint Extern 1 (safe (λ _, True) (lift _)) => apply safe_lift; done : safe.

Lemma quiet_draw : safe T draw.
Proof. unfold draw. safe_auto. Qed.
Lemma quiet_notify v : safe T (notify v).
Proof. unfold notify. safe_auto. Qed.
Lemma quiet_spawn t : safe T (spawn t).
Proof. unfold spawn. safe_auto. Qed.
#[local] Hint Resolve quiet_draw quiet_notify quiet_spawn : safe.
Lemma quiet_encryptM d : safe T (encryptM d).
Proof. unfold encryptM. safe_auto. Qed.

(** The components return or fail. *)
Lemma Pack_returns mdu a : R.Pack 0 mdu a ≠ Panic.
Proof.
  unfold R.Pack. pose proof (R.entriesPerSegment_pos mdu). pose proof (len_nonneg (R.a_Hashmap a)). unfold R.MapHashLen in *.
  assert (0 <= len (R.a_Hashmap a) `quot` 4) by (apply Z.quot_pos; lia).
  assert (len (R.a_Hashmap a) `quot` 4 * 4 <= len (R.a_Hashmap a)) by (rewrite Z.quot_div_nonneg by lia; pose proof (Z.mul_div_le (len (R.a_Hashmap a)) 4); lia).
  rewrite go_slice_Ok by lia. simpl. by destruct (R.marshalMap _).
Qed.
Lemma bind_returns {E A B} (o : outcome E A) (f : A → outcome E B) : o ≠ Panic → (∀ a, f a ≠ Panic) → (o ≫= f) ≠ Panic.
Proof. intros Ho Hf. destruct o; [apply Hf|done|done]. Qed.
Lemma check_returns {E} c (x : E) : check c x ≠ Panic.
Proof. by destruct c. Qed.
Lemma Unpack_returns d : R.UnpackResourceAdvertisement d ≠ Panic.
Proof.
  assert (N1 : ∀ k x m, R.sizeAt k x m ≠ Panic) by (intros; unfold R.sizeAt; by repeat case_match).
  assert (N2 : ∀ m, R.partsAt m ≠ Panic) by (intros; unfold R.partsAt; by repeat case_match).
  assert (N3 : ∀ k x m, R.hashAt k x m ≠ Panic) by (intros; unfold R.hashAt; by repeat case_match).
  assert (N4 : ∀ k x m, R.uint16At k x m ≠ Panic) by (intros; unfold R.uint16At; by repeat case_match).
  assert (N5 : ∀ v, R.wireFlagsFromAny v ≠ Panic) by (intros; unfold R.wireFlagsFromAny; by repeat case_match).
  unfold R.UnpackResourceAdvertisement. case_match; [done|]. case_match; [|done].
  repeat (apply bind_returns; [first [apply N1|apply N2|apply N3|apply N4|apply check_returns|by case_match]|intros ?]). done.
Qed.
Lemma read_returns offset length r : 0 <= offset → R.readRawBodyLocked offset length r ≠ Panic.
Proof.
  intros Ho. unfold R.readRawBodyLocked. destruct (Z.ltb_spec length 0); [done|]. destruct (length =? 0); [done|].
  destruct (R.source r) as [s|]; [|done]. destruct (Z.ltb_spec (len s) offset); [done|]. by rewrite go_slice_Ok by lia.
Qed.
Lemma finish_returns encrypt rand sdu body meta : safe (λ _, True) (R.finishPrepareSegmentLocked encrypt rand sdu body meta).
Proof. unfold R.finishPrepareSegmentLocked. safe_auto. Qed.
Lemma guard_returns {S E B} (I : S → Prop) c (x : E) (f : () → goM S E B) :
  (c = true → safe I (f ())) → safe I (guard_go c x ≫= f).
Proof. intros Hf s Hs. destruct c; [by apply Hf|done]. Qed.
Ltac safe_guarded := repeat first [lazymatch goal with |- safe _ (guard_go _ _ ≫= _) => apply guard_returns; intros ? end | safe_step].
Lemma segmentRange_start firstRead fileSize index :
  0 <= firstRead → 1 <= index → 0 <= (R.segmentRange firstRead fileSize index).1.1.
Proof.
  intros Hf Hi. unfold R.segmentRange, R.MaxEfficientSize. destruct (Z.eqb_spec index 1); simpl; lia.
Qed.
Lemma prepare_returns encrypt rand sdu : safe (λ _, True) (R.PrepareOutboundForLink encrypt rand sdu).
Proof.
  pose proof (finish_returns encrypt rand sdu). unfold R.PrepareOutboundForLink, R.ensureMetadataPackedLocked, R.rawBodySizeLocked.
  safe_guarded; apply safe_lift; [by case_match|by apply read_returns|]. apply read_returns.
  match goal with E : R.segmentRange ?f ?n ?i = _ |- _ => pose proof (segmentRange_start f n i) as HS; rewrite E in HS; simpl in HS end.
  rewrite negb_true_iff, orb_false_iff, !Z.ltb_ge, Z.leb_le in *. apply HS; lia.
Qed.
Lemma prepareNext_returns encrypt rand sdu : safe (λ _, True) (R.PrepareNextOutboundSegment encrypt rand sdu).
Proof. pose proof (prepare_returns encrypt rand sdu). unfold R.PrepareNextOutboundSegment. safe_auto. Qed.
Lemma metadata_returns d r : (R.SetMetadataPacked d r).2 ≠ Panic.
Proof. assert (HS : safe (λ _, True) (R.SetMetadataPacked d)) by (unfold R.SetMetadataPacked; safe_auto). by apply HS. Qed.
Lemma request_returns d : unpackLinkRequest d ≠ Panic.
Proof.
  unfold unpackLinkRequest. destruct (unmarshalRaw d) as [[|p0 [|p1 [|p2 l]]]|]; try done.
  destruct (unmarshal p0) as [ts|]; [|done]. apply bind_returns; [|intros ?; by destruct (unmarshalBytes p1)].
  unfold parseRequestedAt. by repeat case_match.
Qed.
Lemma last_returns x : Rx.lastMapHash x ≠ Panic.
Proof. unfold Rx.lastMapHash. by repeat case_match. Qed.
Lemma next_returns x : Rx.nextRequest x ≠ Panic.
Proof.
  unfold Rx.nextRequest. do 3 (case_match; [done|]). destruct (Rx.collectParts _ _ _ _) as [acc exh]. case_match; [done|].
  apply bind_returns; [|by intros []]. destruct exh; [|done]. apply bind_returns; [apply last_returns|done].
Qed.
Lemma prefetch_returns x : Rx.prefetchRequest x ≠ Panic.
Proof. unfold Rx.prefetchRequest. case_match; [done|]. apply bind_returns; [apply last_returns|done]. Qed.
Lemma advertisement_returns sdu admitted a : Rx.checkAdvertisement sdu admitted a ≠ Panic.
Proof.
  unfold Rx.checkAdvertisement. repeat (apply bind_returns; [apply check_returns|intros ?]). apply check_returns.
Qed.
Lemma region_returns d : Split.metaRegion d ≠ Panic.
Proof. unfold Split.metaRegion. by repeat case_match. Qed.
Lemma segment_returns l d adv i : safe (λ _, True) (Split.handleSplitSegmentComplete l d adv i).
Proof.
  unfold Split.handleSplitSegmentComplete, Split.handleSplitSegmentInMemory, Split.handleSplitSegmentOnDisk, Split.stageInMemory,
    Split.stageMeta, Split.reserve, Split.admitSplitSegment, Split.openAssembly, Split.mkdirAll, Split.remove, Split.writeFile, Split.openFile,
    Split.appendFile, Split.readFile, Split.fileOp, Split.onFiles.
  safe_auto; apply safe_lift, region_returns.
Qed.

(** The handlers. *)
Lemma quiet_decryptM d : safe T (decryptM d).
Proof. unfold decryptM. safe_auto. Qed.
Lemma quiet_packM t c d : safe T (packM t c d).
Proof. unfold packM. safe_auto. Qed.
Lemma quiet_sendPacket p : safe T (sendPacket p).
Proof. unfold sendPacket. safe_auto. Qed.
#[local] Hint Resolve quiet_encryptM quiet_decryptM quiet_packM quiet_sendPacket : safe.
Lemma quiet_sendWithContext now d c : safe T (sendWithContext now d c).
Proof. unfold sendWithContext. safe_auto. Qed.
#[local] Hint Resolve quiet_sendWithContext : safe.
Lemma quiet_recordM now b : safe T (recordM now b).
Proof. unfold recordM. safe_auto. Qed.
#[local] Hint Resolve quiet_recordM : safe.
Lemma quiet_updReceipt i f : safe T (updReceipt i f).
Proof. unfold updReceipt. safe_auto. Qed.
#[local] Hint Resolve quiet_updReceipt : safe.
Lemma quiet_registerPendingRequest q : safe T (registerPendingRequest q).
Proof. unfold registerPendingRequest. safe_auto. Qed.
#[local] Hint Resolve quiet_registerPendingRequest : safe.
Lemma quiet_removePendingRequest i : safe T (removePendingRequest i).
Proof. unfold removePendingRequest. safe_auto. Qed.
#[local] Hint Resolve quiet_removePendingRequest : safe.
Lemma quiet_failPendingRequest i : safe T (failPendingRequest i).
Proof. unfold failPendingRequest. safe_auto. Qed.
#[local] Hint Resolve quiet_failPendingRequest : safe.
Lemma quiet_concludeReceipt now i r v md b : safe T (concludeReceipt now i r v md b).
Proof. unfold concludeReceipt. safe_auto. Qed.
#[local] Hint Resolve quiet_concludeReceipt : safe.
Lemma quiet_startSend r s : safe T (startSend r s).
Proof. unfold startSend, acquireResourceSendSlot. safe_auto. Qed.
#[local] Hint Resolve quiet_startSend : safe.
Lemma quiet_releaseResourceSendSlot : safe T (releaseResourceSendSlot).
Proof. unfold releaseResourceSendSlot. safe_auto. Qed.
#[local] Hint Resolve quiet_releaseResourceSendSlot : safe.
Lemma quiet_started v : safe T (started v).
Proof. unfold started. safe_auto. Qed.
#[local] Hint Resolve quiet_started : safe.

Lemma quiet_failAll : safe T failAllPendingRequests.
Proof.
  unfold failAllPendingRequests. apply safe_bind; [auto with safe|]. intros e. generalize (pendingRequests e). intros l.
  assert (Hm : safe T (mret () : M ())) by auto with safe. revert Hm. generalize (mret () : M ()).
  induction l as [|i l IH]; intros f Hf; simpl; [done|]. apply IH. safe_auto.
Qed.
#[local] Hint Resolve quiet_failAll : safe.
Lemma quiet_sendResponse now id r : safe T (sendResponse now id r).
Proof.
  unfold sendResponse. destruct r as [|d packed auto|v]; [auto with safe| |safe_auto]. cbv zeta.
  destruct (if 0 <? len packed then _ else _) as [res [u|x|]] eqn:E; [safe_auto|safe_auto|].
  destruct (0 <? len packed); [|done]. pose proof (metadata_returns packed (R.New (Some d) auto)) as HM. by rewrite E in HM.
Qed.
#[local] Hint Resolve quiet_sendResponse : safe.
Lemma quiet_handleRequest now d id : safe T (handleRequest now d id).
Proof. unfold handleRequest. safe_auto. apply safe_lift, request_returns. Qed.
#[local] Hint Resolve quiet_handleRequest : safe.
Lemma quiet_handleResponse now d : safe T (handleResponse now d).
Proof. unfold handleResponse. safe_auto. Qed.
#[local] Hint Resolve quiet_handleResponse : safe.
Lemma quiet_onRx f : safe T (onRx f).
Proof. unfold onRx. safe_auto. Qed.
#[local] Hint Resolve quiet_onRx : safe.
Lemma quiet_rejectResource now h : safe T (rejectResource now h).
Proof. unfold rejectResource. safe_auto. Qed.
#[local] Hint Resolve quiet_rejectResource : safe.
Lemma quiet_rejectIfActive now h : safe T (rejectIfActive now h).
Proof. unfold rejectIfActive. safe_auto. Qed.
#[local] Hint Resolve quiet_rejectIfActive : safe.
Lemma quiet_sendIncomingResourceProof now p h : safe T (sendIncomingResourceProof now p h).
Proof. unfold sendIncomingResourceProof. safe_auto. Qed.
#[local] Hint Resolve quiet_sendIncomingResourceProof : safe.
Lemma quiet_resetIncomingResource : safe T (resetIncomingResource).
Proof. unfold resetIncomingResource. safe_auto. Qed.
#[local] Hint Resolve quiet_resetIncomingResource : safe.
Lemma quiet_abortResponseResourceFor now i : safe T (abortResponseResourceFor now i).
Proof. unfold abortResponseResourceFor. safe_auto. Qed.
#[local] Hint Resolve quiet_abortResponseResourceFor : safe.
Lemma quiet_bindIncomingResponseRequest now i : safe T (bindIncomingResponseRequest now i).
Proof. unfold bindIncomingResponseRequest. safe_auto. Qed.
#[local] Hint Resolve quiet_bindIncomingResponseRequest : safe.

Lemma quiet_beginIncomingResource now adv : safe T (beginIncomingResource now adv).
Proof.
  unfold beginIncomingResource, queueIncomingResourceReqNext. apply safe_bind; [auto with safe|]. intros e.
  pose proof (advertisement_returns (resourceSDU (lk e)) (admitResource (R.a_TransferSize adv)) adv).
  destruct (Rx.checkAdvertisement _ _ _); [|auto with safe|done]. cbv zeta. safe_auto.
Qed.
#[local] Hint Resolve quiet_beginIncomingResource : safe.
Lemma quiet_sendIncomingResourceReqNext now : safe T (sendIncomingResourceReqNext now).
Proof.
  unfold sendIncomingResourceReqNext. apply safe_bind; [auto with safe|]. intros e. destruct (incomingRx e) as [x|]; [|auto with safe].
  pose proof (next_returns x). destruct (Rx.nextRequest x); [|auto with safe|done]. safe_auto.
Qed.
Lemma quiet_sendIncomingResourceHMUPrefetch now : safe T (sendIncomingResourceHMUPrefetch now).
Proof.
  unfold sendIncomingResourceHMUPrefetch. apply safe_bind; [auto with safe|]. intros e. destruct (incomingRx e) as [x|]; [|auto with safe].
  pose proof (prefetch_returns x). destruct (Rx.prefetchRequest x); [|auto with safe|done]. safe_auto.
Qed.
#[local] Hint Resolve quiet_sendIncomingResourceReqNext quiet_sendIncomingResourceHMUPrefetch : safe.
Lemma quiet_tickIncomingResourceWatchdog now j : safe T (tickIncomingResourceWatchdog now j).
Proof. unfold tickIncomingResourceWatchdog. safe_auto. Qed.
#[local] Hint Resolve quiet_tickIncomingResourceWatchdog : safe.
Lemma quiet_applyIncomingHashmapUpdate now h j m : safe T (applyIncomingHashmapUpdate now h j m).
Proof. unfold applyIncomingHashmapUpdate, queueIncomingResourceReqNext. safe_auto. Qed.
#[local] Hint Resolve quiet_applyIncomingHashmapUpdate : safe.
Lemma quiet_handleResourceHashmapUpdate now d : safe T (handleResourceHashmapUpdate now d).
Proof. unfold handleResourceHashmapUpdate. safe_auto. Qed.
#[local] Hint Resolve quiet_handleResourceHashmapUpdate : safe.
Lemma quiet_assembleIncomingPayload d adv : safe T (assembleIncomingPayload d adv).
Proof. unfold assembleIncomingPayload. safe_auto. Qed.
#[local] Hint Resolve quiet_assembleIncomingPayload : safe.
Lemma quiet_handOver now d : safe T (handOver now d).
Proof. unfold handOver, completeRequestWithResourcePayload. safe_auto. Qed.
#[local] Hint Resolve quiet_handOver : safe.
Lemma quiet_splitSegment d adv i : safe T (splitSegment d adv i).
Proof.
  intros e _. unfold splitSegment. destruct (segment_returns (conf e) d adv i (store e) Logic.I) as [_ HP].
  by destruct (Split.handleSplitSegmentComplete _ _ _ _ _) as [s [| |]].
Qed.
#[local] Hint Resolve quiet_splitSegment : safe.
Lemma quiet_deliverIncomingResource now d adv i : safe T (deliverIncomingResource now d adv i).
Proof. unfold deliverIncomingResource, completeRequestWithResourcePayload. safe_auto. Qed.
#[local] Hint Resolve quiet_deliverIncomingResource : safe.
Lemma quiet_reportIncomingResourceProgress x : safe T (reportIncomingResourceProgress x).
Proof. unfold reportIncomingResourceProgress. safe_auto. Qed.
#[local] Hint Resolve quiet_reportIncomingResourceProgress : safe.
Lemma quiet_finishIncoming now x : safe T (finishIncoming now x).
Proof. unfold finishIncoming. safe_auto. Qed.
#[local] Hint Resolve quiet_finishIncoming : safe.
Lemma quiet_appendIncomingResourcePart now d : safe T (appendIncomingResourcePart now d).
Proof. unfold appendIncomingResourcePart, queueIncomingResourceHMUPrefetch, queueIncomingResourceReqNext. safe_auto. Qed.
#[local] Hint Resolve quiet_appendIncomingResourcePart : safe.
Lemma quiet_handleResourcePart now d : safe T (handleResourcePart now d).
Proof. unfold handleResourcePart. safe_auto. Qed.
#[local] Hint Resolve quiet_handleResourcePart : safe.
Lemma quiet_handleResourceCancel now d : safe T (handleResourceCancel now d).
Proof. unfold handleResourceCancel. safe_auto. Qed.
#[local] Hint Resolve quiet_handleResourceCancel : safe.
Lemma quiet_application now adv : safe T (application now adv).
Proof. unfold application. safe_auto. Qed.
#[local] Hint Resolve quiet_application : safe.
Lemma quiet_processResourceAdvertisement now d : safe T (processResourceAdvertisement now d).
Proof.
  unfold processResourceAdvertisement. pose proof (Unpack_returns d).
  destruct (R.UnpackResourceAdvertisement d); [safe_auto|auto with safe|done].
Qed.
#[local] Hint Resolve quiet_processResourceAdvertisement : safe.
Lemma quiet_signalOutgoingResourceComplete : safe T (signalOutgoingResourceComplete).
Proof. unfold signalOutgoingResourceComplete. safe_auto. Qed.
#[local] Hint Resolve quiet_signalOutgoingResourceComplete : safe.
Lemma quiet_abandonOutgoing : safe T (abandonOutgoing).
Proof. unfold abandonOutgoing. safe_auto. Qed.
#[local] Hint Resolve quiet_abandonOutgoing : safe.
Lemma quiet_failedM : safe T (failedM).
Proof. unfold failedM. safe_auto. Qed.
#[local] Hint Resolve quiet_failedM : safe.
Lemma quiet_awaitResource : safe T (awaitResource).
Proof. unfold awaitResource. safe_auto. Qed.
#[local] Hint Resolve quiet_awaitResource : safe.
Lemma quiet_resourceTimeout : safe T (resourceTimeout).
Proof. unfold resourceTimeout. safe_auto. Qed.
#[local] Hint Resolve quiet_resourceTimeout : safe.
Lemma quiet_sendResourceAdvertisement now r : safe T (sendResourceAdvertisement now r).
Proof.
  unfold sendResourceAdvertisement. apply safe_bind; [auto with safe|]. intros e.
  pose proof (Pack_returns (c_mdu (lk e)) (R.NewResourceAdvertisement r)). destruct (R.Pack _ _ _); [safe_auto|auto with safe|done].
Qed.
Lemma quiet_prepareM f r : (∀ enc rand sdu, safe (λ _, True) (f enc rand sdu)) → safe T (prepareM f r).
Proof.
  intros Hf. unfold prepareM. do 3 (apply safe_bind; [auto with safe|]; intros ?).
  lazymatch goal with |- context [f ?a ?b ?c r] => destruct (Hf a b c r Logic.I) as [_ HP]; destruct (f a b c r) as [r' [u|x|]] end;
    [auto with safe|auto with safe|done].
Qed.
#[local] Hint Resolve quiet_sendResourceAdvertisement : safe.
#[local] Hint Extern 2 (safe _ (prepareM _ _)) => apply quiet_prepareM; first [apply prepare_returns|apply prepareNext_returns] : safe.
Lemma quiet_sendParts now sdu l : ∀ out, safe T (sendParts now sdu l out).
Proof. induction l as [|i l IH]; intros out; simpl; safe_auto. Qed.
#[local] Hint Resolve quiet_sendParts : safe.
Lemma quiet_SendResource now r : safe T (SendResource now r).
Proof. unfold SendResource. safe_auto. Qed.
#[local] Hint Resolve quiet_SendResource : safe.
Lemma quiet_handleResourceProof now d : safe T (handleResourceProof now d).
Proof. unfold handleResourceProof. safe_auto. Qed.
#[local] Hint Resolve quiet_handleResourceProof : safe.
Lemma quiet_sendResourceHashmapUpdate now out mdu h lo : safe T (sendResourceHashmapUpdate now out mdu h lo).
Proof. unfold sendResourceHashmapUpdate. safe_auto. Qed.
#[local] Hint Resolve quiet_sendResourceHashmapUpdate : safe.
Lemma quiet_dispatchOutgoingResourceRequests now d : safe T (dispatchOutgoingResourceRequests now d).
Proof. unfold dispatchOutgoingResourceRequests. safe_auto. Qed.
#[local] Hint Resolve quiet_dispatchOutgoingResourceRequests : safe.
Lemma quiet_resourceReqAllowed now : safe T (resourceReqAllowed now).
Proof. unfold resourceReqAllowed. safe_auto. Qed.
#[local] Hint Resolve quiet_resourceReqAllowed : safe.
Lemma quiet_handleResourceRequest now d : safe T (handleResourceRequest now d).
Proof. unfold handleResourceRequest. safe_auto. Qed.
#[local] Hint Resolve quiet_handleResourceRequest : safe.
Lemma quiet_handleResourceReject d : safe T (handleResourceReject d).
Proof. unfold handleResourceReject. safe_auto. Qed.
#[local] Hint Resolve quiet_handleResourceReject : safe.
Lemma quiet_closing : safe T closing.
Proof. unfold closing. safe_auto. Qed.
#[local] Hint Resolve quiet_closing : safe.
Lemma draw_ok e : ∃ r e1, draw e = (e1, Ok r) ∧ lk e1 = lk e ∧ (whole e → whole e1).
Proof.
  pose proof (draw_inv [] 0 0 false e) as HD. revert HD. unfold draw. rewrite run_get. destruct (entropy e) as [|r l].
  - intros _. by exists None, e.
  - rewrite run_modify. intros HD. eexists _, _. split; [reflexivity|]. by split.
Qed.

(** Only closing the link needs it to be closable. *)
Lemma quiet_Teardown now e : c_closable (lk e) → (Teardown now e).2 ≠ Panic.
Proof.
  intros Hc. unfold Teardown. destruct (draw_ok e) as (rd & e1 & Hd & Hl & _).
  rewrite (run_bind_ok _ _ _ _ _ Hd), run_get. cbv zeta. rewrite run_modify, Hl. destruct (closable_teardown (mkIO now rd) (lk e) Hc) as [_ [closed Ht]]. rewrite Ht.
  assert (HS : safe T ((if closed then closing else mret ()) ;; resetIncomingResource : M ())) by (destruct closed; safe_auto).
  by apply HS.
Qed.
Lemma quiet_handleResourceAdvertisement now d e : whole e → (handleResourceAdvertisement now d e).2 ≠ Panic.
Proof.
  intros HI. unfold handleResourceAdvertisement. pose proof (decryptM_inv _ _ _ _ d e HI) as HI1.
  destruct (quiet_decryptM d e Logic.I) as [_ HD]. unfold mbind, goM_bind.
  destruct (decryptM d e) as [e1 [p|x|]]; [|done|done]. cbn [fst] in HI1. unfold orTeardown.
  pose proof (processResourceAdvertisement_inv _ _ _ _ now p e1 HI1) as HI2.
  destruct (quiet_processResourceAdvertisement now p e1 Logic.I) as [_ HP].
  destruct (processResourceAdvertisement now p e1) as [e2 [u|x|]]; [done| |done]. cbn [fst snd] in *.
  pose proof (quiet_Teardown now e2 (v_closable _ _ _ _ _ HI2)). by destruct (Teardown now e2) as [e3 [u|y|]].
Qed.
Lemma quiet_timeoutStep now i u : safe T (timeoutStep now i u).
Proof. unfold timeoutStep. safe_auto. Qed.
#[local] Hint Resolve quiet_timeoutStep : safe.
Lemma quiet_RequestLimited now path d timeout size : safe T (RequestLimited now path d timeout size).
Proof. unfold RequestLimited, acquireResourceSendSlot. safe_auto. Qed.
#[local] Hint Resolve quiet_RequestLimited : safe.
Lemma quiet_finishSend s ok : safe T (finishSend s ok).
Proof. unfold finishSend. safe_auto. Qed.
#[local] Hint Resolve quiet_finishSend : safe.
Lemma quiet_runSend now r s : safe T (runSend now r s).
Proof. unfold runSend. safe_auto. Qed.
#[local] Hint Resolve quiet_runSend : safe.
Lemma quiet_runAwait late s : safe T (runAwait late s).
Proof. unfold runAwait. safe_auto. Qed.
#[local] Hint Resolve quiet_runAwait : safe.
Lemma quiet_runTask now late t : safe T (runTask now late t).
Proof. unfold runTask. safe_auto. Qed.
#[local] Hint Resolve quiet_runTask : safe.
Lemma quiet_SetResponseCallback i cb : safe T (SetResponseCallback i cb).
Proof. unfold SetResponseCallback. safe_auto. Qed.
#[local] Hint Resolve quiet_SetResponseCallback : safe.
Lemma quiet_SetFailedCallback i cb : safe T (SetFailedCallback i cb).
Proof. unfold SetFailedCallback. safe_auto. Qed.
#[local] Hint Resolve quiet_SetFailedCallback : safe.
Lemma quiet_SetProgressCallback i cb : safe T (SetProgressCallback i cb).
Proof. unfold SetProgressCallback. safe_auto. Qed.
#[local] Hint Resolve quiet_SetProgressCallback : safe.
Lemma quiet_other now o : match o with InAdvertisement _ | Close => False | _ => True end → safe T (perform now o).
Proof. intros Ho. destruct o; try done; unfold perform; safe_auto. Qed.
Lemma quiet_perform now o e : whole e → (perform now o e).2 ≠ Panic.
Proof.
  intros HI. destruct o; try (by apply quiet_other).
  - by apply quiet_handleResourceAdvertisement.
  - by apply quiet_Teardown, (v_closable _ _ _ _ _ HI).
Qed.

(** *** Every operation keeps the invariant *)

Lemma acquire_inv ex k m e :
  inv ex k m false e →
  ∃ b, (acquireResourceSendSlot e).2 = Ok b ∧ inv ex (if b then k + 1 else k) m false (acquireResourceSendSlot e).1.
Proof.
  intros HI. unfold acquireResourceSendSlot. cbv [mbind goM_bind mget].
  destruct (Z.leb_spec MaxPendingResourceSends (resSendInflight e)); simpl; [by exists false|].
  exists true. split; [done|]. destruct HI. split; try done; simpl; unfold MaxPendingResourceSends in *; lia.
Qed.

Lemma TruncatedHash_nonempty b : TruncatedHash b ≠ [].
Proof.
  unfold TruncatedHash. intros E. apply (f_equal len) in E. rewrite len_take, Sha256.len_Sum256 in E. by vm_compute in E.
Qed.

Lemma sentPacket_inv ex k m p e : inv ex k m false e → inv ex k m false (attempt (sendPacket p) e).1.
Proof. apply keeps_attempt, sendPacket_inv. Qed.

Lemma fail_then {A} i (x : engine_error) e : inv [i] 0 0 false e → whole ((failPendingRequest i ;; fail (A:=A) x) e).1.
Proof. intros HI. rewrite (after_ok _ _ _ () (failPendingRequest_Ok i e)). by apply failPendingRequest_ends. Qed.

Lemma RequestLimited_inv now path d timeout size : keeps whole (RequestLimited now path d timeout size).
Proof.
  unfold RequestLimited. apply keeps_get_bind. intros e0 _. apply keeps_bind; [auto with keeps|]. intros _. cbv zeta.
  destruct (marshal _) as [packed|]; [|auto with keeps]. destruct (len packed <=? c_mdu (lk e0)).
  - do 3 (apply keeps_bind; [auto with keeps|]; intros ?). apply keeps_register; [done|done|apply TruncatedHash_nonempty|].
    intros i e HI. apply (sentPacket_inv _ _ _ a1) in HI. pose proof (quiet_attempt _ (quiet_sendPacket a1) e Logic.I) as [_ HP].
    unfold mbind, goM_bind. destruct (attempt (sendPacket a1) e) as [e1 [[u|]|x|]] eqn:Es; simpl in HI, HP.
    + apply (spawn_adopts [] 0 0 false i); [by apply bool_decide_eq_true|done|done|done].
    + by apply fail_then.
    + unfold attempt in Es. by destruct (sendPacket a1 e) as [? [| |]].
    + done.
  - apply keeps_register; [done|done|apply TruncatedHash_nonempty|]. intros i e HI.
    destruct (acquire_inv [i] 0 0 e HI) as (b & Eb & HB). rewrite (after_ok _ _ _ b Eb). destruct b.
    + apply (respawn (SendRes _ (Requester i))). done.
    + by apply fail_then.
Qed.

Lemma held_none ex k e : inv ex k 0 false e → sendMu e = false → outgoingRes e = None.
Proof. intros [] Hs. destruct (outgoingRes e); [|done]. rewrite v_out0 in Hs by done. done. Qed.

Lemma wp_attempted {A B} (f : M A) (g : option A → M B) Q e :
  safe T f → (∀ o e', (attempt f e).1 = e' → wp (g o) Q e') → wp (attempt f ≫= g) Q e.
Proof.
  intros Hf Hg. apply wp_bind. destruct (Hf e Logic.I) as [_ HP]. unfold wp, attempt in *. destruct (f e) as [e' [a|x|]]; simpl; [by apply Hg|by apply Hg|done].
Qed.

(** The resource on its way is not touched. *)
Notation still o := (λ e : Engine, outgoingRes e = o).
Lemma prepareM_still o f r : keeps (still o) (prepareM f r).
Proof. unfold prepareM, draw. keeps_auto; done. Qed.
Lemma failedM_still o : keeps (still o) failedM.
Proof. unfold failedM. keeps_auto; done. Qed.
Lemma advertised_still o now r : keeps (still o) (attempt (sendResourceAdvertisement now r)).
Proof.
  apply keeps_attempt. unfold sendResourceAdvertisement, encryptM, draw, packM, recordM, sendPacket. keeps_auto; done.
Qed.

(** A send takes the mutex; unless the transfer is under way nothing is left of it. *)
Lemma SendResource_inv ex k now r : keeps (inv ex k 1 false) (SendResource now r).
Proof.
  unfold SendResource. apply keeps_get_bind. intros e0 _. apply keeps_bind; [keeps_reading|]. intros _.
  apply keeps_bind; [auto with keeps|]. intros r'. cbv zeta. intros e HI.
  assert (HJ : inv ex k 1 true (set_outgoing (Some (R.Activate r')) 0 (Some false) e)).
  { destruct HI. pose proof (number_nonneg awaits (tasks e)). assert (sendMu e = true) by (destruct (sendMu e); [done|lia]). by split. }
  match goal with |- inv _ _ _ _ ((modify _ ≫= ?f) _).1 => assert (HL : leads (inv ex k 1 true) (inv ex k 1 false) (f ())) end.
  { leads_auto. }
  by apply HL.
Qed.
Lemma SendResource_settled now r e :
  outgoingRes e = None → wp (SendResource now r) (λ o e', o = Ok false ∨ outgoingRes e' = None) e.
Proof.
  intros Ho. unfold SendResource. apply wp_get, wp_bind.
  eapply (wp_keeps _ (still None)); [case_match; keeps_auto; apply failedM_still|done|]. intros [[]|x|] e1 E1; [|by right|by right].
  apply wp_bind. eapply (wp_keeps _ (still None)); [apply prepareM_still|done|]. intros [r'|x|] e2 E2; [|by right|by right].
  cbv zeta. apply wp_modify, wp_attempted; [auto with safe|]. intros [u|] e3 _; [|by right].
  case_match; [|by left]. apply wp_attempted; [auto with safe|]. intros [v|] e4 _; by right.
Qed.

Lemma runSend_inv now r s e : holding (SendRes r s) e → whole (runSend now r s e).1.
Proof.
  intros HI. change (wp (runSend now r s) (λ _ e', whole e') e). unfold runSend. apply wp_get.
  destruct (sendMu e) eqn:Es; [by apply (respawn (SendRes r s))|]. apply wp_modify.
  set (e1 := set_sendMu true e).
  assert (HJ : inv (owner (AwaitRes s)) (one (holdsSlot (AwaitRes s))) 1 false e1).
  { assert (HI' : inv (owner (AwaitRes s)) (one (holdsSlot (AwaitRes s))) 0 false e) by (by destruct s).
    destruct HI'. split; try done; simpl. rewrite Es in *. lia. }
  assert (Ho : outgoingRes e1 = None) by exact (held_none _ _ _ HI Es).
  pose proof (SendResource_inv _ _ now r e1 HJ) as HK. pose proof (SendResource_settled now r e1 Ho) as HS. pose proof (quiet_SendResource now r e1 Logic.I) as [_ HP].
  apply wp_bind. unfold wp, attempt in *. clearbody e1. destruct (SendResource now r e1) as [e2 [[]|x|]]; simpl in *.
  - apply finishSend_inv; [done|]. by destruct HS.
  - by apply (respawn (AwaitRes s)).
  - apply finishSend_inv; [done|]. by destruct HS.
  - done.
Qed.

Lemma runAwait_inv late s e : holding (AwaitRes s) e → whole (runAwait late s e).1.
Proof.
  intros HI. unfold runAwait. destruct late.
  - cbv [mbind goM_bind attempt]. simpl. apply finishSend_inv; [|done].
    pose proof (resourceTimeout_inv _ _ _ _ e HI) as HT. exact HT.
  - unfold awaitResource. cbv [mbind goM_bind mget]. destruct (outgoingResComplete e) as [[]|] eqn:Ec; simpl.
    + apply finishSend_inv; [|exact (v_signalled _ _ _ _ e HI Ec)]. pose proof (awaitResource_inv _ _ _ _ e HI) as HA.
      unfold awaitResource in HA. cbv [mbind goM_bind mget] in HA. by rewrite Ec in HA.
    + by apply (respawn (AwaitRes s)).
    + by apply (respawn (AwaitRes s)).
Qed.

(** A request whose goroutine ends is not pending any more. *)
Lemma rejectIfActive_Ok now h e : (rejectIfActive now h e).2 = Ok ().
Proof.
  unfold rejectIfActive. cbv [mbind goM_bind mget]. case_match; [|done]. destruct (quiet_rejectResource now h e Logic.I) as [_ HP].
  unfold attempt. by destruct (rejectResource now h e) as [e' [[]|x|]].
Qed.
Lemma abort_Ok now i e : (abortResponseResourceFor now i e).2 = Ok ().
Proof.
  unfold abortResponseResourceFor. rewrite run_get. destruct (incomingRx e) as [x|]; [|done]. case_match; [done|].
  rewrite run_modify, (after_ok _ _ _ () (failPendingRequest_Ok i _)). apply rejectIfActive_Ok.
Qed.
Lemma concluded_gone i q e : inv [i] 0 0 false e → receipts e !! i = Some q → unconcluded q = false → whole e.
Proof.
  intros HI Hq Hu. apply (gone i); [done|]. intros (p & Hp & Hpu)%(k_pending _ _ _ _ (v_reqs _ _ _ _ e HI)). congruence.
Qed.
Lemma timeout_run_inv now i u e : holding (Timeout i u) e → whole (runTask now false (Timeout i u) e).1.
Proof.
  intros HI. change (wp (runTask now false (Timeout i u)) (λ _ e', whole e') e). unfold runTask, timeoutStep.
  apply wp_assoc, wp_get. destruct (receipts e !! i) as [q|] eqn:Eq.
  2:{ apply wp_ret. apply (gone i); [done|]. intros (p & Hp & _)%(k_pending _ _ _ _ (v_reqs _ _ _ _ e HI)). congruence. }
  assert (Hgo : ∀ v, whole (spawn (Timeout i v) e).1) by (intros v; by apply (respawn (Timeout i v))).
  assert (Hend : ∀ e1, inv [i] 0 0 false e1 → whole (((failPendingRequest i ;; mret None) ≫= λ next : option task,
                    match next with Some t => spawn t | None => mret () end) e1).1).
  { intros e1 HI1. rewrite run_bind_assoc, (after_ok _ _ _ () (failPendingRequest_Ok i e1)). by apply failPendingRequest_ends. }
  destruct (q_status q) eqn:Es.
  - unfold wp. rewrite run_bind_assoc, (after_ok _ _ _ () (abort_Ok now i e)). apply Hend.
    apply abortResponseResourceFor_inv. exact HI.
  - case_bool_decide; [apply Hgo|]. destruct u as [t|]; [|apply Hgo]. case_match; [by apply Hend|apply Hgo].
  - by apply (concluded_gone i q); [|done|unfold unconcluded; rewrite Es].
  - by apply (concluded_gone i q); [|done|unfold unconcluded; rewrite Es].
Qed.

Lemma runTask_inv now late t e : holding t e → whole (runTask now late t e).1.
Proof.
  intros HI. destruct t as [| |k|i u|r s|s]; simpl in HI.
  - revert e HI. change (keeps whole (runTask now late ReqNext)). unfold runTask. pose proof sendIncomingResourceReqNext_inv. keeps_auto.
  - revert e HI. change (keeps whole (runTask now late Prefetch)). unfold runTask. pose proof sendIncomingResourceHMUPrefetch_inv. keeps_auto.
  - revert e HI. change (keeps whole (runTask now late (Watch k))). unfold runTask. pose proof tickIncomingResourceWatchdog_inv. keeps_auto.
  - apply timeout_run_inv. exact HI.
  - apply runSend_inv. exact HI.
  - apply runAwait_inv. exact HI.
Qed.

(** The operations the invariant is kept by: callbacks are removed from receipts in
    [D] only, and the link below stays one that can be closed. *)
Definition allowed (o : op) : Prop :=
  match o with
  | OnResponded i cb | OnFailed i cb => cb = true ∨ D i = true
  | Below l _ => c_closable l
  | _ => True
  end.

Lemma perform_inv now o : allowed o → keeps whole (perform now o).
Proof.
  intros Ho. destruct o; simpl in *.
  - apply keeps_bind; [apply RequestLimited_inv|auto with keeps].
  - apply spawn_inv; done.
  - by apply SetResponseCallback_inv.
  - by apply SetFailedCallback_inv.
  - apply SetProgressCallback_inv.
  - apply handleRequest_inv.
  - apply handleResponse_inv.
  - apply handleResourceAdvertisement_inv.
  - apply handleResourceHashmapUpdate_inv.
  - apply handleResourcePart_inv.
  - apply handleResourceCancel_inv.
  - apply handleResourceRequest_inv.
  - apply handleResourceReject_inv.
  - apply handleResourceProof_inv.
  - apply Teardown_inv.
  - apply keeps_bind; [apply keeps_modify; intros e; by apply set_lk_inv|]. intros _.
    destruct closed; [apply closing_inv|auto with keeps].
  - intros e HI. rewrite run_get. destruct (tasks e !! k) as [t|] eqn:Et; [|done]. rewrite run_modify. apply runTask_inv. by apply run_task.
Qed.

(** A link on which nothing has happened. *)
Definition newEngine (l : Lk) (strategy : byte) (c : Split.Conf) (s : Split.Store) (r : list (option bytes)) : Engine :=
  mkEngine l strategy None 0 None None None 0 [] [] 0 c s r [] [] 0 false.
Lemma new_inv l strategy c s r : c_closable l → whole (newEngine l strategy c s r).
Proof.
  intros Hl. split; simpl; try done; try (by intros [? ?]); try (by intros i ?%elem_of_nil). split; try done.
  - constructor.
  - intros i. rewrite elem_of_nil. split; [done|]. by intros (? & ? & _).
Qed.
Lemma run_whole ops : Forall (λ o, allowed o.2) ops → ∀ e, whole e → whole (run ops e).
Proof.
  induction ops as [|o ops IH]; intros Ho e HI; [done|]. apply list.Forall_cons in Ho as [Ho Hops].
  apply IH; [done|]. by apply perform_inv.
Qed.

(** Failing all pending requests leaves none. *)
Lemma failAll_run l : ∀ (f : M ()) e, (f e).2 = Ok () →
  foldl (λ m i, m ;; failPendingRequest i) f l e = (foldl (λ e i, (failPendingRequest i e).1) (f e).1 l, Ok ()).
Proof.
  induction l as [|i l IH]; intros f e Hf; simpl; [by destruct (f e); simpl in *; subst|].
  assert (E : (f ;; failPendingRequest i) e = failPendingRequest i (f e).1) by exact (after_ok f _ e () Hf).
  rewrite IH by (rewrite E; apply failPendingRequest_Ok). by rewrite E.
Qed.
Lemma failAll_empties l : ∀ e, whole e → (∀ i, i ∈ pendingRequests e → i ∈ l) →
  pendingRequests (foldl (λ e i, (failPendingRequest i e).1) e l) = [].
Proof.
  induction l as [|i l IH]; intros e HI Hs; simpl.
  { destruct (pendingRequests e) as [|i l]; [done|]. by destruct (proj1 (elem_of_nil i) (Hs i (list_elem_of_here i l))). }
  apply IH; [by apply failPendingRequest_inv|]. intros j Hj.
  destruct (failPendingRequest_narrowed e i e) as [_ Hsub]; [by split|].
  pose proof (Hs j (Hsub j Hj)) as [->|]%elem_of_cons; [|done].
  by apply (failPendingRequest_removes i e (v_reqs _ _ _ _ e HI)) in Hj.
Qed.

(** Nothing is left but, perhaps, an incoming transfer. *)
Definition ended (e : Engine) : Prop :=
  pendingRequests e = [] ∧ outgoingRes e = None ∧ outgoingResComplete e ≠ Some false.

Lemma ended_concluded e : whole e → ended e → ∀ i q, receipts e !! i = Some q → Concluded q = true.
Proof.
  intros HI (Hp & _) i q Hq. rewrite unconcluded_negb. apply negb_true_iff. destruct (unconcluded q) eqn:Eu; [|done]. exfalso.
  eapply not_elem_of_nil. rewrite <- Hp. apply (k_pending _ _ _ _ (v_reqs _ _ _ _ _ HI)). eauto.
Qed.

Lemma failAll_rest l : ∀ e, rest (foldl (λ e i, (failPendingRequest i e).1) e l) = rest e.
Proof.
  induction l as [|i l IH]; intros e; [done|]. simpl. rewrite IH.
  by destruct (failPendingRequest_narrowed e i e) as [HR _]; [by split|].
Qed.

Lemma closing_wp e : whole e →
  wp closing (λ o e', o = Ok () ∧ whole e' ∧ ended e' ∧ incomingRx e' = incomingRx e) e.
Proof.
  intros HI. assert (HC : whole (closing e).1) by (by apply closing_inv). revert HC. unfold closing, dropAssemblies, wp. rewrite run_modify.
  set (e1 := set_store _ e). assert (HI1 : whole e1) by (destruct HI; by split). assert (Ex : incomingRx e1 = incomingRx e) by done. clearbody e1.
  unfold failAllPendingRequests. rewrite run_bind_assoc, run_get.
  pose proof (failAll_run (pendingRequests e1) (mret ()) e1 eq_refl) as HR. simpl in HR. rewrite (run_bind_ok _ _ _ _ _ HR).
  pose proof (failAll_empties (pendingRequests e1) e1 HI1 (λ i Hi, Hi)) as HE. intros HC.
  split_and!; [done|exact HC| |].
  - split_and!; [exact HE|done|]. simpl. by destruct (outgoingResComplete _).
  - pose proof (failAll_rest (pendingRequests e1) e1) as E. injection E as _ _ _ _ _ E _. rewrite <- Ex, <- E. done.
Qed.
Lemma reset_wp e : ended e → wp resetIncomingResource (λ _ e', ended e' ∧ incomingRx e' = None) e.
Proof.
  intros (Hp & Ho & Hc). unfold resetIncomingResource. apply wp_get. destruct (incomingRx e) as [x|] eqn:Ex; [|done]. apply wp_modify.
  destruct (Rx.rx_request x) as [i|]; [|done]. set (e1 := set_rx None e). unfold wp.
  destruct (failPendingRequest_narrowed e1 i e1) as [HR Hsub]; [by split|]. injection HR as _ _ _ E1 E2 E3 _.
  split; [|by rewrite E3]. split; [|by rewrite E1, E2]. destruct (pendingRequests (failPendingRequest i e1).1) as [|j l]; [done|]. specialize (Hsub j (list_elem_of_here j l)).
  change (j ∈ pendingRequests e) in Hsub. rewrite Hp in Hsub. by apply elem_of_nil in Hsub.
Qed.

Lemma close_wp now e : whole e → (∀ io, (c_teardown io (lk e)).2 = Some true) →
  wp (Teardown now) (λ _ e', ended e' ∧ incomingRx e' = None) e.
Proof.
  intros HI Ht. unfold Teardown, wp. destruct (draw_ok e) as (rd & e1 & Hd & El & HD). rewrite (run_bind_ok _ _ _ _ _ Hd), run_get.
  cbv zeta. rewrite run_modify, El, Ht. set (e2 := set_lk _ e1).
  change (wp (closing ;; resetIncomingResource) (λ _ e', ended e' ∧ incomingRx e' = None) e2).
  apply wp_bind. eapply wp_mono; [apply closing_wp, set_lk_inv|].
  - apply closable_teardown, (v_closable _ _ _ _ _ HI).
  - by apply HD.
  - intros o e3 (-> & _ & He & _). by apply reset_wp.
Qed.
End histories.

(** *** Histories *)

(** Whether a callback of the receipt [i] is removed. *)
Definition removes `{Carrier} (i : nat) (o : op) : bool :=
  match o with OnResponded j cb | OnFailed j cb => negb cb && bool_decide (i = j) | _ => false end.
Definition removed `{Carrier} (ops : list (Z * op)) (i : nat) : bool := existsb (λ o, removes i o.2) ops.

Section outcomes.
Context `{CarrierLaws} `{Codec} `{EngineEnv} `{R.Bzip2Stream} `{R.Msgpack}.

(** The link below stays one that can be closed. *)
Definition stays_closable (ops : list (Z * op)) : Prop := ∀ now l closed, (now, Below l closed) ∈ ops → c_closable l.

Lemma history_allowed ops : stays_closable ops → Forall (λ o, allowed (removed ops) o.2) ops.
Proof.
  intros Hl. apply list.Forall_forall. intros [now o] Hin. assert (Hrem : ∀ i, removes i o = true → removed ops i = true).
  { intros i Hi. apply existsb_exists. exists (now, o). split; [by apply list_elem_of_In|done]. }
  destruct o as [| |i cb|i cb| | | | | | | | | | | |l closed|]; simpl; try done.
  - destruct cb; [by left|right]. apply Hrem. simpl. by apply bool_decide_eq_true.
  - destruct cb; [by left|right]. apply Hrem. simpl. by apply bool_decide_eq_true.
  - by apply (Hl now l closed).
Qed.

Lemma run_engine_inv ops l strategy c s r :
  c_closable l → stays_closable ops → inv (removed ops) [] 0 0 false (run ops (newEngine l strategy c s r)).
Proof. intros Hc Hl. apply run_whole; [by apply history_allowed|by apply new_inv]. Qed.

(** C8.  Requests and resources on a link that can be closed, as one that was
    never re-established can, whatever the application, the peer, the goroutines
    and the link below do, in whatever order: no operation panics; the pending requests are the unconcluded receipts,
    at most eight, no two for the same path, and each has a goroutine that sees to
    its end; who waits for a receipt is released exactly when it is concluded; a
    callback is never called for a receipt that was not concluded its way, and has
    been called exactly once for one that was and has it, unless a callback of the
    receipt was removed in between; the slots taken are those of the senders at
    work, at most eight; a resource is on its way only while its one sender waits;
    and the tables of the incoming transfer have the advertised length, with every
    index inside them and the window within its bounds. *)
Theorem engine_well_formed ops l strategy c s r :
  c_closable l → stays_closable ops →
  let e := run ops (newEngine l strategy c s r) in
  (∀ now o, (perform now o e).2 ≠ Panic)
  ∧ (NoDup (pendingRequests e) ∧ len (pendingRequests e) <= MaxPendingRequests)
  ∧ (∀ i, i ∈ pendingRequests e ↔ ∃ q, receipts e !! i = Some q ∧ Concluded q = false)
  ∧ (∀ i j p q, i ∈ pendingRequests e → j ∈ pendingRequests e → receipts e !! i = Some p → receipts e !! j = Some q →
       q_pathHash p = q_pathHash q → i = j)
  ∧ (∀ i, i ∈ pendingRequests e → Exists (λ t, watches i t = true) (tasks e))
  ∧ (∀ i q, receipts e !! i = Some q →
       q_done q = Concluded q
       ∧ (q_status q ≠ RActive → tally (answers i) (events e) = 0%nat)
       ∧ (q_status q ≠ RFailed → tally (fails i) (events e) = 0%nat)
       ∧ (removed ops i = false → tally (answers i) (events e) = answered q ∧ tally (fails i) (events e) = failed q))
  ∧ (resSendInflight e = number holdsSlot (tasks e) ∧ resSendInflight e <= MaxPendingResourceSends)
  ∧ (number awaits (tasks e) <= 1 ∧ (is_Some (outgoingRes e) → number awaits (tasks e) = 1))
  ∧ ∀ x, incomingRx e = Some x → Rx.rx_ok x.
Proof.
  intros Hc Hl e. assert (HI : inv (removed ops) [] 0 0 false e) by (by apply run_engine_inv). clearbody e.
  split; [intros now o; by eapply quiet_perform|]. destruct HI as [[] HW HS HF HM HO HG HH HX _].
  split; [done|]. split. { intros i. rewrite k_pending0. setoid_rewrite unconcluded_negb. setoid_rewrite negb_false_iff. done. }
  split; [done|]. split. { intros i Hi. apply HW; [done|]. apply not_elem_of_nil. }
  split.
  { intros i q Hq. split_and!; [by eapply k_done0|intros Hs; apply k_unanswered0|intros Hs; apply k_unfailed0|]; [by intros ? [= <-]%(eq_trans (eq_sym Hq))..|].
    intros Hr. pose proof (k_answers0 i Hr) as H1'. pose proof (k_fails0 i Hr) as H2'. by rewrite Hq in H1', H2'. }
  split; [split; [lia|done]|]. split; [|done]. rewrite Z.add_0_r in HM. rewrite HM. split; [by destruct (sendMu e)|].
  intros Ho. by rewrite HO.
Qed.

End outcomes.

Section transfer_facts.
Context `{Carrier} `{Codec} `{EngineEnv} `{R.Bzip2Stream} `{R.Msgpack}.

Lemma nextRequest_effect x body pns exh x1 :
  Rx.nextRequest x = Ok (Some (body, pns, exh, x1)) →
  Rx.outstandingParts x1 = Rx.outstandingParts x + len pns ∧ (exh = false → Rx.waitingForHmu x1 = Rx.waitingForHmu x).
Proof.
  unfold Rx.nextRequest. do 3 (case_match; [done|]). destruct (Rx.collectParts _ _ _ _) as [acc b]. case_match; [done|].
  assert (Hl : ∀ l : list (Z * bytes), len l.*1 = len l) by (intros l; unfold len; by rewrite length_fmap).
  destruct b; simpl; [destruct (Rx.lastMapHash x); simpl; [|done|done]|]; intros [= _ <- <- <-]; simpl; rewrite Hl; by split.
Qed.

(** C40.  A finding: when the request for the next parts of a transfer cannot be sent
    while nothing else is outstanding, the transfer is neither resumed nor given up:
    every later tick of its watchdog does nothing and goes on. *)
Theorem failed_request_strands_transfer now e x :
  incomingRx e = Some x → Rx.outstandingParts x = 0 → Rx.waitingForHmu x = false →
  (sendIncomingResourceReqNext now e).2 = Err SendFailed →
  let e1 := (sendIncomingResourceReqNext now e).1 in
  is_Some (incomingRx e1) ∧ ∀ later, tickIncomingResourceWatchdog later (rxSerial e1) e1 = (e1, Ok true).
Proof.
  intros Hx Ho Hw HF e1.
  assert (HS : ∃ x1, incomingRx e1 = Some x1 ∧ Rx.outstandingParts x1 = 0 ∧ Rx.waitingForHmu x1 = false).
  { revert HF. subst e1. unfold sendIncomingResourceReqNext. rewrite run_get, Hx.
    destruct (Rx.nextRequest x) as [[[[[body pns] exh] x1]|]|y|] eqn:En; [|done|done|done].
    rewrite run_modify. destruct (nextRequest_effect _ _ _ _ _ En) as [Eo Ew].
    set (e2 := set_rx (Some x1) e). assert (HK : keeps (λ e, incomingRx e = Some x1) (attempt (sendWithContext now body Packet.ContextResourceReq))).
    { apply keeps_attempt. unfold sendWithContext, draw. keeps_auto; done. }
    specialize (HK e2 eq_refl).
    destruct (attempt (sendWithContext now body Packet.ContextResourceReq) e2) as [e3 [o|y|]] eqn:Ea.
    2:{ unfold attempt in Ea. by destruct (sendWithContext now body Packet.ContextResourceReq e2) as [? [| |]]. }
    2:{ unfold mbind at 1, goM_bind. by rewrite Ea. }
    rewrite !(run_bind_ok _ _ _ _ _ Ea). destruct o as [u|]; [done|]. intros _. exists (Rx.unrequest pns exh x1). simpl in HK |- *. rewrite HK. split; [done|]. unfold Rx.unrequest. rewrite Eo, Ho.
    destruct exh; simpl; (split; [case_match; lia|]); [done|]. by rewrite Ew. }
  destruct HS as (x1 & Hx1 & Ho1 & Hw1). split; [by rewrite Hx1|]. intros later. unfold tickIncomingResourceWatchdog.
  rewrite run_get, Hx1, bool_decide_eq_true_2 by done. simpl. case_match; [done|]. by rewrite Ho1, Hw1.
Qed.

(** *** From sender to receiver *)

Section delivery.
Context `{!R.Bzip2StreamLaws}.

Lemma with_hashmap_flags m a : R.a_Flags (R.with_hashmap m a) = R.a_Flags a.
Proof. done. Qed.
(** The flags of an advertisement are those of the resource. *)
Lemma advertised_flags mdu r :
  let a := Rx.advertised mdu r in
  R.a_Compressed a = R.compressed r ∧ R.a_Encrypted a = R.encrypted r ∧ R.a_Split a = R.split r
  ∧ R.a_HasMetadata a = R.HasMetadata r ∧ R.a_IsRequest a = R.IsRequest r ∧ R.a_IsResponse a = R.isResponse r.
Proof.
  unfold R.a_Compressed, R.a_Encrypted, R.a_Split, R.a_HasMetadata, R.a_IsRequest, R.a_IsResponse, R.has_flag, Rx.advertised. cbv zeta.
  rewrite !with_hashmap_flags. unfold R.NewResourceAdvertisement. cbv zeta. cbn [R.a_Flags].
  generalize (R.HasMetadata r), (R.isResponse r), (R.IsRequest r), (R.split r), (R.compressed r), (R.encrypted r).
  intros [] [] [] [] [] []; vm_compute; done.
Qed.

(** The cipher of the sender is the one the link decrypts with. *)
Definition session (enc : bytes → option bytes) (l : Lk) : Prop := ∀ p c, enc p = Some c → c_decrypt c l = Some p.

(** A segment that has arrived is put together as the sender has taken it apart. *)
Lemma assemble_segment enc rand sdu k b r r' blob mdu e :
  R.ready enc rand sdu k b r r' → R.prepared enc sdu (R.segmentOf k b) blob r' → 1 <= k → len (R.randomHash r') = R.RandomHashSize →
  session enc (lk e) → assembleIncomingPayload blob (Rx.advertised mdu r') e = (e, Ok (R.segmentOf k b)).
Proof.
  intros HY HP Hk Hrand HS. destruct (advertised_flags mdu r') as (F1 & F2 & F3 & _).
  unfold assembleIncomingPayload. rewrite F1, F2, F3, (R.p_encrypted _ _ _ _ _ HP).
  destruct (R.p_payload _ _ _ _ _ HP) as (payload & Henc & Hpay). unfold decryptM.
  rewrite run_bind_assoc, run_get, (HS _ _ Henc), run_ret.
  rewrite len_app, Hrand. pose proof (len_nonneg payload). destruct (Z.ltb_spec (R.RandomHashSize + len payload) R.RandomHashSize); [lia|].
  rewrite run_guard_true. rewrite drop_app_length' by (unfold len in Hrand; lia). cbv zeta.
  assert (Hdata : 0 < len b → R.a_DataSize (Rx.advertised mdu r') = len b).
  { intros Hb. change (R.GetTotalSize r' = len b). unfold R.GetTotalSize. rewrite (R.y_size _ _ _ _ _ _ _ HY).
    destruct (Z.ltb_spec 0 (len b)); [done|lia]. }
  assert (Hwire : len (R.segmentOf k b) <= Z.min (len b) R.AutoCompressMaxSize).
  { unfold R.segmentOf, R.AutoCompressMaxSize. assert (0 < R.MaxEfficientSize) by done. pose proof (len_nonneg b). rewrite <- R.slice_clip.
    destruct (Z.le_gt_cases ((k - 1) * R.MaxEfficientSize) (len b)).
    - rewrite len_slice by nia. nia.
    - unfold slice. rewrite drop_ge by (unfold len in *; lia). rewrite take_nil, len_nil. nia. }
  assert (Hhash : bool_decide (Sha256.Sum256 (R.segmentOf k b ++ R.a_RandomHash (Rx.advertised mdu r')) = R.a_Hash (Rx.advertised mdu r')) = true).
  { apply bool_decide_eq_true. symmetry. exact (R.p_hash _ _ _ _ _ HP). }
  destruct (R.compressed r').
  - destruct Hpay as [Hpay Hless]. assert (Hb : 0 < len b).
    { pose proof (len_nonneg payload). pose proof (len_nonneg b). lia. }
    rewrite (Hdata Hb). change R.AutoCompressMaxSize with R.MaxEfficientSize in *. destruct (Z.leb_spec (len b) 0); [lia|]. rewrite run_bind_assoc, run_guard_true, run_bind_assoc.
    rewrite (R.y_split _ _ _ _ _ _ _ HY), orb_negb_r, run_guard_true.
    rewrite (R.read_compressed _ _ _ Hpay), take_ge by (unfold len in *; lia).
    destruct (Z.ltb_spec (len b) (len (R.segmentOf k b))); [lia|]. rewrite run_bind_assoc, run_guard_true, run_bind_assoc.
    destruct (Z.ltb_spec R.MaxEfficientSize (len (R.segmentOf k b))); [lia|]. by rewrite run_guard_true, run_ret, Hhash, run_guard_true.
  - by rewrite run_ret, Hpay, Hhash, run_guard_true.
Qed.

(** The resource [r'], possibly with parts marked as sent. *)
Definition served (r' out : R.Resource) : Prop := ∃ st parts n, out = R.set_sent parts n (R.set_status st r').

Lemma served_fields r' out : served r' out →
  R.hash out = R.hash r' ∧ R.ExpectedProof out = R.ExpectedProof r' ∧ R.split out = R.split r' ∧ R.segmentIndex out = R.segmentIndex r'
  ∧ R.totalSegments out = R.totalSegments r'.
Proof. by intros (st & parts & n & ->). Qed.

(** The proof of the receiver is the one the sender expects. *)
Lemma proof_accepted now r' out wire es :
  served r' out → outgoingRes es = Some out → len (R.hash r') = 32 → R.ExpectedProof r' = Some (Sha256.Sum256 (wire ++ R.hash r')) →
  R.split r' && (R.segmentIndex r' <? R.totalSegments r') = false →
  handleResourceProof now (R.hash r' ++ Sha256.Sum256 (wire ++ R.hash r')) es = signalOutgoingResourceComplete es.
Proof.
  intros Hserved Ho Hh Hp Hlast. destruct (served_fields r' out Hserved) as (E1 & E2 & E3 & E4 & E5).
  unfold handleResourceProof. rewrite len_app, Hh, Sha256.len_Sum256. change (32 + 32 <? 64) with false. cbv iota.
  rewrite run_get, Ho, E1, E2, E3, E4, E5, Hp, Hlast.
  rewrite take_app_length' by (unfold len in Hh; lia). rewrite bool_decide_eq_true_2 by done. simpl.
  rewrite slice_app_tail by (rewrite Hh, ?Sha256.len_Sum256; done). by rewrite bool_decide_eq_true_2.
Qed.

(** A sender that expects no proof ignores it. *)
Lemma proof_ignored now r' out wire es :
  served r' out → outgoingRes es = Some out → len (R.hash r') = 32 → R.ExpectedProof r' = None →
  handleResourceProof now (R.hash r' ++ Sha256.Sum256 (wire ++ R.hash r')) es = (es, Ok ()).
Proof.
  intros Hserved Ho Hh Hp. destruct (served_fields r' out Hserved) as (E1 & E2 & _).
  unfold handleResourceProof. rewrite len_app, Hh, Sha256.len_Sum256. change (32 + 32 <? 64) with false. cbv iota.
  rewrite run_get, Ho, E1, E2, Hp. by case_match.
Qed.

(** The metadata of a resource, and what the receiver makes of it. *)
Definition carries (meta : option bytes) (r : R.Resource) : Prop :=
  R.packedMeta r = match meta with Some m => R.metaBlob m | None => [] end
  ∧ match meta with Some m => len m <= R.MetadataMaxSize | None => True end.

Lemma carries_flag meta enc rand sdu k b r r' :
  R.packable r → carries meta r → R.ready enc rand sdu k b r r' → R.HasMetadata r' = bool_decide (is_Some meta).
Proof.
  intros [_ Hp] [Hm _] HY. destruct (R.y_meta _ _ _ _ _ _ _ HY) as [E1 E2]. unfold R.HasMetadata. rewrite E1, E2, Hm.
  destruct meta as [m|]; simpl; [by rewrite orb_true_r|]. rewrite orb_false_r.
  destruct (R.metadata r) as [[n o]|] eqn:Em; [|done]. simpl. apply Z.ltb_ge.
  destruct (Z.le_gt_cases n 0) as [|Hn]; [done|]. exfalso. unfold R.packedMeta in Hm.
  destruct (Z.ltb_spec 0 (len (R.metadataPacked r))) as [Hl|Hl]; [rewrite Hm in Hl; by vm_compute in Hl|].
  destruct (Hp ltac:(pose proof (len_nonneg (R.metadataPacked r)); lia) _ eq_refl ltac:(simpl; lia)) as [p Ho]. simpl in Ho. subst o.
  rewrite Em in Hm. destruct (Z.eqb_spec n 0); [lia|]. done.
Qed.

Lemma metaRegion_blob m s : len m <= R.MetadataMaxSize → Split.metaRegion (R.metaBlob m ++ s) = Ok (m, s).
Proof.
  intros Hm. pose proof (len_nonneg m). pose proof (len_nonneg s).
  assert (Hh : R.metaBlob m = be_encode 3 (len m) ++ m).
  { unfold R.metaBlob. cbv zeta. simpl. rewrite !Z.shiftr_div_pow2 by lia. rewrite Z.div_div by lia. done. }
  assert (Hsize : Split.metaSize (R.metaBlob m ++ s) = len m).
  { unfold Split.metaSize. rewrite Hh, <- app_assoc, take_app_length' by (by rewrite be_encode_length).
    apply be_decode_encode_small. unfold R.MetadataMaxSize in Hm. simpl. lia. }
  unfold Split.metaRegion. rewrite Hsize, Hh, !len_app, len_be_encode.
  destruct (Z.ltb_spec (Z.of_nat 3 + len m + len s) 3); [lia|]. destruct (Z.ltb_spec (Z.of_nat 3 + len m + len s) (3 + len m)); [lia|].
  do 2 f_equal.
  - unfold slice. rewrite <- app_assoc, drop_app_length' by (rewrite be_encode_length; done). apply take_app_length'. unfold len. lia.
  - rewrite drop_app_length'; [done|]. rewrite length_app, be_encode_length. unfold len. lia.
Qed.
Definition unpacked (meta : option bytes) : option (gmap bytes value) := meta ≫= unpackResourceMetadata.

End delivery.
End transfer_facts.

(** ** Concrete links *)

(** A link in the clear whose packets leave if [up]. *)
Definition plainCarrier (up : bool) : Carrier := {|
  Lk := ();
  c_active _ := true;
  c_linkID _ := replicate 16 x07;
  c_mtu _ := 500;
  c_mdu _ := 431;
  c_rtt _ := Float64.of_Z 0;
  c_encrypt _ d _ := Some d;
  c_decrypt d _ := Some d;
  c_send _ _ _ l := (l, up);
  Pkt := bytes;
  c_pack _ _ d _ := Some d;
  c_truncatedHash p := take 16 p;
  c_record _ _ l := l;
  c_sendPacket _ l := (l, up);
  c_failed l := l;
  c_teardown _ l := (l, Some true)
|}.
#[local, refine] Instance plainLaws up : CarrierLaws (H:=plainCarrier up) := {| c_closable _ := True |}.
Proof. all: by intros. Defined.
#[local] Instance noCodec : Codec := {|
  marshal _ := None;
  unmarshal _ := None;
  unmarshalRaw _ := None;
  unmarshalBytes _ := None;
  unmarshalAnyMap _ := None;
  unmarshalStrMap _ := None;
  sprint _ := []
|}.
#[local] Instance plainEnv : EngineEnv := {|
  hasDestination := false;
  hasRequestHandlers := false;
  maxRequestSize := None;
  requestHandler _ := None;
  admitResource _ := true;
  resourceCallback := None;
  resourceStartedCallback := false
|}.
#[local] Existing Instance R.demoMsgpack.

Definition plain_engine (up : bool) : Engine (H:=plainCarrier up) :=
  newEngine (H:=plainCarrier up) () AcceptAll Split.demo_mem (Split.start ∅ []) [].
(** With the transfer of the six bytes begun, and with all of its parts. *)
Definition begun (up : bool) : Engine (H:=plainCarrier up) := set_rx (H:=plainCarrier up) (Some Rx.demo_rx) (plain_engine up).
Definition arrived : Rx.incomingResourceAsm :=
  Rx.mkRx (Rx.advertised R.DefaultLinkMDU Rx.demo_out) 90 [Some [x01; x02; x03; x04]; Some [x68; x69]] [None; None] [false; false] ∅
    0 2 1 false 0 4 4 75 0 0 None.
Definition sending : Engine (H:=plainCarrier true) := set_outgoing (H:=plainCarrier true) (Some Rx.demo_out) 0 (Some false) (plain_engine true).

(** A resource is being sent. *)
Definition busy : list (Z * op (H:=plainCarrier true)) := [(1, Send R.demo_resource); (2, Run 0 false)].

Lemma engine_well_formed_witness :
  resSendInflight (H:=plainCarrier true) (run busy (plain_engine true)) = number holdsSlot (tasks (run busy (plain_engine true))).
Proof.
  destruct (@engine_well_formed (plainCarrier true) (plainLaws true) noCodec plainEnv R.storedBzip2 R.demoMsgpack busy () AcceptAll
    Split.demo_mem (Split.start ∅ []) [] I) as (_ & _ & _ & _ & _ & _ & [Hs _] & _); [by intros|exact Hs].
Defined.


Definition stranded : Engine (H:=plainCarrier false) := (sendIncomingResourceReqNext (H:=plainCarrier false) 1 (begun false)).1.
Lemma failed_request_strands_transfer_witness :
  tickIncomingResourceWatchdog (H:=plainCarrier false) 1000000000000 (rxSerial stranded) stranded = (stranded, Ok true).
Proof.
  apply (@failed_request_strands_transfer (plainCarrier false) 1 (begun false) Rx.demo_rx); by vm_compute.
Defined.

End Engine.
