(* ===== verification/LinkStack.v ===== *)
(** * A link with its requests and resources

    The link of [Link.v] as the carrier of [LinkEngine.v], and the dispatch of
    [handleDataPacket] and [processInbound] to the handlers of requests and
    resources: the two halves of [pkg/link] put together.  The link keeps the laws
    of a carrier ([linkLaws]): of all that is used of it only [Teardown] of a link
    whose channels were closed before can panic. *)

From S2P Require Import Prelude.
From S2P Require Import Sha256.
From S2P Require Import Float64.
From S2P Require Import Packet.
From S2P Require Import Crypto.
From S2P Require Import HeaderRewrite.
From S2P Require Import Identity.
From S2P Require Import Resource.
From S2P Require Import SplitResource.
From S2P Require Import Link.
From S2P Require Import LinkSession.
From S2P Require Import LinkLife.
From S2P Require Import LinkEngine.

Module Stack.
Import Engine.
Local Open Scope go_scope.

Section stack.
Context `{X25519.Curve} `{Ed25519.Scheme} `{Link.LinkEnv}.

(** The value of a call whose error is not looked at. *)
Definition value_of {E A} (r : outcome E A) : option A := match r with Ok a => Some a | _ => None end.
Definition succeeds {E A} (r : outcome E A) : bool := match r with Ok _ => true | _ => false end.

(** The link itself carries its requests and resources.  Only [Teardown] can panic:
    [closeOnce] closes channels that may have been closed before. *)
#[global] Instance linkCarrier : Carrier := {|
  Lk := Link.Link;
  c_active := Link.isActive;
  c_linkID := Link.linkID;
  c_mtu := Link.mtu;
  c_mdu := Link.mdu;
  c_rtt := Link.rtt;
  c_encrypt rand data l := value_of (Link.encrypt rand data l);
  c_decrypt data l := value_of (Link.decrypt data l);
  c_send io data ctx l :=
    let r := Link.SendPacketWithContext (io_rand io) (io_now io) data ctx l in (r.1, succeeds r.2);
  Pkt := Packet.packet;
  c_pack ptype ctx data l :=
    match Packet.Pack (Link.linkPacket ptype ctx Link.DestTypeLink (Link.linkID l) data false) with
    | (p, Ok _) => Some p
    | _ => None
    end;
  c_truncatedHash p := default [] (value_of (Packet.TruncatedHash p).2);
  c_record now isData l := if isData : bool then Link.recordOutboundData now l else Link.recordOutbound now l;
  c_sendPacket p l := let r := Link.send p l in (r.1, succeeds r.2);
  c_failed := Link.set_teardownReason Link.StatusFailed;
  c_teardown io l :=
    let r := Link.Teardown (io_rand io) (io_now io) l in
    (r.1, match r.2 with
          | Panic => None
          | _ => Some (negb (bool_decide (Link.st l = Link.StatusClosed)) && succeeds r.2)
          end)
|}.

Context `{Codec} `{Env : EngineEnv} `{Resource.Bzip2Stream} `{Resource.Msgpack}.
Notation M := (goM Engine engine_error).

(** ** Inbound packets *)

(** The handler of a context; [opened] is the payload the link has decrypted. *)
Definition dispatch (now : Z) (pkt : Packet.packet) (ctx : byte) (opened : option bytes) : M () :=
  let data := Packet.Data pkt in
  let plaintext := default [] opened in
  if bool_decide (ctx = Packet.ContextRequest) then handleRequest now plaintext (c_truncatedHash pkt)
  else if bool_decide (ctx = Packet.ContextResponse) then handleResponse now plaintext
  else if bool_decide (ctx = Packet.ContextResourceAdv) then handleResourceAdvertisement now data
  else if bool_decide (ctx = Packet.ContextResourceReq) then handleResourceRequest now data
  else if bool_decide (ctx = Packet.ContextResourceHMU) then handleResourceHashmapUpdate now data
  else if bool_decide (ctx = Packet.ContextResourceICL) then handleResourceCancel now data
  else if bool_decide (ctx = Packet.ContextResourceRCL) then handleResourceReject data
  else if bool_decide (ctx = Packet.ContextResource) then handleResourcePart now plaintext
  else mret ().

(** The handler of the packet, when the link from [l] to [l'] asks for one. *)
Definition handle (now : Z) (pkt : Packet.packet) (l l' : Link.Link) : M () :=
  match list.last (drop (length (Link.effects l)) (Link.effects l')) with
  | Some (Link.Handle ctx opened) => dispatch now pkt ctx opened
  | Some (Link.ResourceProof data) => handleResourceProof now data
  | _ => mret ()
  end.

(** A step [r] of the link [l], carried on.  A step that closes the link has gone
    through [closeOnce], unless it is the failed proof of an initiator: that one
    only drops the assemblies. *)
Definition followUp {A} (l : Link.Link) (r : Link.Link * outcome Link.link_error A) (m : M ()) : M () :=
  let closes := negb (bool_decide (Link.st l = Link.StatusClosed)) && bool_decide (Link.st r.1 = Link.StatusClosed) in
  match r.2 with
  | Ok _ => (if closes then closing else mret ()) ;; m
  | Err _ => (if closes then dropAssemblies else mret ()) ;; fail LinkError
  | Panic => if closes then interrupted else lift Panic
  end.

(** [processInbound] *)
Definition receive (rand : option bytes) (now : Z) (pkt : Packet.packet) : M () := λ e,
  let r := Link.processInbound rand now pkt (lk e) in
  followUp (lk e) r (handle now pkt (lk e) r.1) (set_lk r.1 e).

(** An iteration of the watchdog of the link. *)
Definition watch (rand : option bytes) (now : Z) : M () := λ e,
  let r := Link.watchdogTick rand now (lk e) in followUp (lk e) r (mret ()) (set_lk r.1 e).
End stack.

(** ** Theorems *)

Section theorems.
Context `{X25519.Curve} `{Ed25519.Scheme} `{Link.LinkEnv}.

(** ** What the link promises *)

Lemma encrypt_no_panic rand data l : Link.encrypt rand data l ≠ Panic.
Proof.
  unfold Link.encrypt. destruct (Link.sessionKeys l) as [[key mac]|e|] eqn:E; [|done|].
  - cbn [mbind outcome_bind]. unfold Link.encryptWithKeysInto, Crypto.sealCBC, Crypto.EncryptCBC. destruct rand; [|done]. by case_match.
  - unfold Link.sessionKeys in E. by repeat case_match.
Qed.
Lemma decrypt_no_panic data l : Link.decrypt data l ≠ Panic.
Proof.
  unfold Link.decrypt. destruct (Z.ltb_spec (len data) (Crypto.BlockSize + Crypto.BlockSize + 32)) as [|Hl]; [done|].
  destruct (negb Link.admitCrypto); [done|]. destruct (Link.sessionKeys l) as [[key mac]|e|] eqn:E; [|done|].
  - cbn [mbind outcome_bind]. unfold Link.decryptWithKeys. rewrite (proj2 (Z.ltb_ge _ _) Hl).
    rewrite !go_slice_Ok by (unfold Crypto.BlockSize in *; lia). cbn [mbind outcome_bind]. case_match; [done|].
    unfold Link.crypt. pose proof (Crypto.openCBC_no_panic key (slice 0 (len data - 32) data)). by destruct (Crypto.openCBC _ _).
  - unfold Link.sessionKeys in E. by repeat case_match.
Qed.

Lemma sealed_safe I rand ctx id data : safe I (Link.sealEncryptedHT1Locked rand (Link.linkPacket Packet.PacketTypeData ctx Link.DestTypeLink id [] true) data).
Proof.
  unfold Link.sealEncryptedHT1Locked. apply safe_read. intros l Hl. set (n := Link.encryptedPayloadLen (len data)). set (p0 := Link.linkPacket _ _ _ _ _ _).
  assert (Hn : 0 <= n).
  { unfold n, Link.encryptedPayloadLen, Crypto.BlockSize, Crypto.SHA256Size. pose proof (len_nonneg data). pose proof (Z.mod_pos_bound (len data) 16 ltac:(lia)). lia. }
  destruct (decide (len (Link.linkID l) = Packet.TruncatedHashLength ∧ Packet.HeaderType1Overhead + n <= Packet.MTU)) as [[Hid Hm]|Hno].
  2:{ unfold Packet.PrepareHT1Buffer. autorewrite with goM. destruct (Z.eqb_spec (len (Link.linkID l)) Packet.TruncatedHashLength); autorewrite with goM; [|done].
      destruct (Z.leb_spec (Packet.HeaderType1Overhead + n) Packet.MTU); [naive_solver|]. by autorewrite with goM. }
  destruct (Packet.PrepareHT1Buffer_run p0 (Link.linkID l) n eq_refl Hid Hn Hm) as (rest & Hrest & ->). set (p2 := Packet.invalidateHash _). cbv beta iota.
  pose proof (encrypt_no_panic rand data l). destruct (Link.encrypt rand data l) as [out|e|]; autorewrite with goM; [|done..].
  destruct (Z.eqb_spec (len out) n) as [Ho|]; autorewrite with goM; [|done].
  assert (Hraw : Packet.raw (Packet.fill_payload out p2) = Packet.ht1_header p0 (Link.linkID l) ++ out).
  { eapply Packet.fill_payload_content; [by apply Packet.ht1_header_length| |by rewrite Ho; exact Hrest|reflexivity].
    rewrite <- Ho. unfold Packet.HeaderType1Overhead, Packet.TruncatedHashLength, len. lia. }
  rewrite Packet.CommitPacked_run; rewrite ?Hraw; [done|done|].
  rewrite len_app. unfold len at 1. rewrite Packet.ht1_header_length by done. rewrite Ho. exact Hm.
Qed.

(** Sending never panics, so the carrier hides none of it. *)
Lemma SendPacketWithContext_safe I rand now data ctx :
  Life.LifeProp I → safe I (Link.SendPacketWithContext rand now data ctx).
Proof.
  intros HI. unfold Link.SendPacketWithContext. apply safe_bind; [auto with safe|intros l]. apply safe_bind; [auto with safe|intros []]. cbv zeta.
  apply safe_bind; [case_match; [apply Session.packed_safe|apply sealed_safe]|intros p]. apply safe_bind; [|intros []; apply Session.send_safe].
  - apply safe_modify. intros l' Hl'. by eapply Life.life_prop; [|exact Hl'].
  - intros l' Hl'. eapply Life.life_prop; [|exact Hl']. by apply Life.life_emit.
Qed.

#[local] Instance closable_life : Life.LifeProp Life.closable.
Proof. unfold Life.closable. intros l l' [= -> _ _ _ -> -> _ _ _]. done. Qed.

Lemma closeOnce_run reason l : Life.closable l → Link.st l ≠ Link.StatusClosed →
  ∃ l', Link.closeOnce reason l = (l', Ok true) ∧ Link.st l' = Link.StatusClosed.
Proof.
  intros Hc Hs. destruct (Hc Hs) as [Hl Hw]. unfold Link.closeOnce. autorewrite with goM. rewrite bool_decide_eq_false_2 by done.
  autorewrite with goM. rewrite Hl. destruct (Link.watchdogDone l); [..|done]; cbn [Link.closeChan]; autorewrite with goM; by eexists.
Qed.
Lemma sendTeardownPacket_safe s rand now : safe (λ l, Link.st l = s) (Link.sendTeardownPacket rand now).
Proof.
  unfold Link.sendTeardownPacket. apply safe_bind; [auto with safe|intros l]. apply safe_bind; [apply safe_lift, encrypt_no_panic|intros c].
  by apply Session.sendLinkPacket_safe.
Qed.
Lemma teardown_closes rand now l : Life.closable l →
  Link.st (Link.Teardown rand now l).1 = Link.StatusClosed ∧ (Link.Teardown rand now l).2 ≠ Panic.
Proof.
  intros Hc. unfold Link.Teardown. autorewrite with goM. case_bool_decide as Hs; [by autorewrite with goM|].
  destruct (closeOnce_run Link.StatusClosed l Hc Hs) as (l1 & Hr & Hs1). rewrite (run_bind_ok _ _ _ _ _ Hr). cbn [negb]. cbv iota. clear Hr. revert l1 Hs1.
  change (safe (λ l, Link.st l = Link.StatusClosed) (_ ← Link.attempt (Link.sendTeardownPacket rand now); modify Link.unregister ;; modify (Link.emit Link.ClosedCallback))).
  apply safe_bind; [apply Session.attempt_safe, sendTeardownPacket_safe|intros ?]. apply safe_bind; [|intros ?]; apply safe_modify; [|done].
  intros l'. unfold Link.unregister. by case_match.
Qed.

(** The link keeps the laws of a carrier. *)
#[global, refine] Instance linkLaws : CarrierLaws := {| c_closable := Life.closable |}.
Proof.
  - intros io d ctx l Hl. exact (proj1 (SendPacketWithContext_safe Life.closable (io_rand io) (io_now io) d ctx _ l Hl)).
  - intros p l Hl. eapply Life.life_prop; [|exact Hl]. exact (Life.send_steady (Life.life l) p l eq_refl).
  - intros now isData l Hl. eapply Life.life_prop; [|exact Hl]. by destruct isData.
  - intros l Hl. by eapply Life.life_prop; [|exact Hl].
  - intros io l Hl. destruct (teardown_closes (io_rand io) (io_now io) l Hl) as [Hs Hp]. split; [by intros Hn|].
    simpl. by destruct (Link.Teardown _ _ l).2.
Defined.

Lemma hash_of p : Packet.hashValid p = true →
  c_truncatedHash p = if 16 <=? len (Packet.PacketHash p) then take 16 (Packet.PacketHash p) else Packet.PacketHash p.
Proof. intros Hv. simpl. unfold Packet.TruncatedHash, Packet.GetHash. autorewrite with goM. by rewrite Hv. Qed.

(** A packet of the link as the other end reads it: the same contents and the same
    truncated hash. *)
Lemma pack_wire ptype ctx data l :
  b2z ptype < 4 → len (Link.linkID l) = 16 → len data <= 481 →
  ∃ p q, c_pack ptype ctx data l = Some p ∧ HeaderRewrite.parse (Packet.raw p) = Some q
    ∧ Packet.PacketType q = ptype ∧ Packet.Context q = ctx ∧ Packet.Data q = data ∧ c_truncatedHash q = c_truncatedHash p ∧ len (c_truncatedHash p) = 16.
Proof.
  intros Ht Hid Hl. set (p0 := Link.linkPacket ptype ctx Link.DestTypeLink (Link.linkID l) data false).
  assert (Hok : Packet.packet_ok p0 = true) by (by apply Session.linkPacket_ok).
  destruct (Session.packed_run p0 l eq_refl Hok) as (p & q & HP & W). exists p, q.
  destruct (Session.received_link _ _ _ _ _ _ _ W) as (Q1 & Q2 & Q3 & _ & Q5).
  pose proof Hok as Hpk. unfold Packet.packet_ok in Hpk. rewrite !andb_true_iff in Hpk. destruct Hpk as [[[Hpk _] _] _].
  destruct (Packet.Pack_run p0 eq_refl Hpk) as (b & Hb & HR).
  assert (Ep : p = Packet.packed b p0). { unfold Link.packed in HP. rewrite HR in HP. by injection HP. }
  split_and!; try done.
  1:{ change (match Packet.Pack p0 with (p, Ok _) => Some p | _ => None end = Some p). by rewrite HR, Ep. }
  2:{ rewrite hash_of by (by rewrite Ep). rewrite Ep. change (Packet.PacketHash (Packet.packed b p0)) with (Sha256.Sum256 (Packet.preimage (Packet.HeaderType p0) (Packet.wire p0))).
    rewrite Sha256.len_Sum256. change (16 <=? 32) with true. cbv iota. by rewrite len_take, Sha256.len_Sum256. }
  - destruct W as (W1 & _ & _ & W4 & _). apply HeaderRewrite.parse_Some in Q5 as (f & h & tid & dh & c & d & Er & _ & _ & Eq).
    assert (Hht : Packet.headerTypeOf f = Packet.HeaderType p0).
    { transitivity (Packet.HeaderType q); [by rewrite Eq|]. unfold Packet.flag_fields in W4. by injection W4. }
    rewrite !hash_of by (rewrite ?Eq, ?Ep; done).
    assert (Eh : Packet.PacketHash q = Packet.PacketHash p).
    { rewrite Eq, Ep. change (Packet.PacketHash (Packet.packed b p0)) with (Sha256.Sum256 (Packet.preimage (Packet.HeaderType p0) (Packet.wire p0))).
      change (Packet.PacketHash (Packet.unpacked f h tid dh c d (Packet.packet_of_raw (Packet.raw (Packet.packed b p0)))))
        with (Sha256.Sum256 (Packet.preimage (Packet.headerTypeOf f) (Packet.raw (Packet.packet_of_raw (Packet.raw (Packet.packed b p0)))))).
      rewrite Packet.raw_packet_of_raw, Hht, <- Ep, W1. done. }
    by rewrite Eh.
Qed.

(** ** A request and its response *)

(** A limit on the size of requests. *)
Definition accepts (n : Z) (limit : option Z) : Prop :=
  match limit with Some maxSize => maxSize <? n | None => false end = false.

(** A request or a response is handed to its handler, decrypted. *)
Lemma handled_run rand now pkt l keys data :
  Link.st l = Link.StatusActive → Link.sessionKeys l = Ok keys → Link.hasSessionKeys l = true →
  Packet.PacketType pkt = Packet.PacketTypeData →
  Packet.Context pkt = Packet.ContextRequest ∨ Packet.Context pkt = Packet.ContextResponse →
  Link.decrypt (Packet.Data pkt) l = Ok data →
  (Packet.Context pkt = Packet.ContextRequest → accepts (len data) (Link.destination l ≫= Link.d_maxRequest)) →
  Link.processInbound rand now pkt l = (Link.emit (Link.Handle (Packet.Context pkt) (Some data)) (Link.recordInbound now true l), Ok ()).
Proof.
  intros Hst Hk Hh Hpt Hctx Hd Hmax. unfold Link.processInbound. rewrite Hpt, bool_decide_eq_true_2 by done. unfold Link.beginInbound.
  autorewrite with goM. rewrite Hst. rewrite bool_decide_eq_false_2 by done. autorewrite with goM.
  assert (Hnk : bool_decide (Packet.Context pkt ≠ Packet.ContextKeepalive) = true) by (by destruct Hctx as [-> | ->]).
  rewrite Hnk. set (l1 := Link.recordInbound now true l). rewrite bool_decide_eq_false_2 by done. autorewrite with goM. cbn [negb].
  assert (E1 : Session.sess l1 = Session.sess l) by reflexivity.
  destruct (Session.sess_fields _ _ E1) as (F1 & _ & _ & _ & _ & F6 & _). destruct (Session.sess_keys _ _ E1) as [Y1 Z1].
  unfold Link.handleDataPacket. autorewrite with goM. unfold Link.isActive. rewrite F1, Hst. autorewrite with goM.
  assert (HO : Link.openPayload pkt l1 = Ok (Some data)).
  { assert (Hd1 : Link.decrypt (Packet.Data pkt) l1 = Ok data) by (unfold Link.decrypt in *; by rewrite Y1).
    unfold Link.openPayload. rewrite Z1, Hh. destruct Hctx as [-> | ->].
    - change (bool_decide (Packet.ContextRequest = Packet.ContextResource) || bool_decide (Packet.ContextRequest = Packet.ContextCacheReq)
        || bool_decide (Packet.ContextRequest = Packet.ContextKeepalive) && (len (Packet.Data pkt) <? 64)) with false.
      change (Link.decryptsInternally Packet.ContextRequest) with false. cbv iota zeta. by rewrite Hd1.
    - change (bool_decide (Packet.ContextResponse = Packet.ContextResource) || bool_decide (Packet.ContextResponse = Packet.ContextCacheReq)
        || bool_decide (Packet.ContextResponse = Packet.ContextKeepalive) && (len (Packet.Data pkt) <? 64)) with false.
      change (Link.decryptsInternally Packet.ContextResponse) with false. cbv iota zeta. by rewrite Hd1. }
  destruct Hctx as [E | E]; rewrite E.
  - change (bool_decide (Packet.ContextRequest = Packet.ContextLRRTT)) with false. cbn [andb]. cbv iota. rewrite HO. autorewrite with goM.
    change (bool_decide (Packet.ContextRequest = Packet.ContextNone)) with false.
    change (bool_decide (Packet.ContextRequest = Packet.ContextRequest)) with true. cbv iota. change (default [] (Some data)) with data. rewrite F6.
    specialize (Hmax E). unfold accepts in Hmax. destruct (Link.destination l ≫= Link.d_maxRequest) as [maxSize|]; [rewrite Hmax|]; done.
  - change (bool_decide (Packet.ContextResponse = Packet.ContextLRRTT)) with false. cbn [andb]. cbv iota. rewrite HO. autorewrite with goM. done.
Qed.

(** msgpack: a value that is written is read back with its type. *)
Definition stable `{Codec} (v : value) : Prop := ∀ b, marshal v = Some b → b ≠ [] ∧ unmarshal b = Some v.
Class CodecLaws `{Codec} := {
  int64_stable : ∀ z, stable (VInt Resource.Kint64 z);
  bytes_stable : ∀ b, stable (VBytes b);
  list_stable : ∀ vs, Forall stable vs → stable (VList vs);
  list_raw : ∀ vs b, marshal (VList vs) = Some b → ∃ ps, unmarshalRaw b = Some ps ∧ Forall2 (λ v p, marshal v = Some p) vs ps;
  bytes_read : ∀ x b, marshal (VBytes x) = Some b → unmarshalBytes b = Some x
}.

Section exchange.
Context `{!Session.Online} `{CodecLaws} `{Resource.Bzip2Stream} `{Resource.Msgpack}.

Lemma unpack_request now pathHash d req :
  marshal (VList [VInt Resource.Kint64 now; VBytes pathHash; VBytes d]) = Some req →
  unpackLinkRequest req = Ok (now * Second, pathHash, d).
Proof.
  intros Hm. destruct (list_raw _ _ Hm) as (ps & Hr & HF).
  apply Forall2_cons_inv_l in HF as (p0 & ps1 & E0 & HF & ->). apply Forall2_cons_inv_l in HF as (p1 & ps2 & E1 & HF & ->).
  apply Forall2_cons_inv_l in HF as (p2 & ps3 & E2 & _ & ->).
  unfold unpackLinkRequest. rewrite Hr, (proj2 (int64_stable _ _ E0)). simpl. rewrite (bytes_read _ _ E1).
  destruct (bytes_stable _ _ E2) as [Hne ->]. by destruct p2.
Qed.

Lemma unpack_response id v rsp :
  stable v → marshal (VList [VBytes id; v]) = Some rsp → unmarshal rsp = Some (VList [VBytes id; v]).
Proof. intros Hv Hm. eapply list_stable; [|done]. constructor; [apply bytes_stable|]. constructor; [done|constructor]. Qed.

(** What an end of the link needs in order to send a packet. *)
Definition ready_to_send (iv : bytes) (e : Engine) : Prop :=
  Link.st (lk e) = Link.StatusActive ∧ len (Link.linkID (lk e)) = 16 ∧ len iv = 16 ∧ ∃ ent, entropy e = Some iv :: ent.

Lemma encryptM_run iv data e keys :
  ready_to_send iv e → Link.sessionKeys (lk e) = Ok keys →
  ∃ c, encryptM data e = (set_entropy (list.tail (entropy e)) e, Ok c) ∧ Link.encrypt (Some iv) data (lk e) = Ok c
    ∧ len c = Link.encryptedPayloadLen (len data) ∧ ∀ l, Link.sessionKeys l = Ok keys → Link.decrypt c l = Ok data.
Proof.
  intros (Hst & Hid & Hiv & ent & He) Hk.
  destruct (Session.decrypt_encrypt (lk e) (lk e) keys iv data Hk Hk Hiv Session.online_crypto) as (c & Hc & Hl & _).
  exists c. split_and!; [|done|done|].
  - unfold encryptM, draw. rewrite run_bind_assoc, run_get, He, run_bind_assoc, run_modify, run_ret, run_get. simpl. rewrite He. simpl. by rewrite Hc.
  - intros l Hl'. destruct (Session.decrypt_encrypt (lk e) l keys iv data Hk Hl' Hiv Session.online_crypto) as (c' & Hc' & _ & Hd). congruence.
Qed.

Lemma packM_run t ctx data e p : c_pack t ctx data (lk e) = Some p → packM t ctx data e = (e, Ok p).
Proof. intros Hp. unfold packM. by rewrite run_get, Hp. Qed.
Lemma sendPacket_run p e : sendPacket p e = (set_lk (Link.emit (Link.SendPacket p) (lk e)) e, Ok ()).
Proof.
  unfold sendPacket. rewrite run_get. change (c_sendPacket p (lk e)) with ((Link.send p (lk e)).1, succeeds (Link.send p (lk e)).2).
  by rewrite Session.transmit_run.
Qed.
Lemma attempt_run {A} (m : goM Engine engine_error A) e e' a : m e = (e', Ok a) → attempt m e = (e', Ok (Some a)).
Proof. intros Hm. unfold attempt. by rewrite Hm. Qed.
Lemma register_run q e :
  len (pendingRequests e) < MaxPendingRequests →
  (∀ i r, i ∈ pendingRequests e → receipts e !! i = Some r → q_pathHash r ≠ q_pathHash q) →
  registerPendingRequest q e
  = (set_pending (pendingRequests e ++ [length (receipts e)]) (set_receipts (receipts e ++ [q]) e), Ok (length (receipts e))).
Proof.
  intros Hfew Hpath. unfold registerPendingRequest. rewrite run_get. destruct (Z.leb_spec MaxPendingRequests (len (pendingRequests e))); [lia|].
  rewrite run_guard_true.
  assert (Hex : existsb (λ i, match receipts e !! i with Some p => bool_decide (q_pathHash p = q_pathHash q) | None => false end)
                  (pendingRequests e) = false).
  { apply not_true_iff_false. intros (i & Hi & Hm)%existsb_exists. apply list_elem_of_In in Hi.
    destruct (receipts e !! i) as [r|] eqn:Er; [|done]. apply bool_decide_eq_true in Hm. by eapply Hpath. }
  rewrite Hex, andb_false_r. done.
Qed.

(** The request leaves as one packet, and its receipt waits for the response. *)
Lemma request_run iv now path d timeout size req e keys :
  ready_to_send iv e → Link.sessionKeys (lk e) = Ok keys →
  marshal (VList [VInt Resource.Kint64 (now `div` Second); VBytes (TruncatedHash path); VBytes d]) = Some req →
  len req <= Link.mdu (lk e) → Link.encryptedPayloadLen (len req) <= 481 → len (pendingRequests e) < MaxPendingRequests →
  (∀ i r, i ∈ pendingRequests e → receipts e !! i = Some r → q_pathHash r ≠ TruncatedHash path) →
  ∃ p q e1 timeout', RequestLimited now path (VBytes d) timeout size e = (e1, Ok (length (receipts e)))
    ∧ lk e1 = Link.emit (Link.SendPacket p) (lk e) ∧ HeaderRewrite.parse (Packet.raw p) = Some q
    ∧ Packet.PacketType q = Packet.PacketTypeData ∧ Packet.Context q = Packet.ContextRequest
    ∧ Link.encrypt (Some iv) req (lk e) = Ok (Packet.Data q)
    ∧ (∀ l, Link.sessionKeys l = Ok keys → Link.decrypt (Packet.Data q) l = Ok req) ∧ len (c_truncatedHash q) = 16
    ∧ receipts e1 = receipts e ++ [newReceipt now timeout' size (c_truncatedHash q) (TruncatedHash path)]
    ∧ pendingRequests e1 = pendingRequests e ++ [length (receipts e)].
Proof.
  intros Hready Hk Hm Hmdu Hlen Hfew Hpath. pose proof Hready as (Hst & Hid & Hiv & ent & He).
  assert (Hreq : len req <= 481). { pose proof (len_nonneg req). unfold Link.encryptedPayloadLen in Hlen.
    unfold Crypto.BlockSize, Crypto.SHA256Size in Hlen. pose proof (Z.mod_pos_bound (len req) 16 ltac:(lia)). lia. }
  destruct (pack_wire Packet.PacketTypeData Packet.ContextRequest req (lk e) eq_refl Hid Hreq) as (p1 & _ & Hp1 & _).
  destruct (encryptM_run iv req e keys Hready Hk) as (c & Hc & Henc & Hlc & Hdec).
  destruct (pack_wire Packet.PacketTypeData Packet.ContextRequest c (lk e) eq_refl Hid ltac:(lia)) as (p & q & Hp & Hq & Q1 & Q2 & Q3 & Q4 & Q5).
  set (e1 := set_entropy (list.tail (entropy e)) e) in *.
  unfold RequestLimited. rewrite run_get. change (c_active (lk e)) with (bool_decide (Link.st (lk e) = Link.StatusActive)).
  rewrite Hst, bool_decide_eq_true_2, run_guard_true by done. cbv zeta. rewrite Hm. change (c_mdu (lk e)) with (Link.mdu (lk e)).
  rewrite (proj2 (Z.leb_le _ _) Hmdu). rewrite (run_bind_ok _ _ _ _ _ (packM_run _ _ _ _ _ Hp1)), (run_bind_ok _ _ _ _ _ Hc).
  rewrite (run_bind_ok _ _ _ _ _ (packM_run _ _ _ e1 _ Hp)).
  match goal with |- context [newReceipt now ?t size] => set (t' := t) end.
  rewrite (run_bind_ok _ _ _ _ _ (register_run (newReceipt now t' size (c_truncatedHash p) (TruncatedHash path)) e1 Hfew Hpath)).
  rewrite (run_bind_ok _ _ _ _ _ (attempt_run _ _ _ _ (sendPacket_run p _))).
  exists p, q. eexists _, t'. split; [reflexivity|]. rewrite Q4, Q3. split_and!; done.
Qed.

Lemma receive_run `{Env : EngineEnv} now pkt e keys data :
  Link.st (lk e) = Link.StatusActive → Link.sessionKeys (lk e) = Ok keys → Link.hasSessionKeys (lk e) = true →
  Packet.PacketType pkt = Packet.PacketTypeData →
  Packet.Context pkt = Packet.ContextRequest ∨ Packet.Context pkt = Packet.ContextResponse →
  Link.decrypt (Packet.Data pkt) (lk e) = Ok data →
  (Packet.Context pkt = Packet.ContextRequest → accepts (len data) (Link.destination (lk e) ≫= Link.d_maxRequest)) →
  let l' := Link.emit (Link.Handle (Packet.Context pkt) (Some data)) (Link.recordInbound now true (lk e)) in
  receive None now pkt e = dispatch now pkt (Packet.Context pkt) (Some data) (set_lk l' e) ∧ Session.sess l' = Session.sess (lk e).
Proof.
  intros Hst Hk Hh Hpt Hctx Hd Hmax l'. split; [|reflexivity]. unfold receive.
  rewrite (handled_run None now pkt (lk e) keys data Hst Hk Hh Hpt Hctx Hd Hmax). fold l'. unfold followUp. cbn [fst snd]. cbv zeta iota.
  assert (Hl' : Link.st l' = Link.StatusActive) by exact Hst. rewrite Hl', (bool_decide_eq_false_2 (Link.StatusActive = Link.StatusClosed)) by done.
  rewrite andb_false_r, run_ret. unfold handle. assert (He : Link.effects l' = Link.effects (lk e) ++ [Link.Handle (Packet.Context pkt) (Some data)]) by reflexivity.
  rewrite He, drop_app_length. done.
Qed.

(** The answer leaves as one packet. *)
Lemma respond_run `{Env : EngineEnv} iv now d id at' pathHash v h rsp req e keys :
  ready_to_send iv e → Link.sessionKeys (lk e) = Ok keys → hasDestination = true →
  accepts (len req) maxRequestSize →
  unpackLinkRequest req = Ok (at', pathHash, d) → requestTimestampValid at' now = true → requestHandler pathHash = Some h →
  h d id at' = Respond v → marshal (VList [VBytes id; v]) = Some rsp → len rsp <= Link.mdu (lk e) → Link.encryptedPayloadLen (len rsp) <= 481 →
  ∃ p q e1, handleRequest now req id e = (e1, Ok ())
    ∧ lk e1 = Link.emit (Link.SendPacket p) (Link.recordOutboundData now (lk e)) ∧ HeaderRewrite.parse (Packet.raw p) = Some q
    ∧ Packet.PacketType q = Packet.PacketTypeData ∧ Packet.Context q = Packet.ContextResponse
    ∧ Link.encrypt (Some iv) rsp (lk e) = Ok (Packet.Data q)
    ∧ (∀ l, Link.sessionKeys l = Ok keys → Link.decrypt (Packet.Data q) l = Ok rsp)
    ∧ events e1 = events e ++ [Served pathHash d id].
Proof.
  intros Hready Hk Hdest Hmax Hu Hts Hh Hans Hm Hmdu Hlen. unfold handleRequest. unfold accepts in Hmax. rewrite Hdest, run_guard_true, Hmax, Hu, run_lift_Ok, Hts.
  cbn [negb]. cbv iota. rewrite Hh. unfold notify. rewrite run_modify, Hans. set (e1 := set_events _ e).
  assert (Hready1 : ready_to_send iv e1) by exact Hready. assert (Hk1 : Link.sessionKeys (lk e1) = Ok keys) by exact Hk.
  unfold sendResponse. rewrite Hm, run_get. change (c_mdu (lk e1)) with (Link.mdu (lk e)). rewrite (proj2 (Z.leb_le _ _) Hmdu).
  destruct (encryptM_run iv rsp e1 keys Hready1 Hk1) as (c & Hc & Henc & Hlc & Hdec). rewrite (run_bind_ok _ _ _ _ _ Hc).
  pose proof Hready as (Hst & Hid & _).
  destruct (pack_wire Packet.PacketTypeData Packet.ContextResponse c (lk e) eq_refl Hid ltac:(lia)) as (p & q & Hp & Hq & Q1 & Q2 & Q3 & _).
  set (e2 := set_entropy _ e1). rewrite (run_bind_ok _ _ _ _ _ (packM_run _ _ _ e2 _ Hp)). unfold recordM. rewrite run_modify, sendPacket_run.
  exists p, q. eexists. split; [reflexivity|]. rewrite Q3. split_and!; done.
Qed.

(** The response concludes the receipt, the only one with its identifier. *)
Lemma response_run now rsp id v r e :
  unmarshal rsp = Some (VList [VBytes id; v]) → q_requestID r = id → unconcluded r = true → q_responseCb r = false →
  (0 <? q_maxResponseSize r) && (q_maxResponseSize r <? len (default [] (responseBytes v))) = false →
  ∀ rs ps, receipts e = rs ++ [r] → pendingRequests e = ps ++ [length rs] → length rs ∉ ps →
  (∀ j p, j ∈ ps → rs !! j = Some p → q_requestID p ≠ id) →
  handleResponse now rsp e
  = (set_pending ps (set_receipts (rs ++ [set_response now (responseBytes v) v None r]) e), Ok ()).
Proof.
  intros Hu Hid Hun Hcb Hsize rs ps Hrs Hps Hni Hfresh. unfold handleResponse. rewrite Hu, run_get.
  assert (Hr : receipts e !! length rs = Some r) by (by rewrite Hrs, lookup_app_r, Nat.sub_diag by lia).
  assert (Hmatch : matchRequest id e = Some (length rs)).
  { unfold matchRequest. rewrite Hps. clear Hps. induction ps as [|j ps IH].
    - simpl. rewrite Hr, Hid. by rewrite bool_decide_eq_true_2.
    - simpl. rewrite IH by (set_unfold; naive_solver). destruct (receipts e !! j) as [p|] eqn:Ep; [|done].
      rewrite bool_decide_eq_false_2; [done|]. eapply Hfresh; [by apply elem_of_cons; left|].
      rewrite Hrs in Ep. apply lookup_app_Some in Ep as [|[Hge Hp]]; [done|]. exfalso. apply lookup_lt_Some in Hp as Hlt. simpl in Hlt.
      apply Hni, elem_of_cons. left. lia. }
  rewrite Hmatch, Hr, Hsize. unfold concludeReceipt. rewrite run_get, Hr, Hun. cbn [negb]. cbv iota. unfold updReceipt, removePendingRequest.
  rewrite run_modify, run_modify. cbn [andb]. rewrite run_ret, Hcb. unfold mret, goM_ret. do 2 f_equal.
  - simpl. rewrite Hps. clear -Hni. induction ps as [|j ps IH]; simpl; [by rewrite bool_decide_eq_true_2|].
    rewrite bool_decide_eq_false_2 by (set_unfold; naive_solver). f_equal. apply IH. set_unfold. naive_solver.
  - f_equal. simpl. rewrite Hrs. rewrite alter_app_r_alt, Nat.sub_diag by lia. done.
Qed.

(** C3.  A request over an established link is answered.  The request fits a packet
    and the limits of the destination, fewer than eight requests are pending and
    none of them for this path, the clock of the other end is at most 60 seconds
    behind and 300 seconds ahead, the destination has a handler for the path, and its
    answer survives msgpack, fits a packet and the limit the requester has set.  Then
    exactly one packet leaves, with the request
    encrypted under the keys of the session, and its receipt becomes pending; the
    other end decrypts it, calls the handler of the path with the payload and the
    hash of the packet as identifier, and sends exactly one packet, with the answer
    of the handler encrypted; when that packet comes back, and no other pending
    request has the same identifier, the receipt is concluded with the response,
    nothing more is sent, and no other receipt changes.  The session stays established at both ends. *)
Theorem request_answered (EA EB : EngineEnv) ivA ivB t1 t2 t3 path d v h timeout size req rsp a b :
  Session.linked (lk a) (lk b) → ready_to_send ivA a → ready_to_send ivB b → (∀ i, i ∈ pendingRequests a → is_Some (receipts a !! i)) →
  marshal (VList [VInt Resource.Kint64 (t1 `div` Second); VBytes (TruncatedHash path); VBytes d]) = Some req →
  len req <= Link.mdu (lk a) → Link.encryptedPayloadLen (len req) <= 481 → len (pendingRequests a) < MaxPendingRequests →
  (∀ i r, i ∈ pendingRequests a → receipts a !! i = Some r → q_pathHash r ≠ TruncatedHash path) →
  @hasDestination EB = true → accepts (len req) (@maxRequestSize EB) → accepts (len req) (Link.destination (lk b) ≫= Link.d_maxRequest) →
  requestTimestampValid (t1 `div` Second * Second) t2 = true → @requestHandler EB (TruncatedHash path) = Some h →
  (∀ id, h d id (t1 `div` Second * Second) = Respond v) → stable v →
  (∀ id, len id = 16 → marshal (VList [VBytes id; v]) = Some (rsp id) ∧ len (rsp id) <= Link.mdu (lk b)
         ∧ Link.encryptedPayloadLen (len (rsp id)) <= 481) →
  (0 <? size) && (size <? len (default [] (responseBytes v))) = false →
  ∃ a1 b1 p q p' q',
    RequestLimited t1 path (VBytes d) timeout size a = (a1, Ok (length (receipts a)))
    ∧ Link.effects (lk a1) = Link.effects (lk a) ++ [Link.SendPacket p] ∧ HeaderRewrite.parse (Packet.raw p) = Some q
    ∧ Link.encrypt (Some ivA) req (lk a) = Ok (Packet.Data q)
    ∧ receive (Env:=EB) None t2 q b = (b1, Ok ())
    ∧ events b1 = events b ++ [Served (TruncatedHash path) d (c_truncatedHash q)]
    ∧ Link.effects (lk b1) = Link.effects (lk b) ++ [Link.Handle Packet.ContextRequest (Some req); Link.SendPacket p']
    ∧ HeaderRewrite.parse (Packet.raw p') = Some q' ∧ Link.encrypt (Some ivB) (rsp (c_truncatedHash q)) (lk b) = Ok (Packet.Data q')
    ∧ ((∀ j r, j ∈ pendingRequests a → receipts a !! j = Some r → q_requestID r ≠ c_truncatedHash q) →
       ∃ a2 r, receive (Env:=EA) None t3 q' a1 = (a2, Ok ()) ∧ Session.linked (lk a2) (lk b1)
         ∧ Link.effects (lk a2) = Link.effects (lk a1) ++ [Link.Handle Packet.ContextResponse (Some (rsp (c_truncatedHash q)))]
         ∧ receipts a2 = receipts a ++ [r] ∧ pendingRequests a2 = pendingRequests a
         ∧ q_status r = RActive ∧ q_done r = true ∧ q_response r = responseBytes v ∧ q_responseValue r = v).
Proof.
  intros HL Ha Hb HR Hm Hmdu Hlen Hfew Hpath Hdest Hacc1 Hacc2 Hts Hh Hans Hv Hrsp Hsize.
  pose proof HL as (Sa & Sb & _ & _ & _ & _ & Ka & Kb & keys & Ska & Skb).
  destruct (request_run ivA t1 path d timeout size req a keys Ha Ska Hm Hmdu Hlen Hfew Hpath)
    as (p & q & a1 & t' & HRun & La & Hq & Q1 & Q2 & Q0 & Q3 & Q4 & Ra & Pa).
  destruct (receive_run (Env:=EB) t2 q b keys req Sb Skb Kb Q1 (or_introl Q2) (Q3 _ Skb) (λ _, Hacc2)) as [HB SB].
  set (lb := Link.emit _ _) in HB, SB. rewrite Q2 in HB. set (id := @c_truncatedHash linkCarrier q) in *. destruct (Hrsp id Q4) as (Hm' & Hmdu' & Hlen').
  destruct (respond_run (Env:=EB) ivB t2 d id (t1 `div` Second * Second) (TruncatedHash path) v h (rsp id) req
    (@set_lk linkCarrier lb b) keys) as (p' & q' & b1 & HB1 & Lb & Hq' & Q1' & Q2' & Q0' & Q3' & Ev); try done; [by apply unpack_request|].
  exists a1, b1, p, q, p', q'. split_and!; try done; [by rewrite La|by rewrite HB| |].
  { rewrite Lb. unfold lb. rewrite Q2. simpl. by rewrite <- app_assoc. }
  intros Hfresh.
  assert (Ssa : Session.sess (lk a1) = Session.sess (lk a)) by (by rewrite La).
  destruct (Session.sess_fields _ _ Ssa) as (F1 & _). destruct (Session.sess_keys _ _ Ssa) as [Y1 Z1].
  assert (Ska1 : Link.sessionKeys (lk a1) = Ok keys) by congruence.
  destruct (receive_run (Env:=EA) t3 q' a1 keys (rsp id) ltac:(congruence) Ska1 ltac:(congruence) Q1' (or_intror Q2') (Q3' _ Ska1)
    ltac:(rewrite Q2'; done)) as [HA SA].
  set (la := Link.emit _ _) in HA, SA. rewrite Q2' in HA.
  assert (Hni : length (receipts a) ∉ pendingRequests a).
  { intros [r0 Hr0]%HR. apply lookup_lt_Some in Hr0. lia. }
  pose proof (response_run t3 (rsp id) id v (newReceipt t1 t' size id (TruncatedHash path)) (@set_lk linkCarrier la a1) (unpack_response id v (rsp id) Hv Hm') eq_refl eq_refl eq_refl Hsize
    (receipts a) (pendingRequests a) Ra Pa Hni Hfresh) as HW.
  eexists _, _. split; [rewrite HA; exact HW|]. split_and!; try done; [|unfold la; by rewrite Q2'].
  eapply Session.linked_sess; [exact (eq_trans SA Ssa)| |exact HL]. rewrite Lb. exact SB.
Qed.
End exchange.
End theorems.

(** ** A concrete exchange *)

(** A codec for the messages of an exchange. *)
#[local] Instance demoCodec : Codec := {|
  marshal v :=
    match v with
    | VBytes b => Some (x01 :: b)
    | VInt Resource.Kint64 z => if (0 <=? z) && (z <? 2 ^ 63) then Some (x02 :: be_encode 8 z) else None
    | VList [VInt Resource.Kint64 z; VBytes h; VBytes d] =>
        if (0 <=? z) && (z <? 2 ^ 63) && (len h =? 16) then Some (x03 :: be_encode 8 z ++ h ++ d) else None
    | VList [VBytes h; VBytes d] => if len h =? 16 then Some (x04 :: h ++ d) else None
    | _ => None
    end;
  unmarshal b :=
    match b with
    | x01 :: r => Some (VBytes r)
    | x02 :: r => Some (VInt Resource.Kint64 (be_decode r))
    | x03 :: r => Some (VList [VInt Resource.Kint64 (be_decode (take 8 r)); VBytes (take 16 (drop 8 r)); VBytes (drop 24 r)])
    | x04 :: r => Some (VList [VBytes (take 16 r); VBytes (drop 16 r)])
    | _ => None
    end;
  unmarshalRaw b :=
    match b with
    | x03 :: r => Some [x02 :: take 8 r; x01 :: take 16 (drop 8 r); x01 :: drop 24 r]
    | x04 :: r => Some [x01 :: take 16 r; x01 :: drop 16 r]
    | _ => None
    end;
  unmarshalBytes b := match b with x01 :: r => Some r | _ => None end;
  unmarshalAnyMap _ := None;
  unmarshalStrMap _ := None;
  sprint _ := []
|}.

Lemma cut3 z (h d : bytes) : len h = 16 →
  take 8 (be_encode 8 z ++ h ++ d) = be_encode 8 z ∧ take 16 (drop 8 (be_encode 8 z ++ h ++ d)) = h ∧ drop 24 (be_encode 8 z ++ h ++ d) = d.
Proof.
  intros Hh. assert (Hl : length (be_encode 8 z) = 8%nat) by apply be_encode_length. unfold len in Hh. split_and!.
  - by apply take_app_length'.
  - rewrite drop_app_length' by done. apply take_app_length'. lia.
  - rewrite app_assoc. apply drop_app_length'. rewrite length_app. lia.
Qed.
Lemma cut2 (h d : bytes) : len h = 16 → take 16 (h ++ d) = h ∧ drop 16 (h ++ d) = d.
Proof. unfold len. intros Hh. split; [apply take_app_length'|apply drop_app_length']; lia. Qed.
Lemma int64_range z : (0 <=? z) && (z <? 2 ^ 63) = true → be_decode (be_encode 8 z) = z.
Proof. intros [H1%Z.leb_le H2%Z.ltb_lt]%andb_true_iff. apply be_decode_encode_small. change (256 ^ Z.of_nat 8) with (2 ^ 64). lia. Qed.

(** The lists this codec writes. *)
Lemma written vs b : marshal (VList vs) = Some b →
  (∃ z h d, vs = [VInt Resource.Kint64 z; VBytes h; VBytes d] ∧ (0 <=? z) && (z <? 2 ^ 63) = true ∧ len h = 16
     ∧ b = x03 :: be_encode 8 z ++ h ++ d)
  ∨ ∃ h d, vs = [VBytes h; VBytes d] ∧ len h = 16 ∧ b = x04 :: h ++ d.
Proof.
  intros Hm. simpl in Hm. repeat (case_match; try done); simplify_eq.
  - left. rewrite andb_true_iff, Z.eqb_eq in *. naive_solver.
  - right. rewrite Z.eqb_eq in *. eauto.
Qed.

#[local] Instance demoCodec_laws : CodecLaws.
Proof.
  split.
  - intros z b. simpl. destruct (_ && _) eqn:E; [|done]. intros [= <-]. split; [done|]. do 2 f_equal. by apply int64_range.
  - intros x b. simpl. by intros [= <-].
  - intros vs _ b [(z & h & d & -> & Hz & Hh & ->)|(h & d & -> & Hh & ->)]%written; (split; [done|]).
    + destruct (cut3 z h d Hh) as (E1 & E2 & E3). cbn [unmarshal demoCodec]. rewrite E1, E2, E3, int64_range by done. done.
    + destruct (cut2 h d Hh) as (E1 & E2). cbn [unmarshal demoCodec]. by rewrite E1, E2.
  - intros vs b [(z & h & d & -> & Hz & Hh & ->)|(h & d & -> & Hh & ->)]%written.
    + destruct (cut3 z h d Hh) as (E1 & E2 & E3). cbn [unmarshalRaw demoCodec]. rewrite E1, E2, E3. eexists. split; [done|].
      repeat constructor; [|done..]. simpl. by rewrite Hz.
    + destruct (cut2 h d Hh) as (E1 & E2). cbn [unmarshalRaw demoCodec]. rewrite E1, E2. eexists. split; [done|]. by repeat constructor.
  - intros x b. simpl. by intros [= <-].
Qed.

#[local] Existing Instances X25519.additive Ed25519.hashScheme Session.demo_env Resource.demoMsgpack.
#[local] Instance demoEnv : EngineEnv := {|
  hasDestination := true;
  hasRequestHandlers := true;
  maxRequestSize := None;
  requestHandler _ := Some (λ _ _ _, Respond (VBytes [x6f; x6b]));
  admitResource _ := true;
  resourceCallback := None;
  resourceStartedCallback := false
|}.
Definition demo_end : Engine := newEngine (Link.set_mtumdu 500 431 Session.demo_link) x01 Split.demo_mem (Split.start ∅ []) [Some (replicate 16 x05)].
Definition demo_path : bytes := [x2f; x70].
Definition demo_request : bytes := x03 :: be_encode 8 1000 ++ TruncatedHash demo_path ++ [x68; x69].

Lemma request_answered_witness :
  ∃ a1 b1 q q' a2 r,
    RequestLimited (1000 * Second) demo_path (VBytes [x68; x69]) 0 0 demo_end = (a1, Ok 0%nat)
    ∧ receive None (1001 * Second) q demo_end = (b1, Ok ()) ∧ receive None (1002 * Second) q' a1 = (a2, Ok ())
    ∧ receipts a2 = [r] ∧ q_status r = RActive ∧ q_response r = Some [x6f; x6b].
Proof.
  destruct (@request_answered X25519.additive Ed25519.hashScheme Session.demo_env Session.demo_online demoCodec demoCodec_laws
    Resource.storedBzip2 Resource.demoMsgpack demoEnv demoEnv (replicate 16 x05) (replicate 16 x05) (1000 * Second) (1001 * Second) (1002 * Second)
    demo_path [x68; x69] (VBytes [x6f; x6b]) (λ _ _ _, Respond (VBytes [x6f; x6b])) 0 0 demo_request (λ id, x04 :: id ++ [x6f; x6b]) demo_end demo_end)
    as (a1 & b1 & p & q & p' & q' & HA & _ & _ & _ & HB & _ & _ & _ & _ & HR).
  all: try reflexivity.
  - split_and!; try reflexivity. by eexists.
  - split_and!; try reflexivity. by eexists.
  - split_and!; try reflexivity. by eexists.
  - intros i Hi. by apply elem_of_nil in Hi.
  - vm_compute. discriminate.
  - vm_compute. discriminate.
  - intros i r Hi. by apply elem_of_nil in Hi.
  - apply bytes_stable.
  - intros id Hid. simpl. rewrite Hid. split; [done|]. rewrite len_cons, len_app, Hid. vm_compute. split; discriminate.
  - destruct HR as (a2 & r & HA2 & _ & _ & R1 & _ & R2 & _ & R3 & _); [intros j r Hj; by apply elem_of_nil in Hj|].
    exists a1, b1, q, q', a2, r. split_and!; done.
Defined.
End Stack.
